(* ===== verification/_CoqProject ===== *)
-Q . S2P
Prelude.v
SchedHeap.v
SchedTask.v
SchedApi.v
SchedProd.v
SchedProdSpec.v
SchedMock.v
SchedMockSpec.v
SchedPostTask.v
SchedPostTaskSpec.v
JsValue.v
PropertyPayload.v
StyleDiagnostics.v
PropertyPayloadSpec.v
DomHost.v
DomPayload.v
DomTree.v
DomCommit.v
DomCommitSpec.v
DomTreeSpec.v
DomHtmlReset.v
DomHtmlResetSpec.v
DomDemo.v
DomContent.v
DomContentSpec.v
DomContentDemo.v
HostContext.v
HostContextSpec.v
RootMarkers.v
ComponentTree.v
TreeTargets.v
TreeProps.v
ComponentTreeSpec.v
TreePublishSpec.v
TreeDemo.v
HydrationMarkers.v
HydrationMarkersSpec.v
RefCallbacks.v
RefCallbacksSpec.v
RefCallbacksDemo.v
HydrationDemo.v
Events.v
ListenerRegistry.v
RootListeners.v
RootListenersSpec.v
ListenersInvariant.v
EventDemo.v
RootBridge.v
RootBridgeSpec.v
RootBridgeDemo.v
EventExtract.v
EventDispatch.v
EventExtractSpec.v
EventDispatchSpec.v
EventPropagation.v
EventDispatchDemo.v
HydrationReplay.v
HydrationReplaySpec.v
HydrationReplayDemo.v
ReactElement.v
ReactElementSpec.v
ChildrenHelper.v
ChildrenHelperSpec.v
ReactWrappers.v
ReactHooks.v
ReactHooksSpec.v
ReactTransition.v
ReactTransitionSpec.v
