(* ===== verification/Prelude.v ===== *)
(** * Verification of the fast-react JavaScript packages

    This library models the packages under packages/ of the repository that hold the
    program's own logic in JavaScript, and proves what they guarantee.

    ** The modelled parts

    - The scheduler, packages/scheduler/cjs. [SchedHeap] is the binary heap of both queues
      ([push], [peek], [pop]); [SchedTask] the tasks, their store, the two queues and
      [advanceTimers]; [SchedApi] the interface a scheduler offers to user code (class
      [SchedulerApi]) and the interpretation of user programs against it. Three schedulers
      implement the interface: [SchedProd] (scheduler.production.js), with the host's
      messages and timeouts in its state, [SchedMock]
      (scheduler-unstable_mock.production.js), with its clock, log and flush operations, and
      [SchedPostTask] (scheduler-unstable_post_task.production.js), which hands its tasks to
      the browser. [SchedProdSpec], [SchedMockSpec] and [SchedPostTaskSpec] hold their
      theorems.
    - The host property payloads, packages/react-dom/src/dom-host/property-payload.js.
      [JsValue] is the part of the language they rely on: values, strict equality,
      [String(v)], number formatting, property reads with the prototype chain.
      [PropertyPayload] is [diffDomPropertyPayload], from two props objects to a list of
      entries, with its tables, style coercion and controlled-form metadata.
      [StyleDiagnostics] is the private style diff record. [PropertyPayloadSpec] holds the
      theorems.
    - The host mutations, packages/react-dom/src/dom-host/mutation.js and
      packages/react-dom/src/client/dom-container.js. [DomHost] is the interface of the
      host DOM: one operation for each thing the code does with a node. [DomPayload] is the
      validation of payload entries, their application and the rollback records; [DomCommit]
      the transactions over whole payloads, the registries of records and the latest-props
      hand-off; [DomTree] moving, removing and clearing children and setting text;
      [DomHtmlReset] the dangerousHTML and text reset rows. The theorems are in
      [DomCommitSpec], [DomTreeSpec] and [DomHtmlResetSpec], and [DomDemo] has concrete
      hosts at which they are applied.

    - The component tree, packages/react-dom/src/client/component-tree.js, which ties host
      nodes to instance tokens, owners and latest props. [ComponentTree] has the tokens, the
      attachment and detachment of nodes and the lookups, [TreeTargets] event targets,
      dispatch paths, listener lookup and host node records, [TreeProps] the publication of
      latest props from the records of [DomCommit]. [RootMarkers] is
      packages/react-dom/src/client/root-markers.js. The theorems are in [ComponentTreeSpec]
      and [TreePublishSpec], the concrete inputs in [TreeDemo].
    - The hydration markers, packages/react-dom/src/client/hydration-marker-parser.js:
      [HydrationMarkers], [HydrationMarkersSpec] and [HydrationDemo].
    - Callback refs, packages/react-dom/src/client/ref-callback-gate.js. [RefCallbacks] has the
      records of refs to detach and attach, their validation against the component tree, the
      invocation of callback refs and the handles of the cleanups they return. The theorems
      are in [RefCallbacksSpec], the concrete inputs in [RefCallbacksDemo].
    - The event tables and listeners, packages/react-dom/src/events. [Events] has
      event-names.js, event-system-flags.js, event-priorities.js and the wrapper records of
      react-dom-event-listener.js, [ListenerRegistry] listener-registry.js with the class
      [EventHost] of event targets, [RootListeners] the installation, registration and
      reverting of root listeners in root-listeners.js. The theorems are in
      [RootListenersSpec] and [ListenersInvariant], the concrete inputs in [EventDemo].
    - The dispatch of events, events/plugin-event-system.js and events/get-event-target.js.
      [EventExtract] takes a native event to its dispatch record: the target, the names of
      the listener props, the queue of listeners along the dispatch path. [EventDispatch]
      runs the queues of some records: the event object, propagation, [preventDefault],
      [stopImmediatePropagation], caught exceptions and what is reported of them.
      [HydrationReplay] is the part that files an event whose target is not hydrated: its
      path, the boundary that owns it, its place in the replay queue. The theorems are in
      [EventExtractSpec], [EventDispatchSpec] and [HydrationReplaySpec], the concrete inputs
      in [EventDispatchDemo] and [HydrationReplayDemo]. [EventPropagation] is a dispatch with
      the flags of the DOM standard alone, and a simulation between the two.
    - The root bridge, packages/react-dom/src/client/root-bridge.js. [RootBridge] has the
      bridges, owners and handles, the records of create, render and unmount requests, their
      validation and admission, the lifecycle boundaries, the mirror for the native side, the
      side effects of a create request (marking the container and listening, with their
      revert) and the admission of a create-render path; the modelled operations are the
      steps of [bridgeStep]. The theorems are in [RootBridgeSpec], the concrete inputs in
      [RootBridgeDemo].
    - The content of host elements. [DomContent] is packages/react-dom/src/dom-host/text-content.js
      and packages/react-dom/src/client/dom-property-operations.js: the text or markup of
      props and the rows that turn one content into the other. [HostContext] is
      client/dom-namespaces.js, client/dom-host-context.js and shared/create-portal.js. The
      theorems are in [DomContentSpec] and [HostContextSpec], the concrete inputs in
      [DomContentDemo].
    - Hooks, transitions and classes, packages/react. [ReactHooks] is the dispatcher slot,
      the marked dispatchers and the public hooks of hook-dispatcher.js, [ReactTransition]
      the startTransition of transition.js and the classes of component-class.js; the
      theorems are in [ReactHooksSpec] and [ReactTransitionSpec].
    - Elements and children, packages/react. [ReactElement] is element-factory.js and
      element-type.js, [ChildrenHelper] children-helper.js, [ReactWrappers]
      wrapper-object.js, ref-object.js and context-object.js; [ReactElementSpec] and
      [ChildrenHelperSpec] have the theorems, [ReactWrappers] its own.

    The parts meet in [commitDomPropertyUpdate]: it diffs two props objects
    ([PropertyPayload]), validates the entries against the node, snapshots what they will
    change, applies them, and registers the records or rolls back ([DomCommit]); the
    component tree then publishes the latest props of the registered record, or rolls the
    host back ([TreeProps]). Event targets and listeners are looked up in the component tree,
    whose dispatch path and latest props, with the private queues of [ListenerRegistry], give
    the listeners of an event ([EventExtract]); [EventDispatch] runs them, and
    [HydrationReplay] files the same dispatch records under the markers of
    [HydrationMarkers]. The root bridge marks containers with [RootMarkers] and installs
    listeners with [RootListeners], and undoes both. [DomContent] makes its rows from the
    diff of [PropertyPayload] for the transaction of [DomHtmlReset].
    The scheduler and packages/react are independent of the DOM packages.

    ** How the code is represented

    - Mutable module variables are the fields of a state record in the source's names
      ([PState], [MState], [registry], [resets]). Every operation takes the state and
      returns the new one; an exception is a value ([res], [outcome]) that comes with the
      state at the throw.
    - Tasks are mutable objects with aliases: a store by reference. Records that the
      mutation module keeps in WeakMaps are keyed by their identity.
    - User callbacks are finite programs over the scheduler's interface; a callback may
      return or schedule itself, so a work loop may run for ever. The readings of the host
      clock are a parameter.
    - A callback ref, a cleanup and the function of a hook are steps of the world, which may
      call the modelled operations again ([refMove], [hookStep]).
    - DOM nodes are a parameter. What the theorems use of them is stated as the laws of
      [ChannelHost] (reading and writing attributes, properties and styles), [TreeHost]
      (the tree methods), [TextHost] and [ContentHost] (text and markup). Every law is the
      documented behaviour of one host operation or of the few that read the same thing,
      and [DomDemo] has hosts that satisfy them. Every write and call may throw.
    - Objects passed as props are a heap of property lists with getters and a prototype;
      a getter may throw. Strings are sequences of Latin-1 code units; a finite number is
      the decimal that the shortest representation of the double denotes.
    - The packages are modelled in the production build
      ([process.env.NODE_ENV === 'production']); for portal keys and the warnings of
      component classes the build is an argument. A child of an element is a tree of the
      inductive type [node]: plain values, elements, portals, arrays, iterables, lazy types
      and thenables, each object with its reference; a thenable has in its place in the tree
      what its promise settles with, and in the state its status, and whether its [value] and
      its [reason] hold that; functions that the traversal calls
      (a callback, an iterator's step, a lazy initializer) are steps over a state that holds
      the thenables and the user's world.
    - A listener is a finite program that may call the event's methods, read the event,
      change native events and its own state, return or throw; the native methods are
      parameters. A posted task of the browser is an entry of a list from which a step
      relation takes any one.
    - Private properties of nodes (tokens, latest props, root markers, listener sets) are
      finite maps from nodes. Listener functions, tokens and records are numbers, as only
      their identity matters.
    - Error messages are left out, error codes are kept; so are the constant metadata
      fields of diagnostic records, and [Object.freeze].

    ** Fuel

    Loops without a structural bound take fuel, and [None] is fuel that ran out. For each
    there is a theorem that enough fuel gives a result: [performWork_returns] (more than
    the number of queued tasks, when callbacks neither schedule nor continue),
    [flushAll_sorted] for the mock's flush, [appendChild_keeps_forest] and
    [insertBefore_keeps_forest] for the walk of [isAncestorOf] to the root (more than the
    depth of the parent), and [clearContainer_clears] for the clearing loop (the number of
    children). [advanceTimers] and the sift loops of the heap are given the length of
    the queue, which [advanceTimers_spec] and [heap_refines_pq] show to be enough. The walks
    of the component tree need more than the length of the parent chain
    ([dispatch_path_spec]) or the height of the subtree ([detach_subtree_spec]), the scan for
    hydration markers more than the number of nodes below the container
    ([hydration_scan_counts]), and the search for a target, and so the replay queue, that
    number and the length of the target's parent chain ([target_path_spec],
    [replay_queue_orders]).

    ** The theorems

    - Scheduler. The heap is a priority queue ([heap_refines_pq]). In every reachable state
      of the production scheduler no queued task or timer lacks a host event that will run
      it ([no_stranded_work]); the work loop takes the task that expires first
      ([work_loop_order], and [mock_loop_order] for the mock); [schedule_spec] and
      [advanceTimers_spec] describe the operations on every branch; cancelled tasks never
      run, and the priority level is restored also when user code throws. Mock flushes are
      exclusive, drain the queue and run logging tasks in sorted order. Three theorems show
      how the mock build loses tasks ([advanceTime_loses_timer], [flush_leaves_host_flag],
      [reset_strands_tasks]). A posted task runs at its priority and leaves the default
      behind whatever it does ([post_task_run]); a cancelled one never runs, nor does a
      continuation of it ([post_task_cancelled]).
    - Payloads. Applying a diff to what the last props render gives what the next props
      render ([diff_patches]); entries write only valid names, strings and admitted HTML;
      the diff is total, is empty for unchanged props, and the style coercions and
      diagnostics are as specified. [diff_inherited_tag] shows a host tag that breaks it.
    - Commits. [commit_renders] composes the two: a commit makes the node render the next
      props, or fails with the host's error and leaves it as it was.
      [failed_commit_restores], [rollback_roundtrip], [latest_props_atomic],
      [latest_props_rollback] and [reset_rows_atomic] are the guarantees of the
      transactions for payloads from anywhere, and [admitted_entries_safe] bounds what such
      payloads can write. [constructor_prop_rejected] shows a prop that cannot be committed.
    - Publishing. [host_update_transaction] composes the diff, the commit and the component
      tree: the node renders the next props and they are its latest props, or everything is
      as before; [handoff_batch_atomic] is the same for a batch.
    - Component tree. Tokens and nodes stay in bijection ([component_tree_bijection]); the
      dispatch path is the mounted chain up to the container root ([dispatch_path_spec]);
      [detach_subtree_spec], [listener_lookup_spec] and [root_marker_roundtrip] specify the
      other operations.
    - Hydration markers. Paths and ids survive printing and parsing
      ([child_path_roundtrip], [marker_id_roundtrip]); the scan ends, counts what it lists
      ([hydration_scan_counts]), and the paths it reports resolve to the nodes it saw
      ([marker_paths_resolve]). [missing_companion_hides_marker] shows a marker it loses.
    - Listeners. In every reachable state keys and listeners agree, each once
      ([listeners_agree]); registering and reverting are inverse
      ([register_revert_roundtrip]), a failed registration undoes itself
      ([failed_registration_restores]), and flags and lanes stay in their widths
      ([listener_flags_bounds]). [revert_strands_shared_document] shows two roots that
      interfere.
    - Dispatch. The queue of an event has the listeners of its path in order
      ([dispatch_queue_spec]); running it calls those that the DOM standard
      would call, with the same effects ([propagation_is_dom]); the listeners of every entry
      are accounted for in their order ([dispatch_accounts]), an exception of one listener
      changes nothing for the others ([listener_errors_isolated]), and the default is prevented when some listener
      prevented it ([default_prevented_spec]). [null_exception_unreported] shows an exception
      that is lost.
    - Replay. The replay queue is made or refused, and its orders are total and lose nothing
      ([replay_queue_orders]), the search for a target ends and finds what is below the root
      ([target_path_spec]), and the owner of a target is the innermost open boundary
      ([boundary_owner_spec]). [form_state_owns_later_siblings] shows markers that are never
      closed.
    - Content. The rows of an accepted content diagnostic, applied to a node that shows the
      previous props, make it show the next ones, and those of a rejected one change nothing
      ([content_update_renders]); host contexts give every element the namespace of its path
      ([host_context_spec]), and a portal has a checked container and key ([portal_spec]).
    - Hooks. In every reachable state a public hook calls the function of the current
      dispatcher when that is marked for its kind and fails without running anything
      otherwise ([marked_dispatcher_serves]); the depth of transitions is how deep their calls
      are nested, whatever throws ([transition_depth_lexical]); a component without an updater
      warns once ([noop_updates_warn_once]).
    - Refs. A cleanup that a callback ref returned is not run again once it has ended, also
      by nested calls, and runs for a detach of the ref that returned it
      ([ended_cleanup_not_rerun], [history_cleanups]), in the place of the call with null
      ([attach_detach_cleanup]). [reentrant_cleanup_runs_twice] shows a cleanup that detaches
      its own ref and so starts again before it has ended.
    - Root bridge. The state of a root sums up the chain of its requests ([root_history]);
      records are admitted by the bridge that made them and no other
      ([own_requests_admitted]); a boundary is active as long as its request is the root's
      last ([boundary_follows_root]); a request is handed over once ([handoff_once]) and the
      numbers of a bridge are unique ([bridge_numbers_unique]); the side effects of a create
      request happen as a whole or not at all and can be undone
      ([side_effects_transaction]). All of this is said of the states that the modelled
      operations reach, when reading the name and the length of a function never throws:
      [callback_getter_strands_root] shows a root that is lost to such a reading, and the
      public facade, which is not modelled, withdraws the request of a render that failed.
    - Elements and children. Elements are well formed ([elements_well_formed]), the classic
      and the automatic runtime agree ([jsx_is_createElement]), [map_spec] and
      [toArray_spec] give the children helpers as functions of the flattened leaves, the
      keys they make are distinct ([toArray_keys_distinct]), thenables resolve
      ([thenable_resolves]) and lazy types load once ([lazy_loads_once]).
    - Trees. The DOM stays a forest, no move makes a cycle, guards reject without effect,
      clearing ends and its record is true, and text is set as specified.

    ** What is not modelled

    The Rust crates and their bindings; the packages' gates, which describe features that
    are blocked (resource and form internals, hydration boundary, act and test renderer
    facades; the controlled inputs); of the callback refs, the attach-detach gate, the
    execution hand-off, the cleanup-return gate, the host output ordering and the error
    routing; of the root bridge, hydrate requests, the public facade (it takes back the record
    of a render that failed, which no step of [bridgeStep] does), the host output of a render
    and its update and cleanup, portals, refs, commit metadata and the facade preflights; the
    development copies of the schedulers and the native build; the private diagnostics of the
    mock and post-task builds, which describe the state; placeholders and entry points; the
    warnings and checks of the development builds; the constant gate records, and the click,
    focus, portal, input-change and synthetic-shape gates of the event system; the currentness
    and readiness reports of hook-dispatcher.js and transition.js, which describe blocked
    features. *)
From stdpp Require Export base tactics numbers option list gmap strings fin_maps sorting.

#[global] Set Default Goal Selector "!".

(** ** Automation *)

Create HintDb fastreact.

(** Case analysis on the boolean tests that the code's guards compute. *)
Ltac case_bool :=
  match goal with
  | |- context [if ?b then _ else _] =>
      match type of b with bool => destruct b eqn:? end
  | H : context [if ?b then _ else _] |- _ =>
      match type of b with bool => destruct b eqn:? end
  end.

(** Turn every boolean comparison of the context into the fact it decides. *)
Ltac bools :=
  repeat match goal with
  | H : (_ && _)%bool = true |- _ => apply andb_true_iff in H; destruct H
  | H : (_ && _)%bool = false |- _ => apply andb_false_iff in H
  | H : (_ || _)%bool = true |- _ => apply orb_true_iff in H
  | H : (_ || _)%bool = false |- _ => apply orb_false_iff in H; destruct H
  | H : negb _ = true |- _ => apply negb_true_iff in H
  | H : negb _ = false |- _ => apply negb_false_iff in H
  | H : (_ <? _)%Z = true |- _ => apply Z.ltb_lt in H
  | H : (_ <? _)%Z = false |- _ => apply Z.ltb_ge in H
  | H : (_ <=? _)%Z = true |- _ => apply Z.leb_le in H
  | H : (_ <=? _)%Z = false |- _ => apply Z.leb_gt in H
  | H : (_ =? _)%Z = true |- _ => apply Z.eqb_eq in H
  | H : (_ =? _)%Z = false |- _ => apply Z.eqb_neq in H
  | H : (_ <? _)%nat = true |- _ => apply Nat.ltb_lt in H
  | H : (_ <? _)%nat = false |- _ => apply Nat.ltb_ge in H
  | H : (_ <=? _)%nat = true |- _ => apply Nat.leb_le in H
  | H : (_ <=? _)%nat = false |- _ => apply Nat.leb_gt in H
  | H : bool_decide _ = true |- _ => apply bool_decide_eq_true in H
  | H : bool_decide _ = false |- _ => apply bool_decide_eq_false in H
  end.

(** Split conjunctions of the context, without naming each part. *)
Ltac splits := repeat match goal with |- _ /\ _ => split end.

(** [o !== null], for an option that stands for a nullable value *)
Definition isSome {A : Type} (o : option A) : bool := match o with Some _ => true | None => false end.

(** ** Lists as JavaScript arrays *)

Section Arrays.
Context {A : Type}.
Implicit Types l h : list A.

(** Exchanging the elements at two indices, the form the heap loops write. *)
Lemma exchange_perm h i j x y :
  h !! i = Some x -> h !! j = Some y -> <[i := y]> (<[j := x]> h) ≡ₚ h.
Proof.
  intros Hi Hj. by apply Permutation_insert_swap.
Qed.

Lemma exchange_lookup h i j x y k :
  h !! i = Some x -> h !! j = Some y ->
  <[i := y]> (<[j := x]> h) !! k =
    if decide (k = i) then Some y else if decide (k = j) then Some x else h !! k.
Proof.
  intros Hi Hj. apply lookup_lt_Some in Hi, Hj.
  repeat case_decide; subst.
  - apply list_lookup_insert_eq. by rewrite length_insert.
  - rewrite list_lookup_insert_ne by done. by apply list_lookup_insert_eq.
  - by rewrite !list_lookup_insert_ne by done.
Qed.

Lemma lookup_prefix h k x : take (length h - 1) h !! k = Some x -> h !! k = Some x.
Proof.
  destruct (decide (k < length h - 1)) as [Hk|Hk].
  - by rewrite lookup_take_lt by lia.
  - rewrite lookup_take_ge by lia. done.
Qed.

Lemma last_split l x : last l = Some x -> l = take (length l - 1) l ++ [x].
Proof.
  intros [l' ->]%last_Some. rewrite length_app. simpl.
  rewrite Nat.add_sub. rewrite take_app_length. done.
Qed.
End Arrays.

#[export] Hint Resolve exchange_perm lookup_prefix : fastreact.

(** ** Filtering with a boolean test *)

Lemma filter_ext_dec {A} (f g : A -> bool) l : (forall x, x ∈ l -> f x = g x) -> List.filter f l = List.filter g l.
Proof. intros H. apply List.filter_ext_in. intros x Hx. apply H. by apply list_elem_of_In. Qed.

Lemma filter_filter {A} (f g : A -> bool) l : List.filter f (List.filter g l) = List.filter (fun x => g x && f x) l.
Proof. induction l as [|x l IH]; simpl; [done|]. destruct (g x); simpl; [destruct (f x)|]; by rewrite IH. Qed.

Lemma filter_all {A} (f : A -> bool) l : (forall x, x ∈ l -> f x = true) -> List.filter f l = l.
Proof.
  induction l as [|x l IH]; intros H; simpl; [done|]. rewrite (H x) by left. f_equal. apply IH.
  intros y Hy. apply H. by right.
Qed.

Lemma filter_none {A} (f : A -> bool) l : (forall x, x ∈ l -> f x = false) -> List.filter f l = [].
Proof.
  induction l as [|x l IH]; intros H; simpl; [done|]. rewrite (H x) by left. apply IH.
  intros y Hy. apply H. by right.
Qed.

(** ** Strings *)

Section Strings.
#[local] Arguments String.append : simpl nomatch.

(** The character [c] does not occur in [s]. *)
Definition notIn (c : Ascii.ascii) (s : string) : Prop := c ∉ String.list_ascii_of_string s.

(** [s] is empty or starts with [c]. *)
Definition startsAt (c : Ascii.ascii) (s : string) : Prop := s = "" \/ exists r, s = String c r.

Lemma string_app_inj_l (p s t : string) : p +:+ s = p +:+ t -> s = t.
Proof. induction p; simpl; [done|]. intros [= H]. auto. Qed.

Lemma string_app_assoc (a b c : string) : (a +:+ b) +:+ c = a +:+ (b +:+ c).
Proof. induction a as [|x a IH]; simpl; [done|]. by rewrite IH. Qed.

Lemma string_app_nil_r (a : string) : a +:+ "" = a.
Proof. induction a as [|x a IH]; simpl; [done|]. by rewrite IH. Qed.

Lemma string_app_length (a b : string) : String.length (a +:+ b) = String.length a + String.length b.
Proof. induction a as [|x a IH]; simpl; [done|]. by rewrite IH. Qed.

Lemma list_ascii_app (a b : string) :
  String.list_ascii_of_string (a +:+ b) = String.list_ascii_of_string a ++ String.list_ascii_of_string b.
Proof. induction a as [|x a IH]; simpl; [done|]. by rewrite IH. Qed.

Lemma notIn_nil c : notIn c "".
Proof. apply not_elem_of_nil. Qed.

Lemma notIn_cons c x s : notIn c (String x s) <-> c <> x /\ notIn c s.
Proof. apply not_elem_of_cons. Qed.

Lemma notIn_app c a b : notIn c (a +:+ b) <-> notIn c a /\ notIn c b.
Proof. unfold notIn. rewrite list_ascii_app, elem_of_app. tauto. Qed.

(** A text splits in one way at the first occurrence of a character. *)
Lemma split_unique c k1 k2 t1 t2 :
  notIn c k1 -> notIn c k2 -> startsAt c t1 -> startsAt c t2 ->
  k1 +:+ t1 = k2 +:+ t2 -> k1 = k2 /\ t1 = t2.
Proof.
  revert k2. induction k1 as [|a k1 IH]; intros [|b k2] H1 H2 Ht1 Ht2; simpl; try done.
  - apply notIn_cons in H2 as [H2 _]. destruct Ht1 as [->|[r ->]]; congruence.
  - apply notIn_cons in H1 as [H1 _]. destruct Ht2 as [->|[r ->]]; congruence.
  - apply notIn_cons in H1 as [_ H1], H2 as [_ H2]. intros [= -> E].
    by destruct (IH k2 H1 H2 Ht1 Ht2 E) as [-> ->].
Qed.
End Strings.
