(* ===== verification/SchedHeap.v ===== *)
(** * The scheduler's binary heap (packages/scheduler/cjs/scheduler.production.js)

    [push], [peek] and [pop] are the array heap the task queue and the timer
    queue share; [compare] orders tasks by sort index, then by id. An array is a
    list updated by index, and the two sift loops carry their index as the code
    does. *)
From S2P Require Import Prelude.

Section Heap.
Context {A : Type} `{!EqDecision A} (compare : A -> A -> Z).
Implicit Types heap h : list A.

(** ** The code *)

(** The loop of [push]: [index] walks towards the root. *)
Fixpoint siftUp (fuel : nat) (heap : list A) (index : nat) (node : A) : list A :=
  match fuel with
  | O => heap
  | S fuel =>
      if (0 <? index)%nat then
        let parentIndex := Nat.div2 (index - 1) in
        match heap !! parentIndex with
        | None => heap
        | Some parent =>
            if (0 <? compare parent node)%Z then
              siftUp fuel (<[index := parent]> (<[parentIndex := node]> heap)) parentIndex node
            else heap
        end
      else heap
  end.

Definition push (heap : list A) (node : A) : list A :=
  let index := length heap in
  siftUp index (heap ++ [node]) index node.

Definition peek (heap : list A) : option A :=
  match heap with [] => None | first :: _ => Some first end.

(** The loop of [pop]: [last] sinks from the root; [heap] keeps its length. *)
Fixpoint siftDown (fuel : nat) (heap : list A) (index : nat) (last : A) : list A :=
  match fuel with
  | O => heap
  | S fuel =>
      let halfLength := Nat.div2 (length heap) in
      if (index <? halfLength)%nat then
        let leftIndex := (2 * (index + 1) - 1)%nat in
        let rightIndex := (leftIndex + 1)%nat in
        match heap !! leftIndex with
        | None => heap
        | Some leftNode =>
            let right_below x :=
              match heap !! rightIndex with
              | Some rightNode => if (compare rightNode x <? 0)%Z then Some rightNode else None
              | None => None
              end in
            if (compare leftNode last <? 0)%Z then
              match right_below leftNode with
              | Some rightNode =>
                  siftDown fuel (<[rightIndex := last]> (<[index := rightNode]> heap)) rightIndex last
              | None =>
                  siftDown fuel (<[leftIndex := last]> (<[index := leftNode]> heap)) leftIndex last
              end
            else
              match right_below last with
              | Some rightNode =>
                  siftDown fuel (<[rightIndex := last]> (<[index := rightNode]> heap)) rightIndex last
              | None => heap
              end
        end
      else heap
  end.

Definition pop (heap : list A) : option A * list A :=
  match heap with
  | [] => (None, [])
  | first :: _ =>
      let heap' := take (length heap - 1) heap in
      match list.last heap with
      | None => (Some first, heap')
      | Some last =>
          if decide (last = first) then (Some first, heap')
          else (Some first, siftDown (length heap') (<[0 := last]> heap') 0 last)
      end
  end.

(** ** Heap order *)

Definition le (x y : A) : Prop := (compare x y <= 0)%Z.
Definition parent (i : nat) : nat := Nat.div2 (i - 1).

(** Every element is at least the one at its parent index. *)
Definition heapOrdered (h : list A) : Prop :=
  forall i x p, 0 < i -> h !! i = Some x -> h !! parent i = Some p -> le p x.

(** The children of [k] are above the parent of [k]: what keeps a swap at [k] sound. *)
Definition grandOk (h : list A) (k : nat) : Prop :=
  forall i x p, 0 < i -> 0 < k -> parent i = k -> h !! i = Some x ->
    h !! parent k = Some p -> le p x.

(** Heap order but for the edge above [k], respectively the edges below [k]. *)
Definition upOk (h : list A) (k : nat) : Prop :=
  (forall i x p, 0 < i -> i <> k -> h !! i = Some x -> h !! parent i = Some p -> le p x)
  /\ grandOk h k.
Definition downOk (h : list A) (k : nat) : Prop :=
  (forall i x p, 0 < i -> parent i <> k -> h !! i = Some x -> h !! parent i = Some p -> le p x)
  /\ grandOk h k.

Lemma parent_lt i : 0 < i -> parent i < i.
Proof. unfold parent. rewrite Nat.div2_div. intros. apply Nat.Div0.div_lt_upper_bound; lia. Qed.

Lemma parent_children i k : 0 < i -> parent i = k <-> i = 2 * k + 1 \/ i = 2 * k + 2.
Proof.
  intros Hi. unfold parent. rewrite Nat.div2_div. split.
  - intros <-. pose proof (Nat.div_mod_eq (i - 1) 2).
    pose proof (Nat.mod_upper_bound (i - 1) 2). lia.
  - intros [-> | ->].
    + replace (2 * k + 1 - 1) with (k * 2) by lia. by apply Nat.div_mul.
    + replace (2 * k + 2 - 1) with (1 + k * 2) by lia. by rewrite Nat.div_add by lia.
Qed.

(** ** Order laws of the comparator *)
Context (compare_antisym : forall x y, compare y x = (- compare x y)%Z).
Context (le_trans : forall x y z, le x y -> le y z -> le x z).

Lemma le_refl x : le x x.
Proof. unfold le. pose proof (compare_antisym x x). lia. Qed.
Lemma not_lt_le x y : (0 <? compare x y)%Z = false -> le x y.
Proof. intros. bools. unfold le. lia. Qed.
Lemma lt_le x y : (compare x y <? 0)%Z = true -> le x y.
Proof. intros. bools. unfold le. lia. Qed.
Lemma gt_le x y : (0 <? compare x y)%Z = true -> le y x.
Proof. intros. bools. unfold le. rewrite compare_antisym. lia. Qed.
Lemma ge_le x y : (compare x y <? 0)%Z = false -> le y x.
Proof. intros. bools. unfold le. rewrite compare_antisym. lia. Qed.

Ltac le_solve :=
  eauto using le_refl, not_lt_le, lt_le, gt_le, ge_le.

(** ** Sifting up *)

Lemma up_step h k n p :
  0 < k -> h !! k = Some n -> h !! parent k = Some p -> le n p -> upOk h k ->
  upOk (<[k := p]> (<[parent k := n]> h)) (parent k).
Proof.
  intros Hk Hn Hp Hle [Hedge Hgrand]. pose proof (parent_lt k Hk).
  split.
  - intros i x q Hi Hne Hx Hq.
    rewrite exchange_lookup in Hx, Hq by done.
    destruct (decide (i = k)) as [->|Hik]; [repeat case_decide; simplify_eq; by try lia|].
    rewrite decide_False in Hx by done.
    destruct (decide (parent i = k)) as [Hpk|]; simplify_eq; [by eapply (Hgrand i)|].
    destruct (decide (parent i = parent k)) as [Hpp|]; simplify_eq.
    + apply le_trans with p; [done|]. apply (Hedge i); auto. by rewrite Hpp.
    + by apply (Hedge i).
  - intros i x q Hi Hpos Hpar Hx Hq. pose proof (parent_lt i Hi).
    pose proof (parent_lt (parent k) Hpos).
    rewrite exchange_lookup in Hx, Hq by done.
    repeat case_decide; simplify_eq; try lia.
    + apply (Hedge (parent k)); auto; lia.
    + apply le_trans with p; [apply (Hedge (parent k)); auto; lia|].
      apply (Hedge i); auto. congruence.
Qed.

Lemma up_done h k n :
  h !! k = Some n -> upOk h k ->
  (0 < k -> forall p, h !! parent k = Some p -> le p n) -> heapOrdered h.
Proof.
  intros Hn [Hedge _] Htop i x p Hi Hx Hp.
  destruct (decide (i = k)) as [->|]; [|by apply (Hedge i)].
  simplify_eq. by apply Htop.
Qed.

(** Any fuel of at least the index restores the order and keeps the elements. *)
Lemma siftUp_ok fuel h k n :
  k <= fuel -> h !! k = Some n -> upOk h k ->
  heapOrdered (siftUp fuel h k n) /\ siftUp fuel h k n ≡ₚ h.
Proof.
  revert h k. induction fuel as [|fuel IH]; intros h k Hf Hn Hup; simpl.
  { split; [|done]. apply (up_done h k n); auto. lia. }
  destruct (0 <? k)%nat eqn:Hk; bools; [|split; [|done]; apply (up_done h k n); auto; lia].
  fold (parent k). pose proof (parent_lt k Hk).
  destruct (h !! parent k) as [p|] eqn:Hp; [|split; [|done]; apply (up_done h k n); auto; congruence].
  case_bool.
  - destruct (IH (<[k := p]> (<[parent k := n]> h)) (parent k)) as [Ho Hperm].
    + lia.
    + rewrite exchange_lookup by done. rewrite decide_False by lia. by rewrite decide_True.
    + apply up_step; le_solve.
    + split; [done|]. rewrite Hperm. by apply exchange_perm.
  - split; [|done]. apply (up_done h k n); auto. intros _ p' ?. simplify_eq. le_solve.
Qed.

Lemma heapOrdered_snoc h n : heapOrdered h -> upOk (h ++ [n]) (length h).
Proof.
  intros Ho. split.
  - intros i x p Hi Hne Hx Hp. pose proof (parent_lt i Hi).
    assert (i < length h).
    { apply lookup_lt_Some in Hx. rewrite length_app in Hx. simpl in Hx. lia. }
    rewrite lookup_app_l in Hx, Hp by lia. by apply (Ho i).
  - intros i x p Hi Hk Hpar Hx Hp. pose proof (parent_lt i Hi).
    apply lookup_lt_Some in Hx. rewrite length_app in Hx. simpl in Hx. lia.
Qed.

Lemma push_ok h n : heapOrdered h -> heapOrdered (push h n) /\ push h n ≡ₚ n :: h.
Proof.
  intros Ho. unfold push.
  destruct (siftUp_ok (length h) (h ++ [n]) (length h) n) as [H1 H2]; auto.
  - by apply list_lookup_middle.
  - by apply heapOrdered_snoc.
  - split; [done|]. rewrite H2. symmetry. apply Permutation_cons_append.
Qed.

(** ** Sifting down *)

Lemma down_step h k c n x :
  0 < c -> parent c = k -> h !! k = Some n -> h !! c = Some x -> le x n ->
  (forall i a, 0 < i -> parent i = k -> h !! i = Some a -> le x a) ->
  downOk h k -> downOk (<[c := n]> (<[k := x]> h)) c.
Proof.
  intros Hc Hpc Hn Hx Hle Hmin [Hedge Hgrand]. pose proof (parent_lt c Hc).
  split.
  - intros i a b Hi Hne Ha Hb. pose proof (parent_lt i Hi).
    rewrite exchange_lookup in Ha, Hb by done.
    destruct (decide (i = c)) as [->|]; [repeat case_decide; simplify_eq; by try lia|].
    rewrite (decide_False _ _ Hne) in Hb.
    destruct (decide (i = k)) as [->|].
    + rewrite decide_False in Hb by lia. simplify_eq.
      apply (Hgrand c); auto; lia.
    + destruct (decide (parent i = k)); simplify_eq; [by apply (Hmin i)|by apply (Hedge i)].
  - intros i a b Hi _ Hpar Ha Hb. pose proof (parent_lt i Hi).
    rewrite exchange_lookup in Ha, Hb by done.
    repeat case_decide; simplify_eq; try lia.
    apply (Hedge i); auto; congruence.
Qed.

Lemma down_done h k n :
  h !! k = Some n -> downOk h k ->
  (forall i a, 0 < i -> parent i = k -> h !! i = Some a -> le n a) -> heapOrdered h.
Proof.
  intros Hn [Hedge _] Hbelow i x p Hi Hx Hp.
  destruct (decide (parent i = k)) as [E|]; [|by apply (Hedge i)].
  rewrite E in Hp. simplify_eq. by apply (Hbelow i).
Qed.

(** The guards of one iteration pick a least child, or find that [n] is in place. *)
Lemma children_cases h k (P : A -> Prop) :
  (forall l, h !! (2 * (k + 1) - 1) = Some l -> P l) ->
  (forall r, h !! (2 * (k + 1) - 1 + 1) = Some r -> P r) ->
  forall i a, 0 < i -> parent i = k -> h !! i = Some a -> P a.
Proof.
  intros Hl Hr i a Hi Hpar Ha. apply parent_children in Hpar; [|done].
  destruct Hpar as [-> | ->].
  - apply Hl. rewrite <- Ha. f_equal. lia.
  - apply Hr. rewrite <- Ha. f_equal. lia.
Qed.

Lemma siftDown_ok fuel h k n :
  length h <= fuel + k -> h !! k = Some n -> downOk h k ->
  heapOrdered (siftDown fuel h k n) /\ siftDown fuel h k n ≡ₚ h.
Proof.
  revert h k. induction fuel as [|fuel IH]; intros h k Hf Hn Hdown; simpl.
  { apply lookup_lt_Some in Hn. lia. }
  replace (k + 1 + (k + 1 + 0) - 1) with (2 * (k + 1) - 1) by lia.
  assert (Hout : length h < 2 * (k + 1) -> heapOrdered h).
  { intros Hlen. apply (down_done h k n); auto. intros i a Hi Hpar Ha.
    apply parent_children in Hpar; [|done]. apply lookup_lt_Some in Ha. lia. }
  destruct (k <? Nat.div2 (length h))%nat eqn:Hhalf; bools; rewrite Nat.div2_div in Hhalf.
  2: { split; [|done]. apply Hout. pose proof (Nat.div_mod_eq (length h) 2).
       pose proof (Nat.mod_upper_bound (length h) 2). lia. }
  assert (Hswap : forall c x, 0 < c -> parent c = k -> h !! c = Some x -> le x n ->
    (forall i a, 0 < i -> parent i = k -> h !! i = Some a -> le x a) ->
    let r := siftDown fuel (<[c := n]> (<[k := x]> h)) c n in heapOrdered r /\ r ≡ₚ h).
  { intros c x Hc Hpc Hx Hle Hmin. pose proof (parent_lt c Hc).
    destruct (IH (<[c := n]> (<[k := x]> h)) c) as [H1 H2].
    - rewrite !length_insert. lia.
    - rewrite exchange_lookup by done. by rewrite decide_True.
    - by apply down_step.
    - split; [done|]. rewrite H2. by apply exchange_perm. }
  assert (parent (2 * (k + 1) - 1) = k) by (apply parent_children; lia).
  assert (parent (2 * (k + 1) - 1 + 1) = k) by (apply parent_children; lia).
  destruct (h !! (2 * (k + 1) - 1)) as [l|] eqn:Hl.
  2: { split; [|done]. apply Hout. apply lookup_ge_None in Hl. lia. }
  destruct (compare l n <? 0)%Z eqn:Hln;
    destruct (h !! (2 * (k + 1) - 1 + 1)) as [r|] eqn:Hr; try destruct (compare r _ <? 0)%Z eqn:Hrn.
  all: try (apply Hswap; auto; [lia|le_solve..|apply children_cases; intros; simplify_eq; le_solve]).
  all: try (split; [|done]; apply (down_done h k n); auto; apply children_cases; intros; simplify_eq; le_solve).
Qed.

(** ** The root *)

Lemma root_least h r x : heapOrdered h -> peek h = Some r -> x ∈ h -> le r x.
Proof.
  intros Ho Hr [i Hi]%list_elem_of_lookup.
  assert (H0 : h !! 0 = Some r) by (destruct h; naive_solver).
  revert x Hi. induction (lt_wf i) as [i _ IH]. intros x Hi.
  destruct (decide (i = 0)) as [->|]; [simplify_eq; apply le_refl|].
  assert (Hp : parent i < i) by (apply parent_lt; lia).
  destruct (lookup_lt_is_Some_2 h (parent i)) as [p Hip].
  { apply lookup_lt_Some in Hi. lia. }
  apply le_trans with p; [by apply (IH (parent i))|]. apply (Ho i); auto. lia.
Qed.

Lemma heapOrdered_prefix h : heapOrdered h -> heapOrdered (take (length h - 1) h).
Proof. intros Ho i x p Hi Hx Hp. apply (Ho i); eauto using lookup_prefix. Qed.

Lemma pop_ok h m h' :
  heapOrdered h -> pop h = (Some m, h') ->
  peek h = Some m /\ heapOrdered h' /\ h ≡ₚ m :: h'.
Proof.
  intros Ho. unfold pop. destruct h as [|first rest] eqn:Eh; [done|]. rewrite <- Eh in *.
  destruct (list.last h) as [z|] eqn:Hlast; [|by apply last_None in Hlast; subst].
  pose proof (last_split h z Hlast) as Hsplit.
  assert (Hpeek : peek h = Some first) by by subst.
  pose proof (heapOrdered_prefix h Ho) as Hpre.
  set (h0 := take (length h - 1) h) in *.
  destruct (decide (z = first)) as [->|Hne]; intros [= <- <-].
  { split; [done|]. split; [done|]. rewrite Hsplit at 1. symmetry. apply Permutation_cons_append. }
  assert (Hh0 : exists t, h0 = first :: t).
  { destruct h0 as [|a t] eqn:E; [rewrite Hsplit in Eh; simpl in Eh; congruence|].
    rewrite Hsplit in Eh. simpl in Eh. exists t. congruence. }
  destruct Hh0 as [t Ht]. rewrite Ht in *.
  destruct (siftDown_ok (length (first :: t)) (<[0 := z]> (first :: t)) 0 z) as [H1 H2].
  - rewrite length_insert. lia.
  - done.
  - split.
    + intros i x p Hi Hpar Hx Hp. pose proof (parent_lt i Hi).
      rewrite list_lookup_insert_ne in Hx, Hp by lia. by apply (Hpre i).
    + intros i x p Hi Hk. lia.
  - split; [done|]. split; [done|]. rewrite H2. rewrite Hsplit. simpl.
    by rewrite <- Permutation_cons_append.
Qed.

Lemma pop_none h h' : pop h = (None, h') -> h = [] /\ h' = [].
Proof. destruct h; simpl; [by intros [= <-]|]. by repeat case_match. Qed.
End Heap.
