(* ===== verification/SchedTask.v ===== *)
(** * Tasks and the two scheduler queues (scheduler.production.js)

    A task is a mutable object that user code keeps a reference to, so the model
    has a store of tasks by reference; the queues hold references. A reference is
    allocated by [unstable_scheduleCallback] together with the task's [id] and has
    the same value, and the code's [===] on tasks is equality of references. Times
    are integers (milliseconds). *)
From S2P Require Import Prelude SchedHeap.

Section Tasks.
Context {Cb : Type}.

(** A task's [callback] field: [null], a function, or any other value. *)
Inductive cbvalue : Type :=
| CbNull
| CbFun (c : Cb)
| CbOther.

Record Task := mkTask {
  t_id : Z;
  t_callback : cbvalue;
  t_priorityLevel : Z;
  t_startTime : Z;
  t_expirationTime : Z;
  t_sortIndex : Z }.

Definition set_callback (c : cbvalue) (t : Task) : Task :=
  mkTask (t_id t) c (t_priorityLevel t) (t_startTime t) (t_expirationTime t) (t_sortIndex t).
Definition set_sortIndex (i : Z) (t : Task) : Task :=
  mkTask (t_id t) (t_callback t) (t_priorityLevel t) (t_startTime t) (t_expirationTime t) i.

Record Queues := mkQueues {
  tasks : gmap Z Task;
  taskQueue : list Z;
  timerQueue : list Z;
  taskIdCounter : Z }.

Definition set_tasks (m : gmap Z Task) (q : Queues) : Queues :=
  mkQueues m (taskQueue q) (timerQueue q) (taskIdCounter q).
Definition set_taskQueue (l : list Z) (q : Queues) : Queues :=
  mkQueues (tasks q) l (timerQueue q) (taskIdCounter q).
Definition set_timerQueue (l : list Z) (q : Queues) : Queues :=
  mkQueues (tasks q) (taskQueue q) l (taskIdCounter q).

Definition initQueues : Queues := mkQueues ∅ [] [] 1.

(** The object a reference denotes. Every reference a queue holds is in the store
    ([wf_obj]); the default is never read. *)
Definition noTask : Task := mkTask 0 CbNull 0 0 0 0.
Definition obj (m : gmap Z Task) (r : Z) : Task := default noTask (m !! r).

Definition compare (a b : Task) : Z :=
  let diff := (t_sortIndex a - t_sortIndex b)%Z in
  if (diff =? 0)%Z then (t_id a - t_id b)%Z else diff.
Definition compare_refs (m : gmap Z Task) (a b : Z) : Z := compare (obj m a) (obj m b).

(** The loop of [advanceTimers]; every iteration that goes on pops a timer. *)
Fixpoint advanceTimersLoop (fuel : nat) (currentTime : Z) (q : Queues) : Queues :=
  match fuel with
  | O => q
  | S fuel =>
      match peek (timerQueue q) with
      | None => q
      | Some timer =>
          let popTimer := set_timerQueue (snd (pop (compare_refs (tasks q)) (timerQueue q))) q in
          match t_callback (obj (tasks q) timer) with
          | CbNull => advanceTimersLoop fuel currentTime popTimer
          | _ =>
              if (t_startTime (obj (tasks q) timer) <=? currentTime)%Z then
                let m := alter (fun t => set_sortIndex (t_expirationTime t) t) timer (tasks q) in
                let q1 := set_tasks m popTimer in
                advanceTimersLoop fuel currentTime
                  (set_taskQueue (push (compare_refs m) (taskQueue q1) timer) q1)
              else q
          end
      end
  end.
Definition advanceTimers (currentTime : Z) (q : Queues) : Queues :=
  advanceTimersLoop (length (timerQueue q)) currentTime q.

(** The delay option as [unstable_scheduleCallback] reads it: [None] when [options]
    is no object or its [delay] is no number. *)
Definition startTime_of (currentTime : Z) (delay : option Z) : Z :=
  match delay with
  | Some d => if (0 <? d)%Z then (currentTime + d)%Z else currentTime
  | None => currentTime
  end.

Definition timeout_of (priorityLevel : Z) : Z :=
  match priorityLevel with
  | 1 => -1
  | 2 => 250
  | 5 => 1073741823
  | 4 => 10000
  | _ => 5000
  end%Z.

(** The task object [unstable_scheduleCallback] allocates, before it is queued. *)
Definition newTask (q : Queues) (priorityLevel : Z) (callback : cbvalue) (startTime : Z)
    : Task :=
  mkTask (taskIdCounter q) callback priorityLevel startTime
    (startTime + timeout_of priorityLevel)%Z (-1).
Definition allocTask (t : Task) (q : Queues) : Z * Queues :=
  let r := taskIdCounter q in
  (r, mkQueues (<[r := t]> (tasks q)) (taskQueue q) (timerQueue q) (r + 1)%Z).

Definition pushTimer (r : Z) (q : Queues) : Queues :=
  set_timerQueue (push (compare_refs (tasks q)) (timerQueue q) r) q.
Definition pushTask (r : Z) (q : Queues) : Queues :=
  set_taskQueue (push (compare_refs (tasks q)) (taskQueue q) r) q.
Definition popTask (q : Queues) : Queues :=
  set_taskQueue (snd (pop (compare_refs (tasks q)) (taskQueue q))) q.

Definition unstable_cancelCallback (r : Z) (q : Queues) : Queues :=
  set_tasks (alter (set_callback CbNull) r (tasks q)) q.

Definition unstable_runWithPriority_level (priorityLevel : Z) : Z :=
  match priorityLevel with
  | 1 | 2 | 3 | 4 | 5 => priorityLevel
  | _ => 3
  end%Z.
Definition unstable_next_level (currentPriorityLevel : Z) : Z :=
  match currentPriorityLevel with
  | 1 | 2 | 3 => 3
  | _ => currentPriorityLevel
  end%Z.

(** ** The comparator *)

Lemma compare_antisym a b : compare b a = (- compare a b)%Z.
Proof. unfold compare. repeat case_bool; bools; lia. Qed.
Lemma compare_trans a b c :
  (compare a b <= 0)%Z -> (compare b c <= 0)%Z -> (compare a c <= 0)%Z.
Proof. unfold compare. repeat case_bool; bools; lia. Qed.

Lemma refs_antisym m a b : compare_refs m b a = (- compare_refs m a b)%Z.
Proof. apply compare_antisym. Qed.
Lemma refs_trans m a b c :
  le (compare_refs m) a b -> le (compare_refs m) b c -> le (compare_refs m) a c.
Proof. apply compare_trans. Qed.
#[local] Hint Resolve refs_antisym refs_trans : fastreact.

(** Two references compare by their objects' sort index, then id. *)
Lemma le_refs m a b :
  le (compare_refs m) a b <->
  (t_sortIndex (obj m a) < t_sortIndex (obj m b))%Z \/
  (t_sortIndex (obj m a) = t_sortIndex (obj m b) /\ t_id (obj m a) <= t_id (obj m b))%Z.
Proof. unfold le, compare_refs, compare. case_bool; bools; lia. Qed.

(** Heap order only reads the keys of the elements. *)
Definition sameKeys (m m' : gmap Z Task) (h : list Z) : Prop :=
  forall r, r ∈ h -> t_sortIndex (obj m' r) = t_sortIndex (obj m r)
                     /\ t_id (obj m' r) = t_id (obj m r).

Lemma heapOrdered_sameKeys m m' h :
  sameKeys m m' h -> heapOrdered (compare_refs m) h -> heapOrdered (compare_refs m') h.
Proof.
  intros Hk Ho i x p Hi Hx Hp. specialize (Ho i x p Hi Hx Hp).
  destruct (Hk x); [by eapply list_elem_of_lookup_2|].
  destruct (Hk p); [by eapply list_elem_of_lookup_2|].
  apply le_refs in Ho. apply le_refs. lia.
Qed.

Lemma obj_insert_ne m r r' t : r <> r' -> obj (<[r := t]> m) r' = obj m r'.
Proof. intros. unfold obj. by rewrite lookup_insert_ne. Qed.
Lemma obj_alter_ne m r r' f : r <> r' -> obj (alter f r m) r' = obj m r'.
Proof. intros. unfold obj. by rewrite lookup_alter_ne. Qed.
Lemma obj_alter_keep m r r' f :
  (forall t, t_sortIndex (f t) = t_sortIndex t /\ t_id (f t) = t_id t) ->
  t_sortIndex (obj (alter f r m) r') = t_sortIndex (obj m r')
  /\ t_id (obj (alter f r m) r') = t_id (obj m r').
Proof.
  intros Hf. unfold obj. destruct (decide (r = r')) as [->|].
  - rewrite lookup_alter_eq. destruct (m !! r'); simpl; auto.
  - by rewrite lookup_alter_ne.
Qed.

(** ** Well-formed queues *)

(** Both arrays are heaps of distinct live tasks; a task is keyed by its expiration
    time in the task queue and by its start time in the timer queue. *)
Record wfQueues (q : Queues) : Prop := {
  wf_obj : forall r, r ∈ taskQueue q ++ timerQueue q -> is_Some (tasks q !! r);
  wf_id : forall r t, tasks q !! r = Some t -> t_id t = r /\ (r < taskIdCounter q)%Z;
  wf_nodup : NoDup (taskQueue q ++ timerQueue q);
  wf_task : forall r t, r ∈ taskQueue q -> tasks q !! r = Some t ->
    t_sortIndex t = t_expirationTime t;
  wf_timer : forall r t, r ∈ timerQueue q -> tasks q !! r = Some t ->
    t_sortIndex t = t_startTime t;
  wf_taskHeap : heapOrdered (compare_refs (tasks q)) (taskQueue q);
  wf_timerHeap : heapOrdered (compare_refs (tasks q)) (timerQueue q) }.

Lemma wf_init : wfQueues initQueues.
Proof.
  split; simpl; try (intros; set_solver); try done; try constructor.
Qed.

Lemma wf_lookup q r : wfQueues q -> r ∈ taskQueue q ++ timerQueue q ->
  tasks q !! r = Some (obj (tasks q) r).
Proof. intros Hq [t Ht]%(wf_obj _ Hq). unfold obj. by rewrite Ht. Qed.

Lemma pop_refs m h r h' :
  heapOrdered (compare_refs m) h -> pop (compare_refs m) h = (Some r, h') ->
  peek h = Some r /\ heapOrdered (compare_refs m) h' /\ h ≡ₚ r :: h'.
Proof. intros. eapply pop_ok; eauto with fastreact. Qed.

Lemma push_refs m h r :
  heapOrdered (compare_refs m) h ->
  heapOrdered (compare_refs m) (push (compare_refs m) h r)
  /\ push (compare_refs m) h r ≡ₚ r :: h.
Proof. intros. eapply push_ok; eauto with fastreact. Qed.

(** What peeking and popping a nonempty heap yields. *)
Lemma peek_pop m h r :
  heapOrdered (compare_refs m) h -> peek h = Some r ->
  exists h', pop (compare_refs m) h = (Some r, h')
    /\ heapOrdered (compare_refs m) h' /\ h ≡ₚ r :: h'.
Proof.
  intros Ho Hr. destruct (pop (compare_refs m) h) as [[r'|] h'] eqn:E.
  - destruct (pop_refs _ _ _ _ Ho E) as (E1 & E2 & E3). simplify_eq. eauto.
  - by apply pop_none in E as [-> _].
Qed.

(** ** Every queue operation preserves well-formedness *)

Lemma wf_drop_timer q r l :
  wfQueues q -> timerQueue q ≡ₚ r :: l -> heapOrdered (compare_refs (tasks q)) l ->
  wfQueues (set_timerQueue l q) /\ (r ∉ taskQueue q ++ l) /\ is_Some (tasks q !! r).
Proof.
  intros [Ho Hi Hn Ht Htm Hh1 Hh2] Hp Hl. rewrite Hp in Hn.
  rewrite <- Permutation_middle in Hn.
  apply NoDup_cons in Hn as [Hr Hn].
  assert (Hin : forall x, x ∈ l -> x ∈ timerQueue q) by (intros; rewrite Hp; set_solver).
  splits; [split; simpl; eauto|done|].
  - intros x Hx. apply Ho. set_solver.
  - apply Ho. rewrite Hp. set_solver.
Qed.

Lemma wf_drop_task q r l :
  wfQueues q -> taskQueue q ≡ₚ r :: l -> heapOrdered (compare_refs (tasks q)) l ->
  wfQueues (set_taskQueue l q).
Proof.
  intros [Ho Hi Hn Ht Htm Hh1 Hh2] Hp Hl. rewrite Hp in Hn. simpl in Hn.
  apply NoDup_cons in Hn as [Hr Hn].
  assert (Hin : forall x, x ∈ l -> x ∈ taskQueue q) by (intros; rewrite Hp; set_solver).
  split; simpl; eauto. intros x Hx. apply Ho. set_solver.
Qed.

Lemma wf_pushTask q r t :
  wfQueues q -> r ∉ taskQueue q ++ timerQueue q -> tasks q !! r = Some t ->
  t_sortIndex t = t_expirationTime t -> wfQueues (pushTask r q).
Proof.
  intros [Ho Hi Hn Ht Htm Hh1 Hh2] Hr Hobj Hkey.
  destruct (push_refs (tasks q) (taskQueue q) r Hh1) as [Hh Hp].
  split; simpl; auto.
  - intros x. rewrite Hp. simpl. rewrite elem_of_cons. intros [->|Hx]; eauto.
  - rewrite Hp. simpl. by apply NoDup_cons.
  - intros x u Hx Hu. rewrite Hp in Hx. apply elem_of_cons in Hx as [->|Hx]; [congruence|eauto].
Qed.

Lemma wf_pushTimer q r t :
  wfQueues q -> r ∉ taskQueue q ++ timerQueue q -> tasks q !! r = Some t ->
  t_sortIndex t = t_startTime t -> wfQueues (pushTimer r q).
Proof.
  intros [Ho Hi Hn Ht Htm Hh1 Hh2] Hr Hobj Hkey.
  destruct (push_refs (tasks q) (timerQueue q) r Hh2) as [Hh Hp].
  split; simpl; auto.
  - intros x. rewrite Hp, <- Permutation_middle, elem_of_cons. intros [->|Hx]; eauto.
  - rewrite Hp, <- Permutation_middle. by apply NoDup_cons.
  - intros x u Hx Hu. rewrite Hp in Hx. apply elem_of_cons in Hx as [->|Hx]; [congruence|eauto].
Qed.

(** Changing a task outside the queues, or only fields that are not keys. *)
Lemma wf_alter q r f :
  wfQueues q -> (forall t, t_id (f t) = t_id t) ->
  (r ∉ taskQueue q ++ timerQueue q \/
   forall t, t_sortIndex (f t) = t_sortIndex t /\ t_expirationTime (f t) = t_expirationTime t
             /\ t_startTime (f t) = t_startTime t) ->
  wfQueues (set_tasks (alter f r (tasks q)) q).
Proof.
  intros [Ho Hi Hn Ht Htm Hh1 Hh2] Hid Hf.
  assert (Hsame : forall h, (forall x, x ∈ h -> x ∈ taskQueue q ++ timerQueue q) ->
            sameKeys (tasks q) (alter f r (tasks q)) h).
  { intros h Hin x Hx. destruct Hf as [Hr|Hf].
    - by rewrite obj_alter_ne by (intros ->; by apply Hr, Hin).
    - apply obj_alter_keep. naive_solver. }
  assert (Hkey : forall x u, x ∈ taskQueue q ++ timerQueue q ->
            alter f r (tasks q) !! x = Some u -> exists t, tasks q !! x = Some t /\
              t_sortIndex u = t_sortIndex t /\ t_expirationTime u = t_expirationTime t
              /\ t_startTime u = t_startTime t).
  { intros x u Hx Hu. destruct (decide (r = x)) as [->|].
    - destruct Hf as [|Hf]; [done|]. rewrite lookup_alter_eq in Hu.
      destruct (tasks q !! x) as [t|]; simplify_eq/=. exists t. naive_solver.
    - rewrite lookup_alter_ne in Hu by done. eauto. }
  split; simpl; auto.
  - intros x Hx%Ho. destruct (decide (r = x)) as [->|].
    + rewrite lookup_alter_eq. destruct Hx as [? ->]. simpl. eauto.
    + by rewrite lookup_alter_ne.
  - intros x u Hu. destruct (decide (r = x)) as [->|].
    + rewrite lookup_alter_eq in Hu. destruct (tasks q !! x) eqn:E; simplify_eq/=.
      rewrite Hid. eauto.
    + rewrite lookup_alter_ne in Hu by done. eauto.
  - intros x u Hx Hu. destruct (Hkey x u) as (t & Hl & -> & -> & _); [set_solver|done|eauto].
  - intros x u Hx Hu. destruct (Hkey x u) as (t & Hl & -> & _ & ->); [set_solver|done|eauto].
  - eapply heapOrdered_sameKeys; [|done]. apply Hsame. set_solver.
  - eapply heapOrdered_sameKeys; [|done]. apply Hsame. set_solver.
Qed.

Lemma wf_cancel q r : wfQueues q -> wfQueues (unstable_cancelCallback r q).
Proof. intros. apply wf_alter; auto. Qed.

Lemma wf_fresh q : wfQueues q ->
  tasks q !! taskIdCounter q = None /\ taskIdCounter q ∉ taskQueue q ++ timerQueue q.
Proof.
  intros Hq. assert (E : tasks q !! taskIdCounter q = None).
  { destruct (tasks q !! taskIdCounter q) eqn:E; [|done]. apply (wf_id _ Hq) in E. lia. }
  split; [done|]. intros [t Ht]%(wf_obj _ Hq). congruence.
Qed.

Lemma wf_alloc q t r q' :
  wfQueues q -> t_id t = taskIdCounter q -> allocTask t q = (r, q') ->
  wfQueues q' /\ (r ∉ taskQueue q' ++ timerQueue q') /\ tasks q' !! r = Some t.
Proof.
  intros Hq Hid [= <- <-]. destruct (wf_fresh q Hq) as [Hnone Hout].
  destruct Hq as [Ho Hi Hn Ht Htm Hh1 Hh2].
  assert (Hsame : forall h, (forall x, x ∈ h -> x ∈ taskQueue q ++ timerQueue q) ->
            sameKeys (tasks q) (<[taskIdCounter q := t]> (tasks q)) h).
  { intros h Hin x Hx. by rewrite obj_insert_ne by (intros <-; by apply Hout, Hin). }
  splits; simpl; [split; simpl; auto|done|by rewrite lookup_insert_eq].
  - intros x Hx. rewrite lookup_insert_ne by (intros <-; done). auto.
  - intros x u. rewrite lookup_insert. case_decide; [intros; simplify_eq; lia|].
    intros [? ?]%Hi. lia.
  - intros x u Hx. rewrite lookup_insert_ne by (intros <-; set_solver). eauto.
  - intros x u Hx. rewrite lookup_insert_ne by (intros <-; set_solver). eauto.
  - eapply heapOrdered_sameKeys; [|done]. apply Hsame. set_solver.
  - eapply heapOrdered_sameKeys; [|done]. apply Hsame. set_solver.
Qed.

(** ** advanceTimers *)

Definition isNull (c : cbvalue) : bool := match c with CbNull => true | _ => false end.
Definition due (currentTime : Z) (m : gmap Z Task) (r : Z) : Prop :=
  isNull (t_callback (obj m r)) = false /\ (t_startTime (obj m r) <= currentTime)%Z.

(** The state after popping the first timer and moving it to the task queue. *)
Definition promote (timer : Z) (q : Queues) : Queues :=
  pushTask timer
    (set_tasks (alter (fun t => set_sortIndex (t_expirationTime t) t) timer (tasks q)) q).

Lemma advanceTimersLoop_S fuel now q :
  advanceTimersLoop (S fuel) now q =
  match peek (timerQueue q) with
  | None => q
  | Some timer =>
      let q0 := set_timerQueue (snd (pop (compare_refs (tasks q)) (timerQueue q))) q in
      if isNull (t_callback (obj (tasks q) timer)) then advanceTimersLoop fuel now q0
      else if (t_startTime (obj (tasks q) timer) <=? now)%Z
      then advanceTimersLoop fuel now (promote timer q0) else q
  end.
Proof. simpl. repeat case_match; done. Qed.

(** How one promotion or discard relates the states before and after: the store
    changes at most in the sort index of the timer. *)
Definition sameBut (m m' : gmap Z Task) : Prop :=
  forall r, match m !! r, m' !! r with
            | Some t, Some t' => set_sortIndex 0 t = set_sortIndex 0 t'
            | None, None => True
            | _, _ => False
            end.

#[global] Instance sameBut_refl : Reflexive sameBut.
Proof. intros m r. by destruct (m !! r). Qed.
#[global] Instance sameBut_trans : Transitive sameBut.
Proof.
  intros a b c Hab Hbc r. specialize (Hab r). specialize (Hbc r).
  destruct (a !! r), (b !! r), (c !! r); try done. congruence.
Qed.

Lemma sameBut_fields m m' r : sameBut m m' ->
  t_callback (obj m' r) = t_callback (obj m r)
  /\ t_startTime (obj m' r) = t_startTime (obj m r)
  /\ t_expirationTime (obj m' r) = t_expirationTime (obj m r)
  /\ t_priorityLevel (obj m' r) = t_priorityLevel (obj m r).
Proof.
  intros H. specialize (H r). unfold obj.
  destruct (m !! r) as [[]|], (m' !! r) as [[]|]; try done. simpl in *. by simplify_eq.
Qed.

Lemma due_sameBut now m m' r : sameBut m m' -> due now m' r <-> due now m r.
Proof. intros H. unfold due. destruct (sameBut_fields m m' r H) as (-> & -> & _). done. Qed.

Lemma wf_promote q r :
  wfQueues q -> (r ∉ taskQueue q ++ timerQueue q) -> is_Some (tasks q !! r) ->
  wfQueues (promote r q) /\ taskQueue (promote r q) ≡ₚ r :: taskQueue q
  /\ timerQueue (promote r q) = timerQueue q /\ sameBut (tasks q) (tasks (promote r q))
  /\ taskIdCounter (promote r q) = taskIdCounter q.
Proof.
  intros Hq Hr [t Ht]. unfold promote.
  set (q1 := set_tasks _ q).
  assert (Hq1 : wfQueues q1) by (apply wf_alter; auto).
  splits; [|by apply push_refs, (wf_taskHeap _ Hq1)|done| |done].
  - eapply (wf_pushTask q1); [done|done|simpl; by rewrite lookup_alter_eq, Ht|done].
  - intros x. simpl. rewrite lookup_alter. case_decide; subst; [by rewrite Ht|].
    by destruct (tasks q !! x).
Qed.

(** What [advanceTimers] does, for any fuel that covers the timers. *)
Definition advanced (now : Z) (q q' : Queues) : Prop :=
  wfQueues q' /\ sameBut (tasks q) (tasks q') /\ taskIdCounter q' = taskIdCounter q /\
  (forall r, r ∈ taskQueue q' <-> r ∈ taskQueue q \/ (r ∈ timerQueue q /\ due now (tasks q) r)) /\
  (forall r, r ∈ timerQueue q' -> r ∈ timerQueue q /\ (now < t_startTime (obj (tasks q) r))%Z) /\
  (forall r, r ∈ timerQueue q -> (now < t_startTime (obj (tasks q) r))%Z ->
     isNull (t_callback (obj (tasks q) r)) = false -> r ∈ timerQueue q').

Lemma timer_key q r : wfQueues q -> r ∈ timerQueue q ->
  t_sortIndex (obj (tasks q) r) = t_startTime (obj (tasks q) r).
Proof.
  intros Hq Hr. apply (wf_timer q Hq r); [done|]. apply wf_lookup; [done|set_solver].
Qed.

Lemma first_timer_least q timer r :
  wfQueues q -> peek (timerQueue q) = Some timer -> r ∈ timerQueue q ->
  (t_startTime (obj (tasks q) timer) <= t_startTime (obj (tasks q) r))%Z.
Proof.
  intros Hq Ht Hr.
  assert (timer ∈ timerQueue q) by (destruct (timerQueue q); simplify_eq/=; set_solver).
  rewrite <- !timer_key by done.
  assert (Hle : le (compare_refs (tasks q)) timer r).
  { eapply root_least; eauto with fastreact. apply Hq. }
  apply le_refs in Hle. lia.
Qed.

Lemma advanceTimersLoop_ok fuel now q :
  length (timerQueue q) <= fuel -> wfQueues q ->
  advanced now q (advanceTimersLoop fuel now q).
Proof.
  revert q. induction fuel as [|fuel IH]; intros q Hf Hq.
  { destruct (timerQueue q) eqn:E; simpl in Hf; [|lia].
    unfold advanced. simpl. rewrite E. splits; try done; set_solver. }
  rewrite advanceTimersLoop_S. destruct (peek (timerQueue q)) as [timer|] eqn:Hpk.
  2: { destruct (timerQueue q) eqn:E; [|done]. unfold advanced. rewrite E.
       splits; try done; set_solver. }
  destruct (peek_pop (tasks q) (timerQueue q) timer) as (l & Hpop & Hl & Hperm); auto.
  { apply Hq. }
  rewrite Hpop. simpl.
  assert (Hlen : length l <= fuel) by (apply Permutation_length in Hperm; simpl in *; lia).
  destruct (wf_drop_timer q timer l Hq Hperm Hl) as (Hq0 & Hnotin & Hobj).
  destruct (isNull _) eqn:Hnull; [|case_bool; bools].
  - (* a cancelled timer is dropped *)
    destruct (IH (set_timerQueue l q)) as (A1 & A2 & A3 & A4 & A5 & A6); auto.
    unfold advanced; splits; try done; simpl in *; intros r.
    + rewrite A4, Hperm, elem_of_cons. split; [intros [|[??]]; auto|].
      intros [|[[->|] Hdue]]; [by left| |by right]. destruct Hdue. congruence.
    + intros [??]%A5. rewrite Hperm, elem_of_cons. auto.
    + rewrite Hperm, elem_of_cons. intros [->|] ? ?; [congruence|auto].
  - (* a due timer becomes a task *)
    destruct (wf_promote (set_timerQueue l q) timer) as (B1 & B2 & B3 & B4 & B5); auto.
    destruct (IH (promote timer (set_timerQueue l q))) as (A1 & A2 & A3 & A4 & A5 & A6); auto.
    unfold advanced; splits; try done; simpl in *.
    + etrans; eauto.
    + intros r. rewrite A4, B2, Hperm, (due_sameBut now _ _ r B4).
      rewrite !elem_of_cons. assert (due now (tasks q) timer) by done.
      split; [intros [[->|]|[??]]|intros [|[[->|] ?]]]; auto.
    + intros r [Hr Hlt]%A5. destruct (sameBut_fields _ _ r B4) as (_ & E & _).
      rewrite E in Hlt. rewrite Hperm, elem_of_cons. auto.
    + intros r. destruct (sameBut_fields _ _ r B4) as (E1 & E2 & _).
      rewrite Hperm, elem_of_cons. intros [->|] ? ?; [lia|]. apply A6; congruence.
  - (* the first timer is in the future, hence all are *)
    unfold advanced; splits; try done; intros r.
    + split; [auto|]. intros [|[Hr [_ Hdue]]]; [done|].
      pose proof (first_timer_least q timer r Hq Hpk Hr). lia.
    + intros Hr. pose proof (first_timer_least q timer r Hq Hpk Hr). split; [done|lia].
Qed.

Lemma advanceTimers_advanced now q : wfQueues q -> advanced now q (advanceTimers now q).
Proof. intros. by apply advanceTimersLoop_ok. Qed.

(** The number of queued entries, the measure of the work loops. *)
Definition queued (q : Queues) : nat := length (taskQueue q) + length (timerQueue q).

Lemma queued_popTask q r : wfQueues q -> peek (taskQueue q) = Some r ->
  queued (popTask q) < queued q.
Proof.
  intros Hq Hr. destruct (peek_pop (tasks q) (taskQueue q) r) as (l & Hpop & _ & Hp); auto.
  { apply Hq. }
  unfold queued, popTask. rewrite Hpop. apply Permutation_length in Hp. simpl in *. lia.
Qed.

Lemma queued_advanceLoop fuel now q : wfQueues q ->
  queued (advanceTimersLoop fuel now q) <= queued q.
Proof.
  revert q. induction fuel as [|fuel IH]; intros q Hq; [done|].
  rewrite advanceTimersLoop_S. destruct (peek (timerQueue q)) as [timer|] eqn:Hpk; [|done].
  destruct (peek_pop (tasks q) (timerQueue q) timer) as (l & Hpop & Hl & Hperm); auto.
  { apply Hq. }
  rewrite Hpop. simpl. destruct (wf_drop_timer q timer l Hq Hperm Hl) as (Hq0 & Hnotin & Hobj).
  apply Permutation_length in Hperm. simpl in Hperm.
  case_bool; [|case_bool; [|done]].
  - etrans; [by apply IH|]. unfold queued. simpl. lia.
  - destruct (wf_promote (set_timerQueue l q) timer) as (B1 & B2 & B3 & _); auto.
    etrans; [by apply IH|]. apply Permutation_length in B2.
    unfold queued. rewrite B2, B3. simpl. lia.
Qed.

Lemma queued_advance now q : wfQueues q -> queued (advanceTimers now q) <= queued q.
Proof. apply queued_advanceLoop. Qed.

(** ** Scheduling a task: allocate it, set its key, push it *)

Lemma wf_keyed q t r q1 i :
  wfQueues q -> t_id t = taskIdCounter q -> allocTask t q = (r, q1) ->
  let q2 := set_tasks (alter (set_sortIndex i) r (tasks q1)) q1 in
  wfQueues q2 /\ (r ∉ taskQueue q2 ++ timerQueue q2) /\ tasks q2 !! r = Some (set_sortIndex i t).
Proof.
  intros Hq Hid Ha q2. destruct (wf_alloc q t r q1 Hq Hid Ha) as (H1 & H2 & H3).
  splits; [by apply wf_alter; auto|done|]. simpl. by rewrite lookup_alter_eq, H3.
Qed.

Lemma wf_scheduleTimer q t r q1 :
  wfQueues q -> t_id t = taskIdCounter q -> allocTask t q = (r, q1) ->
  let q2 := set_tasks (alter (set_sortIndex (t_startTime t)) r (tasks q1)) q1 in
  wfQueues (pushTimer r q2) /\ timerQueue (pushTimer r q2) ≡ₚ r :: timerQueue q
  /\ taskQueue (pushTimer r q2) = taskQueue q.
Proof.
  intros Hq Hid Ha q2. destruct (wf_keyed q t r q1 (t_startTime t)) as (H1 & H2 & H3); auto.
  injection Ha as <- <-. splits; [by eapply wf_pushTimer|by apply push_refs, H1|done].
Qed.

Lemma wf_scheduleTask q t r q1 :
  wfQueues q -> t_id t = taskIdCounter q -> allocTask t q = (r, q1) ->
  let q2 := set_tasks (alter (set_sortIndex (t_expirationTime t)) r (tasks q1)) q1 in
  wfQueues (pushTask r q2) /\ taskQueue (pushTask r q2) ≡ₚ r :: taskQueue q
  /\ timerQueue (pushTask r q2) = timerQueue q.
Proof.
  intros Hq Hid Ha q2. destruct (wf_keyed q t r q1 (t_expirationTime t)) as (H1 & H2 & H3); auto.
  injection Ha as <- <-. splits; [by eapply wf_pushTask|by apply push_refs, H1|done].
Qed.

Lemma wf_popTask q r : wfQueues q -> peek (taskQueue q) = Some r ->
  wfQueues (popTask q) /\ taskQueue q ≡ₚ r :: taskQueue (popTask q).
Proof.
  intros Hq Hr. destruct (peek_pop (tasks q) (taskQueue q) r) as (l & Hpop & Hl & Hp); auto.
  { apply Hq. }
  unfold popTask. rewrite Hpop. simpl. split; [by eapply wf_drop_task|done].
Qed.

Lemma peek_None (l : list Z) : peek l = None <-> l = [].
Proof. by destruct l. Qed.

(** The head of the task queue is the task that expires first, then the oldest. *)
Lemma first_task_least q r r' :
  wfQueues q -> peek (taskQueue q) = Some r -> r' ∈ taskQueue q ->
  (t_expirationTime (obj (tasks q) r) < t_expirationTime (obj (tasks q) r'))%Z \/
  (t_expirationTime (obj (tasks q) r) = t_expirationTime (obj (tasks q) r') /\ r <= r')%Z.
Proof.
  intros Hq Hr Hr'.
  assert (Hin : r ∈ taskQueue q) by (destruct (taskQueue q); simplify_eq/=; set_solver).
  assert (Hkey : forall x, x ∈ taskQueue q ->
    t_sortIndex (obj (tasks q) x) = t_expirationTime (obj (tasks q) x) /\ t_id (obj (tasks q) x) = x).
  { intros x Hx. assert (Hl := wf_lookup q x Hq ltac:(set_solver)).
    split; [by eapply wf_task|by apply (wf_id q Hq)]. }
  assert (Hle : le (compare_refs (tasks q)) r r').
  { eapply root_least; eauto using refs_antisym, refs_trans. apply Hq. }
  apply le_refs in Hle. destruct (Hkey r Hin) as [<- E]. destruct (Hkey r' Hr') as [<- E'].
  rewrite E, E' in Hle. lia.
Qed.

Lemma wf_advance now q : wfQueues q -> wfQueues (advanceTimers now q).
Proof. intros. by apply advanceTimers_advanced. Qed.
End Tasks.
#[export] Hint Resolve wf_advance wf_cancel wf_init refs_antisym refs_trans : fastreact.
Arguments cbvalue Cb : clear implicits.
Arguments Task Cb : clear implicits.
Arguments Queues Cb : clear implicits.

(** ** Properties *)

Section Refinement.
Context {Cb : Type} (m : gmap Z (Task Cb)).

(** The abstract priority queue: the references in the order they are to be taken. *)
Fixpoint pqInsert (r : Z) (l : list Z) : list Z :=
  match l with
  | [] => [r]
  | x :: l' => if (compare_refs m x r <=? 0)%Z then x :: pqInsert r l' else r :: l
  end.
Definition pqRel (h l : list Z) : Prop :=
  heapOrdered (compare_refs m) h /\ l ≡ₚ h /\ StronglySorted (le (compare_refs m)) l.

Lemma pqInsert_perm r l : pqInsert r l ≡ₚ r :: l.
Proof.
  induction l as [|x l IH]; simpl; [done|]. case_bool; [|done].
  rewrite IH. apply Permutation_swap.
Qed.

Lemma pqInsert_sorted r l :
  StronglySorted (le (compare_refs m)) l -> StronglySorted (le (compare_refs m)) (pqInsert r l).
Proof.
  induction 1 as [|x l Hs IH Hx]; simpl; [repeat constructor|]. case_bool; bools; constructor; auto.
  - rewrite pqInsert_perm. by constructor.
  - by constructor.
  - assert (Hrx : le (compare_refs m) r x).
    { unfold le. rewrite refs_antisym. lia. }
    constructor; [done|]. eapply Forall_impl; [done|]. intros. by eapply refs_trans.
Qed.

Lemma le_antisym a b : t_id (obj m a) = a -> t_id (obj m b) = b ->
  le (compare_refs m) a b -> le (compare_refs m) b a -> a = b.
Proof. intros Ha Hb H1%le_refs H2%le_refs. lia. Qed.

Lemma pqRel_peek h l : (forall x, x ∈ h -> t_id (obj m x) = x) -> pqRel h l -> peek h = head l.
Proof.
  intros Hid (Ho & Hp & Hs). destruct h as [|a h]; simpl.
  - apply Permutation_nil_r in Hp as ->. done.
  - destruct l as [|b l]; [by apply Permutation_nil_l in Hp|]. simpl. f_equal.
    assert (Hb : b ∈ a :: h) by (rewrite <- Hp; left).
    apply le_antisym; [apply Hid; left|by apply Hid|..].
    + eapply root_least; eauto with fastreact.
    + assert (Ha : a ∈ b :: l) by (rewrite Hp; left).
      apply StronglySorted_inv in Hs as [_ Hall].
      apply elem_of_cons in Ha as [->|Ha]; [apply le_refs; lia|].
      rewrite Forall_forall in Hall. by apply Hall.
Qed.

(** C4: the array heap implements a priority queue. Related to a sorted list of the
    same references, [push] corresponds to sorted insertion, [peek] to reading the
    first element and [pop] to removing it; elements are ordered by sort index and
    then by id. *)
Theorem heap_refines_pq h l r :
  (forall x, x ∈ r :: h -> t_id (obj m x) = x) -> pqRel h l ->
  pqRel (push (compare_refs m) h r) (pqInsert r l)
  /\ peek h = head l
  /\ fst (pop (compare_refs m) h) = head l
  /\ pqRel (snd (pop (compare_refs m) h)) (tail l).
Proof.
  intros Hid Hrel. assert (Hpk : peek h = head l).
  { apply pqRel_peek; [|done]. intros x Hx. apply Hid. by right. }
  destruct Hrel as (Ho & Hp & Hs). destruct (push_refs m h r Ho) as [Ho' Hp'].
  split; [split; [done|]; split; [by rewrite pqInsert_perm, Hp, Hp'|by apply pqInsert_sorted]|].
  split; [done|]. destruct h as [|a h].
  - apply Permutation_nil_r in Hp as ->. repeat split; try done; constructor.
  - simpl in Hpk. destruct l as [|b l]; [done|]. injection Hpk as <-.
    destruct (peek_pop m (a :: h) a Ho eq_refl) as (h' & -> & Hh & Hperm).
    simpl. split; [done|]. split; [done|]. rewrite Hperm in Hp.
    apply (inj (cons a)) in Hp. split; [done|]. by apply StronglySorted_inv in Hs as [? _].
Qed.
End Refinement.

Definition demoTask (id key : Z) : Task unit := mkTask id (CbFun tt) 3 0 key key.
Definition demoTasks : gmap Z (Task unit) :=
  list_to_map [(1, demoTask 1 70); (2, demoTask 2 20); (3, demoTask 3 20); (4, demoTask 4 50)]%Z.

Lemma heap_refines_pq_witness :
  pqRel demoTasks (push (compare_refs demoTasks) [2; 1; 4]%Z 3%Z) [2; 3; 4; 1]%Z
  /\ fst (pop (compare_refs demoTasks) [2; 1; 4]%Z) = Some 2%Z.
Proof.
  assert (Hrel : pqRel demoTasks [2; 1; 4]%Z [2; 4; 1]%Z).
  { split; [|split].
    - intros [|[|[|[|i]]]] x p Hi; simpl; intros; simplify_eq; try lia; by vm_compute.
    - apply (bool_decide_unpack _). by vm_compute.
    - repeat constructor; by vm_compute. }
  destruct (heap_refines_pq demoTasks [2; 1; 4]%Z [2; 4; 1]%Z 3%Z) as (H1 & H2 & H3 & H4).
  - intros x Hx. set_unfold. destruct Hx as [->|[->|[->|[->|[]]]]]; by vm_compute.
  - exact Hrel.
  - split; [exact H1|exact H3].
Defined.

(** [advanceTimers] terminates with every timer that is due and not cancelled moved to
    the task queue, and with only future timers left in the timer queue; no task and no
    pending timer is lost, both arrays stay heaps without duplicates, and no field of a
    task but its sort index changes. *)
Theorem advanceTimers_spec {Cb} now (q : Queues Cb) :
  wfQueues q ->
  let q' := advanceTimers now q in
  wfQueues q'
  /\ (forall r, r ∈ taskQueue q' <-> r ∈ taskQueue q \/ (r ∈ timerQueue q /\ due now (tasks q) r))
  /\ (forall r, r ∈ timerQueue q' -> r ∈ timerQueue q /\ (now < t_startTime (obj (tasks q) r))%Z)
  /\ (forall r, r ∈ timerQueue q -> (now < t_startTime (obj (tasks q) r))%Z ->
        isNull (t_callback (obj (tasks q) r)) = false -> r ∈ timerQueue q')
  /\ sameBut (tasks q) (tasks q').
Proof. intros Hq. destruct (advanceTimers_advanced now q Hq) as (?&?&?&?&?&?). splits; auto. Qed.

(** Task 1 is queued; timers 2 (due at 10) and 3 (due at 90) wait. *)
Definition demoQueues : Queues unit :=
  mkQueues (list_to_map [(1, mkTask 1 (CbFun tt) 3 0 5000 5000); (2, mkTask 2 (CbFun tt) 2 10 260 10);
                         (3, mkTask 3 (CbFun tt) 3 90 5090 90)]%Z) [1]%Z [2; 3]%Z 4.

Lemma wf_demoQueues : wfQueues demoQueues.
Proof.
  split.
  - intros r Hr. simpl in Hr. set_unfold. destruct Hr as [->|[->|[->|[]]]]; eexists; by vm_compute.
  - intros r t. simpl. rewrite !lookup_insert. repeat case_decide; intros; simplify_eq; simpl; try lia.
  - apply (bool_decide_unpack _). by vm_compute.
  - intros r t Hr. simpl in Hr. set_unfold. destruct Hr as [->|[]]. vm_compute. by intros [= <-].
  - intros r t Hr. simpl in Hr. set_unfold.
    destruct Hr as [->|[->|[]]]; vm_compute; by intros [= <-].
  - intros [|[|i]] x p Hi; simpl; intros; simplify_eq; lia.
  - intros [|[|[|i]]] x p Hi; simpl; intros; simplify_eq; try lia; by vm_compute.
Qed.

Lemma advanceTimers_spec_witness :
  taskQueue (advanceTimers 50 demoQueues) = [2; 1]%Z
  /\ timerQueue (advanceTimers 50 demoQueues) = [3]%Z
  /\ wfQueues (advanceTimers 50 demoQueues).
Proof.
  split; [by vm_compute|]. split; [by vm_compute|].
  apply (advanceTimers_spec 50 demoQueues wf_demoQueues).
Defined.
