(* ===== verification/SchedApi.v ===== *)
(** * User code and the scheduler interface

    A scheduler calls user functions, which call the scheduler back. A user function
    is named by a value of [Cb]; what one call of it does is a finite program [prog]
    over the interface below, given by a function [code : Cb -> bool -> prog] (the
    boolean is [didUserCallbackTimeout]). A function may return itself or reschedule
    itself, so the scheduler's own loops need not end.

    [SchedulerApi] is what a scheduler offers to user code; the schedulers of
    packages/scheduler/cjs implement it, and [run] interprets a program against it. *)
From S2P Require Import Prelude SchedHeap SchedTask.

Section Programs.
Context {Cb X : Type}.

(** What a call of a user function returned: [Some] when it is itself a function,
    the value [typeof continuationCallback === 'function'] tests. *)
Inductive outcome : Type :=
| Returned (continuation : option Cb)
| Threw (error : Z).

(** The calls user code makes, in order. [X] holds the operations only one of the
    schedulers has. *)
Inductive prog : Type :=
| PReturn (continuation : option Cb)
| PThrow (error : Z)
| PNow (k : Z -> prog)
| PShouldYield (k : bool -> prog)
| PGetPriority (k : Z -> prog)
| PSchedule (priorityLevel : Z) (callback : cbvalue Cb) (delay : option Z) (k : Z -> prog)
| PCancel (task : Z) (k : prog)
| PRequestPaint (k : prog)
| PRunWithPriority (priorityLevel : Z) (eventHandler : prog) (k : option Cb -> prog)
| PNext (eventHandler : prog) (k : option Cb -> prog)
| PWrapped (parentPriorityLevel : Z) (callback : prog) (k : option Cb -> prog)
| PExt (operation : X) (k : prog).
End Programs.
Arguments outcome Cb : clear implicits.
Arguments prog Cb X : clear implicits.

Class SchedulerApi (Cb X S : Type) := {
  unstable_now : S -> Z * S;
  unstable_shouldYield : S -> bool * S;
  getPriority : S -> Z;
  setPriority : Z -> S -> S;
  (** the level that [unstable_runWithPriority] sets for its argument *)
  runWithPriorityLevel : Z -> Z;
  unstable_scheduleCallback : Z -> cbvalue Cb -> option Z -> S -> Z * S;
  cancelCallback : Z -> S -> S;
  unstable_requestPaint : S -> S;
  (** an operation of this scheduler alone; it may throw *)
  extOperation : X -> S -> option Z * S }.

Section Run.
Context {Cb X S : Type} `{api : !SchedulerApi Cb X S}.

(** [currentPriorityLevel] around a handler: the [finally] of [unstable_next],
    [unstable_runWithPriority] and [unstable_wrapCallback] restores it whether the
    handler returns or throws. *)
Definition withPriority (priorityLevel : Z) (handler : S -> outcome Cb * S) (s : S)
    : outcome Cb * S :=
  let previousPriorityLevel := getPriority s in
  let '(o, s1) := handler (setPriority priorityLevel s) in
  (o, setPriority previousPriorityLevel s1).

Definition unstable_runWithPriority (priorityLevel : Z) (h : S -> outcome Cb * S) (s : S) :=
  withPriority (runWithPriorityLevel priorityLevel) h s.
Definition unstable_next (h : S -> outcome Cb * S) (s : S) :=
  withPriority (unstable_next_level (getPriority s)) h s.

(** [unstable_wrapCallback] captures the level; the function it returns runs under it. *)
Definition unstable_wrapCallback (s : S) : Z := getPriority s.
Definition callWrapped (parentPriorityLevel : Z) (h : S -> outcome Cb * S) (s : S) :=
  withPriority parentPriorityLevel h s.

(** An exception of the handler propagates past the rest of the program. *)
Definition andThen (r : outcome Cb * S) (k : option Cb -> S -> outcome Cb * S)
    : outcome Cb * S :=
  let '(o, s) := r in
  match o with Returned c => k c s | Threw e => (Threw e, s) end.

Fixpoint run (p : prog Cb X) (s : S) : outcome Cb * S :=
  match p with
  | PReturn c => (Returned c, s)
  | PThrow e => (Threw e, s)
  | PNow k => let '(t, s1) := unstable_now s in run (k t) s1
  | PShouldYield k => let '(b, s1) := unstable_shouldYield s in run (k b) s1
  | PGetPriority k => run (k (getPriority s)) s
  | PSchedule priorityLevel callback delay k =>
      let '(task, s1) := unstable_scheduleCallback priorityLevel callback delay s in
      run (k task) s1
  | PCancel task k => run k (cancelCallback task s)
  | PRequestPaint k => run k (unstable_requestPaint s)
  | PRunWithPriority priorityLevel h k =>
      andThen (unstable_runWithPriority priorityLevel (run h) s) (fun c => run (k c))
  | PNext h k => andThen (unstable_next (run h) s) (fun c => run (k c))
  | PWrapped parent h k => andThen (callWrapped parent (run h) s) (fun c => run (k c))
  | PExt x k =>
      let '(err, s1) := extOperation x s in
      match err with Some e => (Threw e, s1) | None => run k s1 end
  end.

(** A program that adds no task: what bounds a scheduler's loop. *)
Inductive quiet : prog Cb X -> Prop :=
| quiet_return c : quiet (PReturn c)
| quiet_throw e : quiet (PThrow e)
| quiet_now k : (forall t, quiet (k t)) -> quiet (PNow k)
| quiet_yield k : (forall b, quiet (k b)) -> quiet (PShouldYield k)
| quiet_priority k : (forall p, quiet (k p)) -> quiet (PGetPriority k)
| quiet_cancel t k : quiet k -> quiet (PCancel t k)
| quiet_paint k : quiet k -> quiet (PRequestPaint k)
| quiet_run l h k : quiet h -> (forall c, quiet (k c)) -> quiet (PRunWithPriority l h k)
| quiet_next h k : quiet h -> (forall c, quiet (k c)) -> quiet (PNext h k)
| quiet_wrapped l h k : quiet h -> (forall c, quiet (k c)) -> quiet (PWrapped l h k).

(** A property that every operation keeps is kept by every program. *)
Class ApiInvariant (P : S -> Prop) := {
  inv_now s : P s -> P (snd (unstable_now s));
  inv_shouldYield s : P s -> P (snd (unstable_shouldYield s));
  inv_setPriority l s : P s -> P (setPriority l s);
  inv_schedule l c d s : P s -> P (snd (unstable_scheduleCallback l c d s));
  inv_cancel t s : P s -> P (cancelCallback t s);
  inv_paint s : P s -> P (unstable_requestPaint s);
  inv_ext x s : P s -> P (snd (extOperation x s)) }.

Lemma run_invariant P `{!ApiInvariant P} p s : P s -> P (snd (run p s)).
Proof.
  assert (Hwith : forall l h s, (forall s, P s -> P (snd (h s))) -> P s ->
            P (snd (withPriority l h s))).
  { intros l h s0 Hh Hs. unfold withPriority.
    specialize (Hh (setPriority l s0) (inv_setPriority _ _ Hs)).
    destruct (h (setPriority l s0)). by apply inv_setPriority. }
  assert (Hthen : forall r k, (forall c s, P s -> P (snd (k c s))) -> P (snd r) ->
            P (snd (andThen r k))).
  { intros [o s0] k Hk Hs. destruct o; simpl; auto. }
  revert s. induction p as [| |k IH|k IH|k IH|l c d k IH|t k IH|k IH|l h IHh k IH|h IHh k IH|l h IHh k IH|x k IH];
    intros s Hs; simpl; try done.
  - pose proof (inv_now s Hs). destruct (unstable_now s). by apply IH.
  - pose proof (inv_shouldYield s Hs). destruct (unstable_shouldYield s). by apply IH.
  - by apply IH.
  - pose proof (inv_schedule l c d s Hs). destruct (unstable_scheduleCallback l c d s).
    by apply IH.
  - by apply IH, inv_cancel.
  - by apply IH, inv_paint.
  - apply Hthen; [auto|]. by apply Hwith.
  - apply Hthen; [auto|]. by apply Hwith.
  - apply Hthen; [auto|]. by apply Hwith.
  - pose proof (inv_ext x s Hs). destruct (extOperation x s) as [[e|] s1]; [done|by apply IH].
Qed.

(** The quiet programs need only the operations that add no task. *)
Class QuietInvariant (P : S -> Prop) := {
  quiet_inv_now s : P s -> P (snd (unstable_now s));
  quiet_inv_shouldYield s : P s -> P (snd (unstable_shouldYield s));
  quiet_inv_setPriority l s : P s -> P (setPriority l s);
  quiet_inv_cancel t s : P s -> P (cancelCallback t s);
  quiet_inv_paint s : P s -> P (unstable_requestPaint s) }.

#[local] Ltac byIH := match goal with H : forall _, _ |- _ => by apply H end.

Lemma run_quiet_invariant P `{!QuietInvariant P} p s : quiet p -> P s -> P (snd (run p s)).
Proof.
  intros Hp. revert s.
  assert (Hwith : forall l (h : S -> outcome Cb * S) s k, (forall s, P s -> P (snd (h s))) ->
            (forall c s, P s -> P (snd (k c s))) -> P s ->
            P (snd (andThen (withPriority l h s) k))).
  { intros l h s k Hh Hk Hs. unfold andThen, withPriority.
    specialize (Hh _ (quiet_inv_setPriority l _ Hs)).
    destruct (h _) as [[c|e] s1]; simpl; [apply Hk|]; by apply quiet_inv_setPriority. }
  induction Hp; intros s Hs; simpl; try done.
  - pose proof (quiet_inv_now s Hs). destruct (unstable_now s). byIH.
  - pose proof (quiet_inv_shouldYield s Hs). destruct (unstable_shouldYield s). byIH.
  - byIH.
  - by apply IHHp, quiet_inv_cancel.
  - by apply IHHp, quiet_inv_paint.
  - by apply Hwith.
  - by apply Hwith.
  - by apply Hwith.
Qed.

(** What a scheduler owes its users about [currentPriorityLevel]. *)
Class PriorityLaws := {
  get_setPriority l s : getPriority (setPriority l s) = l;
  get_now s : getPriority (snd (unstable_now s)) = getPriority s;
  get_shouldYield s : getPriority (snd (unstable_shouldYield s)) = getPriority s;
  get_schedule l c d s : getPriority (snd (unstable_scheduleCallback l c d s)) = getPriority s;
  get_cancel t s : getPriority (cancelCallback t s) = getPriority s;
  get_paint s : getPriority (unstable_requestPaint s) = getPriority s;
  get_ext x s : getPriority (snd (extOperation x s)) = getPriority s }.

Lemma run_priority `{!PriorityLaws} p s : getPriority (snd (run p s)) = getPriority s.
Proof.
  assert (Hwith : forall l (h : S -> outcome Cb * S) s k,
            (forall c s, getPriority (snd (k c s)) = getPriority s) ->
            getPriority (snd (andThen (withPriority l h s) k)) = getPriority s).
  { intros l h s0 k Hk. unfold andThen, withPriority. destruct (h _) as [[c|e] s1]; simpl.
    - by rewrite Hk, get_setPriority.
    - by rewrite get_setPriority. }
  revert s. induction p as [| |k IH|k IH|k IH|l c d k IH|t k IH|k IH|l h IHh k IH|h IHh k IH|l h IHh k IH|x k IH];
    intros s; simpl; try done.
  - pose proof (get_now s) as <-. destruct (unstable_now s). apply IH.
  - pose proof (get_shouldYield s) as <-. destruct (unstable_shouldYield s). apply IH.
  - pose proof (get_schedule l c d s) as <-.
    destruct (unstable_scheduleCallback l c d s). apply IH.
  - by rewrite IH, get_cancel.
  - by rewrite IH, get_paint.
  - by apply Hwith.
  - by apply Hwith.
  - by apply Hwith.
  - pose proof (get_ext x s) as <-. destruct (extOperation x s) as [[e|] s1]; [done|apply IH].
Qed.
End Run.
