(* ===== verification/SchedProd.v ===== *)
(** * The production scheduler (packages/scheduler/cjs/scheduler.production.js)

    The module's variables are the fields of [PState], in the source's names. The host
    is the last four fields: the messages posted and not yet delivered, the timeouts
    set and neither fired nor cleared (their delay by identifier), the next identifier
    [setTimeout] returns, and how often the clock was read. [clock] gives the value of
    each successive reading of [unstable_now]. *)
From S2P Require Import Prelude SchedHeap SchedTask SchedApi.

Section Production.
Context {Cb : Type}.

Record PState := mkPState {
  queues : Queues Cb;
  currentTask : option Z;
  currentPriorityLevel : Z;
  isPerformingWork : bool;
  isHostCallbackScheduled : bool;
  isHostTimeoutScheduled : bool;
  needsPaint : bool;
  isMessageLoopRunning : bool;
  taskTimeoutID : Z;
  frameInterval : Z;
  startTime : Z;
  posted : nat;
  timeouts : gmap Z Z;
  nextTimeoutID : Z;
  clockReads : nat }.

Definition set_queues (v : Queues Cb) (s : PState) : PState :=
  mkPState v (currentTask s) (currentPriorityLevel s) (isPerformingWork s)
    (isHostCallbackScheduled s) (isHostTimeoutScheduled s) (needsPaint s)
    (isMessageLoopRunning s) (taskTimeoutID s) (frameInterval s) (startTime s) (posted s)
    (timeouts s) (nextTimeoutID s) (clockReads s).
Definition set_currentTask (v : option Z) (s : PState) : PState :=
  mkPState (queues s) v (currentPriorityLevel s) (isPerformingWork s)
    (isHostCallbackScheduled s) (isHostTimeoutScheduled s) (needsPaint s)
    (isMessageLoopRunning s) (taskTimeoutID s) (frameInterval s) (startTime s) (posted s)
    (timeouts s) (nextTimeoutID s) (clockReads s).
Definition set_currentPriorityLevel (v : Z) (s : PState) : PState :=
  mkPState (queues s) (currentTask s) v (isPerformingWork s) (isHostCallbackScheduled s)
    (isHostTimeoutScheduled s) (needsPaint s) (isMessageLoopRunning s) (taskTimeoutID s)
    (frameInterval s) (startTime s) (posted s) (timeouts s) (nextTimeoutID s) (clockReads s).
Definition set_isPerformingWork (v : bool) (s : PState) : PState :=
  mkPState (queues s) (currentTask s) (currentPriorityLevel s) v (isHostCallbackScheduled s)
    (isHostTimeoutScheduled s) (needsPaint s) (isMessageLoopRunning s) (taskTimeoutID s)
    (frameInterval s) (startTime s) (posted s) (timeouts s) (nextTimeoutID s) (clockReads s).
Definition set_isHostCallbackScheduled (v : bool) (s : PState) : PState :=
  mkPState (queues s) (currentTask s) (currentPriorityLevel s) (isPerformingWork s) v
    (isHostTimeoutScheduled s) (needsPaint s) (isMessageLoopRunning s) (taskTimeoutID s)
    (frameInterval s) (startTime s) (posted s) (timeouts s) (nextTimeoutID s) (clockReads s).
Definition set_isHostTimeoutScheduled (v : bool) (s : PState) : PState :=
  mkPState (queues s) (currentTask s) (currentPriorityLevel s) (isPerformingWork s)
    (isHostCallbackScheduled s) v (needsPaint s) (isMessageLoopRunning s) (taskTimeoutID s)
    (frameInterval s) (startTime s) (posted s) (timeouts s) (nextTimeoutID s) (clockReads s).
Definition set_needsPaint (v : bool) (s : PState) : PState :=
  mkPState (queues s) (currentTask s) (currentPriorityLevel s) (isPerformingWork s)
    (isHostCallbackScheduled s) (isHostTimeoutScheduled s) v (isMessageLoopRunning s)
    (taskTimeoutID s) (frameInterval s) (startTime s) (posted s) (timeouts s) (nextTimeoutID s)
    (clockReads s).
Definition set_isMessageLoopRunning (v : bool) (s : PState) : PState :=
  mkPState (queues s) (currentTask s) (currentPriorityLevel s) (isPerformingWork s)
    (isHostCallbackScheduled s) (isHostTimeoutScheduled s) (needsPaint s) v (taskTimeoutID s)
    (frameInterval s) (startTime s) (posted s) (timeouts s) (nextTimeoutID s) (clockReads s).
Definition set_taskTimeoutID (v : Z) (s : PState) : PState :=
  mkPState (queues s) (currentTask s) (currentPriorityLevel s) (isPerformingWork s)
    (isHostCallbackScheduled s) (isHostTimeoutScheduled s) (needsPaint s)
    (isMessageLoopRunning s) v (frameInterval s) (startTime s) (posted s) (timeouts s)
    (nextTimeoutID s) (clockReads s).
Definition set_frameInterval (v : Z) (s : PState) : PState :=
  mkPState (queues s) (currentTask s) (currentPriorityLevel s) (isPerformingWork s)
    (isHostCallbackScheduled s) (isHostTimeoutScheduled s) (needsPaint s)
    (isMessageLoopRunning s) (taskTimeoutID s) v (startTime s) (posted s) (timeouts s)
    (nextTimeoutID s) (clockReads s).
Definition set_startTime (v : Z) (s : PState) : PState :=
  mkPState (queues s) (currentTask s) (currentPriorityLevel s) (isPerformingWork s)
    (isHostCallbackScheduled s) (isHostTimeoutScheduled s) (needsPaint s)
    (isMessageLoopRunning s) (taskTimeoutID s) (frameInterval s) v (posted s) (timeouts s)
    (nextTimeoutID s) (clockReads s).
Definition set_posted (v : nat) (s : PState) : PState :=
  mkPState (queues s) (currentTask s) (currentPriorityLevel s) (isPerformingWork s)
    (isHostCallbackScheduled s) (isHostTimeoutScheduled s) (needsPaint s)
    (isMessageLoopRunning s) (taskTimeoutID s) (frameInterval s) (startTime s) v (timeouts s)
    (nextTimeoutID s) (clockReads s).
Definition set_timeouts (v : gmap Z Z) (s : PState) : PState :=
  mkPState (queues s) (currentTask s) (currentPriorityLevel s) (isPerformingWork s)
    (isHostCallbackScheduled s) (isHostTimeoutScheduled s) (needsPaint s)
    (isMessageLoopRunning s) (taskTimeoutID s) (frameInterval s) (startTime s) (posted s) v
    (nextTimeoutID s) (clockReads s).
Definition set_nextTimeoutID (v : Z) (s : PState) : PState :=
  mkPState (queues s) (currentTask s) (currentPriorityLevel s) (isPerformingWork s)
    (isHostCallbackScheduled s) (isHostTimeoutScheduled s) (needsPaint s)
    (isMessageLoopRunning s) (taskTimeoutID s) (frameInterval s) (startTime s) (posted s)
    (timeouts s) v (clockReads s).
Definition set_clockReads (v : nat) (s : PState) : PState :=
  mkPState (queues s) (currentTask s) (currentPriorityLevel s) (isPerformingWork s)
    (isHostCallbackScheduled s) (isHostTimeoutScheduled s) (needsPaint s)
    (isMessageLoopRunning s) (taskTimeoutID s) (frameInterval s) (startTime s) (posted s)
    (timeouts s) (nextTimeoutID s) v.

Definition initState : PState :=
  mkPState initQueues None 3 false false false false false (-1) 5 (-1) 0 ∅ 1 0.

(** The operation only this scheduler implements: [unstable_forceFrameRate]. *)
Inductive prodOp : Type := ForceFrameRate (fps : Z).

Context (clock : nat -> Z).

Definition now (s : PState) : Z * PState :=
  (clock (clockReads s), set_clockReads (S (clockReads s)) s).

Definition schedulePerformWorkUntilDeadline (s : PState) : PState :=
  set_posted (S (posted s)) s.

Definition requestHostTimeout (ms : Z) (s : PState) : PState :=
  let id := nextTimeoutID s in
  set_taskTimeoutID id
    (set_timeouts (<[id := ms]> (timeouts s)) (set_nextTimeoutID (id + 1) s)).

(** [localClearTimeout(taskTimeoutID)] and [taskTimeoutID = -1] *)
Definition cancelHostTimeout (s : PState) : PState :=
  set_taskTimeoutID (-1) (set_timeouts (delete (taskTimeoutID s) (timeouts s)) s).

(** [isMessageLoopRunning || (isMessageLoopRunning = true, schedule...())] *)
Definition startMessageLoop (s : PState) : PState :=
  if isMessageLoopRunning s then s
  else schedulePerformWorkUntilDeadline (set_isMessageLoopRunning true s).

Definition requestFirstTimer (currentTime : Z) (s : PState) : PState :=
  match peek (timerQueue (queues s)) with
  | Some firstTimer =>
      requestHostTimeout (t_startTime (obj (tasks (queues s)) firstTimer) - currentTime) s
  | None => s
  end.

Definition handleTimeout (currentTime : Z) (s : PState) : PState :=
  let s := set_isHostTimeoutScheduled false s in
  let s := set_queues (advanceTimers currentTime (queues s)) s in
  if isHostCallbackScheduled s then s
  else
    match peek (taskQueue (queues s)) with
    | Some _ => startMessageLoop (set_isHostCallbackScheduled true s)
    | None => requestFirstTimer currentTime s
    end.

Definition shouldYieldToHost (s : PState) : bool * PState :=
  if needsPaint s then (true, s)
  else
    let '(t, s) := now s in
    ((if (t - startTime s <? frameInterval s)%Z then false else true), s).

Definition unstable_forceFrameRate (fps : Z) (s : PState) : PState :=
  if ((fps <? 0) || (125 <? fps))%Z%bool then s
  else set_frameInterval (if (0 <? fps)%Z then (1000 / fps)%Z else 5) s.

(** The tail of [unstable_scheduleCallback] for a delayed task. *)
Definition scheduleDelayed (currentTime : Z) (r : Z) (startTime : Z) (s : PState) : PState :=
  let q := set_tasks (alter (set_sortIndex startTime) r (tasks (queues s))) (queues s) in
  let s := set_queues (pushTimer r q) s in
  if bool_decide (peek (taskQueue (queues s)) = None)
     && bool_decide (peek (timerQueue (queues s)) = Some r)
  then
    let s := if isHostTimeoutScheduled s then cancelHostTimeout s
             else set_isHostTimeoutScheduled true s in
    requestHostTimeout (startTime - currentTime) s
  else s.

(** The tail of [unstable_scheduleCallback] for a task that may run now. *)
Definition scheduleNow (r : Z) (expirationTime : Z) (s : PState) : PState :=
  let q := set_tasks (alter (set_sortIndex expirationTime) r (tasks (queues s))) (queues s) in
  let s := set_queues (pushTask r q) s in
  if isHostCallbackScheduled s || isPerformingWork s then s
  else startMessageLoop (set_isHostCallbackScheduled true s).

Definition scheduleCallback (priorityLevel : Z) (callback : cbvalue Cb) (delay : option Z)
    (s : PState) : Z * PState :=
  let '(currentTime, s) := now s in
  let startTime := startTime_of currentTime delay in
  let t := newTask (queues s) priorityLevel callback startTime in
  let '(r, q) := allocTask t (queues s) in
  let s := set_queues q s in
  (r, if (currentTime <? startTime)%Z then scheduleDelayed currentTime r startTime s
      else scheduleNow r (t_expirationTime t) s).

#[export] Instance productionApi : SchedulerApi Cb prodOp PState := {
  unstable_now := now;
  unstable_shouldYield := shouldYieldToHost;
  getPriority := currentPriorityLevel;
  setPriority := set_currentPriorityLevel;
  runWithPriorityLevel := unstable_runWithPriority_level;
  unstable_scheduleCallback := scheduleCallback;
  cancelCallback := fun r s => set_queues (unstable_cancelCallback r (queues s)) s;
  unstable_requestPaint := set_needsPaint true;
  extOperation := fun op s =>
    match op with ForceFrameRate fps => (None, unstable_forceFrameRate fps s) end }.

Context (code : Cb -> bool -> prog Cb prodOp).

(** How the work loop of [performWorkUntilDeadline] ends. *)
Inductive loopResult : Type :=
| LoopDone (hasMoreWork : bool)
| LoopThrew (error : Z).

Definition peekTask (s : PState) : PState :=
  set_currentTask (peek (taskQueue (queues s))) s.

(** What the loop's condition and the test of [currentTask.callback] decide. *)
Inductive decision : Type :=
| Exhausted
| Yield
| Discard
| Invoke (task : Z) (callback : Cb) (didUserCallbackTimeout : bool).

Definition nextCallback (currentTime : Z) (s : PState) : decision * PState :=
  match currentTask s with
  | None => (Exhausted, s)
  | Some r =>
      let t := obj (tasks (queues s)) r in
      let '(stop, s) :=
        if (currentTime <? t_expirationTime t)%Z then shouldYieldToHost s else (false, s) in
      if stop then (Yield, s)
      else
        match t_callback t with
        | CbFun callback => (Invoke r callback (t_expirationTime t <=? currentTime)%Z, s)
        | _ => (Discard, s)
        end
  end.

(** One callback: clear it from its task, call it at its priority, then keep its
    continuation or drop the task. The loop ends ([inl]) or goes on at a new current
    time ([inr]). *)
Definition invokeCallback (r : Z) (callback : Cb) (didUserCallbackTimeout : bool) (s : PState)
    : (loopResult + Z) * PState :=
  let s := set_queues (unstable_cancelCallback r (queues s)) s in
  let s := set_currentPriorityLevel (t_priorityLevel (obj (tasks (queues s)) r)) s in
  let '(o, s) := run (code callback didUserCallbackTimeout) s in
  match o with
  | Threw e => (inl (LoopThrew e), s)
  | Returned continuationCallback =>
      let '(currentTime, s) := now s in
      match continuationCallback with
      | Some c =>
          let m := alter (set_callback (CbFun c)) r (tasks (queues s)) in
          let q := advanceTimers currentTime (set_tasks m (queues s)) in
          (inl (LoopDone true), set_queues q s)
      | None =>
          let q := queues s in
          let q := if bool_decide (peek (taskQueue q) = Some r) then popTask q else q in
          let s := set_queues (advanceTimers currentTime q) s in
          (inr currentTime, peekTask s)
      end
  end.

Definition workIteration (currentTime : Z) (s : PState) : (loopResult + Z) * PState :=
  let '(d, s) := nextCallback currentTime s in
  match d with
  | Exhausted => (inl (LoopDone false), requestFirstTimer currentTime s)
  | Yield => (inl (LoopDone true), s)
  | Discard => (inr currentTime, peekTask (set_queues (popTask (queues s)) s))
  | Invoke r callback didTimeout => invokeCallback r callback didTimeout s
  end.

(** [None] is fuel that ran out. *)
Fixpoint workLoop (fuel : nat) (currentTime : Z) (s : PState) : option (loopResult * PState) :=
  match fuel with
  | O => None
  | S fuel =>
      match workIteration currentTime s with
      | (inl r, s) => Some (r, s)
      | (inr currentTime, s) => workLoop fuel currentTime s
      end
  end.

(** What precedes the loop, once [currentTime] has been read. *)
Definition beginWork (currentTime : Z) (s : PState) : PState :=
  let s := set_startTime currentTime s in
  let s := set_isHostCallbackScheduled false s in
  let s := if isHostTimeoutScheduled s
           then cancelHostTimeout (set_isHostTimeoutScheduled false s) else s in
  let s := set_isPerformingWork true s in
  peekTask (set_queues (advanceTimers currentTime (queues s)) s).

(** The two [finally] blocks. A callback that throws leaves [hasMoreWork] true. *)
Definition endWork (previousPriorityLevel : Z) (r : loopResult) (s : PState) : PState :=
  let s := set_isPerformingWork false
    (set_currentPriorityLevel previousPriorityLevel (set_currentTask None s)) in
  let hasMoreWork := match r with LoopDone b => b | LoopThrew _ => true end in
  if hasMoreWork then schedulePerformWorkUntilDeadline s else set_isMessageLoopRunning false s.

Definition performWorkUntilDeadline (fuel : nat) (s : PState) : option (option Z * PState) :=
  let s := set_needsPaint false s in
  if isMessageLoopRunning s then
    let '(currentTime, s) := now s in
    let previousPriorityLevel := currentPriorityLevel s in
    match workLoop fuel currentTime (beginWork currentTime s) with
    | None => None
    | Some (r, s) =>
        Some (match r with LoopThrew e => Some e | LoopDone _ => None end,
              endWork previousPriorityLevel r s)
    end
  else Some (None, s).

(** The function [requestHostTimeout] hands to [localSetTimeout]. *)
Definition timeoutFired (s : PState) : PState :=
  let '(currentTime, s) := now s in handleTimeout currentTime s.

(** ** The host's event loop: user code at the top level, a delivered message, a
    timeout that fires. *)
Inductive step : PState -> PState -> Prop :=
| step_user p s : step s (snd (run p s))
| step_message n fuel s err s' :
    posted s = S n ->
    performWorkUntilDeadline fuel (set_posted n s) = Some (err, s') -> step s s'
| step_timeout id s :
    is_Some (timeouts s !! id) ->
    step s (timeoutFired (set_timeouts (delete id (timeouts s)) s)).

Inductive reachable : PState -> Prop :=
| reachable_init : reachable initState
| reachable_step s s' : reachable s -> step s s' -> reachable s'.
End Production.
Arguments PState Cb : clear implicits.
