(* ===== verification/SchedProdSpec.v ===== *)
(** * What the production scheduler guarantees *)
From S2P Require Import Prelude SchedHeap SchedTask SchedApi SchedProd.

Section ProductionSpec.
Context {Cb : Type} (clock : nat -> Z) (code : Cb -> bool -> prog Cb prodOp).
#[local] Instance api : SchedulerApi Cb prodOp (PState Cb) := productionApi clock.
Implicit Types s : PState Cb.

(** ** Invariants *)

(** Between two turns of the event loop: a message is pending exactly when the loop
    runs, queued tasks keep the loop running, and queued timers keep the loop running
    or a timeout pending. *)
Record idle s : Prop := {
  idle_wf : wfQueues (queues s);
  idle_performing : isPerformingWork s = false;
  idle_posted : posted s = if isMessageLoopRunning s then 1 else 0;
  idle_callback : isHostCallbackScheduled s = true -> isMessageLoopRunning s = true;
  idle_tasks : taskQueue (queues s) <> [] -> isMessageLoopRunning s = true;
  idle_timers : timerQueue (queues s) <> [] ->
    isMessageLoopRunning s = true \/ timeouts s <> ∅ }.

(** While [performWorkUntilDeadline] runs its loop. *)
Record performing s : Prop := {
  perf_wf : wfQueues (queues s);
  perf_performing : isPerformingWork s = true;
  perf_loop : isMessageLoopRunning s = true;
  perf_posted : posted s = 0;
  perf_callback : isHostCallbackScheduled s = false }.

Lemma schedule_queues s l c d r s' :
  scheduleCallback clock l c d s = (r, s') -> wfQueues (queues s) -> wfQueues (queues s').
Proof.
  unfold scheduleCallback. cbn -[allocTask newTask]. intros E Hq.
  set (t := newTask _ _ _ _) in *. destruct (allocTask t (queues s)) as [r1 q1] eqn:Ha.
  injection E as <- <-.
  destruct (wf_scheduleTimer (queues s) t r1 q1) as (H1 & _); auto.
  destruct (wf_scheduleTask (queues s) t r1 q1) as (H2 & _); auto.
  unfold scheduleDelayed, scheduleNow, startMessageLoop. by repeat case_bool.
Qed.

Lemma idle_schedule l c d s : idle s -> idle (snd (scheduleCallback clock l c d s)).
Proof.
  intros [Hq Hp Hm Hcb Htk Htm].
  pose proof (schedule_queues s l c d _ _ (surjective_pairing _) Hq) as Hwf. revert Hwf.
  unfold scheduleCallback. cbn -[allocTask newTask].
  set (t := newTask _ _ _ _) in *. destruct (allocTask t (queues s)) as [r q1] eqn:Ha.
  destruct (wf_scheduleTimer (queues s) t r q1) as (_ & Hp1 & Ht1); auto.
  destruct (wf_scheduleTask (queues s) t r q1) as (_ & Hp2 & Ht2); auto.
  change (taskQueue q1 = taskQueue (queues s)) in Ht1.
  change (timerQueue q1 = timerQueue (queues s)) in Ht2.
  destruct (clock _ <? _)%Z; cbn [snd].
  - unfold scheduleDelayed. cbn -[pushTimer]. set (q2 := pushTimer _ _) in *.
    change (taskQueue q2) with (taskQueue q1). rewrite Ht1.
    destruct (_ && _)%bool eqn:Hfirst; [case_bool|]; intros Hwf;
      split; cbn; rewrite ?Ht1; auto; intros _; [right; apply insert_non_empty..|].
    bools. destruct Hfirst as [Hfirst|Hfirst]; bools.
    + left. apply Htk. intros E. by rewrite E in Hfirst.
    + apply Htm. intros E. apply Hfirst. rewrite E in Hp1.
      by apply Permutation_singleton_r in Hp1 as ->.
  - unfold scheduleNow. cbn -[pushTask]. set (q2 := pushTask _ _) in *.
    rewrite Hp, orb_false_r. unfold startMessageLoop. cbn -[pushTask].
    case_bool; [|case_bool]; intros Hwf; split; cbn; rewrite ?Ht2; auto.
    by rewrite Hm, Heqb0.
Qed.

Lemma idle_sameQueues s s' :
  idle s -> wfQueues (queues s') -> taskQueue (queues s') = taskQueue (queues s) ->
  timerQueue (queues s') = timerQueue (queues s) ->
  (isPerformingWork s', isHostCallbackScheduled s', isMessageLoopRunning s', posted s', timeouts s')
  = (isPerformingWork s, isHostCallbackScheduled s, isMessageLoopRunning s, posted s, timeouts s) ->
  idle s'.
Proof.
  intros [] Hwf E1 E2 E. injection E as F1 F2 F3 F4 F5.
  split; rewrite ?E1, ?E2, ?F1, ?F2, ?F3, ?F4, ?F5; auto.
Qed.

Lemma performing_same s s' :
  performing s -> wfQueues (queues s') ->
  (isPerformingWork s', isHostCallbackScheduled s', isMessageLoopRunning s', posted s')
  = (isPerformingWork s, isHostCallbackScheduled s, isMessageLoopRunning s, posted s) ->
  performing s'.
Proof. intros [] Hwf E. injection E as F1 F2 F3 F4. split; congruence. Qed.

Lemma performing_schedule l c d s :
  performing s -> performing (snd (scheduleCallback clock l c d s)).
Proof.
  intros Hs. apply (performing_same s); [done| |].
  - apply (schedule_queues s l c d _ _ (surjective_pairing _)). apply Hs.
  - destruct Hs as [_ Hp Hl Hm Hcb]. unfold scheduleCallback. cbn -[allocTask newTask].
    destruct (allocTask _ _) as [r q1]. unfold scheduleDelayed, scheduleNow. cbn.
    rewrite Hp, orb_true_r. repeat case_bool; cbn; congruence.
Qed.

Lemma idle_shouldYield s : idle s -> idle (snd (shouldYieldToHost clock s)).
Proof. intros Hs. unfold shouldYieldToHost. case_bool; [done|]. apply (idle_sameQueues s); auto. apply Hs. Qed.
Lemma performing_shouldYield s : performing s -> performing (snd (shouldYieldToHost clock s)).
Proof. intros Hs. unfold shouldYieldToHost. case_bool; [done|]. apply (performing_same s); auto. apply Hs. Qed.

#[export] Instance idle_api : ApiInvariant (S := PState Cb) idle.
Proof.
  split; simpl.
  - intros s Hs. apply (idle_sameQueues s); auto. apply Hs.
  - apply idle_shouldYield.
  - intros l s Hs. apply (idle_sameQueues s); auto. apply Hs.
  - apply idle_schedule.
  - intros t s Hs. apply (idle_sameQueues s); auto. apply wf_cancel, Hs.
  - intros s Hs. apply (idle_sameQueues s); auto. apply Hs.
  - intros [fps] s Hs. unfold unstable_forceFrameRate. simpl.
    apply (idle_sameQueues s); auto; case_bool; auto; apply Hs.
Qed.

#[export] Instance performing_api : ApiInvariant (S := PState Cb) performing.
Proof.
  split; simpl.
  - intros s Hs. apply (performing_same s); auto. apply Hs.
  - apply performing_shouldYield.
  - intros l s Hs. apply (performing_same s); auto. apply Hs.
  - apply performing_schedule.
  - intros t s Hs. apply (performing_same s); auto. apply wf_cancel, Hs.
  - intros s Hs. apply (performing_same s); auto. apply Hs.
  - intros [fps] s Hs. unfold unstable_forceFrameRate. simpl.
    apply (performing_same s); auto; case_bool; auto; apply Hs.
Qed.

(** ** A timeout that fires *)

Lemma idle_handleTimeout now s :
  wfQueues (queues s) -> isPerformingWork s = false ->
  (posted s = if isMessageLoopRunning s then 1 else 0) ->
  (isHostCallbackScheduled s = true -> isMessageLoopRunning s = true) ->
  idle (handleTimeout now s).
Proof.
  intros Hq Hp Hm Hcb. pose proof (wf_advance now _ Hq) as Hwf.
  unfold handleTimeout, startMessageLoop, requestFirstTimer. cbn.
  case_bool; [split; cbn; auto|].
  destruct (peek (taskQueue _)) eqn:Etask; [cbn; case_bool; split; cbn; auto|].
  - by rewrite Hm, Heqb0.
  - apply peek_None in Etask. cbn in *.
    destruct (peek (timerQueue _)) eqn:Etm; split; cbn; auto; rewrite ?Etask; try congruence; intros Hne.
    + right. apply insert_non_empty.
    + by apply peek_None in Etm.
Qed.

(** ** The work loop *)

Definition loopExit (res : loopResult + Z) s : Prop :=
  match res with
  | inl (LoopDone false) =>
      taskQueue (queues s) = [] /\ (timerQueue (queues s) <> [] -> timeouts s <> ∅)
  | inr _ => currentTask s = peek (taskQueue (queues s))
  | _ => True
  end.

(** The choice the loop makes: it reads the clock at most, stops on a task that has
    not expired only when it must yield, and otherwise takes the first task. *)
Lemma nextCallback_ok t s d s1 :
  currentTask s = peek (taskQueue (queues s)) -> nextCallback clock t s = (d, s1) ->
  queues s1 = queues s /\ (performing s -> performing s1) /\
  match d with
  | Exhausted => taskQueue (queues s) = []
  | _ => exists r, peek (taskQueue (queues s)) = Some r /\
      let task := obj (tasks (queues s)) r in
      let yields := needsPaint s || negb (clock (clockReads s) - startTime s <? frameInterval s)%Z in
      match d with
      | Yield => (t < t_expirationTime task)%Z /\ yields = true
      | Discard => match t_callback task with CbFun _ => False | _ => True end
      | Invoke r' c didTimeout =>
          r' = r /\ t_callback task = CbFun c /\ didTimeout = (t_expirationTime task <=? t)%Z
          /\ (didTimeout = false -> yields = false)
      | Exhausted => False
      end
  end.
Proof.
  intros Hcur. unfold nextCallback. destruct (currentTask s) as [r|] eqn:Er.
  2: { symmetry in Hcur. apply peek_None in Hcur. by intros [= <- <-]. }
  unfold shouldYieldToHost. cbn.
  assert (Hread : performing s -> performing (set_clockReads (S (clockReads s)) s)).
  { intros Hs. apply (performing_same s); auto. apply Hs. }
  destruct (t <? _)%Z eqn:Et; [destruct (needsPaint s) eqn:Ep; [|case_bool]|];
    bools; try (destruct (t_callback _) eqn:Ec); intros [= <- <-];
    (split; [done|]; split; [auto|]); exists r; rewrite ?Ec, ?Ep, ?Heqb; splits; try done;
    intros E; bools; try lia.
Qed.

Lemma performing_invoke r c b s res s' :
  performing s -> invokeCallback clock code r c b s = (res, s') ->
  performing s' /\ loopExit res s'.
Proof.
  intros Hs. unfold invokeCallback. set (s2 := set_currentPriorityLevel _ _).
  assert (H2 : performing s2) by (apply (performing_same s); auto; apply wf_cancel, Hs).
  pose proof (run_invariant performing (code c b) s2 H2) as H3.
  destruct (run _ s2) as [[[c'|]|e] s3] eqn:Erun; intros [= <- <-]; (split; [|done]);
    simpl in H3; [| |done]; (apply (performing_same s3); [done| |done]);
    cbn -[advanceTimers popTask]; apply wf_advance.
  - apply wf_alter; auto. apply H3.
  - case_bool; bools; [|apply H3]. eapply wf_popTask; [apply H3|done].
Qed.

Lemma performing_iteration t s res s' :
  performing s -> currentTask s = peek (taskQueue (queues s)) ->
  workIteration clock code t s = (res, s') -> performing s' /\ loopExit res s'.
Proof.
  intros Hs Hcur. unfold workIteration. destruct (nextCallback clock t s) as [d s1] eqn:E.
  destruct (nextCallback_ok t s d s1 Hcur E) as (Hq & Hp & Hd). specialize (Hp Hs).
  destruct d as [| | |r c b]; intros Heq; [injection Heq as <- <-..|by eapply performing_invoke].
  - rewrite <- Hq in Hd. unfold requestFirstTimer.
    destruct (peek (timerQueue (queues s1))) eqn:Etm; simpl.
    + split; [apply (performing_same s1); auto; apply Hp|]. split; [done|].
      intros _. apply insert_non_empty.
    + split; [done|]. split; [done|]. by apply peek_None in Etm.
  - done.
  - destruct Hd as (r & Hr & _). split; [|done]. apply (performing_same s1); auto.
    eapply wf_popTask; [apply Hp|by rewrite Hq].
Qed.

Lemma performing_workLoop fuel t s r s' :
  performing s -> currentTask s = peek (taskQueue (queues s)) ->
  workLoop clock code fuel t s = Some (r, s') -> performing s' /\ loopExit (inl r) s'.
Proof.
  revert t s. induction fuel as [|fuel IH]; intros t s Hs Hcur; simpl; [done|].
  destruct (workIteration clock code t s) as [[r1|t1] s1] eqn:E;
    destruct (performing_iteration _ _ _ _ Hs Hcur E) as [H1 H2].
  - intros [= <- <-]. done.
  - by apply IH.
Qed.

Lemma performing_beginWork t s :
  wfQueues (queues s) -> isMessageLoopRunning s = true -> posted s = 0 ->
  performing (beginWork t s) /\
  currentTask (beginWork t s) = peek (taskQueue (queues (beginWork t s))).
Proof.
  intros Hq Hl Hp. pose proof (wf_advance t _ Hq).
  unfold beginWork. cbn. split; [|by case_bool]. case_bool; split; cbn; auto.
Qed.

Lemma idle_endWork l r s : performing s -> loopExit (inl r) s -> idle (endWork l r s).
Proof.
  intros [Hq Hp Hl Hpo Hcb] He. unfold endWork.
  destruct r as [[]|e]; simpl in He; split; cbn; auto; try congruence; try (rewrite Hpo, Hl; done).
  - intros. destruct He. congruence.
  - destruct He. auto.
Qed.

Lemma idle_performWork fuel s err s' :
  idle s -> posted s = 1 -> performWorkUntilDeadline clock code fuel (set_posted 0 s) = Some (err, s') ->
  idle s'.
Proof.
  intros Hs Hpo. unfold performWorkUntilDeadline. cbn.
  destruct (isMessageLoopRunning s) eqn:Hl; [|pose proof (idle_posted _ Hs) as Hm; rewrite Hl in Hm; congruence].
  set (s0 := set_clockReads _ _).
  destruct (performing_beginWork (clock (clockReads s)) s0) as [H1 H2]; try done; [apply Hs|].
  destruct (workLoop _ _ _ _ _) as [[r s1]|] eqn:E; [|done].
  destruct (performing_workLoop _ _ _ _ _ H1 H2 E) as [H3 H4].
  intros [= <- <-]. by apply idle_endWork.
Qed.

Lemma idle_step s s' : idle s -> step clock code s s' -> idle s'.
Proof.
  intros Hs Hstep. destruct Hstep as [p s|n fuel s err s' Hpo Hw|id s _].
  - by apply (run_invariant idle).
  - assert (n = 0).
    { pose proof (idle_posted _ Hs) as Hm. rewrite Hpo in Hm. destruct (isMessageLoopRunning s); lia. }
    subst n. by eapply idle_performWork.
  - destruct Hs. unfold timeoutFired. cbn. by apply idle_handleTimeout.
Qed.

Lemma reachable_idle s : reachable clock code s -> idle s.
Proof.
  induction 1; [split; simpl; try done; apply wf_init|by eapply idle_step].
Qed.

(** ** Termination of the work loop *)

Definition sameQueues (q : Queues Cb) s : Prop :=
  taskQueue (queues s) = taskQueue q /\ timerQueue (queues s) = timerQueue q.

#[export] Instance sameQueues_quiet q : QuietInvariant (S := PState Cb) (sameQueues q).
Proof.
  split; simpl; auto. intros s Hs. unfold shouldYieldToHost. by case_bool.
Qed.

Lemma workLoop_more fuel fuel' t s r :
  fuel <= fuel' -> workLoop clock code fuel t s = Some r -> workLoop clock code fuel' t s = Some r.
Proof.
  revert fuel' t s. induction fuel as [|fuel IH]; intros fuel' t s Hle; [done|].
  destruct fuel' as [|fuel']; [lia|]. simpl.
  destruct (workIteration clock code t s) as [[|] s1]; [done|]. apply IH. lia.
Qed.

Lemma queued_iteration t s t' s' :
  (forall c b, quiet (code c b)) -> performing s ->
  currentTask s = peek (taskQueue (queues s)) ->
  workIteration clock code t s = (inr t', s') -> queued (queues s') < queued (queues s).
Proof.
  intros Hquiet Hs Hcur. unfold workIteration.
  destruct (nextCallback clock t s) as [d s1] eqn:E.
  destruct (nextCallback_ok t s d s1 Hcur E) as (Hq & Hp & Hd). specialize (Hp Hs).
  rewrite <- Hq in *. destruct d as [| | |r c b]; try done.
  - intros [= <- <-]. destruct Hd as (r & Hr & _). cbn -[popTask].
    eapply queued_popTask; [apply Hp|done].
  - destruct Hd as (? & Hr & <- & _). unfold invokeCallback. set (s2 := set_currentPriorityLevel _ _).
    assert (H2 : performing s2) by (apply (performing_same s1); auto; apply wf_cancel, Hp).
    pose proof (run_invariant performing (code c b) s2 H2) as H3.
    pose proof (run_quiet_invariant (sameQueues (queues s1)) (code c b) s2 (Hquiet c b) ltac:(done)) as H4.
    destruct (run _ s2) as [[[c'|]|e] s3]; intros [= <- <-]. destruct H4 as [E1 E2]. simpl in *.
    rewrite E1. rewrite bool_decide_eq_true_2 by done. cbn -[popTask advanceTimers].
    assert (Hpk : peek (taskQueue (queues s3)) = Some r) by by rewrite E1.
    destruct (wf_popTask (queues s3) r) as [Hwf _]; [apply H3|done|].
    eapply Nat.le_lt_trans; [by apply queued_advance|].
    eapply Nat.lt_le_trans; [eapply queued_popTask; [apply H3|done]|].
    unfold queued. by rewrite E1, E2.
Qed.

Lemma workLoop_returns fuel t s :
  (forall c b, quiet (code c b)) -> performing s ->
  currentTask s = peek (taskQueue (queues s)) -> queued (queues s) < fuel ->
  is_Some (workLoop clock code fuel t s).
Proof.
  intros Hquiet. revert t s. induction fuel as [|fuel IH]; intros t s Hs Hcur Hf; [lia|].
  simpl. destruct (workIteration clock code t s) as [[r|t1] s1] eqn:E; [done|].
  destruct (performing_iteration _ _ _ _ Hs Hcur E) as [H1 H2].
  apply IH; auto. pose proof (queued_iteration _ _ _ _ Hquiet Hs Hcur E). lia.
Qed.

(** ** Priorities *)

#[export] Instance production_priority : PriorityLaws (S := PState Cb).
Proof.
  split; simpl; try done.
  - intros s. unfold shouldYieldToHost. by case_bool.
  - intros l c d s. unfold scheduleCallback, scheduleDelayed, scheduleNow, startMessageLoop. cbn.
    by repeat case_bool.
  - intros [fps] s. unfold unstable_forceFrameRate. simpl. by case_bool.
Qed.

Lemma priority_performWork fuel s err s' :
  performWorkUntilDeadline clock code fuel s = Some (err, s') ->
  currentPriorityLevel s' = currentPriorityLevel s.
Proof.
  unfold performWorkUntilDeadline. cbn. case_bool; [|by intros [= _ <-]].
  destruct (workLoop _ _ _ _ _) as [[r s1]|]; intros [= _ <-].
  unfold endWork. by case_bool.
Qed.

Lemma priority_handleTimeout t s :
  currentPriorityLevel (handleTimeout t s) = currentPriorityLevel s.
Proof.
  unfold handleTimeout, startMessageLoop, requestFirstTimer. cbn.
  case_bool; [done|]. destruct (peek (taskQueue _)); [by case_bool|].
  by destruct (peek (timerQueue _)).
Qed.

Lemma reachable_priority s : reachable clock code s -> currentPriorityLevel s = 3%Z.
Proof.
  induction 1 as [|s s' _ IH Hstep]; [done|]. rewrite <- IH.
  destruct Hstep as [p s|n fuel s err s' Hpo Hw|id s _].
  - apply (run_priority (api := productionApi clock)).
  - by apply priority_performWork in Hw.
  - unfold timeoutFired. cbn -[handleTimeout]. by rewrite priority_handleTimeout.
Qed.

(** ** Cancelled tasks *)

Definition cancelled r s : Prop :=
  wfQueues (queues s) /\ is_Some (tasks (queues s) !! r)
  /\ t_callback (obj (tasks (queues s)) r) = CbNull.

Lemma cancelled_tasks r s s' :
  cancelled r s -> wfQueues (queues s') -> is_Some (tasks (queues s') !! r) ->
  t_callback (obj (tasks (queues s')) r) = t_callback (obj (tasks (queues s)) r) ->
  cancelled r s'.
Proof. intros (_ & _ & E) ? ? E'. split; [done|]. split; [done|]. congruence. Qed.

Lemma cancelled_schedule r l c d s :
  cancelled r s -> cancelled r (snd (scheduleCallback clock l c d s)).
Proof.
  intros Hs. apply (cancelled_tasks r s); [done| | |].
  - apply (schedule_queues s l c d _ _ (surjective_pairing _)), Hs.
  - destruct Hs as (Hq & [t Ht] & _). pose proof (wf_id _ Hq r t Ht).
    unfold scheduleCallback, scheduleDelayed, scheduleNow, startMessageLoop. cbn.
    repeat case_bool; cbn; rewrite lookup_alter_ne, lookup_insert_ne by lia; eauto.
  - destruct Hs as (Hq & [t Ht] & _). pose proof (wf_id _ Hq r t Ht).
    unfold scheduleCallback, scheduleDelayed, scheduleNow, startMessageLoop. cbn.
    repeat case_bool; cbn; by rewrite obj_alter_ne, obj_insert_ne by lia.
Qed.

Lemma cancelled_cancel r x s :
  cancelled r s -> cancelled r (set_queues (unstable_cancelCallback x (queues s)) s).
Proof.
  intros (Hq & [t Ht] & E). split; [by apply wf_cancel|]. cbn.
  unfold obj in *. destruct (decide (x = r)) as [->|].
  - rewrite lookup_alter_eq, Ht. simpl. eauto.
  - rewrite lookup_alter_ne by done. rewrite Ht in *. eauto.
Qed.

#[export] Instance cancelled_api r : ApiInvariant (S := PState Cb) (cancelled r).
Proof.
  split; simpl; try done.
  - intros s Hs. unfold shouldYieldToHost. by case_bool.
  - intros l c d s. apply cancelled_schedule.
  - intros x s. apply cancelled_cancel.
  - intros [fps] s Hs. unfold unstable_forceFrameRate. simpl. by case_bool.
Qed.

Lemma cancelled_advance r t s q :
  cancelled r (set_queues q s) -> cancelled r (set_queues (advanceTimers t q) s).
Proof.
  intros Hs. destruct (advanceTimers_advanced t q) as (H1 & H2 & _); [apply Hs|].
  apply (cancelled_tasks r (set_queues q s)); auto; cbn -[advanceTimers].
  - destruct Hs as (_ & [u Hu] & _). cbn in Hu. specialize (H2 r). rewrite Hu in H2.
    destruct (tasks (advanceTimers t q) !! r); [eauto|done].
  - by apply sameBut_fields.
Qed.

Lemma cancelled_popTask r x s :
  cancelled r s -> peek (taskQueue (queues s)) = Some x ->
  cancelled r (set_queues (popTask (queues s)) s).
Proof. intros (Hq & Hs) Hx. split; [by eapply wf_popTask|done]. Qed.

Lemma cancelled_same r s s' : cancelled r s -> queues s' = queues s -> cancelled r s'.
Proof. unfold cancelled. intros Hs ->. done. Qed.

Lemma cancelled_invoke r x c b s res s' :
  r <> x -> cancelled r s -> invokeCallback clock code x c b s = (res, s') -> cancelled r s'.
Proof.
  intros Hne Hs. unfold invokeCallback. set (s2 := set_currentPriorityLevel _ _).
  assert (H2 : cancelled r s2) by (by apply (cancelled_cancel r x)).
  pose proof (run_invariant (cancelled r) (code c b) s2 H2) as H3.
  destruct (run _ s2) as [[[c'|]|e] s3]; intros [= <- <-]; simpl in H3; [| |done].
  - apply cancelled_advance. destruct H3 as (Hq & Ho & E). split; [by apply wf_alter; auto|].
    cbn. rewrite obj_alter_ne, lookup_alter_ne by done. done.
  - eapply (cancelled_same _ (set_queues (advanceTimers _ _) s3)); [|done].
    apply cancelled_advance. case_bool; bools; [by eapply cancelled_popTask|].
    by destruct s3.
Qed.

Lemma cancelled_iteration r t s res s' :
  cancelled r s -> currentTask s = peek (taskQueue (queues s)) ->
  workIteration clock code t s = (res, s') -> cancelled r s'.
Proof.
  intros Hs Hcur. unfold workIteration. destruct (nextCallback clock t s) as [d s1] eqn:E.
  destruct (nextCallback_ok t s d s1 Hcur E) as (Hq & _ & Hd).
  assert (H1 : cancelled r s1) by by apply (cancelled_same r s).
  destruct d as [| | |x c b]; [intros [= <- <-]..|].
  - apply (cancelled_same r s1); [done|]. unfold requestFirstTimer. by case_match.
  - done.
  - destruct Hd as (x & Hx & _). apply (cancelled_same r (set_queues (popTask (queues s1)) s1)); [|done].
    apply (cancelled_popTask r x); [done|by rewrite Hq].
  - destruct Hd as (y & _ & -> & Hc & _). apply cancelled_invoke; [|done].
    intros ->. destruct Hs as (_ & _ & E'). congruence.
Qed.

(** ** The states of the loop *)

(** The states at the head of an iteration of the loop that a delivered message runs,
    with the loop's [currentTime]. *)
Inductive loopState (s0 : PState Cb) : Z -> PState Cb -> Prop :=
| loop_begin n t s :
    posted s0 = S n -> now clock (set_needsPaint false (set_posted n s0)) = (t, s) ->
    loopState s0 t (beginWork t s)
| loop_iterate t s t' s' :
    loopState s0 t s -> workIteration clock code t s = (inr t', s') -> loopState s0 t' s'.

Lemma idle_message s n : idle s -> posted s = S n -> n = 0 /\ isMessageLoopRunning s = true.
Proof.
  intros Hs Hpo. pose proof (idle_posted _ Hs) as Hm. rewrite Hpo in Hm.
  destruct (isMessageLoopRunning s); auto with lia.
Qed.

Lemma loopState_performing s0 t s :
  idle s0 -> loopState s0 t s ->
  performing s /\ currentTask s = peek (taskQueue (queues s)).
Proof.
  intros Hs. induction 1 as [n t s Hpo [= <- <-]|t s t' s' _ [IH1 IH2] Hit].
  - destruct (idle_message _ _ Hs Hpo) as [-> Hl].
    apply performing_beginWork; try done. apply Hs.
  - by destruct (performing_iteration t s _ _ IH1 IH2 Hit).
Qed.

Lemma cancelled_loopState s0 t s r :
  idle s0 -> cancelled r s0 -> loopState s0 t s -> cancelled r s.
Proof.
  intros Hs Hc Hl. induction Hl as [n t s Hpo [= <- <-]|t s t' s' Hl IH Hit].
  - eapply (cancelled_same _ (set_queues (advanceTimers (clock (clockReads s0)) (queues s0)) s0)).
    + apply cancelled_advance. by destruct s0.
    + unfold beginWork. cbn. by case_bool.
  - eapply cancelled_iteration; [done| |done]. by eapply loopState_performing.
Qed.

Lemma cancelled_handleTimeout r t s : cancelled r s -> cancelled r (handleTimeout t s).
Proof.
  intros Hs.
  eapply (cancelled_same _ (set_queues (advanceTimers t (queues s)) s)).
  - apply cancelled_advance. by destruct s.
  - unfold handleTimeout, startMessageLoop, requestFirstTimer. cbn.
    case_bool; [done|]. destruct (peek (taskQueue _)); [by case_bool|].
    by destruct (peek (timerQueue _)).
Qed.

Lemma cancelled_workLoop r fuel t s res s' :
  performing s -> cancelled r s -> currentTask s = peek (taskQueue (queues s)) ->
  workLoop clock code fuel t s = Some (res, s') -> cancelled r s'.
Proof.
  revert t s. induction fuel as [|fuel IH]; intros t s Hs Hc Hcur; simpl; [done|].
  destruct (workIteration clock code t s) as [[r1|t1] s1] eqn:E;
    pose proof (cancelled_iteration _ _ _ _ _ Hc Hcur E);
    destruct (performing_iteration _ _ _ _ Hs Hcur E); [by intros [= <- <-]|by apply IH].
Qed.

Lemma cancelled_step r s s' : idle s -> cancelled r s -> step clock code s s' -> cancelled r s'.
Proof.
  intros Hs Hc Hstep. destruct Hstep as [p s|n fuel s err s' Hpo Hw|id s _].
  - by apply (run_invariant (cancelled r)).
  - destruct (idle_message _ _ Hs Hpo) as [-> Hl]. revert Hw.
    unfold performWorkUntilDeadline. cbn. rewrite Hl. set (s0 := set_clockReads _ _).
    destruct (performing_beginWork (clock (clockReads s)) s0) as [H1 H2]; try done; [apply Hs|].
    assert (H3 : cancelled r (beginWork (clock (clockReads s)) s0)).
    { eapply (cancelled_loopState s); [done|done|]. by eapply loop_begin. }
    destruct (workLoop _ _ _ _ _) as [[res s1]|] eqn:E; intros [= _ <-].
    apply (cancelled_same r s1); [by eapply cancelled_workLoop|].
    unfold endWork. by case_bool.
  - unfold timeoutFired. cbn -[handleTimeout]. by apply cancelled_handleTimeout.
Qed.

(** ** Properties *)

(** The part of the state that wakes the scheduler. *)
Definition wakeUps s : bool * bool * nat * (bool * Z * gmap Z Z) :=
  (isHostCallbackScheduled s, isMessageLoopRunning s, posted s,
   (isHostTimeoutScheduled s, taskTimeoutID s, timeouts s)).

Lemma delayed_wakes t r start s :
  let s' := scheduleDelayed t r start s in
  wakeUps s' =
  if bool_decide (taskQueue (queues s) = []) && bool_decide (peek (timerQueue (queues s')) = Some r)
  then (isHostCallbackScheduled s, isMessageLoopRunning s, posted s,
        (true, nextTimeoutID s,
         <[nextTimeoutID s := (start - t)%Z]>
           (if isHostTimeoutScheduled s then delete (taskTimeoutID s) (timeouts s) else timeouts s)))
  else wakeUps s.
Proof.
  set (q := pushTimer r (set_tasks (alter (set_sortIndex start) r (tasks (queues s))) (queues s))).
  assert (Hq : timerQueue (queues (scheduleDelayed t r start s)) = timerQueue q).
  { unfold scheduleDelayed. by repeat case_bool. }
  assert (Ht : bool_decide (peek (taskQueue q) = None) = bool_decide (taskQueue (queues s) = [])).
  { apply bool_decide_ext. apply peek_None. }
  cbn zeta. rewrite Hq, <- Ht. unfold scheduleDelayed, wakeUps. fold q.
  change (queues (set_queues q s)) with q. destruct (_ && _); [|done].
  change (isHostTimeoutScheduled (set_queues q s)) with (isHostTimeoutScheduled s).
  by destruct (isHostTimeoutScheduled s) eqn:E; cbn; rewrite ?E.
Qed.

Lemma now_wakes r expiration s :
  wakeUps (scheduleNow r expiration s) =
  if isHostCallbackScheduled s || isPerformingWork s then wakeUps s
  else (true, true, if isMessageLoopRunning s then posted s else S (posted s),
        (isHostTimeoutScheduled s, taskTimeoutID s, timeouts s)).
Proof. unfold scheduleNow, startMessageLoop, wakeUps. cbn. destruct (_ || _); [done|]. by destruct (isMessageLoopRunning s) eqn:E; cbn; rewrite ?E. Qed.

(** C26: [unstable_scheduleCallback] creates one fresh task with the start and expiration
    time of its priority and delay, puts it into exactly one queue (the timer queue when
    it starts in the future), keyed by start respectively expiration time, and changes
    no other task. A task that may run now requests the host callback, unless it is
    scheduled or work is being performed, and with it a message unless the message loop runs;
    a timer that is the first one while no task is queued requests a timeout until its start,
    in the place of the scheduled timeout if there is one; nothing else is requested. *)
Theorem schedule_spec l c d s r s' :
  wfQueues (queues s) -> scheduleCallback clock l c d s = (r, s') ->
  let t := clock (clockReads s) in
  let start := startTime_of t d in
  let expiration := (start + timeout_of l)%Z in
  wfQueues (queues s')
  /\ tasks (queues s) !! r = None
  /\ tasks (queues s') = <[r := mkTask r c l start expiration
                               (if (t <? start)%Z then start else expiration)]> (tasks (queues s))
  /\ (if (t <? start)%Z
      then timerQueue (queues s') ≡ₚ r :: timerQueue (queues s)
           /\ taskQueue (queues s') = taskQueue (queues s)
           /\ wakeUps s' =
              if bool_decide (taskQueue (queues s) = []) && bool_decide (peek (timerQueue (queues s')) = Some r)
              then (isHostCallbackScheduled s, isMessageLoopRunning s, posted s,
                    (true, nextTimeoutID s,
                     <[nextTimeoutID s := (start - t)%Z]>
                       (if isHostTimeoutScheduled s then delete (taskTimeoutID s) (timeouts s) else timeouts s)))
              else wakeUps s
      else taskQueue (queues s') ≡ₚ r :: taskQueue (queues s)
           /\ timerQueue (queues s') = timerQueue (queues s)
           /\ wakeUps s' =
              if isHostCallbackScheduled s || isPerformingWork s then wakeUps s
              else (true, true, if isMessageLoopRunning s then posted s else S (posted s),
                    (isHostTimeoutScheduled s, taskTimeoutID s, timeouts s))).
Proof.
  intros Hq E. pose proof (schedule_queues s l c d r s' E Hq) as Hwf. revert E.
  unfold scheduleCallback. cbn -[allocTask newTask].
  set (t := newTask _ _ _ _). destruct (allocTask t (queues s)) as [r1 q1] eqn:Ha.
  destruct (wf_scheduleTimer (queues s) t r1 q1) as (_ & Hp1 & Ht1); auto.
  destruct (wf_scheduleTask (queues s) t r1 q1) as (_ & Hp2 & Ht2); auto.
  pose proof (proj1 (wf_fresh _ Hq)) as Hfresh.
  injection Ha as <- <-. intros [= <- <-]. split; [done|]. split; [done|].
  destruct (clock _ <? _)%Z.
  - rewrite delayed_wakes, <- Hp1. unfold scheduleDelayed. cbn. split; [|by repeat case_bool].
    transitivity (alter (set_sortIndex (t_startTime t)) (taskIdCounter (queues s))
      (<[taskIdCounter (queues s) := t]> (tasks (queues s)))); [by repeat case_bool|].
    apply map_eq. intros k. rewrite lookup_alter, !lookup_insert. by repeat case_decide.
  - rewrite now_wakes, <- Hp2. unfold scheduleNow, startMessageLoop. cbn. split; [|by repeat case_bool].
    transitivity (alter (set_sortIndex (t_expirationTime t)) (taskIdCounter (queues s))
      (<[taskIdCounter (queues s) := t]> (tasks (queues s)))); [by repeat case_bool|].
    apply map_eq. intros k. rewrite lookup_alter, !lookup_insert. by repeat case_decide.
Qed.

(** C5: whatever user code does, between two turns of the event loop at most one message is
    pending; one is pending whenever a task is queued, also while timeouts are; and one is
    pending, or a timeout, whenever a timer is queued: the scheduler never strands work. *)
Theorem no_stranded_work s :
  reachable clock code s ->
  wfQueues (queues s) /\ posted s <= 1 /\
  (taskQueue (queues s) <> [] -> posted s = 1) /\
  (timerQueue (queues s) <> [] -> posted s = 1 \/ timeouts s <> ∅).
Proof.
  intros Hr%reachable_idle. destruct Hr as [Hq _ Hm _ Htk Htm].
  split; [done|]. split; [destruct (isMessageLoopRunning s); lia|]. split.
  - intros Hne. by rewrite Hm, (Htk Hne).
  - intros Hne. destruct (Htm Hne) as [Hrun|Hto]; [left|by right]. by rewrite Hm, Hrun.
Qed.

(** C19: In every iteration of the work loop, for any user code, the loop looks at the task
    that expires first (the oldest of those). A callback is invoked with whether its task
    expired, and one that has not expired runs only when the loop need not yield, that is
    when no paint was requested and the frame's time is not spent; the loop never yields
    while the first task is expired, and it yields only for one of these two reasons. A task
    without a callback is dropped, and no other with it; the loop runs out of tasks only when
    none is queued. *)
Theorem work_loop_order s0 t s d s1 :
  reachable clock code s0 -> loopState s0 t s -> nextCallback clock t s = (d, s1) ->
  let expiration r := t_expirationTime (obj (tasks (queues s)) r) in
  let first r := r ∈ taskQueue (queues s) /\ forall r', r' ∈ taskQueue (queues s) ->
    (expiration r < expiration r')%Z \/ (expiration r = expiration r' /\ r <= r')%Z in
  let yields := needsPaint s || negb (clock (clockReads s) - startTime s <? frameInterval s)%Z in
  match d with
  | Invoke r c late =>
      first r /\ t_callback (obj (tasks (queues s)) r) = CbFun c
      /\ late = (expiration r <=? t)%Z /\ (late = false -> yields = false)
  | Yield => yields = true /\ forall r', r' ∈ taskQueue (queues s) -> (t < expiration r')%Z
  | Discard => exists r, first r /\ (forall c, t_callback (obj (tasks (queues s)) r) <> CbFun c)
      /\ let '(next, s2) := workIteration clock code t s in
         next = inr t /\ taskQueue (queues s) ≡ₚ r :: taskQueue (queues s2)
         /\ timerQueue (queues s2) = timerQueue (queues s)
  | Exhausted => taskQueue (queues s) = []
  end.
Proof.
  intros Hr Hl Hd expiration first yields. apply reachable_idle in Hr.
  destruct (loopState_performing _ _ _ Hr Hl) as [Hs Hcur].
  destruct (nextCallback_ok _ _ _ _ Hcur Hd) as (Hsame & _ & H). pose proof (perf_wf _ Hs) as Hq.
  assert (Hfirst : forall r, peek (taskQueue (queues s)) = Some r -> first r).
  { intros r Hpk. split; [destruct (taskQueue (queues s)); simplify_eq/=; left|].
    intros r' Hr'. by apply first_task_least. }
  destruct d as [| | |r1 c late]; [done|destruct H as (r & Hpk & H)..]; simpl in H.
  - destruct H as [H1 H2]. split; [done|]. intros r' Hr'.
    pose proof (first_task_least _ _ _ Hq Hpk Hr'). unfold expiration. lia.
  - exists r. split; [by apply Hfirst|]. split; [intros c E; by rewrite E in H|].
    destruct (wf_popTask _ _ Hq Hpk) as [_ Hp]. unfold workIteration. rewrite Hd. cbn -[popTask]. rewrite Hsame.
    split; [done|]. split; [done|]. unfold popTask. by destruct (pop _ _).
  - destruct H as (-> & H1 & H2 & H3). splits; auto.
Qed.

(** C33: the work loop terminates when callbacks schedule nothing, whatever they return,
    throw, cancel or read: fuel beyond the number of queued entries is enough, and more
    fuel does not change the result. *)
Theorem performWork_returns s fuel :
  (forall c b, quiet (code c b)) -> reachable clock code s -> posted s = 1 ->
  queued (queues s) < fuel ->
  exists r, forall fuel', fuel <= fuel' ->
    performWorkUntilDeadline clock code fuel' (set_posted 0 s) = Some r.
Proof.
  intros Hquiet Hr%reachable_idle Hpo Hf. destruct (idle_message s 0 Hr Hpo) as [_ Hl].
  unfold performWorkUntilDeadline. cbn. rewrite Hl. set (s0 := set_clockReads _ _).
  set (t := clock (clockReads s)).
  destruct (performing_beginWork t s0) as [H1 H2]; try done; [apply Hr|].
  destruct (workLoop_returns fuel t (beginWork t s0) Hquiet H1 H2) as [[r s1] E].
  { eapply Nat.le_lt_trans; [|done]. etrans; [|by apply (queued_advance t), Hr].
    unfold beginWork. cbn. by case_bool. }
  eexists. intros fuel' Hle. by rewrite (workLoop_more _ _ _ _ _ Hle E).
Qed.

(** [currentPriorityLevel] is restored on every path. A piece of user code leaves it
    as it found it, however it nests [unstable_runWithPriority], [unstable_next] and
    wrapped callbacks and wherever it throws; between two turns it is always Normal. *)
Theorem priority_restored :
  (forall p s, currentPriorityLevel (snd (run p s)) = currentPriorityLevel s)
  /\ (forall s, reachable clock code s -> currentPriorityLevel s = 3%Z).
Proof.
  split; [|apply reachable_priority]. intros p s.
  apply (run_priority (api := productionApi clock)).
Qed.

(** a task cancelled before its callback runs is never invoked: after any number of
    turns the loop never chooses it. *)
Theorem cancelled_never_invoked s s0 t s1 r c late s2 :
  reachable clock code s -> is_Some (tasks (queues s) !! r) ->
  rtc (step clock code) (set_queues (unstable_cancelCallback r (queues s)) s) s0 ->
  loopState s0 t s1 -> nextCallback clock t s1 <> (Invoke r c late, s2).
Proof.
  intros Hr [u Hu] Hsteps Hl E. apply reachable_idle in Hr.
  set (s' := set_queues _ s) in *.
  assert (Hs' : idle s') by by apply (inv_cancel (ApiInvariant := idle_api)).
  assert (Hc' : cancelled r s').
  { split; [apply Hs'|]. cbn. unfold obj. rewrite lookup_alter_eq, Hu. simpl. eauto. }
  assert (Hboth : idle s0 /\ cancelled r s0).
  { clear Hl E. induction Hsteps as [|x y z Hxy _ IH]; [done|]. apply IH.
    - eapply idle_step; eauto.
    - by eapply cancelled_step. }
  destruct Hboth as [Hi Hc].
  destruct (loopState_performing _ _ _ Hi Hl) as [_ Hcur].
  destruct (nextCallback_ok _ _ _ _ Hcur E) as (_ & _ & x & _ & <- & Hcb & _).
  destruct (cancelled_loopState _ _ _ _ Hi Hc Hl) as (_ & _ & E'). congruence.
Qed.
End ProductionSpec.

(** ** Concrete runs *)

(** A clock that advances by one per reading. Callback 0 returns, callback 1 returns
    itself as a continuation, callback 2 throws inside [unstable_runWithPriority]. *)
Definition demoClock (n : nat) : Z := Z.of_nat n.
Definition demoCode (c : Z) (late : bool) : prog Z prodOp :=
  if (c =? 1)%Z then PReturn (Some 1%Z)
  else if (c =? 2)%Z then PRunWithPriority 1 (PThrow 7) (fun _ => PReturn None)
  else PReturn None.
#[local] Instance demoApi : SchedulerApi Z prodOp (PState Z) := productionApi demoClock.

(** A Normal task, a UserBlocking task and a timer. *)
Definition demoUser : prog Z prodOp :=
  PSchedule 3 (CbFun 0%Z) None (fun _ => PSchedule 2 (CbFun 2%Z) None (fun _ =>
    PSchedule 3 (CbFun 0%Z) (Some 40%Z) (fun _ => PReturn None))).
Definition demoState : PState Z := snd (run demoUser initState).

Lemma demo_reachable : reachable demoClock demoCode demoState.
Proof. eapply reachable_step; [apply reachable_init|apply step_user]. Qed.

Lemma demo_quiet c b : quiet (demoCode c b).
Proof. unfold demoCode. repeat case_bool; repeat constructor. Qed.

Lemma schedule_spec_witness :
  wfQueues (queues demoState) /\
  tasks (queues demoState) !! 4%Z = None /\
  timerQueue (queues (snd (scheduleCallback demoClock 3 (CbFun 0%Z) (Some 10%Z) demoState)))
    ≡ₚ [4; 3]%Z.
Proof.
  assert (Hq : wfQueues (queues demoState)) by apply (reachable_idle _ _ _ demo_reachable).
  destruct (schedule_spec demoClock 3 (CbFun 0%Z) (Some 10%Z) demoState 4
    (snd (scheduleCallback demoClock 3 (CbFun 0%Z) (Some 10%Z) demoState)) Hq eq_refl)
    as (_ & H1 & _ & H2).
  split; [exact Hq|]. split; [exact H1|exact (proj1 H2)].
Defined.

(** After one message the UserBlocking task threw; after a second one the queue is empty
    and a timeout is pending for the timer. *)
Definition demoTurn (s : PState Z) : PState Z :=
  match performWorkUntilDeadline demoClock demoCode 10 (set_posted 0 s) with
  | Some (_, s') => s'
  | None => s
  end.
Definition demoState2 : PState Z := demoTurn (demoTurn demoState).

Lemma demo_reachable2 : reachable demoClock demoCode demoState2.
Proof.
  eapply reachable_step; [eapply reachable_step; [apply demo_reachable|]|].
  - eapply (step_message demoClock demoCode 0 10); by vm_compute.
  - eapply (step_message demoClock demoCode 0 10); by vm_compute.
Qed.

Lemma no_stranded_work_witness :
  reachable demoClock demoCode demoState2
  /\ timerQueue (queues demoState2) = [3]%Z /\ (posted demoState2 = 0 -> timeouts demoState2 <> ∅).
Proof.
  pose proof (no_stranded_work demoClock demoCode demoState2 demo_reachable2) as (_ & _ & _ & H).
  split; [exact demo_reachable2|]. split; [by vm_compute|].
  intros Hp. destruct H as [E|E]; [by vm_compute|rewrite Hp in E; discriminate E|exact E].
Defined.

Lemma demo_loop : loopState demoClock demoCode demoState 3 (beginWork 3 (snd (now demoClock (set_needsPaint false (set_posted 0 demoState))))).
Proof. eapply (loop_begin demoClock demoCode demoState 0); by vm_compute. Qed.

Lemma work_loop_order_witness :
  let s := beginWork 3 (snd (now demoClock (set_needsPaint false (set_posted 0 demoState)))) in
  fst (nextCallback demoClock 3 s) = Invoke 2 2%Z false
  /\ (t_expirationTime (obj (tasks (queues s)) 2) < t_expirationTime (obj (tasks (queues s)) 1))%Z.
Proof.
  intros s. split; [by vm_compute|].
  pose proof (work_loop_order demoClock demoCode demoState 3 s (Invoke 2 2%Z false)
    (snd (nextCallback demoClock 3 s)) demo_reachable demo_loop ltac:(by vm_compute)) as H.
  destruct H as ((_ & H) & _). destruct (H 1%Z) as [Hlt|[_ Hle]].
  - assert (E : taskQueue (queues s) = [2; 1]%Z) by by vm_compute. rewrite E. right. left.
  - exact Hlt.
  - exfalso. by apply Hle.
Defined.

Lemma performWork_returns_witness :
  exists r, forall fuel', 4 <= fuel' ->
    performWorkUntilDeadline demoClock demoCode fuel' (set_posted 0 demoState) = Some r.
Proof.
  apply (performWork_returns demoClock demoCode demoState 4 demo_quiet demo_reachable).
  - by vm_compute.
  - apply (bool_decide_unpack _). by vm_compute.
Defined.

Lemma priority_restored_witness :
  currentPriorityLevel (snd (run (PRunWithPriority 2 (PNext (PThrow 1) (fun _ => PReturn None))
    (fun _ => PReturn None)) demoState)) = currentPriorityLevel demoState
  /\ currentPriorityLevel demoState2 = 3%Z.
Proof.
  destruct (priority_restored demoClock demoCode) as [H1 H2].
  split; [apply H1|exact (H2 _ demo_reachable2)].
Defined.

(** Task 2 is cancelled before the first message. *)
Lemma cancelled_never_invoked_witness :
  let s0 := set_queues (unstable_cancelCallback 2 (queues demoState)) demoState in
  let s1 := beginWork 3 (snd (now demoClock (set_needsPaint false (set_posted 0 s0)))) in
  currentTask s1 = Some 2%Z
  /\ nextCallback demoClock 3 s1 <> (Invoke 2 2%Z false, snd (nextCallback demoClock 3 s1)).
Proof.
  intros s0 s1. split; [by vm_compute|].
  apply (cancelled_never_invoked demoClock demoCode demoState s0 3 s1 2 2%Z false _ demo_reachable).
  - apply (bool_decide_unpack _). by vm_compute.
  - apply rtc_refl.
  - eapply (loop_begin demoClock demoCode s0 0); by vm_compute.
Defined.
