(* ===== verification/SchedMock.v ===== *)
(** * The mock scheduler (packages/scheduler/cjs/scheduler-unstable_mock.production.js)

    The module's variables are the fields of [MState], in the source's names.
    [scheduledCallback] is only ever [null] or [flushWork] and [scheduledTimeout] only
    ever [null] or [handleTimeout], so both are booleans. [consoleDisabled] is the test
    [console.log.name === 'disabledLog']. The heap, the queues and [advanceTimers] of this
    file are the same code as the production scheduler's (SchedHeap, SchedTask). *)
From S2P Require Import Prelude SchedHeap SchedTask SchedApi.

Section Mock.
Context {Cb : Type}.

Record MState := mkMState {
  queues : Queues Cb;
  currentTask : option Z;
  currentPriorityLevel : Z;
  isPerformingWork : bool;
  isHostCallbackScheduled : bool;
  isHostTimeoutScheduled : bool;
  currentMockTime : Z;
  scheduledCallback : bool;
  scheduledTimeout : bool;
  timeoutTime : Z;
  yieldedValues : option (list Z);
  expectedNumberOfYields : Z;
  didStop : bool;
  isFlushing : bool;
  needsPaint : bool;
  shouldYieldForPaint : bool;
  disableYieldValue : bool;
  consoleDisabled : bool }.

Definition set_queues (v : Queues Cb) (s : MState) : MState :=
  mkMState v (currentTask s) (currentPriorityLevel s) (isPerformingWork s)
    (isHostCallbackScheduled s) (isHostTimeoutScheduled s) (currentMockTime s)
    (scheduledCallback s) (scheduledTimeout s) (timeoutTime s) (yieldedValues s)
    (expectedNumberOfYields s) (didStop s) (isFlushing s) (needsPaint s) (shouldYieldForPaint s)
    (disableYieldValue s) (consoleDisabled s).
Definition set_currentTask (v : option Z) (s : MState) : MState :=
  mkMState (queues s) v (currentPriorityLevel s) (isPerformingWork s)
    (isHostCallbackScheduled s) (isHostTimeoutScheduled s) (currentMockTime s)
    (scheduledCallback s) (scheduledTimeout s) (timeoutTime s) (yieldedValues s)
    (expectedNumberOfYields s) (didStop s) (isFlushing s) (needsPaint s) (shouldYieldForPaint s)
    (disableYieldValue s) (consoleDisabled s).
Definition set_currentPriorityLevel (v : Z) (s : MState) : MState :=
  mkMState (queues s) (currentTask s) v (isPerformingWork s) (isHostCallbackScheduled s)
    (isHostTimeoutScheduled s) (currentMockTime s) (scheduledCallback s) (scheduledTimeout s)
    (timeoutTime s) (yieldedValues s) (expectedNumberOfYields s) (didStop s) (isFlushing s)
    (needsPaint s) (shouldYieldForPaint s) (disableYieldValue s) (consoleDisabled s).
Definition set_isPerformingWork (v : bool) (s : MState) : MState :=
  mkMState (queues s) (currentTask s) (currentPriorityLevel s) v (isHostCallbackScheduled s)
    (isHostTimeoutScheduled s) (currentMockTime s) (scheduledCallback s) (scheduledTimeout s)
    (timeoutTime s) (yieldedValues s) (expectedNumberOfYields s) (didStop s) (isFlushing s)
    (needsPaint s) (shouldYieldForPaint s) (disableYieldValue s) (consoleDisabled s).
Definition set_isHostCallbackScheduled (v : bool) (s : MState) : MState :=
  mkMState (queues s) (currentTask s) (currentPriorityLevel s) (isPerformingWork s) v
    (isHostTimeoutScheduled s) (currentMockTime s) (scheduledCallback s) (scheduledTimeout s)
    (timeoutTime s) (yieldedValues s) (expectedNumberOfYields s) (didStop s) (isFlushing s)
    (needsPaint s) (shouldYieldForPaint s) (disableYieldValue s) (consoleDisabled s).
Definition set_isHostTimeoutScheduled (v : bool) (s : MState) : MState :=
  mkMState (queues s) (currentTask s) (currentPriorityLevel s) (isPerformingWork s)
    (isHostCallbackScheduled s) v (currentMockTime s) (scheduledCallback s) (scheduledTimeout s)
    (timeoutTime s) (yieldedValues s) (expectedNumberOfYields s) (didStop s) (isFlushing s)
    (needsPaint s) (shouldYieldForPaint s) (disableYieldValue s) (consoleDisabled s).
Definition set_currentMockTime (v : Z) (s : MState) : MState :=
  mkMState (queues s) (currentTask s) (currentPriorityLevel s) (isPerformingWork s)
    (isHostCallbackScheduled s) (isHostTimeoutScheduled s) v (scheduledCallback s)
    (scheduledTimeout s) (timeoutTime s) (yieldedValues s) (expectedNumberOfYields s)
    (didStop s) (isFlushing s) (needsPaint s) (shouldYieldForPaint s) (disableYieldValue s)
    (consoleDisabled s).
Definition set_scheduledCallback (v : bool) (s : MState) : MState :=
  mkMState (queues s) (currentTask s) (currentPriorityLevel s) (isPerformingWork s)
    (isHostCallbackScheduled s) (isHostTimeoutScheduled s) (currentMockTime s) v
    (scheduledTimeout s) (timeoutTime s) (yieldedValues s) (expectedNumberOfYields s)
    (didStop s) (isFlushing s) (needsPaint s) (shouldYieldForPaint s) (disableYieldValue s)
    (consoleDisabled s).
Definition set_scheduledTimeout (v : bool) (s : MState) : MState :=
  mkMState (queues s) (currentTask s) (currentPriorityLevel s) (isPerformingWork s)
    (isHostCallbackScheduled s) (isHostTimeoutScheduled s) (currentMockTime s)
    (scheduledCallback s) v (timeoutTime s) (yieldedValues s) (expectedNumberOfYields s)
    (didStop s) (isFlushing s) (needsPaint s) (shouldYieldForPaint s) (disableYieldValue s)
    (consoleDisabled s).
Definition set_timeoutTime (v : Z) (s : MState) : MState :=
  mkMState (queues s) (currentTask s) (currentPriorityLevel s) (isPerformingWork s)
    (isHostCallbackScheduled s) (isHostTimeoutScheduled s) (currentMockTime s)
    (scheduledCallback s) (scheduledTimeout s) v (yieldedValues s) (expectedNumberOfYields s)
    (didStop s) (isFlushing s) (needsPaint s) (shouldYieldForPaint s) (disableYieldValue s)
    (consoleDisabled s).
Definition set_yieldedValues (v : option (list Z)) (s : MState) : MState :=
  mkMState (queues s) (currentTask s) (currentPriorityLevel s) (isPerformingWork s)
    (isHostCallbackScheduled s) (isHostTimeoutScheduled s) (currentMockTime s)
    (scheduledCallback s) (scheduledTimeout s) (timeoutTime s) v (expectedNumberOfYields s)
    (didStop s) (isFlushing s) (needsPaint s) (shouldYieldForPaint s) (disableYieldValue s)
    (consoleDisabled s).
Definition set_expectedNumberOfYields (v : Z) (s : MState) : MState :=
  mkMState (queues s) (currentTask s) (currentPriorityLevel s) (isPerformingWork s)
    (isHostCallbackScheduled s) (isHostTimeoutScheduled s) (currentMockTime s)
    (scheduledCallback s) (scheduledTimeout s) (timeoutTime s) (yieldedValues s) v (didStop s)
    (isFlushing s) (needsPaint s) (shouldYieldForPaint s) (disableYieldValue s)
    (consoleDisabled s).
Definition set_didStop (v : bool) (s : MState) : MState :=
  mkMState (queues s) (currentTask s) (currentPriorityLevel s) (isPerformingWork s)
    (isHostCallbackScheduled s) (isHostTimeoutScheduled s) (currentMockTime s)
    (scheduledCallback s) (scheduledTimeout s) (timeoutTime s) (yieldedValues s)
    (expectedNumberOfYields s) v (isFlushing s) (needsPaint s) (shouldYieldForPaint s)
    (disableYieldValue s) (consoleDisabled s).
Definition set_isFlushing (v : bool) (s : MState) : MState :=
  mkMState (queues s) (currentTask s) (currentPriorityLevel s) (isPerformingWork s)
    (isHostCallbackScheduled s) (isHostTimeoutScheduled s) (currentMockTime s)
    (scheduledCallback s) (scheduledTimeout s) (timeoutTime s) (yieldedValues s)
    (expectedNumberOfYields s) (didStop s) v (needsPaint s) (shouldYieldForPaint s)
    (disableYieldValue s) (consoleDisabled s).
Definition set_needsPaint (v : bool) (s : MState) : MState :=
  mkMState (queues s) (currentTask s) (currentPriorityLevel s) (isPerformingWork s)
    (isHostCallbackScheduled s) (isHostTimeoutScheduled s) (currentMockTime s)
    (scheduledCallback s) (scheduledTimeout s) (timeoutTime s) (yieldedValues s)
    (expectedNumberOfYields s) (didStop s) (isFlushing s) v (shouldYieldForPaint s)
    (disableYieldValue s) (consoleDisabled s).
Definition set_shouldYieldForPaint (v : bool) (s : MState) : MState :=
  mkMState (queues s) (currentTask s) (currentPriorityLevel s) (isPerformingWork s)
    (isHostCallbackScheduled s) (isHostTimeoutScheduled s) (currentMockTime s)
    (scheduledCallback s) (scheduledTimeout s) (timeoutTime s) (yieldedValues s)
    (expectedNumberOfYields s) (didStop s) (isFlushing s) (needsPaint s) v (disableYieldValue s)
    (consoleDisabled s).
Definition set_disableYieldValue (v : bool) (s : MState) : MState :=
  mkMState (queues s) (currentTask s) (currentPriorityLevel s) (isPerformingWork s)
    (isHostCallbackScheduled s) (isHostTimeoutScheduled s) (currentMockTime s)
    (scheduledCallback s) (scheduledTimeout s) (timeoutTime s) (yieldedValues s)
    (expectedNumberOfYields s) (didStop s) (isFlushing s) (needsPaint s) (shouldYieldForPaint s)
    v (consoleDisabled s).
Definition set_consoleDisabled (v : bool) (s : MState) : MState :=
  mkMState (queues s) (currentTask s) (currentPriorityLevel s) (isPerformingWork s)
    (isHostCallbackScheduled s) (isHostTimeoutScheduled s) (currentMockTime s)
    (scheduledCallback s) (scheduledTimeout s) (timeoutTime s) (yieldedValues s)
    (expectedNumberOfYields s) (didStop s) (isFlushing s) (needsPaint s) (shouldYieldForPaint s)
    (disableYieldValue s) v.

Definition initState : MState :=
  mkMState initQueues None 3 false false false 0 false false (-1) None (-1)
    false false false false false false.

(** Errors the module throws itself, and those of user code. *)
Inductive mockError : Type :=
| AlreadyFlushing
| CannotReset
| LogNotEmpty
| YieldedWhileFlushing
| UserError (error : Z).

(** The operations of this scheduler that user code may also call. *)
Inductive mockOp : Type :=
| Log (value : Z)
| ClearLog
| AdvanceTime (ms : Z)
| SetDisableYieldValue (newValue : bool).

Definition requestHostCallback (s : MState) : MState := set_scheduledCallback true s.

Definition requestHostTimeout (ms : Z) (s : MState) : MState :=
  set_timeoutTime (currentMockTime s + ms) (set_scheduledTimeout true s).

Definition cancelHostTimeout (s : MState) : MState :=
  set_timeoutTime (-1) (set_scheduledTimeout false s).

Definition requestFirstTimer (currentTime : Z) (s : MState) : MState :=
  match peek (timerQueue (queues s)) with
  | Some firstTimer =>
      requestHostTimeout (t_startTime (obj (tasks (queues s)) firstTimer) - currentTime) s
  | None => s
  end.

Definition handleTimeout (currentTime : Z) (s : MState) : MState :=
  let s := set_isHostTimeoutScheduled false s in
  let s := set_queues (advanceTimers currentTime (queues s)) s in
  if isHostCallbackScheduled s then s
  else
    match peek (taskQueue (queues s)) with
    | Some _ => requestHostCallback (set_isHostCallbackScheduled true s)
    | None => requestFirstTimer currentTime s
    end.

(** The condition of [shouldYieldToHost]. *)
Definition yieldCondition (s : MState) : bool :=
  ((expectedNumberOfYields s =? 0)%Z && bool_decide (yieldedValues s = None))
  || (negb (expectedNumberOfYields s =? -1)%Z
      && match yieldedValues s with
         | Some l => (expectedNumberOfYields s <=? Z.of_nat (length l))%Z
         | None => false
         end)
  || (shouldYieldForPaint s && needsPaint s).
Definition shouldYieldToHost (s : MState) : bool * MState :=
  if yieldCondition s then (true, set_didStop true s) else (false, s).

Definition log (value : Z) (s : MState) : MState :=
  if consoleDisabled s || disableYieldValue s then s
  else set_yieldedValues
         (Some match yieldedValues s with None => [value] | Some l => l ++ [value] end) s.

Definition unstable_clearLog (s : MState) : list Z * MState :=
  match yieldedValues s with
  | None => ([], s)
  | Some values => (values, set_yieldedValues None s)
  end.

Definition unstable_advanceTime (ms : Z) (s : MState) : MState :=
  if consoleDisabled s || disableYieldValue s then s
  else
    let s := set_currentMockTime (currentMockTime s + ms) s in
    if scheduledTimeout s && (timeoutTime s <=? currentMockTime s)%Z then
      let s := handleTimeout (currentMockTime s) s in
      set_scheduledTimeout false (set_timeoutTime (-1) s)
    else s.

Definition reset (s : MState) : option mockError * MState :=
  if isFlushing s then (Some CannotReset, s)
  else
    let s := set_currentMockTime 0 s in
    let s := set_scheduledCallback false s in
    let s := set_scheduledTimeout false s in
    let s := set_timeoutTime (-1) s in
    let s := set_yieldedValues None s in
    let s := set_expectedNumberOfYields (-1) s in
    let s := set_didStop false s in
    let s := set_isFlushing false s in
    (None, set_needsPaint false s).

Definition unstable_hasPendingWork (s : MState) : bool := scheduledCallback s.

(** The tails of [unstable_scheduleCallback]. *)
Definition scheduleDelayed (currentTime : Z) (r : Z) (startTime : Z) (s : MState) : MState :=
  let q := set_tasks (alter (set_sortIndex startTime) r (tasks (queues s))) (queues s) in
  let s := set_queues (pushTimer r q) s in
  if bool_decide (peek (taskQueue (queues s)) = None)
     && bool_decide (peek (timerQueue (queues s)) = Some r)
  then
    let s := if isHostTimeoutScheduled s then cancelHostTimeout s
             else set_isHostTimeoutScheduled true s in
    requestHostTimeout (startTime - currentTime) s
  else s.
Definition scheduleNow (r : Z) (expirationTime : Z) (s : MState) : MState :=
  let q := set_tasks (alter (set_sortIndex expirationTime) r (tasks (queues s))) (queues s) in
  let s := set_queues (pushTask r q) s in
  if negb (isHostCallbackScheduled s) && negb (isPerformingWork s)
  then requestHostCallback (set_isHostCallbackScheduled true s) else s.

Definition scheduleCallback (priorityLevel : Z) (callback : cbvalue Cb) (delay : option Z)
    (s : MState) : Z * MState :=
  let currentTime := currentMockTime s in
  let startTime := startTime_of currentTime delay in
  let t := newTask (queues s) priorityLevel callback startTime in
  let '(r, q) := allocTask t (queues s) in
  let s := set_queues q s in
  (r, if (currentTime <? startTime)%Z then scheduleDelayed currentTime r startTime s
      else scheduleNow r (t_expirationTime t) s).

#[export] Instance mockApi : SchedulerApi Cb mockOp MState := {
  unstable_now := fun s => (currentMockTime s, s);
  unstable_shouldYield := shouldYieldToHost;
  getPriority := currentPriorityLevel;
  setPriority := set_currentPriorityLevel;
  runWithPriorityLevel := unstable_runWithPriority_level;
  unstable_scheduleCallback := scheduleCallback;
  cancelCallback := fun r s => set_queues (unstable_cancelCallback r (queues s)) s;
  unstable_requestPaint := set_needsPaint true;
  extOperation := fun op s =>
    (None, match op with
           | Log v => log v s
           | ClearLog => snd (unstable_clearLog s)
           | AdvanceTime ms => unstable_advanceTime ms s
           | SetDisableYieldValue b => set_disableYieldValue b s
           end) }.

Context (code : Cb -> bool -> prog Cb mockOp).

Inductive decision : Type :=
| Exhausted
| Yield
| Discard
| Invoke (task : Z) (callback : Cb) (didUserCallbackTimeout : bool).

Definition peekTask (s : MState) : MState :=
  set_currentTask (peek (taskQueue (queues s))) s.

(** The condition of the loop of [workLoop], its [break], and the test of the callback. *)
Definition nextCallback (hasTimeRemaining : bool) (currentTime : Z) (s : MState)
    : decision * MState :=
  match currentTask s with
  | None => (Exhausted, s)
  | Some r =>
      let t := obj (tasks (queues s)) r in
      let '(stop, s) :=
        if (currentTime <? t_expirationTime t)%Z then
          if negb hasTimeRemaining then (true, s) else shouldYieldToHost s
        else (false, s) in
      if stop then (Yield, s)
      else
        match t_callback t with
        | CbFun callback => (Invoke r callback (t_expirationTime t <=? currentTime)%Z, s)
        | _ => (Discard, s)
        end
  end.

(** How an iteration ends: the loop returns ([inl (inr hasMoreWork)]), a callback throws
    ([inl (inl e)]), or the loop goes on at a new current time ([inr]). *)
Definition invokeCallback (r : Z) (callback : Cb) (didUserCallbackTimeout : bool) (s : MState)
    : ((Z + bool) + Z) * MState :=
  let s := set_queues (unstable_cancelCallback r (queues s)) s in
  let s := set_currentPriorityLevel (t_priorityLevel (obj (tasks (queues s)) r)) s in
  let '(o, s) := run (code callback didUserCallbackTimeout) s in
  match o with
  | Threw e => (inl (inl e), s)
  | Returned continuationCallback =>
      let currentTime := currentMockTime s in
      match continuationCallback with
      | Some c =>
          let m := alter (set_callback (CbFun c)) r (tasks (queues s)) in
          let s := set_queues (advanceTimers currentTime (set_tasks m (queues s))) s in
          if shouldYieldForPaint s then (inl (inr true), set_needsPaint true s)
          else (inr currentTime, peekTask s)
      | None =>
          let q := queues s in
          let q := if bool_decide (peek (taskQueue q) = Some r) then popTask q else q in
          let s := set_queues (advanceTimers currentTime q) s in
          (inr currentTime, peekTask s)
      end
  end.

Definition workIteration (hasTimeRemaining : bool) (currentTime : Z) (s : MState)
    : ((Z + bool) + Z) * MState :=
  let '(d, s) := nextCallback hasTimeRemaining currentTime s in
  match d with
  | Exhausted => (inl (inr false), requestFirstTimer currentTime s)
  | Yield => (inl (inr true), s)
  | Discard => (inr currentTime, peekTask (set_queues (popTask (queues s)) s))
  | Invoke r callback didTimeout => invokeCallback r callback didTimeout s
  end.

Fixpoint workLoopIter (fuel : nat) (hasTimeRemaining : bool) (currentTime : Z) (s : MState)
    : option ((Z + bool) * MState) :=
  match fuel with
  | O => None
  | S fuel =>
      match workIteration hasTimeRemaining currentTime s with
      | (inl r, s) => Some (r, s)
      | (inr currentTime, s) => workLoopIter fuel hasTimeRemaining currentTime s
      end
  end.
Definition workLoop (fuel : nat) (hasTimeRemaining : bool) (initialTime : Z) (s : MState)
    : option ((Z + bool) * MState) :=
  workLoopIter fuel hasTimeRemaining initialTime
    (peekTask (set_queues (advanceTimers initialTime (queues s)) s)).

Definition flushWork (fuel : nat) (hasTimeRemaining : bool) (initialTime : Z) (s : MState)
    : option ((Z + bool) * MState) :=
  let s := set_isHostCallbackScheduled false s in
  let s := if isHostTimeoutScheduled s
           then cancelHostTimeout (set_isHostTimeoutScheduled false s) else s in
  let s := set_isPerformingWork true s in
  let previousPriorityLevel := currentPriorityLevel s in
  match workLoop fuel hasTimeRemaining initialTime s with
  | None => None
  | Some (r, s) =>
      Some (r, set_isPerformingWork false
                 (set_currentPriorityLevel previousPriorityLevel (set_currentTask None s)))
  end.

(** [do hasMoreWork = cb(true, currentMockTime) while (hasMoreWork && !stop)], and
    clearing the callback when no work is left. *)
Fixpoint flushLoop (fuel : nat) (stop : MState -> bool) (s : MState)
    : option (option Z * MState) :=
  match fuel with
  | O => None
  | S fuel' =>
      match flushWork fuel true (currentMockTime s) s with
      | None => None
      | Some (inl e, s) => Some (Some e, s)
      | Some (inr hasMoreWork, s) =>
          if hasMoreWork then
            if stop s then Some (None, s) else flushLoop fuel' stop s
          else Some (None, set_scheduledCallback false s)
      end
  end.

(** The [finally] of a flush function, around its outcome. *)
Definition finally (cleanup : MState -> MState) (r : option (option Z * MState)) {B : Type}
    (value : B) : option ((mockError + B) * MState) :=
  match r with
  | None => None
  | Some (Some e, s) => Some (inl (UserError e), cleanup s)
  | Some (None, s) => Some (inr value, cleanup s)
  end.

Definition unstable_flushAllWithoutAsserting (fuel : nat) (s : MState)
    : option ((mockError + bool) * MState) :=
  if isFlushing s then Some (inl AlreadyFlushing, s)
  else if scheduledCallback s then
    finally (set_isFlushing false)
      (flushLoop fuel (fun _ => false) (set_isFlushing true s)) true
  else Some (inr false, s).

Definition unstable_flushAll (fuel : nat) (s : MState) : option ((mockError + unit) * MState) :=
  match yieldedValues s with
  | Some _ => Some (inl LogNotEmpty, s)
  | None =>
      match unstable_flushAllWithoutAsserting fuel s with
      | None => None
      | Some (inl e, s) => Some (inl e, s)
      | Some (inr _, s) =>
          match yieldedValues s with
          | Some _ => Some (inl YieldedWhileFlushing, s)
          | None => Some (inr tt, s)
          end
      end
  end.

Definition unstable_flushExpired (fuel : nat) (s : MState) : option ((mockError + unit) * MState) :=
  if isFlushing s then Some (inl AlreadyFlushing, s)
  else if scheduledCallback s then
    let s := set_isFlushing true s in
    match flushWork fuel false (currentMockTime s) s with
    | None => None
    | Some (inl e, s) => Some (inl (UserError e), set_isFlushing false s)
    | Some (inr hasMoreWork, s) =>
        let s := if hasMoreWork then s else set_scheduledCallback false s in
        Some (inr tt, set_isFlushing false s)
    end
  else Some (inr tt, s).

Definition unstable_flushNumberOfYields (fuel : nat) (count : Z) (s : MState)
    : option ((mockError + unit) * MState) :=
  if isFlushing s then Some (inl AlreadyFlushing, s)
  else if scheduledCallback s then
    finally (fun s => set_isFlushing false (set_didStop false (set_expectedNumberOfYields (-1) s)))
      (flushLoop fuel didStop (set_isFlushing true (set_expectedNumberOfYields count s))) tt
  else Some (inr tt, s).

Definition unstable_flushUntilNextPaint (fuel : nat) (s : MState)
    : option ((mockError + bool) * MState) :=
  if isFlushing s then Some (inl AlreadyFlushing, s)
  else if scheduledCallback s then
    finally (fun s => set_isFlushing false (set_didStop false (set_shouldYieldForPaint false s)))
      (flushLoop fuel didStop
         (set_isFlushing true (set_needsPaint false (set_shouldYieldForPaint true s)))) false
  else Some (inr false, s).
End Mock.
Arguments MState Cb : clear implicits.
