(* ===== verification/SchedMockSpec.v ===== *)
(** * What the mock scheduler guarantees, and where it loses work *)
From S2P Require Import Prelude SchedHeap SchedTask SchedApi SchedMock.

Section MockSpec.
Context {Cb : Type} (code : Cb -> bool -> prog Cb mockOp).
#[local] Instance api : SchedulerApi Cb mockOp (MState Cb) := mockApi.
Implicit Types s : MState Cb.

(** ** Invariants of a flush *)

(** The flush settings user code cannot change; [didStop] is only set by a true
    [yieldCondition]. *)
Record flushing (expected : Z) (forPaint : bool) s : Prop := {
  fl_wf : wfQueues (queues s);
  fl_flag : isFlushing s = true;
  fl_expected : expectedNumberOfYields s = expected;
  fl_paint : shouldYieldForPaint s = forPaint;
  fl_stop : expected = (-1)%Z -> forPaint = false -> didStop s = false }.

Lemma flushing_same n b s s' :
  flushing n b s -> wfQueues (queues s') ->
  (isFlushing s', expectedNumberOfYields s', shouldYieldForPaint s', didStop s')
  = (isFlushing s, expectedNumberOfYields s, shouldYieldForPaint s, didStop s) ->
  flushing n b s'.
Proof.
  intros [] Hq E. injection E as F1 F2 F3 F4. split; [done|by rewrite ?F1, ?F2, ?F3, ?F4; auto..].
Qed.

Lemma flushing_schedule n b l c d s :
  flushing n b s -> flushing n b (snd (scheduleCallback l c d s)).
Proof.
  intros Hs. unfold scheduleCallback. cbn -[allocTask newTask].
  set (t := newTask _ _ _ _). destruct (allocTask t (queues s)) as [r1 q1] eqn:Ha.
  destruct (wf_scheduleTimer (queues s) t r1 q1) as (H1 & _); auto; [apply Hs|].
  destruct (wf_scheduleTask (queues s) t r1 q1) as (H2 & _); auto; [apply Hs|].
  apply (flushing_same n b s); [done|..]; unfold scheduleDelayed, scheduleNow;
    by repeat case_bool.
Qed.

Lemma handleTimeout_same n b t s : flushing n b s -> flushing n b (handleTimeout t s).
Proof.
  intros Hs. pose proof (wf_advance t _ (fl_wf _ _ _ Hs)).
  unfold handleTimeout, requestFirstTimer. cbn -[advanceTimers].
  case_bool; [by apply (flushing_same n b s)|].
  destruct (peek (taskQueue _)); [by apply (flushing_same n b s)|].
  destruct (peek (timerQueue _)); by apply (flushing_same n b s).
Qed.

Lemma yieldCondition_never s :
  expectedNumberOfYields s = (-1)%Z -> shouldYieldForPaint s = false -> yieldCondition s = false.
Proof. unfold yieldCondition. intros -> ->. done. Qed.

Lemma flushing_shouldYield n b s : flushing n b s -> flushing n b (snd (shouldYieldToHost s)).
Proof.
  intros Hs. unfold shouldYieldToHost. destruct (yieldCondition s) eqn:E; [|done].
  destruct Hs as [H1 H2 H3 H4 H5]. split; simpl; auto. intros. subst n b.
  by rewrite yieldCondition_never in E.
Qed.

#[export] Instance flushing_api n b : ApiInvariant (S := MState Cb) (flushing n b).
Proof.
  split; simpl; try done.
  - apply flushing_shouldYield.
  - intros l s Hs. apply (flushing_same n b s); auto. apply Hs.
  - intros. by apply flushing_schedule.
  - intros t s Hs. apply (flushing_same n b s); auto. apply wf_cancel, Hs.
  - intros s Hs. apply (flushing_same n b s); auto. apply Hs.
  - intros [v| |ms|nv] s Hs; cbn -[handleTimeout].
    + unfold log. case_bool; [done|]. apply (flushing_same n b s); auto. apply Hs.
    + unfold unstable_clearLog. case_match; [|done].
      apply (flushing_same n b s); auto. apply Hs.
    + unfold unstable_advanceTime. cbn -[handleTimeout]. case_bool; [done|].
      set (s1 := set_currentMockTime _ s).
      assert (H1 : flushing n b s1) by (apply (flushing_same n b s); auto; apply Hs).
      case_bool; [|done].
      pose proof (handleTimeout_same n b (currentMockTime s + ms) s1 H1) as H2.
      eapply (flushing_same n b _ _ H2); [|done]. apply H2.
    + apply (flushing_same n b s); auto. apply Hs.
Qed.

Definition loopExit (res : (Z + bool) + Z) s : Prop :=
  match res with
  | inl (inr false) => taskQueue (queues s) = []
  | inr _ => currentTask s = peek (taskQueue (queues s))
  | _ => True
  end.

(** The choice of the loop, as in the production scheduler. *)
Lemma mock_nextCallback_ok h t s d s1 :
  currentTask s = peek (taskQueue (queues s)) -> nextCallback h t s = (d, s1) ->
  queues s1 = queues s /\ (forall n b, flushing n b s -> flushing n b s1) /\
  match d with
  | Exhausted => taskQueue (queues s) = []
  | _ => exists r, peek (taskQueue (queues s)) = Some r /\
      let task := obj (tasks (queues s)) r in
      let stops := negb h || yieldCondition s in
      match d with
      | Yield => (t < t_expirationTime task)%Z /\ stops = true
      | Discard => s1 = s /\ match t_callback task with CbFun _ => False | _ => True end
      | Invoke r' c didTimeout =>
          r' = r /\ t_callback task = CbFun c /\ didTimeout = (t_expirationTime task <=? t)%Z
          /\ (didTimeout = false -> stops = false) /\ s1 = s
      | Exhausted => False
      end
  end.
Proof.
  intros Hcur. unfold nextCallback. destruct (currentTask s) as [r|] eqn:Er.
  2: { symmetry in Hcur. apply peek_None in Hcur. by intros [= <- <-]. }
  pose proof (fun n b => flushing_shouldYield n b s) as Hy. unfold shouldYieldToHost in *.
  destruct (t <? _)%Z eqn:Et; [destruct h; simpl; [destruct (yieldCondition s) eqn:Ey|]|];
    bools; try (destruct (t_callback _) eqn:Ec); intros [= <- <-];
    (split; [done|]; split; [auto|]); exists r; rewrite ?Ec, ?Ey; splits; try done;
    intros E; bools; try lia.
Qed.

Lemma flushing_invoke n b r c late s res s' :
  flushing n b s -> invokeCallback code r c late s = (res, s') ->
  flushing n b s' /\ loopExit res s'.
Proof.
  intros Hs. unfold invokeCallback. set (s2 := set_currentPriorityLevel _ _).
  assert (H2 : flushing n b s2) by (apply (flushing_same n b s); auto; apply wf_cancel, Hs).
  pose proof (run_invariant (flushing n b) (code c late) s2 H2) as H3.
  destruct (run _ s2) as [[[c'|]|e] s3]; simpl in H3; [| |by intros [= <- <-]].
  - set (q := advanceTimers _ _).
    assert (Hq : wfQueues q) by (apply wf_advance, wf_alter; auto; apply H3).
    case_bool; intros [= <- <-]; (split; [|done]); by apply (flushing_same n b s3).
  - intros [= <- <-]. split; [|done]. apply (flushing_same n b s3); [done| |done].
    cbn -[advanceTimers popTask]. apply wf_advance.
    case_bool; bools; [|apply H3]. eapply wf_popTask; [apply H3|done].
Qed.

Lemma flushing_iteration n b h t s res s' :
  flushing n b s -> currentTask s = peek (taskQueue (queues s)) ->
  workIteration code h t s = (res, s') -> flushing n b s' /\ loopExit res s'.
Proof.
  intros Hs Hcur. unfold workIteration. destruct (nextCallback h t s) as [d s1] eqn:E.
  destruct (mock_nextCallback_ok h t s d s1 Hcur E) as (Hq & Hp & Hd). specialize (Hp n b Hs).
  destruct d as [| | |r c late]; intros Heq; [injection Heq as <- <-..|by eapply flushing_invoke].
  - rewrite <- Hq in Hd. unfold requestFirstTimer. case_match; [|done].
    split; [apply (flushing_same n b s1); auto; apply Hp|done].
  - done.
  - destruct Hd as (r & Hr & _). split; [|done]. apply (flushing_same n b s1); auto.
    eapply wf_popTask; [apply Hp|by rewrite Hq].
Qed.

Lemma flushing_workLoopIter n b fuel h t s r s' :
  flushing n b s -> currentTask s = peek (taskQueue (queues s)) ->
  workLoopIter code fuel h t s = Some (r, s') -> flushing n b s' /\ loopExit (inl r) s'.
Proof.
  revert t s. induction fuel as [|fuel IH]; intros t s Hs Hcur; simpl; [done|].
  destruct (workIteration code h t s) as [[r1|t1] s1] eqn:E;
    destruct (flushing_iteration _ _ _ _ _ _ _ Hs Hcur E) as [H1 H2].
  - intros [= <- <-]. done.
  - by apply IH.
Qed.

Lemma flushing_flushWork n b fuel h t s r s' :
  flushing n b s -> flushWork code fuel h t s = Some (r, s') ->
  flushing n b s' /\ (r = inr false -> taskQueue (queues s') = []).
Proof.
  intros Hs. unfold flushWork, workLoop. cbn -[advanceTimers].
  set (s1 := set_isPerformingWork true _).
  assert (H1 : flushing n b s1) by (unfold s1; case_bool; (apply (flushing_same n b s); auto; apply Hs)).
  set (s2 := peekTask _).
  assert (H2 : flushing n b s2) by (apply (flushing_same n b s1); auto; apply wf_advance, H1).
  destruct (workLoopIter _ _ _ _ _) as [[r1 s3]|] eqn:E; [|done].
  destruct (flushing_workLoopIter n b _ _ _ _ _ _ H2 eq_refl E) as [H3 H4].
  intros [= <- <-]. split; [apply (flushing_same n b s3); auto; apply H3|].
  intros ->. exact H4.
Qed.

Lemma flushing_flushLoop n b fuel stop s e s' :
  flushing n b s -> flushLoop code fuel stop s = Some (e, s') ->
  flushing n b s' /\
  (e = None -> (exists s0, stop s0 = true) \/
     (taskQueue (queues s') = [] /\ scheduledCallback s' = false)).
Proof.
  revert s. induction fuel as [|fuel IH]; intros s Hs; [done|]. cbn [flushLoop].
  destruct (flushWork code (S fuel) true (currentMockTime s) s) as [[[e1|hm] s1]|] eqn:E; [..|done];
    destruct (flushing_flushWork _ _ _ _ _ _ _ _ Hs E) as [H1 H2].
  - by intros [= <- <-].
  - destruct hm; [destruct (stop s1) eqn:Es|].
    + intros [= <- <-]. split; eauto.
    + by apply IH.
    + intros [= <- <-]. split; [apply (flushing_same n b s1); auto; apply H1|]. auto.
Qed.

(** No flush is running and the flush settings have their initial values. *)
Definition settled s : Prop :=
  wfQueues (queues s) /\ isFlushing s = false /\ expectedNumberOfYields s = (-1)%Z
  /\ didStop s = false /\ shouldYieldForPaint s = false.

Lemma settled_flushing s n b s1 :
  settled s -> queues s1 = queues s -> isFlushing s1 = true ->
  expectedNumberOfYields s1 = n -> shouldYieldForPaint s1 = b -> didStop s1 = false ->
  flushing n b s1.
Proof. intros (Hq & _) E F1 F2 F3 F4. split; auto. by rewrite E. Qed.

(** ** Properties *)

(** a flush is exclusive and leaves no trace in the flush settings. While one runs,
    each flush function throws "Already flushing work." and changes nothing; once one is
    over, by returning or by an exception of user code, [isFlushing],
    [expectedNumberOfYields], [didStop] and [shouldYieldForPaint] have their initial
    values and the queues are well formed. *)
Theorem flush_exclusive fuel count s :
  (isFlushing s = true ->
     unstable_flushAllWithoutAsserting code fuel s = Some (inl AlreadyFlushing, s)
     /\ unstable_flushExpired code fuel s = Some (inl AlreadyFlushing, s)
     /\ unstable_flushNumberOfYields code fuel count s = Some (inl AlreadyFlushing, s)
     /\ unstable_flushUntilNextPaint code fuel s = Some (inl AlreadyFlushing, s)) /\
  (settled s ->
     (forall r s', unstable_flushAllWithoutAsserting code fuel s = Some (r, s') -> settled s')
     /\ (forall r s', unstable_flushExpired code fuel s = Some (r, s') -> settled s')
     /\ (forall r s', unstable_flushNumberOfYields code fuel count s = Some (r, s') -> settled s')
     /\ (forall r s', unstable_flushUntilNextPaint code fuel s = Some (r, s') -> settled s')).
Proof.
  unfold unstable_flushAllWithoutAsserting, unstable_flushExpired,
    unstable_flushNumberOfYields, unstable_flushUntilNextPaint.
  split; [by intros ->|]. intros Hs. pose proof Hs as (_ & Hf & He & Hd & Hp). rewrite Hf.
  assert (Hloop : forall n b stop s1 clean B (v : B) r s',
    queues s1 = queues s -> isFlushing s1 = true -> expectedNumberOfYields s1 = n ->
    shouldYieldForPaint s1 = b -> didStop s1 = false ->
    (forall s2, flushing n b s2 -> settled (clean s2)) ->
    finally clean (flushLoop code fuel stop s1) v = Some (r, s') -> settled s').
  { intros n b stop s1 clean B v r s' E1 E2 E3 E4 E5 Hc.
    pose proof (settled_flushing s n b s1 Hs E1 E2 E3 E4 E5) as H1. unfold finally.
    destruct (flushLoop _ _ _ _) as [[[e|] s2]|] eqn:E; intros [= <- <-];
      apply Hc; by eapply flushing_flushLoop. }
  splits; intros r s'; destruct (scheduledCallback s); try by intros [= <- <-].
  - eapply (Hloop (-1)%Z false); auto. intros s2 []. unfold settled; split_and!; simpl; auto.
  - destruct (flushWork _ _ _ _ _) as [[[e|hm] s2]|] eqn:E; [..|done]; intros [= <- <-];
      apply (flushing_flushWork (-1) false) in E as [[] _];
      try (by apply (settled_flushing s)); try destruct hm; unfold settled; split_and!; simpl; auto.
  - eapply (Hloop count false); auto. intros s2 []. unfold settled; split_and!; simpl; auto.
  - eapply (Hloop (-1)%Z true); auto. intros s2 []. unfold settled; split_and!; simpl; auto.
Qed.

(** [unstable_flushAllWithoutAsserting] flushes everything: whenever it returns,
    whatever the callbacks scheduled, cancelled or yielded meanwhile, no task is queued
    and no work is pending. *)
Theorem flushAll_drains fuel s v s' :
  settled s -> scheduledCallback s = true ->
  unstable_flushAllWithoutAsserting code fuel s = Some (inr v, s') ->
  v = true /\ taskQueue (queues s') = [] /\ unstable_hasPendingWork s' = false.
Proof.
  intros Hs Hcb. pose proof Hs as (_ & Hf & He & Hd & Hp).
  unfold unstable_flushAllWithoutAsserting, finally. rewrite Hf, Hcb.
  pose proof (settled_flushing s (-1) false (set_isFlushing true s) Hs eq_refl eq_refl He Hp Hd) as H1.
  destruct (flushLoop _ _ _ _) as [[[e|] s2]|] eqn:E; intros [= <- <-].
  apply (flushing_flushLoop _ _ _ _ _ _ _ H1) in E as [_ [[? ?]|[E1 E2]]]; [done..|].
  splits; auto.
Qed.

(** the mock work loop invokes the callback of the task that expires first (the
    oldest of those) and tells it whether it expired; without time remaining, as in
    [unstable_flushExpired], it invokes expired tasks only, and with time remaining it
    stops before a task that has not expired exactly when [shouldYieldToHost] says so. *)
Theorem mock_loop_order h t s d s1 :
  wfQueues (queues s) -> currentTask s = peek (taskQueue (queues s)) ->
  nextCallback h t s = (d, s1) ->
  let expiration r := t_expirationTime (obj (tasks (queues s)) r) in
  match d with
  | Invoke r c late =>
      r ∈ taskQueue (queues s) /\ t_callback (obj (tasks (queues s)) r) = CbFun c
      /\ late = (expiration r <=? t)%Z
      /\ (late = false -> h = true /\ yieldCondition s = false)
      /\ forall r', r' ∈ taskQueue (queues s) ->
           (expiration r < expiration r')%Z \/ (expiration r = expiration r' /\ r <= r')%Z
  | Yield => (h = false \/ yieldCondition s = true)
             /\ forall r', r' ∈ taskQueue (queues s) -> (t < expiration r')%Z
  | Discard => taskQueue (queues s) <> []
  | Exhausted => taskQueue (queues s) = []
  end.
Proof.
  intros Hq Hcur Hd expiration.
  destruct (mock_nextCallback_ok _ _ _ _ _ Hcur Hd) as (_ & _ & H).
  destruct d as [| | |r1 c late]; [done|destruct H as (r & Hpk & H)..]; simpl in H.
  - destruct H as [H1 H2]. split; [destruct h; auto|]. intros r' Hr'.
    pose proof (first_task_least _ _ _ Hq Hpk Hr'). unfold expiration. lia.
  - intros E. by rewrite E in Hpk.
  - destruct H as (-> & H1 & H2 & H3 & _). splits; auto.
    + destruct (taskQueue (queues s)); simplify_eq/=. left.
    + intros E. specialize (H3 E). by destruct h.
    + intros r' Hr'. by apply first_task_least.
Qed.
End MockSpec.

(** ** Flushing callbacks that log *)

Section Logging.
#[local] Instance apiZ : SchedulerApi Z mockOp (MState Z) := mockApi.
Implicit Types s : MState Z.

(** Every callback yields its own value, as tests do with [Scheduler.log]. *)
Definition logCode (c : Z) (late : bool) : prog Z mockOp := PExt (Log c) (PReturn None).

Definition callbacksOf (m : gmap Z (Task Z)) (l : list Z) : list Z :=
  omap (fun r => match t_callback (obj m r) with CbFun c => Some c | _ => None end) l.

Definition logged s : list Z := default [] (yieldedValues s).

Record logReady (l : list Z) s : Prop := {
  lr_wf : wfQueues (queues s);
  lr_timers : timerQueue (queues s) = [];
  lr_rel : pqRel (tasks (queues s)) (taskQueue (queues s)) l;
  lr_current : currentTask s = peek (taskQueue (queues s));
  lr_expected : expectedNumberOfYields s = (-1)%Z;
  lr_paint : shouldYieldForPaint s = false;
  lr_log : consoleDisabled s || disableYieldValue s = false }.

Lemma sorted_sameKeys (m m' : gmap Z (Task Z)) l :
  sameKeys m m' l -> StronglySorted (le (compare_refs m)) l -> StronglySorted (le (compare_refs m')) l.
Proof.
  intros Hk. induction 1 as [|x l Hs IH Hx]; constructor.
  - apply IH. intros r Hr. apply Hk. by right.
  - rewrite Forall_forall in *. intros y Hy. specialize (Hx y Hy).
    apply le_refs in Hx. apply le_refs.
    destruct (Hk x) as [-> ->]; [left|]. destruct (Hk y) as [-> ->]; [by right|]. done.
Qed.

Lemma cancel_sameKeys (m : gmap Z (Task Z)) r h : sameKeys m (alter (set_callback CbNull) r m) h.
Proof. intros x _. by apply obj_alter_keep. Qed.

(** Taking the first task off a ready state, whose store may have lost its callback. *)
Lemma pqRel_pop (q : Queues Z) r l :
  wfQueues q -> pqRel (tasks q) (taskQueue q) (r :: l) ->
  peek (taskQueue q) = Some r /\ wfQueues (popTask q)
  /\ pqRel (tasks (popTask q)) (taskQueue (popTask q)) l /\ r ∉ l.
Proof.
  intros Hq Hrel. assert (Hpk : peek (taskQueue q) = Some r).
  { rewrite (pqRel_peek (tasks q) _ (r :: l)); [done| |done]. intros x Hx.
    apply (wf_id q Hq). apply wf_lookup; [done|]. set_solver. }
  destruct (wf_popTask q r Hq Hpk) as [Hwf Hp]. destruct Hrel as (Ho & Hl & Hs).
  rewrite Hp in Hl. apply (inj (cons r)) in Hl. apply StronglySorted_inv in Hs as [Hs _].
  split; [done|]. split; [done|]. split; [split; [apply Hwf|done]|].
  rewrite Hl. pose proof (wf_nodup _ Hq) as Hn. rewrite Hp in Hn.
  apply NoDup_app in Hn as [Hn _]. by apply NoDup_cons in Hn as [? _].
Qed.

Lemma callbacksOf_cancel (m : gmap Z (Task Z)) r l : r ∉ l ->
  callbacksOf (alter (set_callback CbNull) r m) l = callbacksOf m l.
Proof.
  intros Hr. unfold callbacksOf. apply list_omap_ext, Forall2_same_length_lookup_2; [done|].
  intros i x y Hx Hy. simplify_eq. apply list_elem_of_lookup_2 in Hx.
  rewrite obj_alter_ne; [done|]. by intros ->.
Qed.

Lemma workLoop_logs l fuel t s :
  length l < fuel -> logReady l s ->
  exists s', workLoopIter logCode fuel true t s = Some (inr false, s')
    /\ logged s' = logged s ++ callbacksOf (tasks (queues s)) l /\ taskQueue (queues s') = [].
Proof.
  revert fuel t s. induction l as [|r l IH]; intros fuel t s Hf [Hq Htm Hrel Hcur He Hp Hlog];
    (destruct fuel as [|fuel]; [simpl in Hf; lia|]); cbn [workLoopIter];
    unfold workIteration, nextCallback.
  - destruct Hrel as (_ & Hl & _). apply Permutation_nil_l in Hl. rewrite <- Hl in Hcur.
    cbn in Hcur. rewrite Hcur. eexists. unfold requestFirstTimer. cbn. rewrite Htm. cbn.
    split; [done|]. by rewrite app_nil_r.
  - destruct (pqRel_pop _ _ _ Hq Hrel) as (Hpk & Hwf & Hrel' & Hr). rewrite Hcur, Hpk.
    assert (Hy : shouldYieldToHost s = (false, s)).
    { unfold shouldYieldToHost. by rewrite yieldCondition_never. }
    assert (E : (if (t <? t_expirationTime (obj (tasks (queues s)) r))%Z
      then if negb true then (true, s) else shouldYieldToHost s else (false, s)) = (false, s)).
    { rewrite Hy. by case_bool. }
    rewrite E. cbn [callbacksOf omap list_omap]. fold (callbacksOf (tasks (queues s)) l).
    assert (Hskip : forall s1, queues s1 = popTask (queues s) ->
      (expectedNumberOfYields s1, shouldYieldForPaint s1, consoleDisabled s1, disableYieldValue s1)
      = (expectedNumberOfYields s, shouldYieldForPaint s, consoleDisabled s, disableYieldValue s) ->
      logReady l (peekTask s1)).
    { intros s1 Eq F. injection F as F1 F2 F3 F4.
      split; simpl; rewrite ?Eq, ?F1, ?F2, ?F3, ?F4; auto. }
    destruct (t_callback (obj (tasks (queues s)) r)) as [|c|] eqn:Ec.
    + destruct (IH fuel t (peekTask (set_queues (popTask (queues s)) s))) as (s' & H1 & H2 & H3);
        [simpl in Hf; lia|by apply Hskip|]. exists s'. auto.
    + unfold invokeCallback. cbn -[popTask advanceTimers]. unfold log. cbn -[popTask advanceTimers].
      rewrite Hlog. cbn -[popTask advanceTimers].
      set (q1 := unstable_cancelCallback r (queues s)).
      rewrite bool_decide_eq_true_2 by done.
      assert (Hq1 : wfQueues q1) by by apply wf_cancel.
      assert (Hrel1 : pqRel (tasks q1) (taskQueue q1) (r :: l)).
      { destruct Hrel as (Ho & Hl & Hs). split; [apply Hq1|]. split; [done|].
        eapply sorted_sameKeys; [|done]. apply cancel_sameKeys. }
      destruct (pqRel_pop _ _ _ Hq1 Hrel1) as (_ & Hwf1 & Hrel1' & _).
      replace (advanceTimers (currentMockTime s) (popTask q1)) with (popTask q1)
        by (unfold advanceTimers; simpl; by rewrite Htm).
      match goal with |- context [workLoopIter _ _ _ _ (peekTask ?s1)] =>
        destruct (IH fuel (currentMockTime s) (peekTask s1)) as (s' & H1 & H2 & H3) end.
      * simpl in Hf; lia.
      * split; simpl; auto.
      * exists s'. split; [done|]. split; [|done]. rewrite H2. simpl.
        rewrite callbacksOf_cancel by done. unfold logged. simpl.
        destruct (yieldedValues s); simpl; [by rewrite <- app_assoc|done].
    + destruct (IH fuel t (peekTask (set_queues (popTask (queues s)) s))) as (s' & H1 & H2 & H3);
        [simpl in Hf; lia|by apply Hskip|]. exists s'. auto.
Qed.

(** with callbacks that log, [unstable_flushAllWithoutAsserting] terminates and
    yields exactly the values of the queued, uncancelled tasks sorted by expiration time
    and then by id: the order in which the mock scheduler performs work is the sorted
    order of its task queue, each task once. *)
Theorem flushAll_sorted l fuel s :
  settled s -> scheduledCallback s = true ->
  consoleDisabled s || disableYieldValue s = false -> timerQueue (queues s) = [] ->
  pqRel (tasks (queues s)) (taskQueue (queues s)) l -> length l < fuel ->
  exists s', unstable_flushAllWithoutAsserting logCode fuel s = Some (inr true, s')
    /\ logged s' = logged s ++ callbacksOf (tasks (queues s)) l.
Proof.
  intros (Hq & Hf & He & Hd & Hp) Hcb Hlog Htm Hrel Hlen.
  unfold unstable_flushAllWithoutAsserting. rewrite Hf, Hcb.
  destruct fuel as [|fuel]; [lia|]. cbn [flushLoop]. unfold flushWork, workLoop.
  cbn -[workLoopIter advanceTimers].
  match goal with |- context [workLoopIter _ (S fuel) true ?t (peekTask ?s1)] =>
    destruct (workLoop_logs l (S fuel) t (peekTask s1)) as (s' & H1 & H2 & H3) end.
  - done.
  - assert (Hid : forall s0, queues s0 = queues s -> advanceTimers (currentMockTime s) (queues s0) = queues s).
    { intros s0 ->. unfold advanceTimers. by rewrite Htm. }
    split; cbn -[advanceTimers]; rewrite ?Hid by (by case_bool); auto; by case_bool.
  - rewrite H1. simpl. eexists. split; [done|]. unfold logged in *. simpl. rewrite H2.
    cbn -[advanceTimers]. f_equal; [by case_bool|]. f_equal. unfold advanceTimers.
    case_bool; simpl; by rewrite Htm.
Qed.
End Logging.


(** ** Concrete runs *)

Section Runs.
#[local] Instance apiR : SchedulerApi Z mockOp (MState Z) := mockApi.
Implicit Types s : MState Z.

Definition schedule (l : Z) (c : Z) (delay : option Z) s : MState Z :=
  snd (scheduleCallback l (CbFun c) delay s).

Definition threeTasks : MState Z :=
  schedule 1 30 None (schedule 5 20 None (schedule 3 10 None initState)).

Lemma threeTasks_wf : wfQueues (queues threeTasks).
Proof.
  assert (H : flushing (-1) false (set_isFlushing true threeTasks)); [|apply H].
  unfold threeTasks, schedule.
  assert (H0 : forall l c s, flushing (-1) false (set_isFlushing true s) ->
    flushing (-1) false (set_isFlushing true (snd (scheduleCallback l c None s)))).
  { intros l c s Hs. pose proof (flushing_schedule (-1) false l c None _ Hs) as H.
    apply (flushing_same _ _ _ _ H); [|].
    - replace (queues _) with (queues (snd (scheduleCallback l c None (set_isFlushing true s)))); [apply H|].
      unfold scheduleCallback. cbn -[allocTask]. destruct (allocTask _ _). unfold scheduleDelayed, scheduleNow. by repeat case_bool.
    - unfold scheduleCallback. cbn -[allocTask]. destruct (allocTask _ _). unfold scheduleDelayed, scheduleNow. by repeat case_bool. }
  repeat apply H0. by split; [apply wf_init|..].
Qed.

Lemma threeTasks_settled : settled threeTasks.
Proof. split; [apply threeTasks_wf|]. by vm_compute. Qed.

Lemma flush_exclusive_witness :
  isFlushing (set_isFlushing true threeTasks) = true
  /\ unstable_flushExpired logCode 9 (set_isFlushing true threeTasks)
     = Some (inl AlreadyFlushing, set_isFlushing true threeTasks)
  /\ exists r s', unstable_flushNumberOfYields logCode 9 2 threeTasks = Some (r, s')
     /\ logged s' = [30; 10]%Z /\ settled s'.
Proof.
  split; [done|]. split.
  - by apply (proj1 (flush_exclusive logCode 9 2 (set_isFlushing true threeTasks)) eq_refl).
  - do 2 eexists. split; [by vm_compute|]. split; [by vm_compute|].
    destruct (proj2 (flush_exclusive logCode 9 2 threeTasks) threeTasks_settled)
      as (_ & _ & H & _). eapply H. by vm_compute.
Defined.

Lemma flushAll_drains_witness :
  scheduledCallback threeTasks = true
  /\ exists s', unstable_flushAllWithoutAsserting logCode 9 threeTasks = Some (inr true, s')
     /\ unstable_hasPendingWork s' = false.
Proof.
  split; [done|]. eexists. split; [by vm_compute|].
  eapply (flushAll_drains logCode 9 threeTasks true); [apply threeTasks_settled|done|].
  by vm_compute.
Defined.

Lemma mock_loop_order_witness :
  nextCallback true 0 (peekTask threeTasks) = (Invoke 3 30%Z true, peekTask threeTasks)
  /\ (3%Z ∈ taskQueue (queues threeTasks)).
Proof.
  split; [by vm_compute|].
  apply (mock_loop_order true 0 (peekTask threeTasks) (Invoke 3 30%Z true) (peekTask threeTasks));
    [apply threeTasks_wf|done|by vm_compute].
Defined.

Lemma threeTasks_rel : pqRel (tasks (queues threeTasks)) (taskQueue (queues threeTasks)) [3; 1; 2]%Z.
Proof.
  split; [apply threeTasks_wf|]. split.
  - apply (bool_decide_unpack _). by vm_compute.
  - repeat constructor; apply le_refs; vm_compute; naive_solver lia.
Qed.

Lemma flushAll_sorted_witness :
  exists s', unstable_flushAllWithoutAsserting logCode 4 threeTasks = Some (inr true, s')
    /\ logged s' = [30; 10; 20]%Z.
Proof.
  destruct (flushAll_sorted [3; 1; 2]%Z 4 threeTasks threeTasks_settled)
    as (s' & H1 & H2); [done..|apply threeTasks_rel|simpl; lia|].
  exists s'. split; [exact H1|]. rewrite H2. by vm_compute.
Defined.

(** ** Where the mock loses work *)

(** Advancing the clock by any amounts, one after the other. *)
Fixpoint advanceAll (l : list Z) s : MState Z :=
  match l with [] => s | ms :: l => advanceAll l (unstable_advanceTime ms s) end.

Lemma advance_no_timeout l s : scheduledTimeout s = false ->
  advanceAll l s = s \/ exists t, advanceAll l s = set_currentMockTime t s.
Proof.
  intros Hs. revert s Hs. induction l as [|ms l IH]; intros s Hs; simpl; [by left|].
  unfold unstable_advanceTime. destruct (_ || _); [by apply IH|]. simpl. rewrite Hs. simpl.
  right. destruct (IH (set_currentMockTime (currentMockTime s + ms) s) Hs) as [->|[t ->]]; eauto.
Qed.

(** a delayed task can be lost for good. A timer of 100ms is scheduled and
    cancelled, another of 200ms is scheduled: when the clock reaches 100,
    [handleTimeout] requests the timeout of the second, and
    [unstable_advanceTime] then clears that request. However the clock is
    advanced from there, the second task stays among the timers, no work is
    pending and [unstable_flushAllWithoutAsserting] flushes nothing. *)
Theorem advanceTime_loses_timer l fuel :
  let s0 := schedule 3 20 (Some 200%Z) (schedule 3 10 (Some 100%Z) initState) in
  let s := unstable_advanceTime 100 (set_queues (unstable_cancelCallback 1 (queues s0)) s0) in
  let s' := advanceAll l s in
  timerQueue (queues s') = [2%Z] /\ t_callback (obj (tasks (queues s')) 2) = CbFun 20%Z
  /\ unstable_hasPendingWork s' = false
  /\ unstable_flushAllWithoutAsserting logCode fuel s' = Some (inr false, s').
Proof.
  intros s0 s s'. assert (Hs : scheduledTimeout s = false) by by vm_compute.
  destruct (advance_no_timeout l s Hs) as [E|[t E]]; unfold s'; rewrite E; by vm_compute.
Qed.

(** A callback that advances the clock by 100, then a callback that does nothing. *)
Definition advancingCode (c : Z) (late : bool) : prog Z mockOp :=
  if (c =? 10)%Z then PExt (AdvanceTime 100) (PReturn None) else PReturn None.

(** a flush can leave the scheduler stuck. A flush that ends with a timer left
    requests its timeout without setting [isHostTimeoutScheduled], so the next flush
    does not cancel that timeout; a callback of this flush that advances the clock past
    it makes [handleTimeout] set [isHostCallbackScheduled]; when the flush has run
    everything it drops the callback and keeps the flag, so a task scheduled afterwards
    is queued and never becomes pending work. *)
Theorem flush_leaves_host_flag :
  exists s1 s2 s3,
    unstable_flushAllWithoutAsserting advancingCode 9
      (schedule 3 20 (Some 100%Z) (schedule 3 5 None initState)) = Some (inr true, s1)
    /\ unstable_flushAllWithoutAsserting advancingCode 9 (schedule 3 10 None s1)
       = Some (inr true, s2)
    /\ isHostCallbackScheduled s2 = true /\ unstable_hasPendingWork s2 = false
    /\ s3 = schedule 3 30 None s2
    /\ taskQueue (queues s3) = [4%Z] /\ unstable_hasPendingWork s3 = false
    /\ unstable_flushAllWithoutAsserting advancingCode 9 s3 = Some (inr false, s3).
Proof.
  do 3 eexists. split; [vm_compute; reflexivity|]. split; [vm_compute; reflexivity|].
  split; [vm_compute; reflexivity|]. split; [vm_compute; reflexivity|].
  split; [reflexivity|]. split; [vm_compute; reflexivity|].
  split; [vm_compute; reflexivity|]. vm_compute. reflexivity.
Qed.

(** [reset] keeps the task queue and [isHostCallbackScheduled]. After a reset with
    a task queued, a new task joins the old one in the queue and neither becomes pending
    work: nothing flushes them. *)
Theorem reset_strands_tasks :
  let s0 := schedule 3 10 None initState in
  exists s1, reset s0 = (None, s1) /\ taskQueue (queues s1) = [1%Z]
    /\ let s2 := schedule 3 20 None s1 in
       taskQueue (queues s2) = [1; 2]%Z /\ unstable_hasPendingWork s2 = false
       /\ unstable_flushAllWithoutAsserting logCode 9 s2 = Some (inr false, s2).
Proof. intros s0. eexists. split; [by vm_compute|]. by vm_compute. Qed.
End Runs.
