(* ===== verification/SchedPostTask.v ===== *)
(** * The post-task scheduler (packages/scheduler/cjs/scheduler-unstable_post_task.production.js)

    The third implementation of the interface: it keeps no queue of its own and hands each
    callback to the browser's [scheduler.postTask], with a [TaskController] to cancel it.
    The browser is in the state: the tasks that were posted and have neither run nor been
    rejected, which controllers were aborted, the errors handed to [setTimeout], the clock
    readings. As documented for [postTask], the browser runs a posted task at most once,
    in an order of its own, and rejects the promise of one whose signal is aborted instead.
    The private diagnostics are off, as they are by default. *)
From S2P Require Import Prelude SchedHeap SchedTask SchedApi.

Section PostTask.
Context {Cb : Type}.

(** A bound call of [runTask] that the browser holds, with its options; [viaYield] tells
    [scheduler.yield] from [scheduler.postTask]. *)
Record job := mkJob {
  job_priorityLevel : Z;
  job_postTaskPriority : string;
  job_node : Z;
  job_callback : cbvalue Cb;
  job_delay : Z;
  job_viaYield : bool }.

(** What [setTimeout] throws again: an error of user code, or the engine's, when the
    callback is no function. *)
Inductive reported := UserError (error : Z) | NotAFunction.

Record PTState := mkPTState {
  deadline : Z;
  currentPriorityLevel_DEPRECATED : Z;
  controllers : gmap Z bool;
  nextNode : Z;
  postedTasks : list job;
  reportedErrors : list reported;
  perfReads : nat }.

Definition set_deadline v s := mkPTState v (currentPriorityLevel_DEPRECATED s) (controllers s) (nextNode s)
  (postedTasks s) (reportedErrors s) (perfReads s).
Definition set_currentPriority v s := mkPTState (deadline s) v (controllers s) (nextNode s)
  (postedTasks s) (reportedErrors s) (perfReads s).
Definition set_controllers v s := mkPTState (deadline s) (currentPriorityLevel_DEPRECATED s) v (nextNode s)
  (postedTasks s) (reportedErrors s) (perfReads s).
Definition set_postedTasks v s := mkPTState (deadline s) (currentPriorityLevel_DEPRECATED s) (controllers s)
  (nextNode s) v (reportedErrors s) (perfReads s).
Definition report e s := mkPTState (deadline s) (currentPriorityLevel_DEPRECATED s) (controllers s) (nextNode s)
  (postedTasks s) (reportedErrors s ++ [e]) (perfReads s).

Definition initPostTask : PTState := mkPTState 0 3 ∅ 0 [] [] 0.

Context (clock : nat -> Z).
(** [void 0 !== scheduler.yield] *)
Context (hasYield : bool).

Definition getCurrentTime (s : PTState) : Z * PTState :=
  (clock (perfReads s),
   mkPTState (deadline s) (currentPriorityLevel_DEPRECATED s) (controllers s) (nextNode s) (postedTasks s)
     (reportedErrors s) (S (perfReads s))).

Definition postTask (j : job) (s : PTState) : PTState := set_postedTasks (postedTasks s ++ [j]) s.

Definition postTaskPriority_of (priorityLevel : Z) : string :=
  match priorityLevel with
  | 1 | 2 => "user-blocking"
  | 4 | 3 => "user-visible"
  | 5 => "background"
  | _ => "user-visible"
  end%Z.

(** [options.delay] when the options are an object, else 0 *)
Definition scheduleCallback (priorityLevel : Z) (callback : cbvalue Cb) (delay : option Z) (s : PTState) : Z * PTState :=
  let node := nextNode s in
  let s := mkPTState (deadline s) (currentPriorityLevel_DEPRECATED s) (<[node := false]> (controllers s))
             (node + 1) (postedTasks s) (reportedErrors s) (perfReads s) in
  (node, postTask (mkJob priorityLevel (postTaskPriority_of priorityLevel) node callback (default 0%Z delay) false) s).

(** [node._controller.abort()] *)
Definition cancelCallback (node : Z) (s : PTState) : PTState :=
  set_controllers (alter (fun _ => true) node (controllers s)) s.

Definition shouldYield (s : PTState) : bool * PTState :=
  let '(t, s) := getCurrentTime s in ((deadline s <=? t)%Z, s).

(** Neither [unstable_forceFrameRate] nor [unstable_requestPaint] does anything. *)
Inductive postTaskOp : Type := ForceFrameRate (fps : Z).

#[export] Instance postTaskApi : SchedulerApi Cb postTaskOp PTState := {
  unstable_now := getCurrentTime;
  unstable_shouldYield := shouldYield;
  getPriority := currentPriorityLevel_DEPRECATED;
  setPriority := set_currentPriority;
  runWithPriorityLevel := fun priorityLevel => priorityLevel;
  unstable_scheduleCallback := scheduleCallback;
  SchedApi.cancelCallback := cancelCallback;
  unstable_requestPaint := fun s => s;
  extOperation := fun op s => match op with ForceFrameRate _ => (None, s) end }.

Context (code : Cb -> bool -> prog Cb postTaskOp).

(** A call of [callback(false)] inside the [try]; a continuation goes back to the browser
    with the signal of the same controller. *)
Definition callAndContinue (j : job) (s : PTState) : PTState :=
  match job_callback j with
  | CbFun callback =>
      let '(o, s) := run (code callback false) s in
      match o with
      | Returned (Some continuation) =>
          postTask (mkJob (job_priorityLevel j) (job_postTaskPriority j) (job_node j) (CbFun continuation) 0 hasYield) s
      | Returned None => s
      | Threw e => report (UserError e) s
      end
  | _ => report NotAFunction s
  end.

Definition runTask (j : job) (s : PTState) : PTState :=
  let '(t, s) := getCurrentTime s in
  let s := set_currentPriority (job_priorityLevel j) (set_deadline (t + 5) s) in
  set_currentPriority 3 (callAndContinue j s).

(** ** The browser *)

Definition aborted (node : Z) (s : PTState) : bool := default false (controllers s !! node).
Definition removeJob (i : nat) (s : PTState) : PTState := set_postedTasks (delete i (postedTasks s)) s.

(** Each step says which job it ran. *)
Inductive step : option job -> PTState -> PTState -> Prop :=
| step_user p s : step None s (snd (run p s))
| step_task i j s :
    postedTasks s !! i = Some j -> aborted (job_node j) s = false -> step (Some j) s (runTask j (removeJob i s))
| step_reject i j s :
    postedTasks s !! i = Some j -> aborted (job_node j) s = true -> step None s (removeJob i s).

Inductive steps : list job -> PTState -> PTState -> Prop :=
| steps_none s : steps [] s s
| steps_more o s1 s2 ran s3 :
    step o s1 s2 -> steps ran s2 s3 -> steps (match o with Some j => j :: ran | None => ran end) s1 s3.
End PostTask.
Arguments PTState Cb : clear implicits.
Arguments job Cb : clear implicits.
