(* ===== verification/SchedPostTaskSpec.v ===== *)
(** * Theorems on the post-task scheduler

    Each callback is with the browser exactly once, a cancelled one never runs, and running
    one leaves the module's variables as it found them. *)
From S2P Require Import Prelude SchedHeap SchedTask SchedApi SchedPostTask.

Section Spec.
Context {Cb : Type} (clock : nat -> Z) (hasYield : bool) (code : Cb -> bool -> prog Cb postTaskOp).
#[local] Instance api : SchedulerApi Cb postTaskOp (PTState Cb) := postTaskApi clock.
Implicit Types (s : PTState Cb) (j : job Cb).

(** The jobs that the browser holds: one for a node at most, each with a controller and with
    the browser's priority for its level. *)
Definition jobOk s j : Prop :=
  is_Some (controllers s !! job_node j) /\ job_postTaskPriority j = postTaskPriority_of (job_priorityLevel j).
Definition queueOk s : Prop :=
  NoDup (map job_node (postedTasks s)) /\ Forall (jobOk s) (postedTasks s)
  /\ (0 <= nextNode s)%Z /\ (forall n, is_Some (controllers s !! n) <-> (0 <= n < nextNode s)%Z).

Lemma queueOk_same s s' :
  controllers s' = controllers s -> nextNode s' = nextNode s -> postedTasks s' = postedTasks s -> queueOk s -> queueOk s'.
Proof. unfold queueOk, jobOk. by intros -> -> ->. Qed.

Lemma queueOk_fresh s j : queueOk s -> j ∈ postedTasks s -> (0 <= job_node j < nextNode s)%Z.
Proof. intros (_ & Hj & _ & Hn) Hin. apply Hn. by apply (proj1 (Forall_forall _ _) Hj). Qed.

Lemma init_queueOk : queueOk initPostTask.
Proof. split; [constructor|]. split; [constructor|]. split; [done|]. intros n. simpl. rewrite lookup_empty. split; [by intros [? ?]|lia]. Qed.

Lemma post_queueOk s j :
  queueOk s -> jobOk s j -> job_node j ∉ map job_node (postedTasks s) -> queueOk (postTask j s).
Proof.
  intros (H1 & H2 & H0 & H3) Hj Hn. split; [|split; [|done]]; simpl.
  - rewrite map_app. apply NoDup_app. split; [done|]. split; [|by apply NoDup_singleton].
    intros n H ->%list_elem_of_singleton. done.
  - apply Forall_app. split; [done|]. by constructor.
Qed.

Lemma schedule_queueOk l c d s : queueOk s -> queueOk (snd (scheduleCallback l c d s)).
Proof.
  intros Hok. pose proof Hok as (H1 & H2 & H0 & H3). apply post_queueOk; simpl.
  - split; [done|]. split; [|split]; simpl; [|lia|].
    + eapply Forall_impl; [exact H2|]. intros j [[b Hb] Hp]. split; [|done]. simpl.
      destruct (decide (job_node j = nextNode s)) as [->|Hne]; [rewrite lookup_insert_eq; eauto|rewrite lookup_insert_ne by done; eauto].
    + intros n. destruct (decide (n = nextNode s)) as [->|Hne]; [rewrite lookup_insert_eq|rewrite lookup_insert_ne, H3 by done; lia].
      split; [lia|eauto].
  - split; [|done]. simpl. rewrite lookup_insert_eq. eauto.
  - intros (j & Hj & Hin)%list_elem_of_fmap. pose proof (queueOk_fresh s j Hok Hin). simpl in *. lia.
Qed.

Lemma cancel_queueOk n s : queueOk s -> queueOk (cancelCallback n s).
Proof.
  intros (H1 & H2 & H0 & H3).
  assert (Hsome : forall x, is_Some (controllers (cancelCallback n s) !! x) <-> is_Some (controllers s !! x)).
  { intros x. simpl. destruct (decide (x = n)) as [->|]; [|by rewrite lookup_alter_ne by done].
    rewrite lookup_alter_eq. by rewrite fmap_is_Some. }
  split; [done|]. split; [|split; [done|]].
  - eapply Forall_impl; [exact H2|]. intros j [Hb Hp]. split; [|done]. by apply Hsome.
  - intros x. rewrite Hsome. apply H3.
Qed.

#[local] Instance queueOk_api : ApiInvariant (S := PTState Cb) queueOk.
Proof.
  split.
  - intros s. by apply queueOk_same.
  - intros s. by apply queueOk_same.
  - intros l s. by apply queueOk_same.
  - intros l c d s. apply schedule_queueOk.
  - intros t s. apply cancel_queueOk.
  - done.
  - by intros [fps] s.
Qed.

(** What user code does to the browser's jobs: it adds jobs of new nodes, and aborts stay. *)
Definition grows s0 s : Prop :=
  (nextNode s0 <= nextNode s)%Z
  /\ (forall n, aborted n s0 = true -> aborted n s = true) /\ reportedErrors s = reportedErrors s0
  /\ exists new, postedTasks s = postedTasks s0 ++ new
     /\ Forall (fun j => (nextNode s0 <= job_node j)%Z /\ job_viaYield j = false) new.

Lemma grows_same s0 s s' :
  controllers s' = controllers s -> nextNode s' = nextNode s -> postedTasks s' = postedTasks s ->
  reportedErrors s' = reportedErrors s -> grows s0 s -> grows s0 s'.
Proof. unfold grows, aborted. by intros -> -> -> ->. Qed.

Lemma grows_refl s : grows s s.
Proof. split; [lia|]. split; [done|]. split; [done|]. exists []. rewrite app_nil_r. by split. Qed.

Lemma aborted_insert n m s : n <> m -> default false (<[m := false]> (controllers s) !! n) = aborted n s.
Proof. intros. unfold aborted. by rewrite lookup_insert_ne. Qed.

#[local] Instance grows_api s0 : queueOk s0 -> ApiInvariant (S := PTState Cb) (grows s0).
Proof.
  intros Hok. split.
  - intros s. by apply grows_same.
  - intros s. by apply grows_same.
  - intros l s. by apply grows_same.
  - intros l c d s (H1 & H2 & Hr & new & H3 & H4). split; [simpl; lia|]. split; [|split; [done|]].
    + intros n Hn. simpl. unfold aborted. simpl. rewrite aborted_insert; [by apply H2|]. intros ->.
      destruct Hok as (_ & _ & _ & Hc). unfold aborted in Hn.
      destruct (controllers s0 !! nextNode s) eqn:E; [|done]. assert (is_Some (controllers s0 !! nextNode s)) as Hs by eauto.
      apply Hc in Hs. lia.
    + eexists (new ++ [_]). simpl. rewrite H3, <- app_assoc. split; [done|]. apply Forall_app. split; [done|].
      constructor; [|constructor]. simpl. split; [lia|done].
  - intros t s (H1 & H2 & H3). split; [done|]. split; [|exact H3]. intros n Hn. specialize (H2 n Hn). unfold aborted in *. simpl.
    destruct (decide (n = t)) as [->|]; [|by rewrite lookup_alter_ne by done]. rewrite lookup_alter_eq.
    destruct (controllers s !! t); [done|done].
  - done.
  - by intros [fps] s.
Qed.

#[local] Instance post_task_priority : PriorityLaws (S := PTState Cb).
Proof. split; try done. by intros [fps] s. Qed.

(** The state in which a job's callback is called. *)
Definition startTask j s : PTState Cb :=
  set_currentPriority (job_priorityLevel j) (set_deadline (fst (getCurrentTime clock s) + 5) (snd (getCurrentTime clock s))).

(** What the call of a callback leaves: its continuation, or an error. *)
Definition leftBehind j (o : outcome Cb) : list (job Cb) * list reported :=
  match o with
  | Returned (Some k) => ([mkJob (job_priorityLevel j) (job_postTaskPriority j) (job_node j) (CbFun k) 0 hasYield], [])
  | Returned None => ([], [])
  | Threw e => ([], [UserError e])
  end.
Definition effectOf j s : (list (job Cb) * list reported) * PTState Cb :=
  match job_callback j with
  | CbFun c => let '(o, s) := run (code c false) (startTask j s) in (leftBehind j o, s)
  | _ => (([], [NotAFunction]), startTask j s)
  end.

Lemma runTask_effect j s :
  let '((cont, errors), s1) := effectOf j s in
  let s' := runTask clock hasYield code j s in
  currentPriorityLevel_DEPRECATED s' = 3%Z /\ controllers s' = controllers s1 /\ nextNode s' = nextNode s1
  /\ postedTasks s' = postedTasks s1 ++ cont /\ reportedErrors s' = reportedErrors s1 ++ errors.
Proof.
  unfold effectOf, runTask, callAndContinue. change (getCurrentTime clock s) with (fst (getCurrentTime clock s), snd (getCurrentTime clock s)).
  cbv beta iota. fold (startTask j s). destruct (job_callback j) as [|c|]; try (simpl; by rewrite app_nil_r).
  destruct (run (code c false) (startTask j s)) as [[[k|]|e] s1]; simpl; split_and!; rewrite ?app_nil_r; done.
Qed.

Lemma effectOf_grows j s : queueOk s -> grows s (snd (effectOf j s)) /\ queueOk (snd (effectOf j s)).
Proof.
  intros Hok. assert (Hs : grows s (startTask j s)) by (by eapply grows_same; [..|apply grows_refl]).
  assert (Hq : queueOk (startTask j s)) by (by eapply queueOk_same; [..|exact Hok]).
  unfold effectOf. destruct (job_callback j) as [|c|]; [done| |done].
  pose proof (@run_invariant _ _ _ api (grows s) (grows_api s Hok) (code c false) _ Hs).
  pose proof (run_invariant queueOk (code c false) _ Hq). by destruct (run _ _) as [o s1].
Qed.

(** A job that is taken out leaves no other of its node. *)
Lemma remove_queueOk i j s :
  queueOk s -> postedTasks s !! i = Some j ->
  queueOk (removeJob i s) /\ job_node j ∉ map job_node (postedTasks (removeJob i s)).
Proof.
  intros (H1 & H2 & H3) Hi. simpl. rewrite delete_take_drop.
  rewrite <- (take_drop_middle _ _ _ Hi) in H1, H2. rewrite map_app, map_cons in H1.
  assert (Hp : NoDup (job_node j :: map job_node (take i (postedTasks s)) ++ map job_node (drop (S i) (postedTasks s))))
    by (by rewrite Permutation_middle).
  rewrite <- map_app in Hp. apply NoDup_cons in Hp as [Hn Hp]. split; [|done].
  split; [|split; [|done]]; simpl; rewrite delete_take_drop; [done|].
  apply Forall_app in H2 as [H2 H4]. apply Forall_cons in H4 as [_ H4]. by apply Forall_app.
Qed.

Lemma runTask_queueOk i j s :
  queueOk s -> postedTasks s !! i = Some j -> queueOk (runTask clock hasYield code j (removeJob i s)).
Proof.
  intros Hok Hi. destruct (remove_queueOk i j s Hok Hi) as [Hok0 Hn].
  assert (Hj : jobOk s j) by (apply (proj1 (Forall_forall _ _) (proj1 (proj2 Hok))); by eapply list_elem_of_lookup_2).
  pose proof (queueOk_fresh s j Hok) as Hfresh. pose proof (runTask_effect j (removeJob i s)) as H.
  destruct (effectOf_grows j (removeJob i s) Hok0) as [(Hg1 & Hg2 & Hg3 & new & Hg4 & Hg5) Hq].
  destruct (effectOf j (removeJob i s)) as [[cont errors] s1] eqn:E. cbn [snd] in *.
  destruct H as (_ & Hc & Hnn & Hp & _).
  assert (Hcont : cont = [] \/ exists k, cont = [mkJob (job_priorityLevel j) (job_postTaskPriority j) (job_node j) k 0 hasYield]).
  { unfold effectOf in E. destruct (job_callback j) as [|c|]; [left; congruence| |left; congruence].
    destruct (run _ _) as [[[k|]|e] s2]; simpl in E; injection E as <- <- <-; eauto. }
  destruct Hcont as [->|[k ->]]; [rewrite app_nil_r in Hp; by eapply queueOk_same|].
  apply (queueOk_same (postTask (mkJob (job_priorityLevel j) (job_postTaskPriority j) (job_node j) k 0 hasYield) s1)); [done..|].
  apply post_queueOk; [done| |].
  - split; [|apply Hj]. simpl. apply Hq. assert (Hlt : (0 <= job_node j < nextNode s)%Z).
    { apply Hfresh. by eapply list_elem_of_lookup_2. } simpl in Hg1. lia.
  - simpl. rewrite Hg4, map_app. intros [?|Hin]%elem_of_app; [done|].
    apply list_elem_of_fmap in Hin as (x & Hx & Hin). apply (proj1 (Forall_forall _ _) Hg5) in Hin as [Hle _]. simpl in Hle.
    assert (Hlt : (0 <= job_node j < nextNode s)%Z) by (apply Hfresh; by eapply list_elem_of_lookup_2). lia.
Qed.

Lemma post_step_ok o s s' :
  step clock hasYield code o s s' -> queueOk s /\ currentPriorityLevel_DEPRECATED s = 3%Z ->
  queueOk s' /\ currentPriorityLevel_DEPRECATED s' = 3%Z.
Proof.
  intros Hs [Hok Hp]. destruct Hs as [p s|i j s Hi _|i j s Hi _].
  - split; [by apply (run_invariant queueOk)|]. rewrite <- Hp. exact (@run_priority _ _ _ api post_task_priority p s).
  - split; [by apply runTask_queueOk|]. pose proof (runTask_effect j (removeJob i s)) as H.
    destruct (effectOf _ _) as [[cont errors] s1]. apply H.
  - split; [by eapply remove_queueOk|done].
Qed.

Lemma steps_ok ran s s' :
  steps clock hasYield code ran s s' -> queueOk s /\ currentPriorityLevel_DEPRECATED s = 3%Z ->
  queueOk s' /\ currentPriorityLevel_DEPRECATED s' = 3%Z.
Proof. induction 1 as [|o s1 s2 ran s3 Hs _ IH]; [done|]. intros H. apply IH. by eapply post_step_ok. Qed.

(** C32: Running a posted task: in every reachable state the browser holds at most one job of a
    node and the current priority is 3; running a job that is not aborted calls its callback
    once, at the job's priority and with a deadline five units later, and takes it from the
    browser's list, which afterwards holds all the others, the jobs of new nodes that the
    callback scheduled, and the continuation of the same node at the same level exactly
    when the callback returned one; an exception is reported once and goes no further. *)
Theorem post_task_run ran s i j :
  steps clock hasYield code ran initPostTask s ->
  NoDup (map job_node (postedTasks s)) /\ currentPriorityLevel_DEPRECATED s = 3%Z
  /\ (postedTasks s !! i = Some j ->
        let s' := runTask clock hasYield code j (removeJob i s) in
        let '((cont, errors), s1) := effectOf j (removeJob i s) in
        deadline (startTask j (removeJob i s)) = (clock (perfReads s) + 5)%Z
        /\ getPriority (startTask j (removeJob i s)) = job_priorityLevel j
        /\ currentPriorityLevel_DEPRECATED s' = 3%Z
        /\ reportedErrors s' = reportedErrors s ++ errors
        /\ exists new, postedTasks s' = delete i (postedTasks s) ++ new ++ cont
             /\ Forall (fun x => (nextNode s <= job_node x)%Z /\ job_viaYield x = false) new
             /\ NoDup (map job_node (postedTasks s'))).
Proof.
  intros Hr. destruct (steps_ok _ _ _ Hr (conj init_queueOk eq_refl)) as [Hok Hp]. split; [apply Hok|]. split; [done|].
  intros Hi s'. destruct (remove_queueOk i j s Hok Hi) as [Hok0 _].
  pose proof (runTask_effect j (removeJob i s)) as H. pose proof (runTask_queueOk i j s Hok Hi) as (Hnd & _).
  destruct (effectOf_grows j (removeJob i s) Hok0) as [(Hg1 & Hg2 & Hg3 & new & Hg4 & Hg5) _].
  destruct (effectOf j (removeJob i s)) as [[cont errors] s1]. cbn [snd] in *. destruct H as (H1 & H2 & H3 & H4 & H5).
  split; [done|]. split; [done|]. split; [done|]. split; [unfold s'; by rewrite H5, Hg3|]. exists new. split; [|by split].
  unfold s'. by rewrite H4, Hg4, <- app_assoc.
Qed.

Lemma step_aborted n o s s' :
  step clock hasYield code o s s' -> queueOk s -> aborted n s = true ->
  aborted n s' = true /\ match o with Some j => job_node j <> n | None => True end.
Proof.
  intros Hs Hok Ha. destruct Hs as [p s|i j s Hi Hj|i j s Hi Hj].
  - split; [|done]. pose proof (@run_invariant _ _ _ api (grows s) (grows_api s Hok) p _ (grows_refl s)) as (_ & H & _). by apply H.
  - split; [|congruence]. destruct (remove_queueOk i j s Hok Hi) as [Hok0 _].
    destruct (effectOf_grows j (removeJob i s) Hok0) as [(_ & H & _) _]. pose proof (runTask_effect j (removeJob i s)) as H'.
    destruct (effectOf j (removeJob i s)) as [[cont errors] s1]. destruct H' as (_ & Hc & _). unfold aborted in *. rewrite Hc. by apply H.
  - done.
Qed.

(** Cancellation: after [unstable_cancelCallback] of a node that exists, in no run of
    the program is a callback of that node called, neither the scheduled one nor a
    continuation that it had returned before. *)
Theorem post_task_cancelled ran s n later s' :
  steps clock hasYield code ran initPostTask s -> is_Some (controllers s !! n) ->
  steps clock hasYield code later (SchedPostTask.cancelCallback n s) s' ->
  Forall (fun j => job_node j <> n) later.
Proof.
  intros Hr Hn Hs. destruct (steps_ok _ _ _ Hr (conj init_queueOk eq_refl)) as [Hok Hp].
  assert (Ha : aborted n (SchedPostTask.cancelCallback n s) = true).
  { unfold aborted. simpl. rewrite lookup_alter_eq. by destruct Hn as [b ->]. }
  assert (Hok1 : queueOk (SchedPostTask.cancelCallback n s) /\ currentPriorityLevel_DEPRECATED (SchedPostTask.cancelCallback n s) = 3%Z)
    by (split; [by apply cancel_queueOk|done]).
  clear -Hs Ha Hok1. induction Hs as [|o s1 s2 later s3 Hs _ IH]; [constructor|].
  destruct (step_aborted n o s1 s2 Hs (proj1 Hok1) Ha) as [Ha2 Ho]. specialize (IH Ha2 (post_step_ok _ _ _ Hs Hok1)).
  destruct o; [by constructor|done].
Qed.
End Spec.

(** ** Concrete inputs *)

(** The callback 1 schedules the callback 3 and returns the callback 2, which throws. *)
Definition postCode (c : Z) (_ : bool) : prog Z postTaskOp :=
  match c with
  | 1 => PSchedule 5 (CbFun 3%Z) None (fun _ => PReturn (Some 2%Z))
  | 2 => PThrow 7
  | _ => PReturn None
  end%Z.
Definition postClock (n : nat) : Z := 10 * Z.of_nat n.
#[local] Instance demoPostApi : SchedulerApi Z postTaskOp (PTState Z) := postTaskApi postClock.

Definition onePosted : PTState Z := snd (run (PSchedule 2 (CbFun 1%Z) None (fun _ => PReturn None)) initPostTask).
Definition firstJob : job Z := mkJob 2 "user-blocking" 0 (CbFun 1%Z) 0 false.
Definition afterFirst : PTState Z := runTask postClock true postCode firstJob (removeJob 0 onePosted).

Lemma onePosted_reached : steps postClock true postCode [] initPostTask onePosted.
Proof. apply (steps_more _ _ _ None initPostTask onePosted [] onePosted); [apply step_user|constructor]. Qed.
Lemma afterFirst_reached : steps postClock true postCode [firstJob] initPostTask afterFirst.
Proof.
  apply (steps_more _ _ _ None initPostTask onePosted [firstJob] afterFirst); [apply step_user|].
  apply (steps_more _ _ _ (Some firstJob) onePosted afterFirst [] afterFirst); [|constructor].
  by apply step_task.
Qed.

Lemma post_task_run_witness :
  exists new, postedTasks afterFirst = delete 0 (postedTasks onePosted) ++ new
      ++ [mkJob 2 "user-blocking" 0 (CbFun 2%Z) 0 true]
    /\ NoDup (map job_node (postedTasks afterFirst)).
Proof.
  destruct (post_task_run postClock true postCode [] onePosted 0 firstJob onePosted_reached) as (_ & _ & H).
  specialize (H eq_refl). cbv zeta in H.
  replace (effectOf postClock true postCode firstJob (removeJob 0 onePosted))
    with (([mkJob 2 "user-blocking" 0 (CbFun 2%Z) 0 true], @nil reported),
          snd (effectOf postClock true postCode firstJob (removeJob 0 onePosted))) in H by (vm_compute; reflexivity).
  destruct H as (_ & _ & _ & _ & new & H1 & _ & H2). exists new. split; [exact H1|exact H2].
Defined.

(** Cancelled before its continuation ran, the first node is rejected; the other one runs. *)
Definition otherJob : job Z := mkJob 5 "background" 1 (CbFun 3%Z) 0 false.
Definition cancelledFirst : PTState Z := SchedPostTask.cancelCallback 0 afterFirst.

Lemma post_task_cancelled_witness :
  exists later s', steps postClock true postCode later cancelledFirst s' /\ later = [otherJob]
    /\ Forall (fun j => job_node j <> 0%Z) later.
Proof.
  assert (Hs : steps postClock true postCode [otherJob] cancelledFirst
                 (runTask postClock true postCode otherJob (removeJob 0 cancelledFirst))).
  { eapply (steps_more _ _ _ (Some otherJob) cancelledFirst _ []); [|constructor].
    apply step_task; vm_compute; reflexivity. }
  exists [otherJob], (runTask postClock true postCode otherJob (removeJob 0 cancelledFirst)).
  split; [exact Hs|]. split; [reflexivity|].
  assert (Hn : is_Some (controllers afterFirst !! 0%Z)) by (exists false; vm_compute; reflexivity).
  exact (post_task_cancelled postClock true postCode [firstJob] afterFirst 0 [otherJob] _ afterFirst_reached Hn Hs).
Defined.
