(* ===== verification/JsValue.v ===== *)
(** * JavaScript values

    The part of the language's values and of its standard library that the DOM host
    files use: [typeof], nullish tests, truthiness, strict equality, [String(value)],
    number formatting, string functions, property reads with the prototype chain.

    Strings are sequences of 8-bit code units (Latin-1). A finite number is the decimal
    [m * 10 ^ e] that the shortest decimal representation of the double denotes, which is
    what [Number.prototype.toString] prints and what distinguishes doubles. *)
From stdpp Require Import pretty.
From S2P Require Import Prelude.

(** ** Errors and results *)

Inductive num : Type :=
| NaN
| Infinity (negative : bool)
| Finite (m e : Z).

(** References: objects and functions of the user's program, and the functions that
    [Object.prototype] holds. *)
Inductive ref : Type :=
| User (n : N)
| Builtin (name : string).

Inductive value : Type :=
| VUndef
| VNull
| VBool (b : bool)
| VNum (n : num)
| VStr (s : string)
| VSym (id : N) (description : string)
| VBigInt (z : Z)
| VFun (r : ref)
| VObj (r : ref).

#[export] Instance num_eq_dec : EqDecision num.
Proof. solve_decision. Defined.
#[export] Instance ref_eq_dec : EqDecision ref.
Proof. solve_decision. Defined.
#[export] Instance ref_countable : Countable ref.
Proof.
  apply (inj_countable' (fun r => match r with User n => inl n | Builtin s => inr s end)
           (fun x => match x with inl n => User n | inr s => Builtin s end)).
  by intros [].
Defined.
#[export] Instance value_eq_dec : EqDecision value.
Proof. solve_decision. Defined.

(** What code throws: an engine [TypeError], an [Error] with a message, an error that
    the packages make with its code, or a value that user code or the host
    throws. *)
Inductive error : Type :=
| TypeError (message : string)
| PlainError (message : string)
| HostError (code : string)
| Thrown (v : value).

Inductive res (A : Type) : Type :=
| Ok (a : A)
| Throw (e : error).
Arguments Ok {A} a.
Arguments Throw {A} e.

Definition bind {A B : Type} (r : res A) (k : A -> res B) : res B :=
  match r with Ok a => k a | Throw e => Throw e end.

Declare Scope js_scope.
Delimit Scope js_scope with js.
Notation "'let*' x := r 'in' k" := (bind r (fun x => k))
  (at level 10, x name, r at level 100, k at level 200) : js_scope.
Open Scope js_scope.

Lemma bind_Ok {A B : Type} (r : res A) (k : A -> res B) (b : B) :
  bind r k = Ok b -> exists a, r = Ok a /\ k a = Ok b.
Proof. destruct r; simpl; [eauto|done]. Qed.

(** Run [f] on the elements from left to right, stopping at the first exception. *)
Fixpoint mapRes {A B : Type} (f : A -> res B) (l : list A) : res (list B) :=
  match l with
  | [] => Ok []
  | x :: l => let* y := f x in let* r := mapRes f l in Ok (y :: r)
  end.

Lemma mapRes_Ok {A B : Type} (f : A -> res B) l r :
  mapRes f l = Ok r -> Forall2 (fun x y => f x = Ok y) l r.
Proof.
  revert r. induction l as [|x l IH]; intros r; simpl; [by intros [= <-]|].
  intros (y & Hy & (ys & Hys & [= <-])%bind_Ok)%bind_Ok. constructor; auto.
Qed.

Lemma mapRes_total {A B : Type} (f : A -> res B) l :
  (forall x, x ∈ l -> exists y, f x = Ok y) -> exists r, mapRes f l = Ok r.
Proof.
  induction l as [|x l IH]; intros H; simpl; [eauto|].
  destruct (H x) as [y ->]; [left|]. destruct IH as [r ->]; [intros; apply H; by right|].
  simpl. eauto.
Qed.

(** *** Effects *)

(** The result of an effectful step. *)
Definition effect (D A : Type) : Type := res A * D.

Definition andThen {D A B : Type} (r : effect D A) (k : A -> D -> effect D B) : effect D B :=
  match r with
  | (Ok a, d) => k a d
  | (Throw e, d) => (Throw e, d)
  end.
Notation "'do*' x , d := r 'in' k" := (andThen r (fun x d => k))
  (at level 10, x name, d name, r at level 100, k at level 200) : js_scope.

(** A step that only reads. *)
Definition pureStep {D A : Type} (r : res A) (d : D) : effect D A := (r, d).

(** [for (const x of l) f(x)] *)
Fixpoint forEach {D A : Type} (f : A -> D -> effect D unit) (l : list A) (d : D) : effect D unit :=
  match l with
  | [] => (Ok tt, d)
  | x :: l => do* _, d := f x d in forEach f l d
  end.

(** ** Numbers *)

Fixpoint stripZeros (fuel : nat) (m e : Z) : num :=
  match fuel with
  | O => Finite m e
  | S fuel => if (m mod 10 =? 0)%Z then stripZeros fuel (m / 10) (e + 1) else Finite m e
  end.

(** The canonical form: zero is [Finite 0 0], other finite numbers have a significand
    that ten does not divide. *)
Definition normal (n : num) : num :=
  match n with
  | Finite m e => if (m =? 0)%Z then Finite 0 0
                  else stripZeros (Z.to_nat (Z.log2 (Z.abs m)) + 1) m e
  | _ => n
  end.

Definition isFinite (n : num) : bool :=
  match n with Finite _ _ => true | _ => false end.
Definition isZero (n : num) : bool := bool_decide (normal n = Finite 0 0).

Fixpoint repeatString (k : nat) (s : string) : string :=
  match k with O => "" | S k => s +:+ repeatString k s end.

(** [Number::toString]: [digits] are the significand's, the value is
    [0.digits * 10 ^ n]. *)
Definition formatDigits (digits : string) (n : Z) : string :=
  let k := Z.of_nat (String.length digits) in
  let zeros z := repeatString (Z.to_nat z) "0" in
  if (k <=? n)%Z && (n <=? 21)%Z then digits +:+ zeros (n - k)%Z
  else if (0 <? n)%Z && (n <=? 21)%Z then
    String.substring 0 (Z.to_nat n) digits +:+ "."
      +:+ String.substring (Z.to_nat n) (Z.to_nat (k - n)) digits
  else if (-6 <? n)%Z && (n <=? 0)%Z then "0." +:+ zeros (- n)%Z +:+ digits
  else
    let exponent := (if (0 <=? n - 1)%Z then "e+" else "e-")
                    +:+ pretty (Z.to_N (Z.abs (n - 1))) in
    if (k =? 1)%Z then digits +:+ exponent
    else String.substring 0 1 digits +:+ "."
           +:+ String.substring 1 (String.length digits - 1) digits +:+ exponent.

Definition numToString (n : num) : string :=
  match normal n with
  | NaN => "NaN"
  | Infinity false => "Infinity"
  | Infinity true => "-Infinity"
  | Finite m e =>
      if (m =? 0)%Z then "0"
      else
        let digits := pretty (Z.to_N (Z.abs m)) in
        (if (m <? 0)%Z then "-" else "")
          +:+ formatDigits digits (Z.of_nat (String.length digits) + e)
  end.

(** ** Tests on values *)

Definition typeof (v : value) : string :=
  match v with
  | VUndef => "undefined"
  | VNull => "object"
  | VBool _ => "boolean"
  | VNum _ => "number"
  | VStr _ => "string"
  | VSym _ _ => "symbol"
  | VBigInt _ => "bigint"
  | VFun _ => "function"
  | VObj _ => "object"
  end.

(** [v == null] *)
Definition nullish (v : value) : bool :=
  match v with VUndef | VNull => true | _ => false end.

Definition isObjectLike (v : value) : bool :=
  match v with VObj _ => true | _ => false end.

Definition isString (v : value) : bool := match v with VStr _ => true | _ => false end.
Definition isFunction (v : value) : bool := match v with VFun _ => true | _ => false end.
Definition isSymbol (v : value) : bool := match v with VSym _ _ => true | _ => false end.

Definition truthy (v : value) : bool :=
  match v with
  | VUndef | VNull => false
  | VBool b => b
  | VNum n => match n with NaN => false | _ => negb (isZero n) end
  | VStr s => negb (bool_decide (s = ""))
  | VBigInt z => negb (z =? 0)%Z
  | _ => true
  end.

(** [v === w] *)
Definition strictEq (v w : value) : bool :=
  match v, w with
  | VNum m, VNum n => match m with NaN => false | _ => bool_decide (normal m = normal n) end
  | VSym i _, VSym j _ => bool_decide (i = j)
  | _, _ => bool_decide (v = w)
  end.

(** [typeof v === 'string' && v === s] *)
Definition isStr (v : value) (s : string) : bool := bool_decide (v = VStr s).

(** ** Strings *)

Definition charCode (c : Ascii.ascii) : N := Ascii.N_of_ascii c.
Definition startsWith (s p : string) : bool := String.prefix p s.

Definition lowerChar (c : Ascii.ascii) : Ascii.ascii :=
  let n := charCode c in
  if ((65 <=? n) && (n <=? 90) || (192 <=? n) && (n <=? 222) && negb (n =? 215))%N
  then Ascii.ascii_of_N (n + 32) else c.
Fixpoint mapString (f : Ascii.ascii -> Ascii.ascii) (s : string) : string :=
  match s with
  | EmptyString => EmptyString
  | String c s => String (f c) (mapString f s)
  end.
Definition toLowerCase (s : string) : string := mapString lowerChar s.

(** But for the characters 181, 223 and 255, whose capitals are not one Latin-1 code unit. *)
Definition upperChar (c : Ascii.ascii) : Ascii.ascii :=
  let k := charCode c in
  if ((97 <=? k) && (k <=? 122) || (224 <=? k) && (k <=? 254) && negb (k =? 247))%N
  then Ascii.ascii_of_N (k - 32) else c.
Definition toUpperCase (s : string) : string := mapString upperChar s.

(** White space and line terminators below 256. *)
Definition isSpace (c : Ascii.ascii) : bool :=
  let n := charCode c in ((9 <=? n) && (n <=? 13) || (n =? 32) || (n =? 160))%N.
Fixpoint trimLeft (s : string) : string :=
  match s with
  | EmptyString => EmptyString
  | String c s' => if isSpace c then trimLeft s' else s
  end.
Fixpoint trimRight (s : string) : string :=
  match s with
  | EmptyString => EmptyString
  | String c s' =>
      match trimRight s' with
      | EmptyString => if isSpace c then EmptyString else String c EmptyString
      | t => String c t
      end
  end.
Definition trim (s : string) : string := trimRight (trimLeft s).

(** ** Objects *)

(** A data property, or an accessor whose getter throws. *)
Inductive slot : Type :=
| Data (v : value)
| Getter (thrown : value).

(** The own properties with string keys in the order of [Object.keys], with their
    enumerability; what is read through the prototype chain; [Array.isArray] and the
    length of an array; and the outcome of converting the object to a string
    ([None]: it throws). *)
Record jsobject : Type := mkObject {
  o_own : list (string * (bool * slot));
  o_inherited : list (string * value);
  o_arrayLength : option N;
  o_string : option string }.

Definition assoc {A : Type} (k : string) (l : list (string * A)) : option A :=
  snd <$> List.find (fun p => bool_decide (fst p = k)) l.

(** [Object.prototype] *)
Definition objectPrototypeFunctions : list string :=
  ["constructor"; "__defineGetter__"; "__defineSetter__"; "hasOwnProperty";
   "__lookupGetter__"; "__lookupSetter__"; "isPrototypeOf"; "propertyIsEnumerable";
   "toString"; "valueOf"; "toLocaleString"].
Definition objectPrototype : list (string * value) :=
  ("__proto__", VObj (Builtin "Object.prototype"))
    :: map (fun name => (name, VFun (Builtin name))) objectPrototypeFunctions.

(** An object literal with the given properties. *)
Definition literal (l : list (string * value)) : jsobject :=
  mkObject (map (fun p => (fst p, (true, Data (snd p)))) l) objectPrototype None
    (Some "[object Object]").

Definition keys (o : jsobject) : list string :=
  map fst (List.filter (fun p => fst (snd p)) (o_own o)).

Definition hasOwn (o : jsobject) (k : string) : bool :=
  match assoc k (o_own o) with Some _ => true | None => false end.

(** [o[k]] *)
Definition get (o : jsobject) (k : string) : res value :=
  match assoc k (o_own o) with
  | Some (_, Data v) => Ok v
  | Some (_, Getter e) => Throw (Thrown e)
  | None => Ok (default VUndef (assoc k (o_inherited o)))
  end.

Section Heap.
(** The objects of the program, which the code only reads. *)
Context (heap : ref -> jsobject).

(** [String(v)] *)
Definition toString (v : value) : option string :=
  match v with
  | VUndef => Some "undefined"
  | VNull => Some "null"
  | VBool b => Some (if b then "true" else "false")
  | VNum n => Some (numToString n)
  | VStr s => Some s
  | VSym _ d => Some ("Symbol(" +:+ d +:+ ")")
  | VBigInt z => Some (pretty z)
  | VFun r | VObj r => o_string (heap r)
  end.
End Heap.

(** ** Facts *)

Lemma strictEq_typeof v w : strictEq v w = true -> typeof v = typeof w.
Proof.
  destruct v, w; simpl; try done; try (by intros ?%bool_decide_eq_true; simplify_eq).
Qed.

(** Strictly equal values behave alike in every conversion the host files use. *)
Lemma strictEq_toString h v w : strictEq v w = true -> toString h v = toString h w \/ isSymbol v = true.
Proof.
  destruct v, w; simpl; try (by intros H; apply bool_decide_eq_true in H; simplify_eq; auto); auto.
  destruct n; [done|..]; intros H%bool_decide_eq_true; left; unfold numToString; by rewrite H.
Qed.

Lemma normal_NaN n : normal n = NaN -> n = NaN.
Proof.
  assert (H : forall k m e, stripZeros k m e <> NaN).
  { induction k; intros m e; simpl; [done|]. case_bool; [apply IHk|done]. }
  destruct n; simpl; try done. case_bool; [done|]. intros E. by apply H in E.
Qed.

Lemma strictEq_truthy v w : strictEq v w = true -> truthy v = truthy w.
Proof.
  destruct v as [| | |m| | | | |], w as [| | |n| | | | |]; simpl; try done;
    try (by intros H; apply bool_decide_eq_true in H; simplify_eq).
  destruct m as [| |m1 e1]; [done|..]; intros H%bool_decide_eq_true;
    (destruct n as [| |m2 e2]; [by apply normal_NaN in H|..]); unfold isZero; by rewrite H.
Qed.

Lemma assoc_In {A} k (l : list (string * A)) x : assoc k l = Some x -> (k, x) ∈ l.
Proof.
  unfold assoc. intros Hx. apply fmap_Some in Hx as ([k' x'] & Hf & ->).
  apply List.find_some in Hf as [Hin Hk]. bools. simpl in *. subst k'.
  by apply list_elem_of_In in Hin.
Qed.

Lemma assoc_None {A} k (l : list (string * A)) : assoc k l = None <-> k ∉ l.*1.
Proof.
  unfold assoc. rewrite fmap_None. split.
  - intros H Hk. apply list_elem_of_fmap in Hk as ([k' x] & -> & Hin).
    apply list_elem_of_In in Hin. pose proof (List.find_none _ _ H _ Hin) as E. cbn in E. by bools.
  - intros Hk. destruct (List.find _ l) as [[k' x]|] eqn:E; [|done].
    apply List.find_some in E as [Hin E]. bools. simpl in *. subst k'.
    apply list_elem_of_In in Hin. destruct Hk. apply list_elem_of_fmap. by exists (k, x).
Qed.

Example num_formats :
  map numToString [Finite 1000 (-2); Finite 15 (-1); Finite 5 (-3); Finite 1 21; Finite 1 20;
                   Finite 123 22; Finite (-7) (-7); Finite 0 4]%Z
  = ["10"; "1.5"; "0.005"; "1e+21"; "100000000000000000000"; "1.23e+24"; "-7e-7"; "0"].
Proof. vm_compute. reflexivity. Qed.
