(* ===== verification/PropertyPayload.v ===== *)
(** * DOM property payloads (packages/react-dom/src/dom-host/property-payload.js)

    [diffDomPropertyPayload] compares two props objects and returns the entries that turn
    the host node of the first into that of the second. Entries are objects with a kind
    and kind-specific fields: a record of values, with [VUndef] for an absent field. The
    functions keep the source's names; [mem] is [Set.prototype.has].

    The record of the controlled-form wrapper gate is represented by the arguments it is
    made from, and metadata fields that the source sets to the constant [false] or [true]
    whatever the input are left out of the diagnostic records. *)
From Stdlib Require Import Ascii.
From S2P Require Import Prelude JsValue.

Definition mem (s : string) (l : list string) : bool := bool_decide (s ∈ l).

Definition ENTRY_SET_ATTRIBUTE := "setAttribute".
Definition ENTRY_REMOVE_ATTRIBUTE := "removeAttribute".
Definition ENTRY_SET_PROPERTY := "setProperty".
Definition ENTRY_REMOVE_PROPERTY := "removeProperty".
Definition ENTRY_SET_STYLE := "setStyle".
Definition ENTRY_REMOVE_STYLE := "removeStyle".
Definition ENTRY_SET_INNER_HTML := "setInnerHTML".
Definition ENTRY_NON_PAYLOAD := "nonPayload".
Definition ENTRY_UNSUPPORTED := "unsupported".

(** ** Tables *)

Definition attributeAliases : list (string * string) :=
  [("className", "class"); ("htmlFor", "for"); ("tabIndex", "tabindex")].

Definition knownStringAttributeNames : list string :=
  ["dir"; "id"; "role"; "title"; "translate"].

Definition booleanishStringAttributeNames : list string :=
  ["contentEditable"; "draggable"; "spellCheck"].

Definition booleanAttributeNames : list string :=
  ["allowFullScreen"; "async"; "autoPlay"; "controls"; "default"; "defer"; "disabled";
   "disablePictureInPicture"; "disableRemotePlayback"; "formNoValidate"; "hidden"; "inert";
   "itemScope"; "loop"; "noModule"; "noValidate"; "open"; "playsInline"; "readOnly";
   "required"; "reversed"; "scoped"; "seamless"].

Definition controlledPropsByTag : list (string * list string) :=
  [("input", ["checked"; "defaultChecked"; "defaultValue"; "name"; "type"; "value"]);
   ("option", ["selected"]);
   ("select", ["defaultValue"; "multiple"; "value"]);
   ("textarea", ["defaultValue"; "value"])].

Definition formActionProps : list string :=
  ["action"; "encType"; "formAction"; "formEncType"; "formMethod"; "formTarget"; "method";
   "target"].

Definition documentScopedResourceTags : list string :=
  ["base"; "body"; "head"; "html"; "link"; "meta"; "script"; "style"; "title"].

(** Category and reason of each reserved prop. *)
Definition reservedNonPayloadProps : list (string * (string * string)) :=
  [("children", ("children", "children are handled by text-content reconciliation"));
   ("key", ("react-reserved-prop", "key is React element metadata and is not a DOM payload"));
   ("ref", ("react-reserved-prop", "ref is handled by the ref attachment path"));
   ("suppressContentEditableWarning",
     ("react-reserved-prop", "contentEditable warning suppression does not mutate host props"));
   ("suppressHydrationWarning",
     ("hydration", "hydration warning suppression belongs to hydration diffing"))].

Definition unsupportedPropReasons : list (string * (string * string)) :=
  [("innerHTML", ("innerHTML", "innerHTML is reserved and is not handled as an ordinary attribute"))].

Definition supportedStyleNames : list string :=
  ["backgroundColor"; "backgroundImage"; "borderWidth"; "color"; "flex"; "height";
   "lineHeight"; "marginTop"; "msTransition"; "opacity"; "paddingLeft"; "WebkitLineClamp";
   "width"; "zIndex"].

Definition unitlessStyleNames : list string :=
  ["flex"; "lineHeight"; "opacity"; "WebkitLineClamp"; "zIndex"].

(** ** Entries *)

(** [describeBoundaryValue] and [describePrivateStyleDiffValue] *)
Record described : Type := mkDescribed {
  d_type : string;
  d_empty : option bool;
  d_finite : option bool;
  d_zero : option bool;
  d_length : option N }.

Record boundaryProp : Type := mkBoundaryProp {
  bp_propName : string;
  bp_present : bool;
  bp_nonNull : bool;
  bp_value : described }.

(** Props after [normalizeProps]: whether they are an object (and not a function) and
    their properties. *)
Record propsObject : Type := mkProps {
  p_isObject : bool;
  p_object : jsobject }.

Record checkableRestoreMetadata : Type := mkCheckable {
  cr_inputType : string;
  cr_checkedProp : boundaryProp;
  cr_defaultCheckedProp : boundaryProp;
  cr_nameProp : boundaryProp;
  cr_radioGroupRestoreIntentStatus : string;
  cr_radioGroupRestoreRequired : bool }.

(** The arguments of [createControlledInputPrivateWrapperPropertyPayloadRecord]. *)
Record wrapperRecord : Type := mkWrapper {
  w_hostTag : string;
  w_propName : string;
  w_props : propsObject }.

Record controlledBoundary : Type := mkBoundary {
  cb_propertyPayloadStatus : string;
  cb_privateWrapperGateStatus : option string;
  cb_privateWrapperGateRecord : option wrapperRecord;
  cb_hostTag : string;
  cb_checkableRestoreMetadata : option checkableRestoreMetadata }.

Record entry : Type := mkEntry {
  kind : value;
  propName : value;
  attributeName : value;
  propertyName : value;
  styleName : value;
  mutation : value;
  entryValue : value;
  category : value;
  reason : value;
  controlledFormBoundary : option controlledBoundary }.

Definition createSetAttributeEntry (prop attribute v : string) : entry :=
  mkEntry (VStr ENTRY_SET_ATTRIBUTE) (VStr prop) (VStr attribute) VUndef VUndef VUndef (VStr v)
    VUndef VUndef None.

Definition createRemoveAttributeEntry (prop attribute : string) : entry :=
  mkEntry (VStr ENTRY_REMOVE_ATTRIBUTE) (VStr prop) (VStr attribute) VUndef VUndef VUndef VUndef
    VUndef VUndef None.

Definition isCustomStyleProperty (style : string) : bool := startsWith style "--".

Definition getStyleMutationTarget (style : string) : string :=
  if isCustomStyleProperty style then "setProperty" else "propertyAssignment".

Definition createSetStyleEntry (prop style v : string) : entry :=
  mkEntry (VStr ENTRY_SET_STYLE) (VStr prop) VUndef VUndef (VStr style)
    (VStr (getStyleMutationTarget style)) (VStr v) VUndef VUndef None.

Definition createRemoveStyleEntry (prop style : string) : entry :=
  mkEntry (VStr ENTRY_REMOVE_STYLE) (VStr prop) VUndef VUndef (VStr style)
    (VStr (getStyleMutationTarget style)) (VStr "") VUndef VUndef None.

Definition createSetInnerHtmlEntry (prop v : string) : entry :=
  mkEntry (VStr ENTRY_SET_INNER_HTML) (VStr prop) VUndef (VStr "innerHTML") VUndef VUndef (VStr v)
    VUndef VUndef None.

Definition createNonPayloadEntry (prop : string) (category reason : value) : entry :=
  mkEntry (VStr ENTRY_NON_PAYLOAD) (VStr prop) VUndef VUndef VUndef VUndef VUndef category reason
    None.

(** With the [details] that name a style. *)
Definition createUnsupportedEntry (prop category reason : string) (style : value) : entry :=
  mkEntry (VStr ENTRY_UNSUPPORTED) (VStr prop) VUndef VUndef style VUndef VUndef
    (VStr category) (VStr reason) None.

(** With the [details] of the controlled form boundary. *)
Definition createBoundaryEntry (prop category reason : string) (b : controlledBoundary) : entry :=
  mkEntry (VStr ENTRY_UNSUPPORTED) (VStr prop) VUndef VUndef VUndef VUndef VUndef
    (VStr category) (VStr reason) (Some b).

(** ** Classification of props *)

(** [table[propName]] for a table written as an object literal: its own properties, and
    those of [Object.prototype], on which [category] and [reason] are undefined. *)
Definition readTable (table : list (string * (string * string))) (prop : string)
    : option (value * value) :=
  match assoc prop table with
  | Some (c, r) => Some (VStr c, VStr r)
  | None => match assoc prop objectPrototype with Some _ => Some (VUndef, VUndef) | None => None end
  end.

Definition isEventLikeProp (prop : string) : bool :=
  match prop with
  | String o (String n (String _ _)) =>
      (bool_decide (o = "o"%char) || bool_decide (o = "O"%char))
      && (bool_decide (n = "n"%char) || bool_decide (n = "N"%char))
  | _ => false
  end.

Definition isDocumentScopedResourceTag (tag : value) : bool :=
  match tag with VStr t => mem t documentScopedResourceTags | _ => false end.

Definition isControlledFormProp (tag : value) (prop : string) : res bool :=
  match tag with
  | VStr t =>
      match assoc t controlledPropsByTag with
      | Some controlledProps => Ok (mem prop controlledProps)
      | None =>
          match assoc t objectPrototype with
          | Some _ => Throw (TypeError "controlledProps.has is not a function")
          | None => Ok false
          end
      end
  | _ => Ok false
  end.

Inductive valueKind : Type :=
| Known | BooleanishString | Boolean | DataOrAria | CustomLowercase.

Definition isDataOrAriaAttribute (prop : string) : bool :=
  startsWith prop "data-" || startsWith prop "aria-".

Definition isLowercaseCustomAttribute (prop : string) : bool :=
  bool_decide (prop = toLowerCase prop).

Definition getOrdinaryAttribute (prop : string) : option (string * valueKind) :=
  match assoc prop attributeAliases with
  | Some name => Some (name, Known)
  | None =>
      if mem prop knownStringAttributeNames then Some (prop, Known)
      else if mem prop booleanishStringAttributeNames then Some (prop, BooleanishString)
      else if mem prop booleanAttributeNames then Some (prop, Boolean)
      else if isDataOrAriaAttribute prop then Some (prop, DataOrAria)
      else if isLowercaseCustomAttribute prop then Some (prop, CustomLowercase)
      else None
  end.

Definition charIn (c : Ascii.ascii) (low high : N) : bool :=
  (low <=? charCode c)%N && (charCode c <=? high)%N.
Definition isLetter (c : Ascii.ascii) : bool := charIn c 65 90 || charIn c 97 122.
Definition isDigit (c : Ascii.ascii) : bool := charIn c 48 57.
Fixpoint allChars (f : Ascii.ascii -> bool) (s : string) : bool :=
  match s with EmptyString => true | String c s => f c && allChars f s end.

(** The pattern of a valid attribute name: [A-Za-z_:] and then [A-Za-z0-9_.:-]. *)
Definition isAttributeNameSafe (name : string) : bool :=
  match name with
  | EmptyString => false
  | String c s =>
      (isLetter c || bool_decide (c ∈ ["_"; ":"]%char))
      && allChars (fun d => isLetter d || isDigit d
                            || bool_decide (d ∈ ["_"; "."; ":"; "-"]%char)) s
  end.

Definition isSupportedStyleName (style : string) : bool :=
  mem style supportedStyleNames || isCustomStyleProperty style.

Definition shouldRemoveStyleValue (v : value) : bool :=
  nullish v || match v with VBool _ => true | _ => false end || isStr v "".

Definition shouldRemoveAttributeValue (v : value) (removeBooleans : bool) : bool :=
  match v with
  | VUndef | VNull => true
  | VFun _ | VSym _ _ => true
  | VBool _ => removeBooleans
  | _ => false
  end.

(** ** Coercions *)

Definition unsupportedStyleReason : string :=
  "this data-only style slice only covers oracle-backed style names and CSS custom properties".

(** The coerced value, or the unsupported entry that is returned instead of it. *)
Definition coerceStyleValue (prop style : string) (v : value) : string + entry :=
  match v with
  | VNum n =>
      if negb (isFinite n) then
        inr (createUnsupportedEntry prop "style-non-finite-number"
               "non-finite numeric style values require warning diagnostics outside this data-only helper"
               (VStr style))
      else if negb (isZero n) && negb (isCustomStyleProperty style)
              && negb (mem style unitlessStyleNames) then
        inl (numToString n +:+ "px")
      else inl (numToString n)
  | VStr s => inl (if isCustomStyleProperty style then s else trim s)
  | _ =>
      inr (createUnsupportedEntry prop "style-value-type"
             "this data-only style slice only admits string, finite number, nullish, empty string, or boolean style values"
             (VStr style))
  end.

Definition createStyleValueEntryOrUnsupported (prop style : string) (v : value) : entry :=
  if negb (isSupportedStyleName style) then
    createUnsupportedEntry prop "unsupported-style-name" unsupportedStyleReason (VStr style)
  else if shouldRemoveStyleValue v then createRemoveStyleEntry prop style
  else
    match coerceStyleValue prop style v with
    | inr unsupported => unsupported
    | inl coercedValue => createSetStyleEntry prop style coercedValue
    end.

Definition createRemoveStyleEntryOrUnsupported (prop style : string) : entry :=
  if negb (isSupportedStyleName style) then
    createUnsupportedEntry prop "unsupported-style-name" unsupportedStyleReason (VStr style)
  else createRemoveStyleEntry prop style.

(** [Array.isArray(v)] gives the length. *)
Definition describeBoundaryValue (heap : ref -> jsobject) (v : value) : described :=
  match v with
  | VNull => mkDescribed "null" None None None None
  | VStr s => mkDescribed "string" (Some (bool_decide (s = ""))) None None None
  | VNum n => mkDescribed "number" None (Some (isFinite n)) None None
  | VObj r =>
      match o_arrayLength (heap r) with
      | Some n => mkDescribed "array" None None None (Some n)
      | None => mkDescribed "object" None None None None
      end
  | _ => mkDescribed (typeof v) None None None None
  end.

Section Payload.
Context (heap : ref -> jsobject).

Definition concatMapRes {A : Type} (f : A -> res (list entry)) (l : list A) : res (list entry) :=
  let* entries := mapRes f l in Ok (concat entries).

Definition coerceSetAttributeEntry (prop attribute : string) (v : value) : entry :=
  match toString heap v with
  | Some s => createSetAttributeEntry prop attribute s
  | None =>
      createUnsupportedEntry prop "attribute-string-coercion"
        "attribute value could not be coerced to a string" VUndef
  end.

Definition createAttributeEntry (name : string) (k : valueKind) (prop : string) (v : value) : entry :=
  match k with
  | Boolean =>
      if truthy v && negb (isFunction v) && negb (isSymbol v)
      then createSetAttributeEntry prop name ""
      else createRemoveAttributeEntry prop name
  | DataOrAria | BooleanishString =>
      if shouldRemoveAttributeValue v false then createRemoveAttributeEntry prop name
      else coerceSetAttributeEntry prop name v
  | Known | CustomLowercase =>
      if shouldRemoveAttributeValue v true then createRemoveAttributeEntry prop name
      else coerceSetAttributeEntry prop name v
  end.

(** The properties of a value that is an object. *)
Definition objectOf (v : value) : option jsobject :=
  match v with VObj r => Some (heap r) | _ => None end.

Definition emptyProps : jsobject := literal [].

Definition createStyleEntries (prop : string) (v previousValue : value) : res (list entry) :=
  if negb (nullish v) && negb (isObjectLike v) then
    Ok [createUnsupportedEntry prop "style-shape-validation"
          "The `style` prop expects a mapping from style properties to values, not a string. For example, style={{marginRight: spacing + 'em'}} when using JSX."
          VUndef]
  else if negb (nullish previousValue) && negb (isObjectLike previousValue) then
    Ok [createUnsupportedEntry prop "style-previous-shape"
          "previous style props must be an object or null before this data-only helper can diff them"
          VUndef]
  else
    let previousStyles := objectOf previousValue in
    let currentStyles := objectOf v in
    let removed :=
      match previousStyles with
      | None => []
      | Some previous =>
          map (createRemoveStyleEntryOrUnsupported prop)
            (List.filter (fun style => match currentStyles with
                                       | None => true
                                       | Some current => negb (hasOwn current style)
                                       end) (keys previous))
      end in
    match currentStyles with
    | None => Ok removed
    | Some current =>
        let* changed := concatMapRes (fun style =>
          let* nextStyleValue := get current style in
          let* previousStyleValue := get (default emptyProps previousStyles) style in
          Ok (if strictEq previousStyleValue nextStyleValue then []
              else [createStyleValueEntryOrUnsupported prop style nextStyleValue])) (keys current) in
        Ok (removed ++ changed)
    end.

Definition createDangerousHtmlEntry (prop : string) (v : value) (props : propsObject) : res entry :=
  if nullish v then
    Ok (createNonPayloadEntry prop (VStr "dangerouslySetInnerHTML-nullish")
          (VStr "nullish dangerouslySetInnerHTML does not assign innerHTML; managed children and text-content paths own clearing"))
  else
    match objectOf v with
    | Some o =>
        if hasOwn o "__html" then
          let* html := get o "__html" in
          if nullish html then
            Ok (createNonPayloadEntry prop (VStr "dangerouslySetInnerHTML-nullish-html")
                  (VStr "nullish dangerouslySetInnerHTML.__html is accepted but does not assign innerHTML"))
          else
            let* children := get (p_object props) "children" in
            if negb (nullish children) then
              Ok (createUnsupportedEntry prop "dangerouslySetInnerHTML-children-conflict"
                    "Can only set one of `children` or `props.dangerouslySetInnerHTML`." VUndef)
            else
              match html with
              | VStr s => Ok (createSetInnerHtmlEntry prop s)
              | _ =>
                  Ok (createUnsupportedEntry prop "dangerouslySetInnerHTML-value-type"
                        "this data-only dangerouslySetInnerHTML slice only admits string __html values"
                        VUndef)
              end
        else
          Ok (createUnsupportedEntry prop "dangerouslySetInnerHTML-shape-validation"
                "`props.dangerouslySetInnerHTML` must be in the form `{__html: ...}`. Please visit https://react.dev/link/dangerously-set-inner-html for more information."
                VUndef)
    | None =>
        Ok (createUnsupportedEntry prop "dangerouslySetInnerHTML-shape-validation"
              "`props.dangerouslySetInnerHTML` must be in the form `{__html: ...}`. Please visit https://react.dev/link/dangerously-set-inner-html for more information."
              VUndef)
    end.

(** ** Controlled form props *)

Definition getInputTypeFromProps (props : propsObject) : string :=
  if p_isObject props && hasOwn (p_object props) "type" then
    match get (p_object props) "type" with
    | Ok (VStr type) => if bool_decide (type = "") then "text" else type
    | _ => "text"
    end
  else "text".

Definition describeControlledBoundaryProp (props : propsObject) (prop : string) : boundaryProp :=
  if negb (p_isObject props) || negb (hasOwn (p_object props) prop) then
    mkBoundaryProp prop false false (mkDescribed "missing" None None None None)
  else
    match get (p_object props) prop with
    | Ok v => mkBoundaryProp prop true (negb (nullish v)) (describeBoundaryValue heap v)
    | Throw _ => mkBoundaryProp prop true false (mkDescribed "inaccessible" None None None None)
    end.

Definition createControlledCheckableRestoreMetadataOrNull (tag : string) (props : propsObject)
    : option checkableRestoreMetadata :=
  if negb (bool_decide (tag = "input")) then None
  else
    let inputType := getInputTypeFromProps props in
    if negb (bool_decide (inputType = "checkbox")) && negb (bool_decide (inputType = "radio"))
    then None
    else
      let nameProp := describeControlledBoundaryProp props "name" in
      let radioGroupRestoreRequired := bool_decide (inputType = "radio") && bp_nonNull nameProp in
      Some (mkCheckable inputType (describeControlledBoundaryProp props "checked")
              (describeControlledBoundaryProp props "defaultChecked") nameProp
              (if radioGroupRestoreRequired
               then "recorded-private-controlled-radio-group-restore-intent"
               else "skipped-private-controlled-radio-group-restore-intent")
              radioGroupRestoreRequired).

Definition createControlledPrivateWrapperPropertyPayloadRecordOrNull
    (tag prop : string) (props : propsObject) : option wrapperRecord :=
  if mem tag ["input"; "select"; "textarea"] then Some (mkWrapper tag prop props) else None.

Definition createControlledFormUnsupportedEntry (tag prop : string) (props : propsObject) : entry :=
  let privateWrapperGateRecord :=
    createControlledPrivateWrapperPropertyPayloadRecordOrNull tag prop props in
  createBoundaryEntry prop ("controlled-" +:+ tag)
    ("controlled " +:+ tag +:+ " props are handled by the controlled form wrapper path")
    (mkBoundary "blocked-controlled-form-property-payload"
       (match privateWrapperGateRecord with
        | None => None
        | Some _ => Some "private-controlled-input-wrapper-property-payload-metadata-only"
        end)
       privateWrapperGateRecord tag
       (createControlledCheckableRestoreMetadataOrNull tag props)).

(** ** The diff *)

Definition tagString (tag : value) : string := match tag with VStr t => t | _ => "" end.

(** The names of [Object.prototype] never reach the second table. *)
Definition createEntries (tag : value) (prop : string) (v previousValue : value)
    (props : propsObject) : res (list entry) :=
  match readTable reservedNonPayloadProps prop with
  | Some (c, r) => Ok [createNonPayloadEntry prop c r]
  | None =>
  if isEventLikeProp prop then
    Ok [createNonPayloadEntry prop (VStr "event")
          (VStr "event props are stored by the future event/latest-props path")]
  else
  match assoc prop unsupportedPropReasons with
  | Some (c, r) => Ok [createUnsupportedEntry prop c r VUndef]
  | None =>
  if isDocumentScopedResourceTag tag then
    Ok [createUnsupportedEntry prop "document-resource-host"
          "document-scoped resource host tags require dedicated React DOM handling" VUndef]
  else if bool_decide (prop = "style") then createStyleEntries prop v previousValue
  else if bool_decide (prop = "dangerouslySetInnerHTML") then
    let* e := createDangerousHtmlEntry prop v props in Ok [e]
  else
    let* controlled := isControlledFormProp tag prop in
    if controlled then Ok [createControlledFormUnsupportedEntry (tagString tag) prop props]
    else if mem prop formActionProps then
      Ok [createUnsupportedEntry prop "form-action"
            "form action props are intentionally outside this ordinary attribute helper" VUndef]
    else
      match getOrdinaryAttribute prop with
      | None =>
          Ok [createUnsupportedEntry prop "unknown-host-prop"
                "this helper only covers bounded ordinary host attributes" VUndef]
      | Some (name, k) =>
          if negb (isAttributeNameSafe name) then
            Ok [createUnsupportedEntry prop "invalid-attribute-name"
                  "attribute name is not safe to include in a DOM payload" VUndef]
          else Ok [createAttributeEntry name k prop v]
      end
  end
  end.

Definition normalizeProps (props : value) (argumentName : string) : res propsObject :=
  match props with
  | VUndef | VNull => Ok (mkProps true emptyProps)
  | VObj r => Ok (mkProps true (heap r))
  | VFun r => Ok (mkProps false (heap r))
  | _ => Throw (TypeError (argumentName +:+ " must be an object or null."))
  end.

(** The two loops of [diffDomPropertyPayload]. *)
Definition removedEntries (tag : value) (previous current : propsObject) : res (list entry) :=
  concatMapRes (fun prop =>
    let* previousValue := get (p_object previous) prop in
    if negb (nullish previousValue) && negb (hasOwn (p_object current) prop)
    then createEntries tag prop VNull previousValue current
    else Ok []) (keys (p_object previous)).

Definition changedEntries (tag : value) (previous current : propsObject) : res (list entry) :=
  concatMapRes (fun prop =>
    let* nextValue := get (p_object current) prop in
    let* previousValue := get (p_object previous) prop in
    if negb (strictEq nextValue previousValue)
       && (negb (nullish nextValue) || negb (nullish previousValue))
    then createEntries tag prop nextValue previousValue current
    else Ok []) (keys (p_object current)).

Definition diffDomPropertyPayload (tag lastProps nextProps : value) : res (list entry) :=
  let* previous := normalizeProps lastProps "lastProps" in
  let* current := normalizeProps nextProps "nextProps" in
  let* removed := removedEntries tag previous current in
  let* changed := changedEntries tag previous current in
  Ok (removed ++ changed).
End Payload.

(** ** Entry kinds, as the appliers test them *)

Definition isKind (e : entry) (l : list string) : bool :=
  match kind e with VStr k => mem k l | _ => false end.

Definition isOrdinaryPropertyPayloadEntry (e : entry) : bool :=
  isKind e [ENTRY_SET_ATTRIBUTE; ENTRY_REMOVE_ATTRIBUTE; ENTRY_SET_PROPERTY; ENTRY_REMOVE_PROPERTY].
Definition isStyleDangerousHtmlPayloadEntry (e : entry) : bool :=
  isKind e [ENTRY_SET_STYLE; ENTRY_REMOVE_STYLE; ENTRY_SET_INNER_HTML].
Definition isStylePropertyPayloadEntry (e : entry) : bool :=
  isKind e [ENTRY_SET_STYLE; ENTRY_REMOVE_STYLE].
Definition isNonPayloadPropertyPayloadEntry (e : entry) : bool := isKind e [ENTRY_NON_PAYLOAD].
