(* ===== verification/StyleDiagnostics.v ===== *)
(** * Style diff diagnostics (property-payload.js, recordPrivateDomStyleObjectDiffDiagnostics)

    One row per style entry of the diff, and the counts of the rows. The constant
    metadata fields of the record are left out. *)
From S2P Require Import Prelude JsValue PropertyPayload.

(** [describePrivateStyleDiffValue] of a present value; a missing one is [None]. *)
Definition describePrivateStyleDiffValue (v : option value) : option described :=
  match v with
  | None => None
  | Some VNull => Some (mkDescribed "null" None None None None)
  | Some (VStr s) => Some (mkDescribed "string" (Some (bool_decide (s = ""))) None None None)
  | Some (VNum n) =>
      Some (mkDescribed "number" None (Some (isFinite n)) (Some (isZero n)) None)
  | Some v => Some (mkDescribed (typeof v) None None None None)
  end.

Record styleRow : Type := mkStyleRow {
  sr_payloadKind : value;
  sr_styleName : string;
  sr_action : string;
  sr_removalReason : option string;
  sr_mutation : value;
  sr_value : value;
  sr_previousValue : option described;
  sr_nextValue : option described;
  sr_customProperty : bool;
  sr_unitless : bool;
  sr_numericValue : bool;
  sr_unitlessNumber : bool;
  sr_numericWithoutPx : bool;
  sr_pxAppended : bool;
  sr_zeroNumericValue : bool }.

Inductive diffRow : Type :=
| StyleRow (row : styleRow)
| BlockedRow (prop : value) (category reason : value) (style : option value).

(** [o !== null && hasOwn.call(o, styleName) ? o[styleName] : undefined] *)
Definition readStyle (o : option jsobject) (style : string) : res (option value) :=
  match o with
  | Some o => if hasOwn o style then let* v := get o style in Ok (Some v) else Ok None
  | None => Ok None
  end.

Definition createPrivateStyleObjectDiffRow (previousStyles currentStyles : option jsobject)
    (e : entry) : res diffRow :=
  match isStylePropertyPayloadEntry e, styleName e with
  | true, VStr style =>
      let isSet := isStr (kind e) ENTRY_SET_STYLE in
      let* previousValue := readStyle previousStyles style in
      let* nextValue := readStyle currentStyles style in
      let customProperty := isCustomStyleProperty style in
      let unitless := negb customProperty && mem style unitlessStyleNames in
      let number := match nextValue with Some (VNum n) => Some n | _ => None end in
      let onNumber f := isSet && match number with Some n => f n | None => false end in
      Ok (StyleRow (mkStyleRow (kind e) style
        (if negb isSet then "remove"
         else match previousValue with Some _ => "change" | None => "add" end)
        (if negb isSet then
           Some (match nextValue with
                 | Some _ => "nullish-empty-or-boolean-next-value"
                 | None => "omitted-next-style-property"
                 end)
         else None)
        (mutation e) (entryValue e)
        (describePrivateStyleDiffValue previousValue) (describePrivateStyleDiffValue nextValue)
        customProperty unitless
        (match number with Some _ => true | None => false end)
        (onNumber (fun _ => unitless))
        (onNumber (fun n => isStr (entryValue e) (numToString n)))
        (onNumber (fun n => isStr (entryValue e) (numToString n +:+ "px")))
        (onNumber isZero)))
  | _, _ =>
      Ok (BlockedRow (if truthy (propName e) then propName e else VStr "style") (category e)
            (reason e) (if truthy (styleName e) then Some (styleName e) else None))
  end.

Record summary : Type := mkSummary {
  rowCount : nat;
  setStyleCount : nat;
  removeStyleCount : nat;
  additionRowCount : nat;
  changeRowCount : nat;
  removalRowCount : nat;
  unsupportedRowCount : nat;
  unitlessRowCount : nat;
  unitlessSetRowCount : nat;
  customPropertyRowCount : nat;
  numericWithoutPxRowCount : nat;
  pxAppendedRowCount : nat;
  zeroNumericRowCount : nat;
  propertyAssignmentCount : nat;
  setPropertyCount : nat;
  rowKinds : list value }.

Definition emptySummary (rowCount : nat) : summary :=
  mkSummary rowCount 0 0 0 0 0 0 0 0 0 0 0 0 0 0 [].

Definition incr (b : bool) (n : nat) : nat := if b then S n else n.
Definition addKind (k : value) (l : list value) : list value :=
  if bool_decide (k ∈ l) then l else l ++ [k].

(** The body of the loop. *)
Definition addRow (s : summary) (row : diffRow) : summary :=
  match row with
  | StyleRow r =>
      let isSet := isStr (sr_payloadKind r) ENTRY_SET_STYLE in
      let isRemove := negb isSet && isStr (sr_payloadKind r) ENTRY_REMOVE_STYLE in
      mkSummary (rowCount s)
        (incr isSet (setStyleCount s))
        (incr isRemove (removeStyleCount s))
        (incr (isSet && bool_decide (sr_action r = "add")) (additionRowCount s))
        (incr (isSet && bool_decide (sr_action r = "change")) (changeRowCount s))
        (incr isRemove (removalRowCount s))
        (incr (negb isSet && negb isRemove) (unsupportedRowCount s))
        (incr (sr_unitless r) (unitlessRowCount s))
        (incr (sr_unitless r && isSet) (unitlessSetRowCount s))
        (incr (sr_customProperty r) (customPropertyRowCount s))
        (incr (sr_numericWithoutPx r) (numericWithoutPxRowCount s))
        (incr (sr_pxAppended r) (pxAppendedRowCount s))
        (incr (sr_zeroNumericValue r) (zeroNumericRowCount s))
        (incr (isStr (sr_mutation r) "propertyAssignment") (propertyAssignmentCount s))
        (incr (isStr (sr_mutation r) "setProperty") (setPropertyCount s))
        (addKind (sr_payloadKind r) (rowKinds s))
  | BlockedRow _ _ _ _ =>
      mkSummary (rowCount s) (setStyleCount s) (removeStyleCount s) (additionRowCount s)
        (changeRowCount s) (removalRowCount s) (S (unsupportedRowCount s)) (unitlessRowCount s)
        (unitlessSetRowCount s) (customPropertyRowCount s) (numericWithoutPxRowCount s)
        (pxAppendedRowCount s) (zeroNumericRowCount s) (propertyAssignmentCount s)
        (setPropertyCount s) (addKind (VStr ENTRY_UNSUPPORTED) (rowKinds s))
  end.

Definition summarizePrivateStyleObjectDiffRows (rows : list diffRow) : summary :=
  foldl addRow (emptySummary (length rows)) rows.

Record styleDiagnostic : Type := mkStyleDiagnostic {
  sd_status : string;
  sd_rows : list diffRow;
  sd_payloadRows : list entry;
  sd_summary : summary;
  sd_payloadRowsAccepted : bool }.

Definition recordPrivateDomStyleObjectDiffDiagnostics (heap : ref -> jsobject)
    (lastStyle nextStyle : value) : res styleDiagnostic :=
  let previousStyles := objectOf heap lastStyle in
  let currentStyles := objectOf heap nextStyle in
  let* payloadRows := createStyleEntries heap "style" nextStyle lastStyle in
  let* rows := mapRes (createPrivateStyleObjectDiffRow previousStyles currentStyles) payloadRows in
  let s := summarizePrivateStyleObjectDiffRows rows in
  let accepted := (unsupportedRowCount s =? 0)%nat in
  Ok (mkStyleDiagnostic
        (if accepted then "accepted-private-dom-style-object-diff-diagnostic"
         else "blocked-private-dom-style-object-diff-diagnostic")
        rows payloadRows s accepted).
