(* ===== verification/PropertyPayloadSpec.v ===== *)
(** * Correctness of property payloads: the diff patches the host node *)
From S2P Require Import Prelude JsValue PropertyPayload StyleDiagnostics.

(** ** Entries of a diff *)

Lemma concatMapRes_elem {A} (f : A -> res (list entry)) l es :
  concatMapRes f l = Ok es ->
  (forall x, x ∈ l -> exists xs, f x = Ok xs) /\
  (forall e, e ∈ es <-> exists x xs, x ∈ l /\ f x = Ok xs /\ e ∈ xs).
Proof.
  intros (r & Hr%mapRes_Ok & [= <-])%bind_Ok. induction Hr as [|x y l r Hx Hr [IH1 IH2]].
  - split; [intros x Hx; set_solver|]. intros e. simpl. set_solver.
  - split.
    + intros x' [->|Hx']%elem_of_cons; eauto.
    + intros e. simpl. rewrite elem_of_app, IH2. split.
      * intros [He|(x' & xs & H1 & H2 & H3)]; [exists x, y|exists x', xs]; set_solver.
      * intros (x' & xs & [->|H1]%elem_of_cons & H2 & H3); [left; congruence|right]. eauto.
Qed.

(** An object literal: every property is an own enumerable data property, and the
    prototype is [Object.prototype]. *)
Record plain (o : jsobject) : Prop := {
  pl_inherited : o_inherited o = objectPrototype;
  pl_slots : Forall (fun p => exists v, snd p = (true, Data v)) (o_own o) }.

Definition own (o : jsobject) (k : string) : option value :=
  match assoc k (o_own o) with Some (_, Data v) => Some v | _ => None end.

Lemma plain_slot o k s : plain o -> assoc k (o_own o) = Some s -> exists v, s = (true, Data v).
Proof.
  intros [_ Hs] Hk%assoc_In. rewrite Forall_forall in Hs. destruct (Hs _ Hk) as [v Hv]. eauto.
Qed.

Lemma plain_get o k : plain o ->
  get o k = Ok (default (default VUndef (assoc k objectPrototype)) (own o k)).
Proof.
  intros Ho. unfold get, own. destruct (assoc k (o_own o)) as [s|] eqn:E.
  - by destruct (plain_slot o k s Ho E) as [v ->].
  - by rewrite (pl_inherited _ Ho).
Qed.

Lemma plain_hasOwn o k : plain o -> hasOwn o k = bool_decide (is_Some (own o k)).
Proof.
  intros Ho. unfold hasOwn, own. destruct (assoc k (o_own o)) as [s|] eqn:E.
  - destruct (plain_slot o k s Ho E) as [v ->]. symmetry. by apply bool_decide_eq_true.
  - symmetry. apply bool_decide_eq_false. by intros [? ?].
Qed.

Lemma plain_keys o k : plain o -> k ∈ keys o <-> is_Some (own o k).
Proof.
  intros Ho. assert (Hk : keys o = (o_own o).*1).
  { unfold keys. f_equal. apply List.forallb_filter_id, List.forallb_forall. intros [n s] Hin.
    apply list_elem_of_In in Hin. destruct Ho as [_ Hs]. rewrite Forall_forall in Hs.
    destruct (Hs _ Hin) as [v ->]. done. }
  rewrite Hk. unfold own. destruct (assoc k (o_own o)) as [s|] eqn:E.
  - destruct (plain_slot o k s Ho E) as [v ->]. split; [eauto|]. intros _.
    apply assoc_In in E. apply list_elem_of_fmap. exists (k, (true, Data v)). auto.
  - apply assoc_None in E. split; [done|]. by intros [? ?].
Qed.

Lemma plain_literal l : plain (literal l).
Proof.
  split; [done|]. apply Forall_forall. intros p Hp. simpl in Hp.
  apply list_elem_of_fmap in Hp as (x & -> & _). simpl. eauto.
Qed.
#[export] Hint Resolve plain_literal : fastreact.

Lemma empty_own k : own emptyProps k = None.
Proof. done. Qed.

(** ** Patching *)

(** What a list of entries does to the attributes, or to the styles: [write] reads off the
    name an entry writes, and the new value or the removal. *)
Section Patching.
Context (write : entry -> option (string * option string)).

Definition patchEntry (m : gmap string string) (e : entry) : gmap string string :=
  match write e with
  | Some (a, Some v) => <[a := v]> m
  | Some (a, None) => delete a m
  | None => m
  end.
Definition patch (es : list entry) (m : gmap string string) : gmap string string :=
  foldl patchEntry m es.

Lemma patchEntry_lookup m e a :
  patchEntry m e !! a = match write e with
                        | Some (b, w) => if bool_decide (b = a) then w else m !! a
                        | None => m !! a
                        end.
Proof.
  unfold patchEntry. destruct (write e) as [[b [v|]]|]; [| |done]; case_bool_decide; subst;
    by rewrite ?lookup_insert_eq, ?lookup_delete_eq, ?lookup_insert_ne, ?lookup_delete_ne.
Qed.

Lemma patch_unwritten es m a :
  (forall e w, e ∈ es -> write e <> Some (a, w)) -> patch es m !! a = m !! a.
Proof.
  unfold patch. revert m. induction es as [|e es IH]; intros m H; [done|]. simpl.
  rewrite IH by (intros e' w He; apply H; by right). rewrite patchEntry_lookup.
  destruct (write e) as [[b w]|] eqn:E; [|done]. case_bool_decide; [|done]. subst.
  destruct (H e w); [left|done].
Qed.

Lemma patch_written es m a w e :
  e ∈ es -> write e = Some (a, w) ->
  (forall e' w', e' ∈ es -> write e' = Some (a, w') -> w' = w) -> patch es m !! a = w.
Proof.
  unfold patch. induction es as [|e0 es IH] using rev_ind; intros He Hw Huniq; [set_solver|].
  rewrite foldl_snoc, patchEntry_lookup.
  destruct (write e0) as [[b w0]|] eqn:E0; [case_bool_decide; subst|].
  - apply (Huniq e0); [set_solver|done].
  - apply elem_of_app in He as [He|He%list_elem_of_singleton]; [|congruence].
    apply IH; [done|done|]. intros e' w' He'. apply Huniq. set_solver.
  - apply elem_of_app in He as [He|He%list_elem_of_singleton]; [|congruence].
    apply IH; [done|done|]. intros e' w' He'. apply Huniq. set_solver.
Qed.

(** Only the entries that write a name matter for it. *)
Lemma patch_ext es es' m a :
  (forall e w, write e = Some (a, w) -> e ∈ es <-> e ∈ es') ->
  (forall e e' w w', e ∈ es -> e' ∈ es -> write e = Some (a, w) -> write e' = Some (a, w') -> w = w') ->
  patch es m !! a = patch es' m !! a.
Proof.
  intros Hin Hfun.
  destruct (decide (Exists (fun e => fst <$> write e = Some a) es)) as [Hex|Hno].
  - apply Exists_exists in Hex as (e & He & Hw). destruct (write e) as [[b w]|] eqn:E; simplify_eq/=.
    rewrite (patch_written es m a w e), (patch_written es' m a w e); try done.
    + by apply (Hin e w).
    + intros e' w' He' Hw'. apply (Hin e' w') in He'; [|done]. by apply (Hfun e' e w' w).
    + intros e' w' He' Hw'. by apply (Hfun e' e w' w).
  - rewrite !patch_unwritten; [done|..].
    + intros e w He Hw. apply Hno, Exists_exists. exists e. rewrite Hw. split; [|done].
      by apply (Hin e w).
    + intros e w He Hw. apply Hno, Exists_exists. exists e. by rewrite Hw.
Qed.
End Patching.

Definition attributeWrite (e : entry) : option (string * option string) :=
  match attributeName e, entryValue e with
  | VStr a, VStr v => if isKind e [ENTRY_SET_ATTRIBUTE] then Some (a, Some v) else None
  | VStr a, _ => if isKind e [ENTRY_REMOVE_ATTRIBUTE] then Some (a, None) else None
  | _, _ => None
  end.

Definition styleWrite (e : entry) : option (string * option string) :=
  match styleName e, entryValue e with
  | VStr a, VStr v =>
      if isKind e [ENTRY_SET_STYLE] then Some (a, Some v)
      else if isKind e [ENTRY_REMOVE_STYLE] then Some (a, None) else None
  | _, _ => None
  end.

Definition isUnsupported (e : entry) : bool := isKind e [ENTRY_UNSUPPORTED].

(** ** Attributes *)

(** The attribute a prop of a host tag is rendered to, if it is an ordinary one. *)
Definition ordinaryAttribute (tag : value) (prop : string) : option (string * valueKind) :=
  match readTable reservedNonPayloadProps prop, isControlledFormProp tag prop with
  | None, Ok false =>
      if isEventLikeProp prop || mem prop ["innerHTML"; "style"; "dangerouslySetInnerHTML"]
         || isDocumentScopedResourceTag tag || mem prop formActionProps
      then None
      else match getOrdinaryAttribute prop with
           | Some (name, k) => if isAttributeNameSafe name then Some (name, k) else None
           | None => None
           end
  | _, _ => None
  end.

Section Diff.
Context (heap : ref -> jsobject).

(** The string an attribute of a kind gets for a value; [None] is its absence. *)
Definition attributeValue (k : valueKind) (v : value) : option string :=
  match k with
  | Boolean => if truthy v && negb (isFunction v) && negb (isSymbol v) then Some "" else None
  | DataOrAria | BooleanishString =>
      if shouldRemoveAttributeValue v false then None else toString heap v
  | Known | CustomLowercase =>
      if shouldRemoveAttributeValue v true then None else toString heap v
  end.

Lemma attributeEntry_write a k prop v :
  isUnsupported (createAttributeEntry heap a k prop v) = false ->
  attributeWrite (createAttributeEntry heap a k prop v) = Some (a, attributeValue k v).
Proof.
  destruct k; cbn -[toString truthy]; repeat case_bool; try done; unfold coerceSetAttributeEntry;
    by destruct (toString heap v).
Qed.

Lemma attributeValue_eq k v w : strictEq v w = true -> attributeValue k v = attributeValue k w.
Proof.
  intros E. assert (Hs : forall b, shouldRemoveAttributeValue v b = shouldRemoveAttributeValue w b).
  { intros b. by destruct v, w; simpl in *; bools; simplify_eq. }
  assert (Hf : isFunction v = isFunction w /\ isSymbol v = isSymbol w).
  { by destruct v, w; simpl in *; bools; simplify_eq. }
  destruct Hf as [Hf Hy]. pose proof (strictEq_truthy _ _ E) as Ht.
  destruct (strictEq_toString heap _ _ E) as [Hts|Hts].
  - destruct k; simpl; by rewrite ?Hs, ?Ht, ?Hf, ?Hy, ?Hts.
  - destruct v; try done. by destruct w, k.
Qed.

Lemma attributeValue_nullish k v : nullish v = true -> attributeValue k v = None.
Proof. by destruct v, k. Qed.

Lemma createEntries_ordinary tag prop v pv props a k :
  ordinaryAttribute tag prop = Some (a, k) ->
  createEntries heap tag prop v pv props = Ok [createAttributeEntry heap a k prop v].
Proof.
  unfold ordinaryAttribute, createEntries.
  destruct (readTable _ _); [done|]. destruct (isControlledFormProp tag prop) as [[]|]; [done| |done].
  destruct (isEventLikeProp prop); [done|]. simpl.
  destruct (mem prop [_; _; _]) eqn:Hm; [done|]. unfold mem in Hm. bools.
  destruct (isDocumentScopedResourceTag tag); [done|]. simpl.
  destruct (mem prop formActionProps); [done|].
  assert (Hu : assoc prop unsupportedPropReasons = None).
  { apply assoc_None. set_solver. }
  rewrite Hu, !bool_decide_eq_false_2 by set_solver.
  destruct (getOrdinaryAttribute prop) as [[name kd]|]; [|done].
  destruct (isAttributeNameSafe name); [|done]. by intros [= <- <-].
Qed.

(** The shapes of the entries of a style diff. *)
Lemma createStyleEntries_shape prop v pv es e :
  createStyleEntries heap prop v pv = Ok es -> e ∈ es ->
  isUnsupported e = true /\ attributeName e = VUndef
  \/ (exists style, e = createRemoveStyleEntry prop style /\ isSupportedStyleName style = true)
  \/ (exists style s, e = createSetStyleEntry prop style s /\ isSupportedStyleName style = true).
Proof.
  unfold createStyleEntries. intros Hes He.
  destruct (negb (nullish v) && _); [injection Hes as <-; set_solver|].
  destruct (negb (nullish pv) && _); [injection Hes as <-; set_solver|].
  set (removed := match objectOf heap pv with Some _ => _ | None => _ end) in *.
  assert (Hrm : forall e', e' ∈ removed -> exists style, e' = createRemoveStyleEntryOrUnsupported prop style).
  { unfold removed. destruct (objectOf heap pv); [|set_solver]. intros e' H.
    apply list_elem_of_fmap in H as (style & -> & _). eauto. }
  assert (Hcase : e ∈ removed \/ exists style x, e = createStyleValueEntryOrUnsupported prop style x).
  { destruct (objectOf heap v) as [o|]; [|injection Hes as <-; auto].
    apply bind_Ok in Hes as (changed & Hc & [= <-]). apply concatMapRes_elem in Hc as [_ Hc].
    apply elem_of_app in He as [He|He]; [auto|right]. apply Hc in He as (style & xs & _ & Hxs & He).
    apply bind_Ok in Hxs as (x & _ & Hxs). apply bind_Ok in Hxs as (y & _ & [= <-]).
    case_bool; [set_solver|]. apply list_elem_of_singleton in He as ->. eauto. }
  destruct Hcase as [[style ->]%Hrm|(style & x & ->)].
  - unfold createRemoveStyleEntryOrUnsupported. case_bool; bools; eauto.
  - unfold createStyleValueEntryOrUnsupported, coerceStyleValue.
    case_bool; bools; [auto|]. case_bool; [eauto|].
    destruct x; simpl; repeat case_bool; eauto 8.
Qed.

Lemma createDangerousHtmlEntry_shape prop v props e :
  createDangerousHtmlEntry heap prop v props = Ok e ->
  (exists c r, e = createNonPayloadEntry prop (VStr c) (VStr r))
  \/ isUnsupported e = true /\ attributeName e = VUndef
  \/ (exists s o children, e = createSetInnerHtmlEntry prop s /\ objectOf heap v = Some o
      /\ get o "__html" = Ok (VStr s) /\ get (p_object props) "children" = Ok children
      /\ nullish children = true).
Proof.
  unfold createDangerousHtmlEntry. destruct (nullish v); [intros [= <-]; eauto|].
  destruct (objectOf heap v) as [o|]; [|intros [= <-]; auto].
  destruct (hasOwn o "__html"); [|intros [= <-]; auto].
  intros (html & Hh & H)%bind_Ok. destruct (nullish html); [injection H as <-; eauto|].
  apply bind_Ok in H as (children & Hc & H).
  destruct (nullish children) eqn:En; simpl in H; [|injection H as <-; auto].
  destruct html; injection H as <-; auto. right. right. eauto 10.
Qed.

(** The entries of a prop: of an ordinary attribute, of [style], of
    [dangerouslySetInnerHTML], skipped or unsupported. *)
Inductive entriesOf (tag : value) (prop : string) (v pv : value) (props : propsObject)
    : list entry -> Prop :=
| of_attribute a k : ordinaryAttribute tag prop = Some (a, k) ->
    entriesOf tag prop v pv props [createAttributeEntry heap a k prop v]
| of_style es : prop = "style" -> createStyleEntries heap prop v pv = Ok es ->
    entriesOf tag prop v pv props es
| of_html e : prop = "dangerouslySetInnerHTML" ->
    createDangerousHtmlEntry heap prop v props = Ok e -> entriesOf tag prop v pv props [e]
| of_reserved c r : readTable reservedNonPayloadProps prop = Some (c, r) ->
    entriesOf tag prop v pv props [createNonPayloadEntry prop c r]
| of_event c r : isEventLikeProp prop = true ->
    entriesOf tag prop v pv props [createNonPayloadEntry prop (VStr c) (VStr r)]
| of_unsupported e : isUnsupported e = true -> attributeName e = VUndef -> propName e = VStr prop ->
    entriesOf tag prop v pv props [e].

Lemma createEntries_of tag prop v pv props es :
  createEntries heap tag prop v pv props = Ok es -> entriesOf tag prop v pv props es.
Proof.
  unfold createEntries.
  destruct (readTable _ _) as [[c r]|] eqn:Hr; [intros [= <-]; by apply of_reserved|].
  destruct (isEventLikeProp prop) eqn:Hev; [intros [= <-]; by apply of_event|].
  destruct (assoc prop unsupportedPropReasons) as [[c r]|] eqn:Hu;
    [intros [= <-]; by apply of_unsupported|].
  destruct (isDocumentScopedResourceTag tag) eqn:Ht; [intros [= <-]; by apply of_unsupported|].
  case_bool_decide as Hst; [by apply of_style|].
  case_bool_decide as Hd; [intros (e & He & [= <-])%bind_Ok; by apply of_html|].
  intros (controlled & Hc & H)%bind_Ok. destruct controlled; [injection H as <-; by apply of_unsupported|].
  destruct (mem prop formActionProps) eqn:Hf; [injection H as <-; by apply of_unsupported|].
  destruct (getOrdinaryAttribute prop) as [[a k]|] eqn:Ha; [|injection H as <-; by apply of_unsupported].
  destruct (isAttributeNameSafe a) eqn:Hs; simpl in H; injection H as <-; [|by apply of_unsupported].
  apply of_attribute. unfold ordinaryAttribute. rewrite Hr, Hc, Hev, Ht, Hf, Ha, Hs.
  rewrite bool_decide_eq_false_2 || unfold mem at 1. rewrite bool_decide_eq_false_2; [done|].
  assert (Hi : prop <> "innerHTML") by (intros ->; done). set_solver.
Qed.

(** Entries that do not come from an ordinary attribute never write one. *)
Lemma entriesOf_attribute tag prop v pv props es e a w :
  entriesOf tag prop v pv props es -> e ∈ es -> attributeWrite e = Some (a, w) ->
  exists k, ordinaryAttribute tag prop = Some (a, k) /\ e = createAttributeEntry heap a k prop v.
Proof.
  intros Hes He Hw. assert (Hn : attributeName e <> VUndef).
  { intros E. unfold attributeWrite in Hw. by rewrite E in Hw. }
  destruct Hes as [b k Hk|es _ Hes|e0 _ Hes|c r|c r|e0 _ Ha _]; try (by set_solver).
  - apply list_elem_of_singleton in He as ->. exists k.
    destruct (isUnsupported (createAttributeEntry heap b k prop v)) eqn:E.
    + revert E Hw Hn. destruct k; cbn -[toString truthy]; repeat case_bool; try done;
        unfold coerceSetAttributeEntry; by destruct (toString heap v).
    + rewrite attributeEntry_write in Hw by done. by injection Hw as <- <-.
  - destruct (createStyleEntries_shape _ _ _ _ _ Hes He) as [[_ ?]|[(? & -> & _)|(? & ? & -> & _)]];
      done.
  - apply list_elem_of_singleton in He as ->.
    destruct (createDangerousHtmlEntry_shape _ _ _ _ Hes) as [(? & ? & ->)|[[_ ?]|(? & ? & ? & -> & _)]];
      done.
Qed.
(** ** The props whose entries a diff contains *)

(** The value a diff passes for a prop, when it creates entries for it. *)
Definition changedTo (p q : jsobject) (k : string) : option value :=
  match own q k with
  | Some v =>
      let pv := default (default VUndef (assoc k objectPrototype)) (own p k) in
      if strictEq v pv || nullish v && nullish pv then None else Some v
  | None =>
      match own p k with
      | Some pv => if nullish pv then None else Some VNull
      | None => None
      end
  end.

(** What the prop was before, for the diff that creates its entries. *)
Definition previousOf (p : jsobject) (k : string) : value :=
  default (default VUndef (assoc k objectPrototype)) (own p k).

Lemma diff_elem tag (p q : propsObject) removed changed :
  plain (p_object p) -> plain (p_object q) ->
  removedEntries heap tag p q = Ok removed -> changedEntries heap tag p q = Ok changed ->
  (forall e, e ∈ removed ++ changed <-> exists k v es, changedTo (p_object p) (p_object q) k = Some v
     /\ createEntries heap tag k v (previousOf (p_object p) k) q = Ok es /\ e ∈ es)
  /\ (forall k v, changedTo (p_object p) (p_object q) k = Some v ->
       exists es, createEntries heap tag k v (previousOf (p_object p) k) q = Ok es).
Proof.
  intros Hp Hq [Hr1 Hr2]%concatMapRes_elem [Hc1 Hc2]%concatMapRes_elem.
  assert (Hchg : forall k v, own (p_object q) k = Some v ->
    (let* nextValue := get (p_object q) k in
     let* previousValue := get (p_object p) k in
     if negb (strictEq nextValue previousValue)
        && (negb (nullish nextValue) || negb (nullish previousValue))
     then createEntries heap tag k nextValue previousValue q else Ok [])
    = match changedTo (p_object p) (p_object q) k with
      | Some v => createEntries heap tag k v (previousOf (p_object p) k) q
      | None => Ok []
      end).
  { intros k v Hv. rewrite !plain_get by done. unfold changedTo, previousOf. rewrite Hv. simpl.
    set (pv := default _ (own (p_object p) k)).
    by destruct (strictEq v pv), (nullish v), (nullish pv). }
  assert (Hrm : forall k pv, own (p_object p) k = Some pv ->
    (let* previousValue := get (p_object p) k in
     if negb (nullish previousValue) && negb (hasOwn (p_object q) k)
     then createEntries heap tag k VNull previousValue q else Ok [])
    = match own (p_object q) k with
      | Some _ => Ok []
      | None => match changedTo (p_object p) (p_object q) k with
                | Some v => createEntries heap tag k v (previousOf (p_object p) k) q
                | None => Ok []
                end
      end).
  { intros k pv Hpv. rewrite plain_get, plain_hasOwn by done. unfold changedTo, previousOf.
    rewrite Hpv. simpl. destruct (own (p_object q) k) as [v|] eqn:Ev.
    - rewrite bool_decide_eq_true_2 by done. by rewrite andb_false_r.
    - rewrite bool_decide_eq_false_2 by (by intros [? ?]). by destruct (nullish pv). }
  assert (Hsome : forall k v, changedTo (p_object p) (p_object q) k = Some v ->
    k ∈ keys (p_object q) \/ k ∈ keys (p_object p) /\ own (p_object q) k = None).
  { intros k v Hv. rewrite !plain_keys by done. unfold changedTo in Hv.
    destruct (own (p_object q) k); [eauto|]. destruct (own (p_object p) k); [eauto|done]. }
  split.
  - intros e. rewrite elem_of_app, Hr2, Hc2. split.
    + intros [(k & xs & Hk & Hx & He)|(k & xs & Hk & Hx & He)]; apply plain_keys in Hk as [v Hv]; auto.
      * rewrite (Hrm k v) in Hx by done. destruct (own (p_object q) k); [simplify_eq; set_solver|].
        destruct (changedTo _ _ k) eqn:E; [eauto 10|simplify_eq; set_solver].
      * rewrite (Hchg k v) in Hx by done.
        destruct (changedTo _ _ k) eqn:E; [eauto 10|simplify_eq; set_solver].
    + intros (k & v & es & Hv & Hes & He). destruct (Hsome _ _ Hv) as [Hk|[Hk Hn]];
        pose proof Hk as [w Hw]%plain_keys; auto.
      * right. exists k, es. rewrite (Hchg k w), Hv by done. auto.
      * left. exists k, es. rewrite (Hrm k w), Hn, Hv by done. auto.
  - intros k v Hv. destruct (Hsome _ _ Hv) as [Hk|[Hk Hn]]; pose proof Hk as [w Hw]%plain_keys; auto.
    + destruct (Hc1 _ Hk) as [es Hes]. rewrite (Hchg k w), Hv in Hes by done. eauto.
    + destruct (Hr1 _ Hk) as [es Hes]. rewrite (Hrm k w), Hn, Hv in Hes by done. eauto.
Qed.

(** No two of the given props are rendered to the same attribute. *)
Definition noAlias (tag : value) (l : list string) : Prop :=
  forall k k' a kd kd', k ∈ l -> k' ∈ l -> ordinaryAttribute tag k = Some (a, kd) ->
    ordinaryAttribute tag k' = Some (a, kd') -> k = k'.

Lemma changedTo_keys p q k v : plain p -> plain q -> changedTo p q k = Some v -> k ∈ keys p ++ keys q.
Proof.
  intros Hp Hq. unfold changedTo. rewrite elem_of_app, !plain_keys by done.
  destruct (own q k), (own p k); eauto; done.
Qed.

(** What the diff does to one attribute, rendered from one prop. *)
Lemma diff_attribute tag (p q : propsObject) removed changed m a kd k :
  plain (p_object p) -> plain (p_object q) ->
  removedEntries heap tag p q = Ok removed -> changedEntries heap tag p q = Ok changed ->
  Forall (fun e => isUnsupported e = false) (removed ++ changed) ->
  ordinaryAttribute tag k = Some (a, kd) ->
  (forall k' kd', k' ∈ keys (p_object p) ++ keys (p_object q) ->
     ordinaryAttribute tag k' = Some (a, kd') -> k' = k) ->
  patch attributeWrite (removed ++ changed) m !! a
  = match changedTo (p_object p) (p_object q) k with
    | Some v => attributeValue kd v
    | None => m !! a
    end.
Proof.
  intros Hp Hq Hr Hc Hsup Ha Huniq. destruct (diff_elem tag p q _ _ Hp Hq Hr Hc) as [Hin Hex].
  rewrite Forall_forall in Hsup.
  assert (Hw : forall e w, e ∈ removed ++ changed -> attributeWrite e = Some (a, w) ->
    exists v, changedTo (p_object p) (p_object q) k = Some v /\ w = attributeValue kd v).
  { intros e w He Hew. pose proof (Hsup _ He) as Hs.
    apply Hin in He as (k' & v & es & Hv & Hes%createEntries_of & He).
    destruct (entriesOf_attribute _ _ _ _ _ _ _ _ _ Hes He Hew) as (kd' & Hk' & ->).
    assert (k' = k) as -> by (eapply Huniq; [by eapply changedTo_keys|done]).
    rewrite Ha in Hk'. injection Hk' as <-. exists v. split; [done|].
    rewrite attributeEntry_write in Hew by done. by injection Hew. }
  destruct (changedTo _ _ k) as [v|] eqn:Ev.
  - destruct (Hex _ _ Ev) as [es Hes]. rewrite (createEntries_ordinary _ _ _ _ _ _ _ Ha) in Hes.
    assert (He : createAttributeEntry heap a kd k v ∈ removed ++ changed).
    { apply Hin. exists k, v, [createAttributeEntry heap a kd k v].
      rewrite (createEntries_ordinary _ _ _ _ _ _ _ Ha). split; [done|]. split; [done|]. by left. }
    eapply patch_written; [done|by apply attributeEntry_write, Hsup|].
    intros e' w' He' Hw'. by destruct (Hw _ _ He' Hw') as (v' & [= <-] & ->).
  - apply patch_unwritten. intros e w He Hew. by destruct (Hw _ _ He Hew) as (? & ? & _).
Qed.

Lemma diff_no_attribute tag (p q : propsObject) removed changed m a :
  plain (p_object p) -> plain (p_object q) ->
  removedEntries heap tag p q = Ok removed -> changedEntries heap tag p q = Ok changed ->
  (forall k, k ∈ keys (p_object p) ++ keys (p_object q) ->
     fst <$> ordinaryAttribute tag k <> Some a) ->
  patch attributeWrite (removed ++ changed) m !! a = m !! a.
Proof.
  intros Hp Hq Hr Hc Hno. apply patch_unwritten. intros e w He Hw.
  destruct (diff_elem tag p q _ _ Hp Hq Hr Hc) as [Hin _].
  apply Hin in He as (k & v & es & Hv & Hes%createEntries_of & He).
  destruct (entriesOf_attribute _ _ _ _ _ _ _ _ _ Hes He Hw) as (kd & Hk & _).
  apply (Hno k); [by eapply changedTo_keys|]. by rewrite Hk.
Qed.

(** The string a prop's attribute has when the props are rendered. *)
Lemma changedTo_value p q k kd a tag :
  ordinaryAttribute tag k = Some (a, kd) ->
  match changedTo p q k with
  | Some v => attributeValue kd v
  | None => attributeValue kd (default VUndef (own p k))
  end = attributeValue kd (default VUndef (own q k)).
Proof.
  intros Ha. assert (Hproto : assoc k objectPrototype = None).
  { unfold ordinaryAttribute, readTable in Ha.
    destruct (assoc k reservedNonPayloadProps) as [[??]|]; [done|].
    by destruct (assoc k objectPrototype). }
  unfold changedTo. rewrite Hproto. simpl. destruct (own q k) as [v|], (own p k) as [pv|]; simpl.
  - destruct (strictEq v pv) eqn:E; [by rewrite (attributeValue_eq kd v pv)|]. simpl.
    destruct (nullish v) eqn:E1, (nullish pv) eqn:E2; simpl; try done.
    by rewrite !attributeValue_nullish.
  - destruct (strictEq v VUndef) eqn:E; [by rewrite (attributeValue_eq kd v VUndef)|]. simpl.
    destruct (nullish v) eqn:E1; simpl; [by rewrite !attributeValue_nullish|done].
  - destruct (nullish pv) eqn:E; [by rewrite !attributeValue_nullish|].
    by rewrite !attributeValue_nullish.
  - done.
Qed.
(** ** Styles *)

(** The string a style property gets for a value; [None] is its removal. *)
Definition styleValue (style : string) (v : value) : option string :=
  if shouldRemoveStyleValue v then None
  else match coerceStyleValue "style" style v with inl s => Some s | inr _ => None end.

Definition styleObject (v : value) : jsobject := default emptyProps (objectOf heap v).

Definition styleEntryFor (po so : jsobject) (style : string) : option entry :=
  match own so style with
  | Some v => if strictEq (previousOf po style) v then None
              else Some (createStyleValueEntryOrUnsupported "style" style v)
  | None => match own po style with
            | Some _ => Some (createRemoveStyleEntryOrUnsupported "style" style)
            | None => None
            end
  end.

Lemma createStyleEntries_elem v pv es :
  createStyleEntries heap "style" v pv = Ok es ->
  Forall (fun e => isUnsupported e = false) es ->
  plain (styleObject v) -> plain (styleObject pv) ->
  forall e, e ∈ es <-> exists style, styleEntryFor (styleObject pv) (styleObject v) style = Some e.
Proof.
  unfold createStyleEntries, styleObject. intros Hes Hs Hv Hpv.
  destruct (negb (nullish v) && _); [injection Hes as <-; by apply Forall_inv in Hs|].
  destruct (negb (nullish pv) && _); [injection Hes as <-; by apply Forall_inv in Hs|].
  set (po := default emptyProps (objectOf heap pv)) in *.
  set (so := default emptyProps (objectOf heap v)) in *.
  set (removed := match objectOf heap pv with Some _ => _ | None => _ end) in *.
  assert (Hrm : forall e, e ∈ removed <-> exists style, own so style = None /\ is_Some (own po style)
      /\ e = createRemoveStyleEntryOrUnsupported "style" style).
  { intros e. unfold removed, po, so in *. destruct (objectOf heap pv) as [o|]; simpl in *.
    - rewrite list_elem_of_fmap. split.
      + intros (style & -> & Hin). apply list_elem_of_In, List.filter_In in Hin as [Hin Hf].
        apply list_elem_of_In, plain_keys in Hin; [|done]. exists style. split; [|done].
        destruct (objectOf heap v) as [c|]; simpl in *; [|done].
        rewrite plain_hasOwn in Hf by done. apply negb_true_iff, bool_decide_eq_false in Hf.
        by apply eq_None_not_Some.
      + intros (style & Hn & Ho & ->). exists style. split; [done|].
        apply list_elem_of_In, List.filter_In. split; [by apply list_elem_of_In, plain_keys|].
        destruct (objectOf heap v) as [c|]; simpl in *; [|done].
        rewrite plain_hasOwn by done. apply negb_true_iff, bool_decide_eq_false.
        rewrite Hn. by intros [? ?].
    - split; [set_solver|]. by intros (? & _ & [? ?] & _). }
  assert (Hch : forall e, e ∈ es <-> e ∈ removed \/ exists style x, own so style = Some x
      /\ strictEq (previousOf po style) x = false
      /\ e = createStyleValueEntryOrUnsupported "style" style x).
  { destruct (objectOf heap v) as [o|]; simpl in *.
    - apply bind_Ok in Hes as (changed & Hc & [= <-]). apply concatMapRes_elem in Hc as [Hc1 Hc].
      assert (Hbody : forall style x, own so style = Some x ->
        (let* nextStyleValue := get o style in
         let* previousStyleValue := get po style in
         Ok (if strictEq previousStyleValue nextStyleValue then []
             else [createStyleValueEntryOrUnsupported "style" style nextStyleValue]))
        = Ok (if strictEq (previousOf po style) x then []
              else [createStyleValueEntryOrUnsupported "style" style x])).
      { intros style x Hx. rewrite !plain_get by done. unfold so in Hx. by rewrite Hx. }
      intros e. rewrite elem_of_app, Hc. split; (intros [He|He]; [by left|right]).
      + destruct He as (style & xs & Hk & Hxs & He). apply plain_keys in Hk as [x Hx]; [|done].
        rewrite (Hbody style x Hx) in Hxs. injection Hxs as <-. case_bool; [set_solver|].
        apply list_elem_of_singleton in He. eauto.
      + destruct He as (style & x & Hx & Hne & ->).
        exists style, [createStyleValueEntryOrUnsupported "style" style x].
        rewrite (Hbody style x Hx), Hne. split; [apply plain_keys; eauto|]. split; [done|by left].
    - injection Hes as <-. intros e. split; [by left|]. intros [?|(? & ? & [=] & _)]. done. }
  intros e. rewrite Hch, Hrm. unfold styleEntryFor. split.
  - intros [(style & Hn & [x Hx] & ->)|(style & x & Hx & Hne & ->)]; exists style.
    + by rewrite Hn, Hx.
    + by rewrite Hx, Hne.
  - intros [style He]. destruct (own so style) as [x|] eqn:Ex.
    + case_bool; simplify_eq. right. eauto.
    + destruct (own po style) eqn:Ep; simplify_eq. left. eauto.
Qed.

Lemma styleEntry_write po so style e :
  styleEntryFor po so style = Some e -> isUnsupported e = false ->
  styleWrite e = Some (style, styleValue style (default VUndef (own so style))).
Proof.
  unfold styleEntryFor, createStyleValueEntryOrUnsupported, createRemoveStyleEntryOrUnsupported,
    styleValue.
  destruct (own so style) as [x|]; simpl.
  - destruct (strictEq _ x); [done|]. intros [= <-]. case_bool; [done|].
    destruct (shouldRemoveStyleValue x); [done|].
    destruct (coerceStyleValue "style" style x) as [v|e0] eqn:E; [done|].
    assert (isUnsupported e0 = true); [|congruence].
    unfold coerceStyleValue in E. repeat case_match; by simplify_eq.
  - destruct (own po style); [|done]. intros [= <-]. by case_bool.
Qed.

Lemma styleValue_eq style v w : strictEq v w = true -> styleValue style v = styleValue style w.
Proof.
  intros E. unfold styleValue.
  destruct v as [| | |m| | | | |], w as [| | |n| | | | |]; try done;
    try (simpl in E; apply bool_decide_eq_true in E; by simplify_eq).
  assert (Hn : normal m = normal n) by (simpl in E; destruct m; [done|..]; by bools).
  assert (Hf : isFinite m = isFinite n).
  { assert (Hi : forall x, isFinite x = match normal x with Finite _ _ => true | _ => false end).
    { assert (Hs : forall k a e, exists a' e', stripZeros k a e = Finite a' e').
      { induction k; intros a e; simpl; [eauto|]. case_bool; eauto. }
      intros [| |a e]; simpl; try done. case_bool; [done|].
      by destruct (Hs (Z.to_nat (Z.log2 (Z.abs a)) + 1) a e) as (? & ? & ->). }
    by rewrite !Hi, Hn. }
  simpl. unfold numToString, isZero. by rewrite Hf, Hn.
Qed.

Lemma styleValue_previous o style :
  own o style = None -> styleValue style (previousOf o style) = None.
Proof.
  intros Hn. unfold previousOf. rewrite Hn. simpl.
  destruct (assoc style objectPrototype) as [v|] eqn:E; [|done]. simpl.
  apply assoc_In in E. repeat (apply elem_of_cons in E as [E|E]; [by simplify_eq|]). set_solver.
Qed.

(** What a style diff does to one style property. *)
Lemma patch_style v pv es m style :
  createStyleEntries heap "style" v pv = Ok es ->
  Forall (fun e => isUnsupported e = false) es ->
  plain (styleObject v) -> plain (styleObject pv) ->
  m !! style = styleValue style (previousOf (styleObject pv) style) ->
  patch styleWrite es m !! style = styleValue style (previousOf (styleObject v) style).
Proof.
  intros Hes Hs Hv Hpv Hm. pose proof (createStyleEntries_elem _ _ _ Hes Hs Hv Hpv) as Hin.
  rewrite Forall_forall in Hs.
  assert (Hw : forall e w, e ∈ es -> styleWrite e = Some (style, w) ->
    styleEntryFor (styleObject pv) (styleObject v) style = Some e
    /\ w = styleValue style (default VUndef (own (styleObject v) style))).
  { intros e w He Hew. pose proof (Hs _ He) as Hse. apply Hin in He as [style' He].
    rewrite (styleEntry_write _ _ _ _ He Hse) in Hew. by injection Hew as -> <-. }
  destruct (styleEntryFor (styleObject pv) (styleObject v) style) as [e|] eqn:Ee.
  - assert (He : e ∈ es) by (apply Hin; eauto).
    erewrite patch_written; [|done|by eapply styleEntry_write; [|apply Hs]|].
    + destruct (own (styleObject v) style) as [x|] eqn:Ex.
      * unfold previousOf. by rewrite Ex.
      * by rewrite styleValue_previous.
    + intros e' w' He' Hw'. by apply Hw in Hw' as [_ ->].
  - rewrite patch_unwritten; [|intros e w He Hew; by apply Hw in Hew as [? _]].
    rewrite Hm. unfold styleEntryFor in Ee.
    destruct (own (styleObject v) style) as [x|] eqn:Ex.
    + destruct (strictEq _ x) eqn:E; [|done]. unfold previousOf at 2. rewrite Ex.
      by apply styleValue_eq.
    + destruct (own (styleObject pv) style) eqn:Ep; [done|]. by rewrite !styleValue_previous.
Qed.
(** Only the prop [style] makes entries that write styles. *)
Lemma entriesOf_style tag prop v pv props es e w :
  entriesOf tag prop v pv props es -> e ∈ es -> styleWrite e = Some w ->
  prop = "style" /\ createStyleEntries heap "style" v pv = Ok es.
Proof.
  intros Hes He Hw. destruct Hes as [a k Ha|es -> Hes|e0 _ Hes|c r|c r|e0 Hu _ _]; [|done|..];
    apply list_elem_of_singleton in He as ->.
  - revert Hw. destruct k; cbn -[toString truthy]; repeat case_bool; try done;
      unfold coerceSetAttributeEntry; by destruct (toString heap v).
  - exfalso. destruct (createDangerousHtmlEntry_shape _ _ _ _ Hes)
      as [(? & ? & ->)|[[Hu _]|(? & ? & ? & -> & _)]]; try done.
    revert Hu Hw. unfold isUnsupported, styleWrite, isKind. repeat case_match; try done; simplify_eq;
      unfold mem in *; bools; set_solver.
  - done.
  - done.
  - exfalso. revert Hu Hw. unfold isUnsupported, styleWrite, isKind. repeat case_match; try done;
      simplify_eq; unfold mem in *; bools; set_solver.
Qed.

Definition styleProp (o : jsobject) : value := default VUndef (own o "style").

(** Props whose object, and whose style object, are object literals. *)
Definition plainProps (p : propsObject) : Prop :=
  plain (p_object p) /\ plain (styleObject (styleProp (p_object p))).

Lemma diff_style tag (p q : propsObject) removed changed m style :
  plainProps p -> plainProps q ->
  removedEntries heap tag p q = Ok removed -> changedEntries heap tag p q = Ok changed ->
  Forall (fun e => isUnsupported e = false) (removed ++ changed) ->
  m !! style = styleValue style (previousOf (styleObject (styleProp (p_object p))) style) ->
  patch styleWrite (removed ++ changed) m !! style
  = styleValue style (previousOf (styleObject (styleProp (p_object q))) style).
Proof.
  intros [Hp Hps] [Hq Hqs] Hr Hc Hsup Hm. destruct (diff_elem tag p q _ _ Hp Hq Hr Hc) as [Hin Hex].
  assert (Hproto : previousOf (p_object p) "style" = styleProp (p_object p)) by done.
  assert (Hsrc : forall e w, e ∈ removed ++ changed -> styleWrite e = Some w ->
    exists v es, changedTo (p_object p) (p_object q) "style" = Some v
    /\ createStyleEntries heap "style" v (styleProp (p_object p)) = Ok es /\ e ∈ es).
  { intros e w He Hw. apply Hin in He as (k & v & es & Hv & Hes%createEntries_of & He).
    destruct (entriesOf_style _ _ _ _ _ _ _ _ Hes He Hw) as [-> Hst].
    rewrite Hproto in Hst. eauto. }
  destruct (changedTo (p_object p) (p_object q) "style") as [v|] eqn:Ev.
  - destruct (Hex _ _ Ev) as [es Hes]. pose proof (createEntries_of _ _ _ _ _ _ Hes) as Hof.
    assert (Hsub : forall e, e ∈ es -> e ∈ removed ++ changed) by (intros; apply Hin; eauto 10).
    rewrite Forall_forall in Hsup.
    assert (Hst : createStyleEntries heap "style" v (styleProp (p_object p)) = Ok es).
    { revert Hes. unfold createEntries. simpl. rewrite Hproto.
      destruct (isDocumentScopedResourceTag tag) eqn:Et; [|done]. intros [= <-].
      by specialize (Hsup _ (Hsub _ (list_elem_of_here _ _))). }
    assert (Hv : styleObject v = styleObject (styleProp (p_object q))).
    { revert Ev. unfold changedTo, styleProp.
      destruct (own (p_object q) "style"); simpl; [by case_bool; intros; simplify_eq|].
      destruct (own (p_object p) "style"); [|done]. case_bool; intros; by simplify_eq. }
    assert (Hes_sup : Forall (fun e => isUnsupported e = false) es).
    { apply Forall_forall. intros e He. by apply Hsup, Hsub. }
    rewrite <- Hv in Hqs |- *.
    rewrite <- (patch_style v (styleProp (p_object p)) es m style Hst Hes_sup Hqs Hps Hm).
    symmetry. apply patch_ext.
    + intros e w Hw. split; [apply Hsub|]. intros He.
      destruct (Hsrc _ _ He Hw) as (v' & es' & [= <-] & Hst' & He'). congruence.
    + intros e e' w w' He He' Hw Hw'.
      pose proof (createStyleEntries_elem _ _ _ Hst Hes_sup Hqs Hps) as Hel.
      rewrite Forall_forall in Hes_sup.
      pose proof (Hes_sup _ He) as Hse. pose proof (Hes_sup _ He') as Hse'.
      apply Hel in He as [n Hn]. apply Hel in He' as [n' Hn'].
      rewrite (styleEntry_write _ _ _ _ Hn Hse) in Hw.
      rewrite (styleEntry_write _ _ _ _ Hn' Hse') in Hw'. by simplify_eq.
  - rewrite patch_unwritten; [|intros e w He Hw; by destruct (Hsrc _ _ He Hw) as (? & ? & ? & _)].
    rewrite Hm. enough (E : styleObject (styleProp (p_object p)) = styleObject (styleProp (p_object q)))
      by (by rewrite E).
    revert Ev. unfold changedTo, styleProp, styleObject.
    destruct (own (p_object q) "style") as [v|], (own (p_object p) "style") as [pv|]; simpl; try done.
    + destruct (strictEq v pv) eqn:E; simpl.
      * intros _. destruct v, pv; try done. simpl in E. apply bool_decide_eq_true in E. by simplify_eq.
      * destruct v, pv; done.
    + destruct v; done.
    + destruct pv; done.
Qed.
End Diff.

Section Properties.
Context (heap : ref -> jsobject).

Definition supported (es : list entry) : Prop := Forall (fun e => isUnsupported e = false) es.

Lemma diff_parts tag last next p q d :
  normalizeProps heap last "lastProps" = Ok p -> normalizeProps heap next "nextProps" = Ok q ->
  diffDomPropertyPayload heap tag last next = Ok d ->
  exists removed changed, removedEntries heap tag p q = Ok removed
    /\ changedEntries heap tag p q = Ok changed /\ d = removed ++ changed.
Proof.
  unfold diffDomPropertyPayload. intros -> ->. simpl.
  intros (removed & Hr & H)%bind_Ok. apply bind_Ok in H as (changed & Hc & [= <-]). eauto.
Qed.

Section Rendering.
Context (tag last next : value) (p q : propsObject) (r1 r2 d : list entry).

(** Props that are object literals, no two of which name one attribute, and payloads of
    which nothing is unsupported. *)
Record renderable : Prop := {
  rd_last : normalizeProps heap last "lastProps" = Ok p;
  rd_next : normalizeProps heap next "nextProps" = Ok q;
  rd_plainLast : plainProps heap p;
  rd_plainNext : plainProps heap q;
  rd_noAlias : noAlias tag (keys (p_object p) ++ keys (p_object q));
  rd_mountLast : diffDomPropertyPayload heap tag VNull last = Ok r1;
  rd_mountNext : diffDomPropertyPayload heap tag VNull next = Ok r2;
  rd_diff : diffDomPropertyPayload heap tag last next = Ok d;
  rd_supported : supported r1 /\ supported r2 /\ supported d }.

Context (R : renderable).

Lemma mount_plain : plainProps heap (mkProps true emptyProps).
Proof. split; apply plain_literal. Qed.

Lemma mount_parts x es o : normalizeProps heap x "nextProps" = Ok o ->
  diffDomPropertyPayload heap tag VNull x = Ok es ->
  exists removed changed, removedEntries heap tag (mkProps true emptyProps) o = Ok removed
    /\ changedEntries heap tag (mkProps true emptyProps) o = Ok changed /\ es = removed ++ changed.
Proof. intros Hx. by apply diff_parts. Qed.

Lemma last_next : normalizeProps heap last "nextProps" = Ok p.
Proof. pose proof (rd_last R). by destruct last. Qed.

Lemma diff_renders_attribute a :
  patch attributeWrite d (patch attributeWrite r1 ∅) !! a = patch attributeWrite r2 ∅ !! a.
Proof.
  destruct (rd_supported R) as (S1 & S2 & Sd). pose proof mount_plain as [Hpe _].
  destruct (rd_plainLast R) as [Hp _], (rd_plainNext R) as [Hq _].
  destruct (mount_parts _ _ _ last_next (rd_mountLast R)) as (m1 & c1 & Hm1 & Hc1 & ->).
  destruct (mount_parts _ _ _ (rd_next R) (rd_mountNext R)) as (m2 & c2 & Hm2 & Hc2 & ->).
  destruct (diff_parts _ _ _ _ _ _ (rd_last R) (rd_next R) (rd_diff R)) as (m3 & c3 & Hm3 & Hc3 & Ed).
  rewrite Ed in *.
  destruct (decide (Exists (fun k => fst <$> ordinaryAttribute tag k = Some a)
                      (keys (p_object p) ++ keys (p_object q)))) as [Hex|Hno];
    [|rewrite <- Forall_Exists_neg, Forall_forall in Hno].
  - apply Exists_exists in Hex as (k & Hk & Hka).
    destruct (ordinaryAttribute tag k) as [[a' kd]|] eqn:Ea; simplify_eq/=.
    assert (Huniq : forall k' kd', k' ∈ keys (p_object p) ++ keys (p_object q) ->
      ordinaryAttribute tag k' = Some (a, kd') -> k' = k) by (intros; by eapply (rd_noAlias R)).
    rewrite (diff_attribute heap tag p q m3 c3 _ a kd k) by done.
    rewrite (diff_attribute heap tag (mkProps true emptyProps) p m1 c1 _ a kd k),
      (diff_attribute heap tag (mkProps true emptyProps) q m2 c2 _ a kd k);
      try (done || (intros k' kd' Hk'; apply Huniq; set_solver)).
    rewrite lookup_empty.
    pose proof (changedTo_value heap emptyProps (p_object p) k kd a tag Ea) as V1.
    pose proof (changedTo_value heap emptyProps (p_object q) k kd a tag Ea) as V2.
    pose proof (changedTo_value heap (p_object p) (p_object q) k kd a tag Ea) as V3.
    rewrite empty_own in V1, V2. simpl in V1, V2 |- *.
    rewrite (attributeValue_nullish heap kd VUndef) in V1, V2 by done.
    rewrite V1, V2. exact V3.
  - pose proof (diff_no_attribute heap tag) as Hun.
    rewrite (Hun p q m3 c3), (Hun (mkProps true emptyProps) p m1 c1),
      (Hun (mkProps true emptyProps) q m2 c2); (done || (intros; apply Hno; set_solver)).
Qed.

Lemma diff_renders_style a :
  patch styleWrite d (patch styleWrite r1 ∅) !! a = patch styleWrite r2 ∅ !! a.
Proof.
  destruct (rd_supported R) as (S1 & S2 & Sd). pose proof mount_plain as Hpe.
  pose proof (rd_plainLast R) as Hp. pose proof (rd_plainNext R) as Hq.
  destruct (mount_parts _ _ _ last_next (rd_mountLast R)) as (m1 & c1 & Hm1 & Hc1 & ->).
  destruct (mount_parts _ _ _ (rd_next R) (rd_mountNext R)) as (m2 & c2 & Hm2 & Hc2 & ->).
  destruct (diff_parts _ _ _ _ _ _ (rd_last R) (rd_next R) (rd_diff R)) as (m3 & c3 & Hm3 & Hc3 & Ed).
  rewrite Ed in *.
  rewrite (diff_style heap tag p q), (diff_style heap tag (mkProps true emptyProps) q m2 c2); try done.
  - rewrite lookup_empty. symmetry. by apply styleValue_previous.
  - apply (diff_style heap tag (mkProps true emptyProps) p); try done.
    rewrite lookup_empty. symmetry. by apply styleValue_previous.
Qed.

(** C11: Committing a diff is rendering the next props, for attributes and styles. Let the
    props and their style objects be object literals, no two of the props name one attribute
    (as class and className do), and the payloads that mount the last and the next props and
    their diff have no unsupported entry. Then, on a node with the attributes and styles that
    the last props are rendered to, applying the payload of the diff gives those that the
    next props are rendered to: every attribute and style property of the last props that
    the next ones drop is removed, changed ones get the new value, and nothing else is
    touched. *)
Theorem diff_patches :
  patch attributeWrite d (patch attributeWrite r1 ∅) = patch attributeWrite r2 ∅
  /\ patch styleWrite d (patch styleWrite r1 ∅) = patch styleWrite r2 ∅.
Proof.
  split; apply map_eq; intros a; [apply diff_renders_attribute|apply diff_renders_style].
Qed.
End Rendering.

(** ** Safety of the entries *)

(** The entries a diff can hold for a tag and the next props: whichever the props are,
    they are of these shapes. *)
Inductive safeEntry (tag : value) (next : propsObject) : entry -> Prop :=
| safe_setAttribute prop a k v :
    ordinaryAttribute tag prop = Some (a, k) -> isAttributeNameSafe a = true ->
    isEventLikeProp a = false -> safeEntry tag next (createSetAttributeEntry prop a v)
| safe_removeAttribute prop a k :
    ordinaryAttribute tag prop = Some (a, k) -> isAttributeNameSafe a = true ->
    isEventLikeProp a = false -> safeEntry tag next (createRemoveAttributeEntry prop a)
| safe_setStyle style v : isSupportedStyleName style = true ->
    safeEntry tag next (createSetStyleEntry "style" style v)
| safe_removeStyle style : isSupportedStyleName style = true ->
    safeEntry tag next (createRemoveStyleEntry "style" style)
| safe_innerHTML v o children :
    get o "__html" = Ok (VStr v) -> get (p_object next) "children" = Ok children ->
    nullish children = true ->
    safeEntry tag next (createSetInnerHtmlEntry "dangerouslySetInnerHTML" v)
| safe_nonPayload prop c r :
    safeEntry tag next (createNonPayloadEntry prop (VStr c) (VStr r))
| safe_inherited prop : is_Some (assoc prop objectPrototype) ->
    safeEntry tag next (createNonPayloadEntry prop VUndef VUndef)
| safe_unsupported e : isUnsupported e = true -> safeEntry tag next e.

Lemma ordinary_safe tag prop a k :
  ordinaryAttribute tag prop = Some (a, k) -> isAttributeNameSafe a = true /\ isEventLikeProp a = false.
Proof.
  unfold ordinaryAttribute. destruct (readTable _ _); [done|].
  destruct (isControlledFormProp tag prop) as [[]|]; [done| |done].
  destruct (isEventLikeProp prop) eqn:Hev; [done|]. destruct (_ || _); [done|].
  destruct (getOrdinaryAttribute prop) as [[b kd]|] eqn:Hg; [|done].
  destruct (isAttributeNameSafe b) eqn:Hs; [|done]. intros [= -> ->]. split; [done|].
  unfold getOrdinaryAttribute in Hg. destruct (assoc prop attributeAliases) as [n|] eqn:Ha.
  - injection Hg as <- <-. apply assoc_In in Ha.
    repeat (apply elem_of_cons in Ha as [Ha|Ha]; [by simplify_eq|]). set_solver.
  - repeat case_bool; by simplify_eq.
Qed.

Lemma entriesOf_safe tag prop v pv props es e :
  entriesOf heap tag prop v pv props es -> e ∈ es -> safeEntry tag props e.
Proof.
  intros Hes He. destruct Hes as [a k Ha|es -> Hes|e0 -> Hes|c r Hr|c r Hev|e0 Hu _ _].
  - apply list_elem_of_singleton in He as ->. destruct (ordinary_safe _ _ _ _ Ha) as [H1 H2].
    unfold createAttributeEntry, coerceSetAttributeEntry.
    destruct k; repeat case_bool; try destruct (toString heap v);
      eauto using safe_setAttribute, safe_removeAttribute; by apply safe_unsupported.
  - destruct (createStyleEntries_shape _ _ _ _ _ _ Hes He)
      as [[Hu _]|[(s & -> & Hs)|(s & x & -> & Hs)]];
      eauto using safe_unsupported, safe_setStyle, safe_removeStyle.
  - apply list_elem_of_singleton in He as ->.
    destruct (createDangerousHtmlEntry_shape _ _ _ _ _ Hes)
      as [(c & r & ->)|[[Hu _]|(s & o & ch & -> & _ & Ho & Hc & Hn)]];
      eauto using safe_unsupported, safe_nonPayload, safe_innerHTML.
  - apply list_elem_of_singleton in He as ->. unfold readTable in Hr.
    destruct (assoc prop reservedNonPayloadProps) as [[c' r']|]; simplify_eq; [apply safe_nonPayload|].
    destruct (assoc prop objectPrototype) eqn:E; simplify_eq. apply safe_inherited. eauto.
  - apply list_elem_of_singleton in He as ->. apply safe_nonPayload.
  - apply list_elem_of_singleton in He as ->. by apply safe_unsupported.
Qed.

Lemma diff_safe tag last next q es e :
  normalizeProps heap next "nextProps" = Ok q -> diffDomPropertyPayload heap tag last next = Ok es ->
  e ∈ es -> safeEntry tag q e.
Proof.
  intros Hq Hes He. unfold diffDomPropertyPayload in Hes.
  apply bind_Ok in Hes as (p & Hp & Hes). rewrite Hq in Hes. simpl in Hes.
  apply bind_Ok in Hes as (rm & Hrm & Hes). apply bind_Ok in Hes as (ch & Hch & [= <-]).
  apply concatMapRes_elem in Hrm as [_ Hrm]. apply concatMapRes_elem in Hch as [_ Hch].
  apply elem_of_app in He as [He|He].
  - apply Hrm in He as (k & xs & _ & Hxs & He). apply bind_Ok in Hxs as (v & _ & Hxs).
    case_bool; [|injection Hxs as <-; set_solver].
    by eapply entriesOf_safe; [apply createEntries_of|].
  - apply Hch in He as (k & xs & _ & Hxs & He). apply bind_Ok in Hxs as (v & _ & Hxs).
    apply bind_Ok in Hxs as (w & _ & Hxs). case_bool; [|injection Hxs as <-; set_solver].
    by eapply entriesOf_safe; [apply createEntries_of|].
Qed.

(** no payload touches more than the attributes, styles and HTML it may. Whatever the
    props, an entry that writes an attribute writes a string to a valid attribute name that
    is no event handler name, for an ordinary prop of the tag; an entry that writes a style
    writes a string to a supported style property or a custom one; and an entry sets
    [innerHTML] only for [dangerouslySetInnerHTML] with a string [__html] and no children. *)
Theorem diff_entries_safe tag last next q es e :
  normalizeProps heap next "nextProps" = Ok q -> diffDomPropertyPayload heap tag last next = Ok es ->
  e ∈ es ->
  (isKind e [ENTRY_SET_ATTRIBUTE; ENTRY_REMOVE_ATTRIBUTE] = true ->
     exists prop a k, propName e = VStr prop /\ attributeName e = VStr a
       /\ ordinaryAttribute tag prop = Some (a, k)
       /\ isAttributeNameSafe a = true /\ isEventLikeProp a = false
       /\ (isKind e [ENTRY_SET_ATTRIBUTE] = true -> isString (entryValue e) = true))
  /\ (isStylePropertyPayloadEntry e = true ->
     exists style v, styleName e = VStr style /\ isSupportedStyleName style = true
       /\ entryValue e = VStr v /\ mutation e = VStr (getStyleMutationTarget style))
  /\ (isKind e [ENTRY_SET_INNER_HTML] = true ->
     exists v children, entryValue e = VStr v /\ propName e = VStr "dangerouslySetInnerHTML"
       /\ get (p_object q) "children" = Ok children /\ nullish children = true)
  /\ isKind e [ENTRY_SET_PROPERTY; ENTRY_REMOVE_PROPERTY] = false.
Proof.
  intros Hq Hes He. assert (Hun : isUnsupported e = true -> exists k, kind e = VStr k /\ k = ENTRY_UNSUPPORTED).
  { unfold isUnsupported, isKind. destruct (kind e); try done. unfold mem. intros. bools. set_solver. }
  pose proof (diff_safe _ _ _ _ _ _ Hq Hes He) as Hs.
  destruct Hs as [prop a k v Ha H1 H2|prop a k Ha H1 H2|style v H|style H|v o ch Ho Hc Hn|prop c r|prop H|e Hu];
    [..|destruct (Hun Hu) as (kd & Hk & ->); unfold isStylePropertyPayloadEntry, isKind;
        rewrite Hk; splits; done];
    splits; try done; eauto 10.
Qed.

(** ** Unchanged props *)

(** props that bind the same names to strictly equal values need no mutation: the
    payload is empty, and in particular that of an object and itself is, unless a value is
    NaN. *)
Theorem diff_unchanged tag last next p q :
  normalizeProps heap last "lastProps" = Ok p -> normalizeProps heap next "nextProps" = Ok q ->
  (forall k, k ∈ keys (p_object p) ->
     hasOwn (p_object q) k = true /\ exists v, get (p_object p) k = Ok v) ->
  (forall k, k ∈ keys (p_object q) ->
     exists v w, get (p_object q) k = Ok v /\ get (p_object p) k = Ok w /\ strictEq v w = true) ->
  diffDomPropertyPayload heap tag last next = Ok [].
Proof.
  intros Hp Hq H1 H2. unfold diffDomPropertyPayload. rewrite Hp, Hq. simpl.
  assert (Hnil : forall (f : string -> res (list entry)) l, (forall k, k ∈ l -> f k = Ok []) ->
    concatMapRes f l = Ok []).
  { intros f l Hf. unfold concatMapRes. induction l as [|k l IH]; [done|]. simpl.
    rewrite Hf by by left. simpl.
    destruct (bind_Ok (mapRes f l) (fun entries => Ok (concat entries)) []) as (r & -> & Hr).
    - apply IH. intros. apply Hf. by right.
    - simpl. by injection Hr as ->. }
  unfold removedEntries, changedEntries. rewrite !Hnil; [done|..].
  - intros k Hk. destruct (H2 k Hk) as (v & w & -> & -> & E). simpl. by rewrite E.
  - intros k Hk. destruct (H1 k Hk) as [Hh [v ->]]. simpl. by rewrite Hh, andb_false_r.
Qed.
(** ** Totality and errors *)

Lemma concatMapRes_total {A} (f : A -> res (list entry)) l :
  (forall x, x ∈ l -> exists xs, f x = Ok xs) -> exists es, concatMapRes f l = Ok es.
Proof. intros H. unfold concatMapRes. destruct (mapRes_total f l H) as [r ->]. simpl. eauto. Qed.

(** No property is an accessor that throws. *)
Definition dataOnly (o : jsobject) : Prop := forall k, exists v, get o k = Ok v.

Lemma dataOnly_empty : dataOnly emptyProps.
Proof. intros k. unfold get. simpl. eauto. Qed.

Lemma createEntries_total tag prop v pv props :
  (forall r, dataOnly (heap r)) -> dataOnly (p_object props) ->
  (forall t, tag = VStr t -> assoc t objectPrototype = None) ->
  exists es, createEntries heap tag prop v pv props = Ok es.
Proof.
  intros Hh Hprops Ht. unfold createEntries.
  destruct (readTable _ _) as [[??]|]; [eauto|]. destruct (isEventLikeProp prop); [eauto|].
  destruct (assoc prop _) as [[??]|]; [eauto|]. destruct (isDocumentScopedResourceTag tag); [eauto|].
  case_bool_decide.
  { unfold createStyleEntries. case_bool; [eauto|]. case_bool; [eauto|].
    destruct (objectOf heap v) as [o|] eqn:Eo; [|eauto].
    assert (Ho : dataOnly o) by (destruct v; simplify_eq/=; apply Hh).
    destruct (concatMapRes_total (fun style =>
      let* nextStyleValue := get o style in
      let* previousStyleValue := get (default emptyProps (objectOf heap pv)) style in
      Ok (if strictEq previousStyleValue nextStyleValue then []
          else [createStyleValueEntryOrUnsupported prop style nextStyleValue])) (keys o)) as [es ->].
    - intros style _. destruct (Ho style) as [x ->]. simpl.
      assert (Hp : dataOnly (default emptyProps (objectOf heap pv)))
        by (destruct pv; simpl; auto using dataOnly_empty).
      destruct (Hp style) as [y ->]. simpl. eauto.
    - simpl. eauto. }
  case_bool_decide.
  { unfold createDangerousHtmlEntry. destruct (nullish v); [simpl; eauto|].
    destruct (objectOf heap v) as [o|] eqn:Eo; [|simpl; eauto].
    destruct (hasOwn o "__html"); [|simpl; eauto].
    assert (Ho : dataOnly o) by (destruct v; simplify_eq/=; apply Hh).
    destruct (Ho "__html") as [html ->]. simpl. destruct (nullish html); [simpl; eauto|].
    destruct (Hprops "children") as [ch ->]. simpl. destruct (nullish ch), html; simpl; eauto. }
  assert (Hc : exists b, isControlledFormProp tag prop = Ok b).
  { unfold isControlledFormProp. destruct tag; eauto. destruct (assoc s _); [eauto|].
    rewrite (Ht s eq_refl). eauto. }
  destruct Hc as [[] ->]; simpl; [eauto|]. case_bool; [eauto|].
  destruct (getOrdinaryAttribute prop) as [[a k]|]; [|eauto]. case_bool; eauto.
Qed.

(** the diff is total on objects. It rejects a non-object argument with the
    TypeError that names it, the last props first; otherwise, for a tag that is no property
    of [Object.prototype] and objects whose properties can be read, it returns a payload,
    whatever the values are. *)
Theorem diff_total tag last next :
  (forall r, dataOnly (heap r)) -> (forall t, tag = VStr t -> assoc t objectPrototype = None) ->
  match normalizeProps heap last "lastProps", normalizeProps heap next "nextProps" with
  | Throw e, _ => diffDomPropertyPayload heap tag last next = Throw e
                  /\ e = TypeError "lastProps must be an object or null."
  | Ok _, Throw e => diffDomPropertyPayload heap tag last next = Throw e
                     /\ e = TypeError "nextProps must be an object or null."
  | Ok _, Ok _ => exists es, diffDomPropertyPayload heap tag last next = Ok es
  end.
Proof.
  intros Hh Ht. unfold diffDomPropertyPayload.
  assert (Hn : forall v name, match normalizeProps heap v name with
    | Ok p => dataOnly (p_object p)
    | Throw e => e = TypeError (name +:+ " must be an object or null.") end).
  { intros [] name; simpl; auto using dataOnly_empty. }
  pose proof (Hn last "lastProps") as Hp. pose proof (Hn next "nextProps") as Hq.
  destruct (normalizeProps heap last "lastProps") as [p|e]; [|auto].
  destruct (normalizeProps heap next "nextProps") as [q|e]; [|auto]. simpl.
  destruct (concatMapRes_total (fun prop =>
    let* previousValue := get (p_object p) prop in
    if negb (nullish previousValue) && negb (hasOwn (p_object q) prop)
    then createEntries heap tag prop VNull previousValue q
    else Ok []) (keys (p_object p))) as [rm Hrm].
  { intros k _. destruct (Hp k) as [v ->]. simpl. case_bool; [by apply createEntries_total|eauto]. }
  destruct (concatMapRes_total (fun prop =>
    let* nextValue := get (p_object q) prop in
    let* previousValue := get (p_object p) prop in
    if negb (strictEq nextValue previousValue)
       && (negb (nullish nextValue) || negb (nullish previousValue))
    then createEntries heap tag prop nextValue previousValue q
    else Ok []) (keys (p_object q))) as [ch Hch].
  { intros k _. destruct (Hq k) as [v ->], (Hp k) as [w ->]. simpl.
    case_bool; [by apply createEntries_total|eauto]. }
  unfold removedEntries, changedEntries. rewrite Hrm, Hch. simpl. eauto.
Qed.

(** a host tag whose name is a property of [Object.prototype] breaks the diff: for
    such a tag the table of controlled props gives an inherited function, and an ordinary
    attribute that changes throws a TypeError instead of making an entry. *)
Theorem diff_inherited_tag t x :
  t ∈ objectPrototypeFunctions ++ ["__proto__"] -> heap x = literal [("title", VStr "a")] ->
  diffDomPropertyPayload heap (VStr t) VNull (VObj x)
  = Throw (TypeError "controlledProps.has is not a function").
Proof.
  intros Ht E. unfold diffDomPropertyPayload. simpl. rewrite E.
  repeat (apply elem_of_cons in Ht as [->|Ht]; [by vm_compute|]). set_solver.
Qed.

(** ** Styles *)

Lemma trimLeft_head s c s' : trimLeft s = String c s' -> isSpace c = false.
Proof.
  induction s as [|d s IH]; simpl; [done|]. destruct (isSpace d) eqn:E; [done|]. by intros [= <- _].
Qed.

(** The last character of a string, if any, is no space. *)
Fixpoint noSpaceEnd (s : string) : bool :=
  match s with
  | EmptyString => true
  | String c EmptyString => negb (isSpace c)
  | String _ s => noSpaceEnd s
  end.
Definition noSpaceStart (s : string) : bool :=
  match s with EmptyString => true | String c _ => negb (isSpace c) end.

Lemma trimRight_end s : noSpaceEnd (trimRight s) = true.
Proof.
  induction s as [|c s IH]; simpl; [done|].
  destruct (trimRight s) as [|d t]; [|exact IH]. destruct (isSpace c) eqn:E; [done|].
  simpl. by rewrite E.
Qed.

Lemma trimRight_start s : noSpaceStart s = true -> noSpaceStart (trimRight s) = true.
Proof.
  destruct s as [|c s]; simpl; [done|]. intros E. destruct (trimRight s); [|done].
  apply negb_true_iff in E. by rewrite E; simpl; rewrite E.
Qed.

(** the string a supported style property gets, for every kind of value: nullish
    values, booleans and the empty string remove the property; a finite number gets the
    unit px unless it is zero or the property is unitless or custom; other numbers and
    other kinds of values are unsupported; strings are trimmed at both ends, except for
    custom properties. *)
Theorem style_coercion style v :
  isSupportedStyleName style = true ->
  let e := createStyleValueEntryOrUnsupported "style" style v in
  match v with
  | VUndef | VNull | VBool _ => e = createRemoveStyleEntry "style" style
  | VStr s =>
      if bool_decide (s = "") then e = createRemoveStyleEntry "style" style
      else exists t, e = createSetStyleEntry "style" style t
           /\ (isCustomStyleProperty style = true -> t = s)
           /\ (isCustomStyleProperty style = false ->
                t = trim s /\ noSpaceStart t = true /\ noSpaceEnd t = true)
  | VNum n =>
      if isFinite n then
        e = createSetStyleEntry "style" style
              (if isZero n || isCustomStyleProperty style || mem style unitlessStyleNames
               then numToString n else numToString n +:+ "px")
      else isUnsupported e = true /\ category e = VStr "style-non-finite-number"
  | _ => isUnsupported e = true /\ category e = VStr "style-value-type"
  end.
Proof.
  intros Hs. unfold createStyleValueEntryOrUnsupported. rewrite Hs. simpl negb. cbv iota.
  destruct v as [| | |n|s| | | |]; try done.
  - simpl. destruct (isFinite n); [|done]. simpl.
    by destruct (isZero n), (isCustomStyleProperty style), (mem style unitlessStyleNames).
  - unfold shouldRemoveStyleValue, isStr. simpl.
    destruct (bool_decide (s = "")) eqn:E; bools; [subst; done|].
    rewrite bool_decide_eq_false_2 by (by intros [= ->]). simpl.
    destruct (isCustomStyleProperty style) eqn:Ec; simpl; [exists s; by split_and!|].
    exists (trim s). split; [done|]. split; [done|]. intros _. split; [done|].
    unfold trim. split; [|apply trimRight_end]. apply trimRight_start.
    destruct (trimLeft s) eqn:El; simpl; [done|]. by rewrite (trimLeft_head _ _ _ El).
Qed.

(** ** Diagnostics *)

(** The counts that a summary adds up. *)
Definition summaryOk (n : nat) (s : summary) : Prop :=
  rowCount s = n
  /\ setStyleCount s = additionRowCount s + changeRowCount s
  /\ removeStyleCount s = removalRowCount s
  /\ propertyAssignmentCount s + setPropertyCount s = setStyleCount s + removeStyleCount s
  /\ customPropertyRowCount s = setPropertyCount s
  /\ unitlessSetRowCount s <= unitlessRowCount s
  /\ pxAppendedRowCount s + numericWithoutPxRowCount s <= setStyleCount s.

Definition rowOk (r : diffRow) : Prop :=
  match r with
  | BlockedRow _ _ _ _ => True
  | StyleRow r =>
      sr_mutation r = VStr (getStyleMutationTarget (sr_styleName r))
      /\ sr_customProperty r = isCustomStyleProperty (sr_styleName r)
      /\ ((sr_payloadKind r = VStr ENTRY_SET_STYLE /\ sr_action r ∈ ["add"; "change"]
           /\ (sr_pxAppended r && sr_numericWithoutPx r = false))
          \/ (sr_payloadKind r = VStr ENTRY_REMOVE_STYLE
              /\ sr_pxAppended r = false /\ sr_numericWithoutPx r = false))
  end.

Definition rowsCounted (k : nat) (s : summary) : Prop :=
  setStyleCount s + removeStyleCount s + unsupportedRowCount s = k.

Lemma addRow_ok n k s r : rowOk r -> summaryOk n s -> rowsCounted k s ->
  summaryOk n (addRow s r) /\ rowsCounted (S k) (addRow s r).
Proof.
  intros Hr (H1 & H2 & H3 & H4 & H5 & H6 & H7) Hk. unfold rowsCounted, summaryOk in *.
  destruct r as [r|]; simpl; [|lia].
  destruct Hr as (Hm & Hc & [(Hkind & Ha & Hpx)|(Hkind & Hpx & Hnp)]); rewrite Hkind, Hm, Hc;
    unfold getStyleMutationTarget; destruct (isCustomStyleProperty _); simpl.
  all: try (apply elem_of_cons in Ha as [->|Ha%list_elem_of_singleton]; [|rewrite Ha]).
  all: destruct (sr_unitless r), (sr_pxAppended r), (sr_numericWithoutPx r); simpl in *; try done; lia.
Qed.
Lemma foldl_addRow_ok n k s rows : Forall rowOk rows -> summaryOk n s -> rowsCounted k s ->
  summaryOk n (foldl addRow s rows) /\ rowsCounted (k + length rows) (foldl addRow s rows).
Proof.
  intros Hr. revert k s. induction Hr as [|r rows Hr _ IH]; intros k s Hs Hk; simpl.
  - by rewrite Nat.add_0_r.
  - destruct (addRow_ok n k s r Hr Hs Hk) as [H1 H2]. rewrite Nat.add_succ_r. by apply (IH (S k)).
Qed.

Lemma append_px s : s <> s +:+ "px".
Proof.
  induction s as [|c s IH]; simpl; [done|]. intros [= E]. by apply IH.
Qed.

Lemma createRow_ok po so e r v pv es :
  createStyleEntries heap "style" v pv = Ok es -> e ∈ es ->
  createPrivateStyleObjectDiffRow po so e = Ok r ->
  rowOk r /\ (isUnsupported e = match r with BlockedRow _ _ _ _ => true | _ => false end).
Proof.
  intros Hes He. destruct (createStyleEntries_shape _ _ _ _ _ _ Hes He)
    as [[Hu _]|[(style & -> & _)|(style & x & -> & _)]].
  - unfold createPrivateStyleObjectDiffRow. replace (isStylePropertyPayloadEntry e) with false.
    + intros [= <-]. by rewrite Hu.
    + revert Hu. unfold isUnsupported, isStylePropertyPayloadEntry, isKind. destruct (kind e); try done.
      unfold mem. intros Hk. bools. apply list_elem_of_singleton in Hk as ->. done.
  - unfold createPrivateStyleObjectDiffRow. cbn -[readStyle].
    intros (x & _ & Hr)%bind_Ok. apply bind_Ok in Hr as (y & _ & [= <-]). split; [|done].
    simpl. split; [done|]. split; [done|]. by right.
  - unfold createPrivateStyleObjectDiffRow. cbn -[readStyle numToString].
    intros (w & _ & Hr)%bind_Ok. apply bind_Ok in Hr as (y & _ & [= <-]). split; [|done].
    simpl. split; [done|]. split; [done|]. left. split; [done|]. split; [destruct w; set_solver|].
    destruct y as [[]|]; try done. unfold isStr. repeat case_bool_decide; try done; simplify_eq.
    by destruct (append_px (numToString n)).
Qed.

(** The unsupported rows are those of unsupported entries. *)
Lemma unsupported_count rows s :
  Forall (fun r => match r with StyleRow r => sr_payloadKind r = VStr ENTRY_SET_STYLE
                                  \/ sr_payloadKind r = VStr ENTRY_REMOVE_STYLE
                           | _ => True end) rows ->
  unsupportedRowCount (foldl addRow s rows)
  = unsupportedRowCount s
    + length (List.filter (fun r => match r with BlockedRow _ _ _ _ => true | _ => false end) rows).
Proof.
  intros H. revert s. induction H as [|r rows Hr _ IH]; intros s; simpl; [lia|].
  rewrite IH. destruct r as [r|]; simpl; [|lia]. by destruct Hr as [-> | ->].
Qed.

(** the style diff diagnostic accounts for every entry of the diff. Its payload rows
    are the entries of the style diff, one row each; the counts of its summary add up (set,
    removed and unsupported rows to the number of rows, additions and changes to the set
    rows, property assignments and custom properties to the rows that mutate), and the
    diagnostic is accepted exactly when no entry is unsupported. *)
Theorem style_diagnostic_counts last next d :
  recordPrivateDomStyleObjectDiffDiagnostics heap last next = Ok d ->
  createStyleEntries heap "style" next last = Ok (sd_payloadRows d)
  /\ summaryOk (length (sd_payloadRows d)) (sd_summary d)
  /\ rowsCounted (length (sd_payloadRows d)) (sd_summary d)
  /\ (sd_payloadRowsAccepted d = true <-> supported (sd_payloadRows d))
  /\ (sd_status d = "accepted-private-dom-style-object-diff-diagnostic"
      <-> supported (sd_payloadRows d)).
Proof.
  unfold recordPrivateDomStyleObjectDiffDiagnostics.
  intros (es & Hes & H)%bind_Ok. apply bind_Ok in H as (rows & Hrows%mapRes_Ok & [= <-]).
  set (s := summarizePrivateStyleObjectDiffRows rows). cbn [sd_payloadRows sd_summary sd_payloadRowsAccepted sd_status].
  assert (Hlen : length rows = length es) by (symmetry; by eapply Forall2_length).
  assert (Hall : Forall2 (fun e r => rowOk r /\ isUnsupported e
      = match r with BlockedRow _ _ _ _ => true | _ => false end) es rows).
  { apply Forall2_same_length_lookup in Hrows as [Hl Hrows].
    apply Forall2_same_length_lookup. split; [done|]. intros i e r He Hr.
    eapply createRow_ok; [done|by eapply list_elem_of_lookup_2|by eapply Hrows]. }
  assert (Hok : Forall rowOk rows).
  { clear -Hall. induction Hall as [|e r es rows [H _] _ IH]; by constructor. }
  assert (Hcount : length (List.filter (fun r => match r with BlockedRow _ _ _ _ => true | _ => false end) rows) = 0
     <-> supported es).
  { unfold supported. clear -Hall. induction Hall as [|e r es rows [_ He] _ IH]; simpl; [by split; constructor|].
    rewrite Forall_cons, <- IH, He. destruct r; simpl; [tauto|]. split; [lia|]. by intros [? _]. }
  destruct (foldl_addRow_ok (length es) 0 (emptySummary (length rows)) rows Hok) as [H1 H2];
    [by rewrite Hlen; repeat split; simpl; lia|done|].
  simpl in H2. rewrite Hlen in H2 at 1. split; [done|]. split; [exact H1|]. split; [exact H2|].
  assert (Hu : unsupportedRowCount s = 0 <-> supported es).
  { rewrite <- Hcount. unfold s, summarizePrivateStyleObjectDiffRows.
    rewrite unsupported_count; [done|]. eapply Forall_impl; [exact Hok|].
    intros [r|]; [|done]. simpl. tauto. }
  rewrite Nat.eqb_eq, Hu. split; [done|]. rewrite <- Hu.
  destruct (unsupportedRowCount s =? 0)%nat eqn:E; bools; [apply Nat.eqb_eq in E|apply Nat.eqb_neq in E];
    split; try done.
Qed.
End Properties.

(** ** Concrete props *)

Definition noAliasb (tag : value) (l : list string) : bool :=
  forallb (fun k => forallb (fun k' =>
    match ordinaryAttribute tag k, ordinaryAttribute tag k' with
    | Some (a, _), Some (a', _) => negb (bool_decide (a = a')) || bool_decide (k = k')
    | _, _ => true
    end) l) l.

Lemma noAliasb_ok tag l : noAliasb tag l = true -> noAlias tag l.
Proof.
  unfold noAliasb. intros H k k' a kd kd' Hk Hk' Ha Ha'.
  rewrite List.forallb_forall in H. specialize (H k (proj1 (list_elem_of_In _ _) Hk)).
  rewrite List.forallb_forall in H. specialize (H k' (proj1 (list_elem_of_In _ _) Hk')).
  rewrite Ha, Ha', bool_decide_eq_true_2 in H by done. simpl in H. by bools.
Qed.

Definition num (z : Z) : value := VNum (Finite z 0).

Definition demoHeap (r : ref) : jsobject :=
  match r with
  | User 1 => literal [("className", VStr "a"); ("title", VStr "t"); ("hidden", VBool true);
                       ("style", VObj (User 3)); ("onClick", VFun (User 9))]
  | User 2 => literal [("className", VStr "b"); ("hidden", VBool false); ("data-x", num 7);
                       ("style", VObj (User 4)); ("dangerouslySetInnerHTML", VObj (User 5))]
  | User 3 => literal [("width", num 5); ("color", VStr "red"); ("opacity", VNum (Finite 5 (-1)))]
  | User 4 => literal [("width", num 6); ("--gap", VStr " 1 "); ("opacity", VNum (Finite 5 (-1)))]
  | User 5 => literal [("__html", VStr "<b>")]
  | User 6 => literal [("title", VStr "a")]
  | _ => literal []
  end.

Definition outcomeOf (r : res (list entry)) : list entry :=
  match r with Ok es => es | Throw _ => [] end.
Definition demoDiff (last next : value) : list entry :=
  outcomeOf (diffDomPropertyPayload demoHeap (VStr "div") last next).

Definition demoTag : value := VStr "div".
Definition demoMount (r : ref) : list entry := demoDiff VNull (VObj r).

Lemma demo_renderable :
  renderable demoHeap demoTag (VObj (User 1)) (VObj (User 2))
    (mkProps true (demoHeap (User 1))) (mkProps true (demoHeap (User 2)))
    (demoMount (User 1)) (demoMount (User 2)) (demoDiff (VObj (User 1)) (VObj (User 2))).
Proof.
  split; try (vm_compute; reflexivity).
  - split; apply plain_literal.
  - split; apply plain_literal.
  - apply noAliasb_ok. by vm_compute.
  - split; [|split]; apply (bool_decide_unpack _); by vm_compute.
Qed.

Lemma diff_patches_witness :
  patch attributeWrite (demoDiff (VObj (User 1)) (VObj (User 2)))
    (patch attributeWrite (demoMount (User 1)) ∅)
  = list_to_map [("class", "b"); ("data-x", "7")]
  /\ patch styleWrite (demoDiff (VObj (User 1)) (VObj (User 2)))
    (patch styleWrite (demoMount (User 1)) ∅)
  = list_to_map [("width", "6px"); ("opacity", "0.5"); ("--gap", " 1 ")].
Proof.
  destruct (diff_patches _ _ _ _ _ _ _ _ _ demo_renderable) as [H1 H2].
  rewrite H1, H2. split; vm_compute; reflexivity.
Defined.

Lemma diff_entries_safe_witness :
  let e := createSetAttributeEntry "data-x" "data-x" "7" in
  e ∈ demoDiff (VObj (User 1)) (VObj (User 2)) /\
  exists prop a k, propName e = VStr prop /\ attributeName e = VStr a
    /\ ordinaryAttribute (VStr "div") prop = Some (a, k).
Proof.
  intros e. assert (He : e ∈ demoDiff (VObj (User 1)) (VObj (User 2))).
  { apply (list_elem_of_lookup_2 _ 4). by vm_compute. }
  split; [exact He|].
  destruct (diff_entries_safe demoHeap (VStr "div") (VObj (User 1)) (VObj (User 2))
    (mkProps true (demoHeap (User 2))) (demoDiff (VObj (User 1)) (VObj (User 2))) e)
    as [H _]; [reflexivity|by vm_compute|exact He|].
  destruct H as (prop & a & k & H1 & H2 & H3 & _); [reflexivity|]. exists prop, a, k. auto.
Defined.

Lemma diff_unchanged_witness :
  diffDomPropertyPayload demoHeap (VStr "div") (VObj (User 1)) (VObj (User 1)) = Ok [].
Proof.
  apply (diff_unchanged demoHeap (VStr "div") (VObj (User 1)) (VObj (User 1))
    (mkProps true (demoHeap (User 1))) (mkProps true (demoHeap (User 1)))); try reflexivity.
  - intros k Hk. repeat (apply elem_of_cons in Hk as [->|Hk]; [split; [done|by eexists]|]). set_solver.
  - intros k Hk. repeat (apply elem_of_cons in Hk as [->|Hk]; [do 2 eexists; by vm_compute|]). set_solver.
Defined.

Lemma literal_dataOnly l : dataOnly (literal l).
Proof.
  intros k. rewrite plain_get by apply plain_literal. eauto.
Qed.

Lemma demoHeap_dataOnly r : dataOnly (demoHeap r).
Proof. destruct r as [[|[[[]|[]|]|[[]|[]|]|]]|]; apply literal_dataOnly. Qed.

Lemma diff_total_witness :
  (exists es, diffDomPropertyPayload demoHeap (VStr "div") (VObj (User 2)) (VObj (User 1)) = Ok es)
  /\ diffDomPropertyPayload demoHeap (VStr "div") (VStr "x") (num 1)
     = Throw (TypeError "lastProps must be an object or null.").
Proof.
  assert (Ht : forall t, VStr "div" = VStr t -> assoc t objectPrototype = None).
  { by intros t [= <-]. }
  split.
  - exact (diff_total demoHeap (VStr "div") (VObj (User 2)) (VObj (User 1)) demoHeap_dataOnly Ht).
  - apply (diff_total demoHeap (VStr "div") (VStr "x") (num 1) demoHeap_dataOnly Ht).
Defined.

Lemma diff_inherited_tag_witness :
  diffDomPropertyPayload demoHeap (VStr "constructor") VNull (VObj (User 6))
  = Throw (TypeError "controlledProps.has is not a function").
Proof. apply diff_inherited_tag; [left|reflexivity]. Defined.

Lemma style_coercion_witness :
  createStyleValueEntryOrUnsupported "style" "width" (VNum (Finite 125 (-1)))
  = createSetStyleEntry "style" "width" "12.5px".
Proof.
  pose proof (style_coercion "width" (VNum (Finite 125 (-1))) eq_refl) as H.
  simpl in H. exact H.
Defined.

Lemma style_diagnostic_counts_witness :
  exists d, recordPrivateDomStyleObjectDiffDiagnostics demoHeap (VObj (User 3)) (VObj (User 4)) = Ok d
  /\ sd_payloadRowsAccepted d = true /\ summaryOk 3 (sd_summary d) /\ rowsCounted 3 (sd_summary d).
Proof.
  eexists. split; [by vm_compute|].
  destruct (style_diagnostic_counts demoHeap (VObj (User 3)) (VObj (User 4)) _ eq_refl)
    as (H1 & H2 & H3 & H4 & _).
  split; [reflexivity|]. split; [exact H2|exact H3].
Defined.
