(* ===== verification/DomHost.v ===== *)
(** * The host DOM

    The nodes that mutation.js changes belong to a browser or to a test double: they are
    not part of the repository. [Host] has one operation for each thing the code does with
    a node (testing a property with [typeof] or [in], reading it, writing it, calling a
    method), over a state [D] of the host; a write or a call may throw, and may have
    changed the state when it does. What the theorems rely on is stated apart, as laws. *)
From S2P Require Import Prelude JsValue.

Class Host (Node D : Type) : Type := {
  (** [typeof node[name] === 'function'] *)
  hasMethod : D -> Node -> string -> bool;
  (** [name in node] *)
  hasProperty : D -> Node -> string -> bool;
  (** [node[name]], [node[name] = v] *)
  readProperty : D -> Node -> string -> res value;
  writeProperty : Node -> string -> value -> D -> effect D unit;
  (** [node.setAttribute(name, v)] and the other attribute methods *)
  callSetAttribute : Node -> string -> string -> D -> effect D unit;
  callRemoveAttribute : Node -> string -> D -> effect D unit;
  callHasAttribute : D -> Node -> string -> res value;
  callGetAttribute : D -> Node -> string -> res value;
  (** [node.attributes] when it is a Map *)
  attributesMap : D -> Node -> option (list (string * value));
  (** [node.style]: is it an object, its methods, its properties *)
  styleIsObject : D -> Node -> bool;
  styleHasMethod : D -> Node -> string -> bool;
  callSetStyleProperty : Node -> string -> string -> D -> effect D unit;
  callGetPropertyValue : D -> Node -> string -> res value;
  stylePropertiesMap : D -> Node -> option (list (string * value));
  readStyle : D -> Node -> string -> res value;
  writeStyle : Node -> string -> string -> D -> effect D unit;
  (** [node.parentNode || null]; [node.firstChild] and [node.lastChild], [None] when
      undefined; [node.childNodes] when it is an array; [node.ownerDocument] when it is
      an object *)
  parentNode : D -> Node -> option Node;
  firstChild : D -> Node -> option (option Node);
  lastChild : D -> Node -> option (option Node);
  childNodes : D -> Node -> option (list Node);
  ownerDocument : D -> Node -> option Node;
  (** [child.parentNode = p], [node.childNodes = l] *)
  writeParentNode : Node -> option Node -> D -> effect D unit;
  writeChildNodes : Node -> list Node -> D -> effect D unit;
  (** the tree methods and the factories of a document; a factory may return a value
      that is no object *)
  callAppendChild : Node -> Node -> D -> effect D Node;
  callInsertBefore : Node -> Node -> Node -> D -> effect D Node;
  callRemoveChild : Node -> Node -> D -> effect D Node;
  callCreateElement : Node -> string -> D -> effect D (value + Node);
  callCreateTextNode : Node -> string -> D -> effect D (value + Node) }.

(** An argument that should be a node: an object ([inr]) or another value. *)
Definition domArg (Node : Type) : Type := (value + Node)%type.

Inductive role : Type := Parent | Child.

Definition invalidNodeCode (r : role) : string :=
  match r with
  | Parent => "FAST_REACT_DOM_INVALID_PARENT_NODE"
  | Child => "FAST_REACT_DOM_INVALID_CHILD_NODE"
  end.

Definition assertDomLikeObject {Node : Type} (v : domArg Node) (r : role) : res Node :=
  match v with
  | inr n => Ok n
  | inl _ => Throw (HostError (invalidNodeCode r))
  end.

Definition hostError {A : Type} (code : string) : res A := Throw (HostError code).
Definition require (b : bool) (code : string) : res unit :=
  if b then Ok tt else hostError code.

Section Convert.
Context (heap : ref -> jsobject).

(** [String(v)] as a step that may throw. *)
Definition toStringRes (v : value) : res string :=
  match toString heap v with
  | Some s => Ok s
  | None => Throw (TypeError "Cannot convert object to primitive value")
  end.
End Convert.
