(* ===== verification/DomPayload.v ===== *)
(** * Applying property payloads (packages/react-dom/src/dom-host/mutation.js)

    Payload entries come from the diff or from elsewhere: every field is checked before
    the node is touched ([normalize...], [validate...]). The rollback records of all
    entries are taken before the first mutation, and a mutation that throws is undone by
    applying them from the last one tried back to the first. *)
From Stdlib Require Import Ascii.
From S2P Require Import Prelude JsValue PropertyPayload DomHost.

(** An element of a payload array: an object with the fields of an entry, or a value that
    is no object. *)
Definition item : Type := (value + entry)%type.

(** [entry && typeof entry === 'object' ? entry.kind : undefined] *)
Definition itemKind (e : item) : value :=
  match e with inr e => kind e | inl _ => VUndef end.

Definition kindIn (k : value) (l : list string) : bool :=
  match k with VStr k => mem k l | _ => false end.

Definition blockedPayloadEntryKinds : list string :=
  [ENTRY_REMOVE_STYLE; ENTRY_SET_STYLE; ENTRY_SET_INNER_HTML; ENTRY_NON_PAYLOAD; ENTRY_UNSUPPORTED].

Definition unsafePropertyNames : list string :=
  ["__proto__"; "constructor"; "innerHTML"; "outerHTML"; "prototype"; "style"; "textContent"].

(** The pattern of a property name: [A-Za-z_$] and then [A-Za-z0-9_$]. *)
Definition propertyNameMatches (name : string) : bool :=
  match name with
  | EmptyString => false
  | String c s =>
      (isLetter c || bool_decide (c ∈ ["_"; "$"]%char))
      && allChars (fun d => isLetter d || isDigit d || bool_decide (d ∈ ["_"; "$"]%char)) s
  end.

Definition isSafePayloadPropertyName (name : value) : bool :=
  match name with
  | VStr s =>
      propertyNameMatches s && negb (mem s unsafePropertyNames)
      && negb (match s with String c _ => bool_decide (c = "_"%char) | _ => false end)
      && negb (isEventLikeProp s)
  | _ => false
  end.

(** ** Error codes *)

Definition INVALID_PROPERTY_PAYLOAD := "FAST_REACT_DOM_INVALID_PROPERTY_PAYLOAD".
Definition INVALID_PROPERTY_PAYLOAD_ENTRY := "FAST_REACT_DOM_INVALID_PROPERTY_PAYLOAD_ENTRY".
Definition INVALID_PROPERTY_PAYLOAD_TARGET := "FAST_REACT_DOM_INVALID_PROPERTY_PAYLOAD_TARGET".
Definition BLOCKED_PROPERTY_PAYLOAD_ENTRY := "FAST_REACT_DOM_BLOCKED_PROPERTY_PAYLOAD_ENTRY".
Definition UNSUPPORTED_PROPERTY_PAYLOAD_ENTRY := "FAST_REACT_DOM_UNSUPPORTED_PROPERTY_PAYLOAD_ENTRY".
Definition INVALID_PAYLOAD_ENTRY := "FAST_REACT_DOM_INVALID_PAYLOAD_ENTRY".
Definition UNSUPPORTED_PAYLOAD_ENTRY := "FAST_REACT_DOM_UNSUPPORTED_PAYLOAD_ENTRY".
Definition INVALID_STYLE_TARGET := "FAST_REACT_DOM_INVALID_STYLE_TARGET".
Definition UNSUPPORTED_ROLLBACK_TARGET :=
  "FAST_REACT_DOM_UNSUPPORTED_PROPERTY_PAYLOAD_ROLLBACK_TARGET".

Definition createUnsupportedPayloadEntryError (e : item) : error :=
  HostError (if kindIn (itemKind e) blockedPayloadEntryKinds
             then BLOCKED_PROPERTY_PAYLOAD_ENTRY else UNSUPPORTED_PROPERTY_PAYLOAD_ENTRY).

Definition createBlockedAdmittedPayloadEntryError (e : item) : error :=
  HostError (if isStr (itemKind e) ENTRY_UNSUPPORTED
             then BLOCKED_PROPERTY_PAYLOAD_ENTRY else UNSUPPORTED_PROPERTY_PAYLOAD_ENTRY).

Definition createBlockedLatestPropsPayloadEntryError (e : item) : error :=
  HostError (if kindIn (itemKind e) blockedPayloadEntryKinds
             then BLOCKED_PROPERTY_PAYLOAD_ENTRY else UNSUPPORTED_PROPERTY_PAYLOAD_ENTRY).

(** ** Normalisation *)

Definition normalizePayloadAttributeName (e : entry) : res string :=
  match attributeName e with
  | VStr a => let* _ := require (negb (bool_decide (a = "")) && isAttributeNameSafe a)
                          INVALID_PROPERTY_PAYLOAD_ENTRY in Ok a
  | _ => hostError INVALID_PROPERTY_PAYLOAD_ENTRY
  end.

Definition normalizePayloadPropertyName (e : entry) : res string :=
  match propertyName e with
  | VStr p => let* _ := require (isSafePayloadPropertyName (VStr p))
                          INVALID_PROPERTY_PAYLOAD_ENTRY in Ok p
  | _ => hostError INVALID_PROPERTY_PAYLOAD_ENTRY
  end.

Definition normalizePayloadPropName (e : entry) (fallbackName : string) : res string :=
  match propName e with
  | VUndef => let* _ := require (negb (bool_decide (fallbackName = "")))
                          INVALID_PROPERTY_PAYLOAD_ENTRY in Ok fallbackName
  | VStr p => let* _ := require (negb (bool_decide (p = "")))
                          INVALID_PROPERTY_PAYLOAD_ENTRY in Ok p
  | _ => hostError INVALID_PROPERTY_PAYLOAD_ENTRY
  end.

Definition assertSafePropertyPayloadValue (v : value) : res unit :=
  require (negb (isFunction v) && negb (isSymbol v)) INVALID_PROPERTY_PAYLOAD_ENTRY.

Definition createPropertyEntry (k prop property : string) (v : value) : entry :=
  mkEntry (VStr k) (VStr prop) VUndef (VStr property) VUndef VUndef v VUndef VUndef None.

Definition createStylePayloadEntry (k style mutation : string) (v : value) : entry :=
  mkEntry (VStr k) (VStr "style") VUndef VUndef (VStr style) (VStr mutation) v VUndef VUndef None.

(** The source adds the constant field [status: 'skipped']. *)
Definition normalizeNonPayloadPropertyPayloadEntry (e : entry) : res entry :=
  match propName e, category e, reason e with
  | VStr p, VStr c, VStr r => Ok (createNonPayloadEntry p (VStr c) (VStr r))
  | _, _, _ => hostError INVALID_PROPERTY_PAYLOAD_ENTRY
  end.

Section Host.
Context {Node D : Type} `{!Host Node D} (heap : ref -> jsobject).

Definition assertAttributePayloadTarget (d : D) (n : Node) (method : string) : res unit :=
  require (hasMethod d n method) INVALID_PROPERTY_PAYLOAD_TARGET.

Definition assertPropertyPayloadTarget (d : D) (n : Node) (property : string) : res unit :=
  require (hasProperty d n property) INVALID_PROPERTY_PAYLOAD_TARGET.

Definition assertStyleTarget (d : D) (n : Node) : res unit :=
  require (styleIsObject d n) INVALID_STYLE_TARGET.

Definition assertStyleSetPropertyTarget (d : D) (n : Node) : res unit :=
  require (styleHasMethod d n "setProperty") INVALID_STYLE_TARGET.

Definition normalizeSetAttributePayloadEntry (d : D) (n : Node) (e : entry) : res entry :=
  let* _ := assertAttributePayloadTarget d n "setAttribute" in
  let* a := normalizePayloadAttributeName e in
  match entryValue e with
  | VStr v => let* p := normalizePayloadPropName e a in Ok (createSetAttributeEntry p a v)
  | _ => hostError INVALID_PROPERTY_PAYLOAD_ENTRY
  end.

Definition normalizeRemoveAttributePayloadEntry (d : D) (n : Node) (e : entry) : res entry :=
  let* _ := assertAttributePayloadTarget d n "removeAttribute" in
  let* a := normalizePayloadAttributeName e in
  let* p := normalizePayloadPropName e a in
  Ok (createRemoveAttributeEntry p a).

Definition normalizeSetPropertyPayloadEntry (d : D) (n : Node) (e : entry) : res entry :=
  let* property := normalizePayloadPropertyName e in
  let* _ := assertPropertyPayloadTarget d n property in
  let* _ := assertSafePropertyPayloadValue (entryValue e) in
  let* p := normalizePayloadPropName e property in
  Ok (createPropertyEntry ENTRY_SET_PROPERTY p property (entryValue e)).

Definition normalizeRemovePropertyPayloadEntry (d : D) (n : Node) (e : entry) : res entry :=
  let* property := normalizePayloadPropertyName e in
  let* _ := assertPropertyPayloadTarget d n property in
  let* p := normalizePayloadPropName e property in
  Ok (createPropertyEntry ENTRY_REMOVE_PROPERTY p property VNull).

Definition normalizePropertyPayloadEntry (d : D) (n : Node) (i : item) : res entry :=
  match i with
  | inr e =>
      if isStr (kind e) ENTRY_SET_ATTRIBUTE then normalizeSetAttributePayloadEntry d n e
      else if isStr (kind e) ENTRY_REMOVE_ATTRIBUTE then normalizeRemoveAttributePayloadEntry d n e
      else if isStr (kind e) ENTRY_SET_PROPERTY then normalizeSetPropertyPayloadEntry d n e
      else if isStr (kind e) ENTRY_REMOVE_PROPERTY then normalizeRemovePropertyPayloadEntry d n e
      else Throw (createUnsupportedPayloadEntryError i)
  | inl _ => Throw (createUnsupportedPayloadEntryError i)
  end.

Definition validateStylePayloadEntry (d : D) (n : Node) (e : entry) (k : string) : res entry :=
  let* _ := assertStyleTarget d n in
  match styleName e with
  | VStr style =>
      let* _ := require (isStr (propName e) "style") INVALID_PAYLOAD_ENTRY in
      match mutation e with
      | VStr m =>
          let* _ := require (mem m ["propertyAssignment"; "setProperty"]) INVALID_PAYLOAD_ENTRY in
          let* _ := (if bool_decide (m = "setProperty") then assertStyleSetPropertyTarget d n
                     else Ok tt) in
          let* _ := require (if bool_decide (k = ENTRY_REMOVE_STYLE) then isStr (entryValue e) ""
                             else isString (entryValue e)) INVALID_PAYLOAD_ENTRY in
          Ok (createStylePayloadEntry k style m (entryValue e))
      | _ => hostError INVALID_PAYLOAD_ENTRY
      end
  | _ => hostError INVALID_PAYLOAD_ENTRY
  end.

Definition validateInnerHtmlPayloadEntry (d : D) (n : Node) (e : entry) : res entry :=
  let* _ := require (isStr (propName e) "dangerouslySetInnerHTML"
                     && isStr (propertyName e) "innerHTML" && isString (entryValue e))
              INVALID_PAYLOAD_ENTRY in
  let* _ := require (hasProperty d n "innerHTML") "FAST_REACT_DOM_INVALID_INNER_HTML_TARGET" in
  match entryValue e with
  | VStr v => Ok (createSetInnerHtmlEntry "dangerouslySetInnerHTML" v)
  | _ => hostError INVALID_PAYLOAD_ENTRY
  end.

Definition validateStyleDangerousHtmlPayloadEntry (d : D) (n : Node) (i : item) : res entry :=
  match i with
  | inl _ => hostError INVALID_PAYLOAD_ENTRY
  | inr e =>
      if isStr (kind e) ENTRY_SET_STYLE then validateStylePayloadEntry d n e ENTRY_SET_STYLE
      else if isStr (kind e) ENTRY_REMOVE_STYLE then validateStylePayloadEntry d n e ENTRY_REMOVE_STYLE
      else if isStr (kind e) ENTRY_SET_INNER_HTML then validateInnerHtmlPayloadEntry d n e
      else if kindIn (kind e) [ENTRY_SET_ATTRIBUTE; ENTRY_REMOVE_ATTRIBUTE]
      then hostError UNSUPPORTED_PAYLOAD_ENTRY
      else if isStr (kind e) ENTRY_NON_PAYLOAD then hostError "FAST_REACT_DOM_NON_PAYLOAD_ENTRY"
      else if isStr (kind e) ENTRY_UNSUPPORTED then hostError UNSUPPORTED_PAYLOAD_ENTRY
      else hostError INVALID_PAYLOAD_ENTRY
  end.

Definition normalizeAdmittedDomPropertyPayloadEntry (d : D) (n : Node) (i : item) : res entry :=
  match i with
  | inr e =>
      if isOrdinaryPropertyPayloadEntry e then normalizePropertyPayloadEntry d n i
      else if isStyleDangerousHtmlPayloadEntry e then validateStyleDangerousHtmlPayloadEntry d n i
      else if isNonPayloadPropertyPayloadEntry e then normalizeNonPayloadPropertyPayloadEntry e
      else Throw (createBlockedAdmittedPayloadEntryError i)
  | inl _ => Throw (createBlockedAdmittedPayloadEntryError i)
  end.

Definition normalizeLatestPropsSafeDomPropertyPayloadEntry (d : D) (n : Node) (i : item)
    : res entry :=
  match i with
  | inr e =>
      if isOrdinaryPropertyPayloadEntry e then normalizePropertyPayloadEntry d n i
      else if isStylePropertyPayloadEntry e then
        match kind e with
        | VStr k => validateStylePayloadEntry d n e k
        | _ => Throw (createBlockedLatestPropsPayloadEntryError i)
        end
      else if isStr (kind e) ENTRY_SET_INNER_HTML then validateInnerHtmlPayloadEntry d n e
      else if isNonPayloadPropertyPayloadEntry e then normalizeNonPayloadPropertyPayloadEntry e
      else Throw (createBlockedLatestPropsPayloadEntryError i)
  | inl _ => Throw (createBlockedLatestPropsPayloadEntryError i)
  end.

(** ** Application of a normalised entry *)

Definition applyStylePayloadEntry (n : Node) (e : entry) (d : D) : effect D unit :=
  match styleName e, entryValue e with
  | VStr style, VStr v =>
      if isStr (mutation e) "setProperty" then callSetStyleProperty n style v d
      else writeStyle n style v d
  | _, _ => (Ok tt, d)
  end.

Definition applyNormalizedPropertyPayloadEntry (n : Node) (e : entry) (d : D) : effect D unit :=
  if isStr (kind e) ENTRY_SET_ATTRIBUTE then
    match attributeName e, entryValue e with
    | VStr a, VStr v => callSetAttribute n a v d
    | _, _ => (Ok tt, d)
    end
  else if isStr (kind e) ENTRY_REMOVE_ATTRIBUTE then
    match attributeName e with VStr a => callRemoveAttribute n a d | _ => (Ok tt, d) end
  else if isStr (kind e) ENTRY_SET_PROPERTY then
    match propertyName e with VStr p => writeProperty n p (entryValue e) d | _ => (Ok tt, d) end
  else if isStr (kind e) ENTRY_REMOVE_PROPERTY then
    match propertyName e with VStr p => writeProperty n p VNull d | _ => (Ok tt, d) end
  else (Ok tt, d).

Definition applyStyleDangerousHtmlPayloadEntry (n : Node) (e : entry) (d : D) : effect D unit :=
  if isStylePropertyPayloadEntry e then applyStylePayloadEntry n e d
  else if isStr (kind e) ENTRY_SET_INNER_HTML then writeProperty n "innerHTML" (entryValue e) d
  else (hostError INVALID_PAYLOAD_ENTRY, d).

Definition applyAdmittedNormalizedPropertyPayloadEntry (n : Node) (e : entry) (d : D)
    : effect D unit :=
  if isOrdinaryPropertyPayloadEntry e then applyNormalizedPropertyPayloadEntry n e d
  else if isStyleDangerousHtmlPayloadEntry e then applyStyleDangerousHtmlPayloadEntry n e d
  else if isNonPayloadPropertyPayloadEntry e then (Ok tt, d)
  else (hostError UNSUPPORTED_PROPERTY_PAYLOAD_ENTRY, d).

Definition applyLatestPropsSafeDomPropertyPayloadEntry (n : Node) (e : entry) (d : D)
    : effect D unit :=
  if isOrdinaryPropertyPayloadEntry e then applyNormalizedPropertyPayloadEntry n e d
  else if isStylePropertyPayloadEntry e then applyStylePayloadEntry n e d
  else if isStr (kind e) ENTRY_SET_INNER_HTML then applyStyleDangerousHtmlPayloadEntry n e d
  else (Ok tt, d).

(** ** Rollback records *)

Inductive rollbackRecord : Type :=
| AttributeRollback (attribute : string) (hadAttribute : bool) (v : option string)
| PropertyRollback (property : string) (v : value)
| StyleRollback (mutation style v : string)
| InnerHtmlRollback (children : option (list Node)) (v : string)
| TextContentRollback (children : option (list Node)) (innerHTML : option string) (v : string).

Definition assertAttributeRollbackTarget (d : D) (n : Node) : res unit :=
  require (hasMethod d n "setAttribute" && hasMethod d n "removeAttribute") UNSUPPORTED_ROLLBACK_TARGET.

Definition getAttributeRollbackSnapshot (d : D) (n : Node) (a : string) : res (bool * option string) :=
  if hasMethod d n "hasAttribute" && hasMethod d n "getAttribute" then
    let* had := callHasAttribute d n a in
    if truthy had then
      let* v := callGetAttribute d n a in
      let* s := toStringRes heap v in
      Ok (true, Some s)
    else Ok (false, None)
  else
    match attributesMap d n with
    | Some m =>
        match assoc a m with
        | Some v => let* s := toStringRes heap v in Ok (true, Some s)
        | None => Ok (false, None)
        end
    | None => hostError UNSUPPORTED_ROLLBACK_TARGET
    end.

Definition getStyleRollbackSnapshot (d : D) (n : Node) (mutation style : string) : res string :=
  let* _ := assertStyleTarget d n in
  let readSnapshot :=
    let* v := readStyle d n style in
    if nullish v then Ok "" else toStringRes heap v in
  if bool_decide (mutation = "setProperty") then
    if styleHasMethod d n "getPropertyValue" then
      let* v := callGetPropertyValue d n style in
      toStringRes heap (if truthy v then v else VStr "")
    else
      match stylePropertiesMap d n with
      | Some m => match assoc style m with Some v => toStringRes heap v | None => Ok "" end
      | None => readSnapshot
      end
  else readSnapshot.

Definition getInnerHtmlRollbackSnapshot (d : D) (n : Node) : res string :=
  let* _ := require (hasProperty d n "innerHTML") UNSUPPORTED_ROLLBACK_TARGET in
  let* v := readProperty d n "innerHTML" in toStringRes heap v.

Definition getTextContentRollbackSnapshot (d : D) (n : Node) : res string :=
  let* _ := require (hasProperty d n "textContent")
              "FAST_REACT_DOM_UNSUPPORTED_TEXT_CONTENT_ROLLBACK_TARGET" in
  let* v := readProperty d n "textContent" in toStringRes heap v.

Definition createAttributePayloadRollbackRecord (d : D) (n : Node) (a : string) : res rollbackRecord :=
  let* _ := assertAttributeRollbackTarget d n in
  let* snapshot := getAttributeRollbackSnapshot d n a in
  Ok (AttributeRollback a (fst snapshot) (snd snapshot)).

Definition createPropertyPayloadRollbackRecord (d : D) (n : Node) (p : string) : res rollbackRecord :=
  let* v := readProperty d n p in Ok (PropertyRollback p v).

Definition createStylePayloadRollbackRecord (d : D) (n : Node) (mutation style : string)
    : res rollbackRecord :=
  let* v := getStyleRollbackSnapshot d n mutation style in Ok (StyleRollback mutation style v).

Definition createInnerHtmlPayloadRollbackRecord (d : D) (n : Node) : res rollbackRecord :=
  let* v := getInnerHtmlRollbackSnapshot d n in Ok (InnerHtmlRollback (childNodes d n) v).

Definition createTextContentPayloadRollbackRecord (d : D) (n : Node) : res rollbackRecord :=
  let* html := (if hasProperty d n "innerHTML"
                then let* h := getInnerHtmlRollbackSnapshot d n in Ok (Some h) else Ok None) in
  let* v := getTextContentRollbackSnapshot d n in
  Ok (TextContentRollback (childNodes d n) html v).

Definition createDomPropertyPayloadRollbackRecord (d : D) (n : Node) (e : entry)
    : res (option rollbackRecord) :=
  if isKind e [ENTRY_SET_ATTRIBUTE; ENTRY_REMOVE_ATTRIBUTE] then
    match attributeName e with
    | VStr a => let* r := createAttributePayloadRollbackRecord d n a in Ok (Some r)
    | _ => Ok None
    end
  else if isKind e [ENTRY_SET_PROPERTY; ENTRY_REMOVE_PROPERTY] then
    match propertyName e with
    | VStr p => let* r := createPropertyPayloadRollbackRecord d n p in Ok (Some r)
    | _ => Ok None
    end
  else if isKind e [ENTRY_SET_STYLE; ENTRY_REMOVE_STYLE] then
    match mutation e, styleName e with
    | VStr m, VStr style => let* r := createStylePayloadRollbackRecord d n m style in Ok (Some r)
    | _, _ => Ok None
    end
  else if isStr (kind e) ENTRY_SET_INNER_HTML then
    let* r := createInnerHtmlPayloadRollbackRecord d n in Ok (Some r)
  else Ok None.

Definition createDomPropertyPayloadRollbackRecords (d : D) (n : Node) (entries : list entry)
    : res (list (option rollbackRecord)) :=
  mapRes (createDomPropertyPayloadRollbackRecord d n) entries.

(** The latest-props commit has its own copies of these two functions. *)
Definition createLatestPropsSafeDomPropertyPayloadRollbackRecord (d : D) (n : Node) (e : entry)
    : res (option rollbackRecord) := createDomPropertyPayloadRollbackRecord d n e.

Definition createLatestPropsSafeDomPropertyPayloadRollbackRecords (d : D) (n : Node)
    (entries : list entry) : res (list (option rollbackRecord)) :=
  mapRes (createLatestPropsSafeDomPropertyPayloadRollbackRecord d n) entries.

(** ** Rolling back *)

Context `{!EqDecision Node}.

Definition childNodeSnapshotsMatch (current : option (list Node)) (saved : list Node) : bool :=
  bool_decide (current = Some saved).

(** [rollbackRecord.childNodes === null || childNodeSnapshotsMatch(...)] *)
Definition childrenMatch (d : D) (n : Node) (saved : option (list Node)) : bool :=
  match saved with
  | None => true
  | Some l => childNodeSnapshotsMatch (childNodes d n) l
  end.

Definition attributeRollbackRecordMatchesCurrentValue (d : D) (n : Node) (a : string)
    (had : bool) (v : option string) : res bool :=
  let* snapshot := getAttributeRollbackSnapshot d n a in Ok (bool_decide (snapshot = (had, v))).

Definition styleRollbackRecordMatchesCurrentValue (d : D) (n : Node) (m style v : string) : res bool :=
  let* snapshot := getStyleRollbackSnapshot d n m style in Ok (bool_decide (snapshot = v)).

Definition innerHtmlRollbackRecordMatchesCurrentValue (d : D) (n : Node)
    (children : option (list Node)) (v : string) : res bool :=
  let* html := getInnerHtmlRollbackSnapshot d n in
  if negb (bool_decide (html = v)) then Ok false else Ok (childrenMatch d n children).

Definition shouldRollbackTextContentViaInnerHTML (children : option (list Node))
    (innerHTML : option string) : option string :=
  match innerHTML with
  | Some html =>
      if negb (bool_decide (html = ""))
         && match children with None | Some [] => true | _ => false end
      then Some html else None
  | None => None
  end.

Definition textContentRollbackRecordMatchesCurrentValue (d : D) (n : Node)
    (children : option (list Node)) (innerHTML : option string) (v : string) : res bool :=
  let* sameHtml := match shouldRollbackTextContentViaInnerHTML children innerHTML with
                   | Some saved => let* html := getInnerHtmlRollbackSnapshot d n in
                                   Ok (bool_decide (html = saved))
                   | None => Ok true
                   end in
  if negb sameHtml then Ok false
  else
    let* text := getTextContentRollbackSnapshot d n in
    if negb (bool_decide (text = v)) then Ok false else Ok (childrenMatch d n children).

Definition restoreRollbackChildNodes (n : Node) (saved : option (list Node)) (d : D)
    : effect D unit :=
  match saved, childNodes d n with
  | Some nextChildren, Some current =>
      if childNodeSnapshotsMatch (Some current) nextChildren then (Ok tt, d)
      else
        do* _, d := forEach (fun child d =>
          if bool_decide (parentNode d child = Some n) && negb (bool_decide (child ∈ nextChildren))
          then writeParentNode child None d else (Ok tt, d)) current d in
        do* _, d := forEach (fun child d => writeParentNode child (Some n) d) nextChildren d in
        writeChildNodes n nextChildren d
  | _, _ => (Ok tt, d)
  end.

Definition applyStyleRollbackRecord (n : Node) (m style v : string) (d : D) : effect D unit :=
  do* _, d := pureStep (assertStyleTarget d n) d in
  if bool_decide (m = "setProperty") then
    do* _, d := pureStep (assertStyleSetPropertyTarget d n) d in
    callSetStyleProperty n style v d
  else writeStyle n style v d.

Definition applyInnerHtmlRollbackRecord (n : Node) (children : option (list Node)) (v : string)
    (d : D) : effect D unit :=
  do* html, d := pureStep (getInnerHtmlRollbackSnapshot d n) d in
  do* _, d := (if bool_decide (html = v) then (Ok tt, d)
               else writeProperty n "innerHTML" (VStr v) d) in
  restoreRollbackChildNodes n children d.
End Host.
Arguments rollbackRecord Node : clear implicits.
