(* ===== verification/DomTree.v ===== *)
(** * Tree and text mutation (mutation.js, client/dom-container.js)

    Moving, removing and clearing children, creating host nodes, and writing text. The
    walk to the root in [isAncestorOf] and the loop of [clearContainer] follow the host's
    pointers, so they take fuel: [None] is a loop that has not ended yet. *)
From S2P Require Import Prelude JsValue DomHost.

Section Tree.
Context {Node D : Type} `{!EqDecision Node} `{!Host Node D} (heap : ref -> jsobject).

(** ** Containers (client/dom-container.js) *)

Definition isNodeType (v : value) (t : Z) : bool := strictEq v (VNum (Finite t 0)).

Definition isValidContainer (d : D) (container : domArg Node) : res bool :=
  match container with
  | inl _ => Ok false
  | inr n =>
      let* nodeType := readProperty d n "nodeType" in
      Ok (isNodeType nodeType 1 || isNodeType nodeType 9 || isNodeType nodeType 11)
  end.

Definition assertValidContainer (d : D) (container : domArg Node) : res (domArg Node) :=
  let* valid := isValidContainer d container in
  if valid then Ok container else hostError "FAST_REACT_DOM_INVALID_CONTAINER".

Definition getOwnerDocument (d : D) (container : domArg Node) : res (option Node) :=
  match container with
  | inl _ => Ok None
  | inr n =>
      let* nodeType := readProperty d n "nodeType" in
      Ok (if isNodeType nodeType 9 then Some n else ownerDocument d n)
  end.

(** [typeof v === 'number' ? v : null] *)
Definition numberOrNull (v : value) : value := match v with VNum _ => v | _ => VNull end.
Definition readNodeType (d : D) (n : Node) : res value :=
  let* v := readProperty d n "nodeType" in Ok (numberOrNull v).

(** A container that is no object has no [nodeName]: it is undefined. *)
Record containerDescription : Type := mkDescription {
  cd_kind : string;
  cd_nodeName : value;
  cd_nodeType : value }.
Definition describeContainer (d : D) (container : domArg Node) : res containerDescription :=
  match container with
  | inl VUndef => Ok (mkDescription "undefined" VUndef VNull)
  | inl VNull => Ok (mkDescription "null" VUndef VNull)
  | inl v => Ok (mkDescription (typeof v) VUndef VNull)
  | inr n =>
      let* nodeName := readProperty d n "nodeName" in
      let* nodeType := readNodeType d n in
      Ok (mkDescription "object" (if truthy nodeName then nodeName else VNull) nodeType)
  end.

Record containerInfo : Type := mkContainerInfo {
  ci_kind : string;
  ci_nodeName : value;
  ci_nodeType : value;
  ci_canRemoveChild : bool;
  ci_childNodeCount : nat;
  ci_cleanupTarget : bool;
  ci_fakeDomCleanupTarget : bool;
  ci_hasChildNodesArray : bool }.

(** [describeContainer] and [describeContainerCleanupTarget] of an object. *)
Definition describeContainerCleanupTarget (d : D) (n : Node) : res containerInfo :=
  let* nodeName := readProperty d n "nodeName" in
  let* nodeType := readProperty d n "nodeType" in
  let* valid := isValidContainer d (inr n) in
  let hasChildNodesArray := match childNodes d n with Some _ => true | None => false end in
  let canRemoveChild := hasMethod d n "removeChild" in
  Ok (mkContainerInfo "object"
        (if truthy nodeName then nodeName else VNull)
        (match nodeType with VNum _ => nodeType | _ => VNull end)
        canRemoveChild
        (match childNodes d n with Some l => length l | None => 0 end)
        valid (valid && hasChildNodesArray && canRemoveChild) hasChildNodesArray).

(** ** Guards *)

Definition assertParentMethod (d : D) (parent : domArg Node) (method : string) : res Node :=
  let* p := assertDomLikeObject parent Parent in
  let* _ := require (hasMethod d p method) "FAST_REACT_DOM_INVALID_PARENT_NODE" in
  Ok p.
Definition assertAppendParent (d : D) (parent : domArg Node) := assertParentMethod d parent "appendChild".
Definition assertInsertParent (d : D) (parent : domArg Node) := assertParentMethod d parent "insertBefore".
Definition assertRemoveParent (d : D) (parent : domArg Node) := assertParentMethod d parent "removeChild".

Definition assertChildNode (child : domArg Node) : res Node := assertDomLikeObject child Child.

Fixpoint isAncestorOf (fuel : nat) (d : D) (candidateAncestor : Node) (current : option Node)
    : option bool :=
  match current with
  | None => Some false
  | Some c =>
      match fuel with
      | O => None
      | S fuel =>
          if bool_decide (c = candidateAncestor) then Some true
          else isAncestorOf fuel d candidateAncestor (parentNode d c)
      end
  end.

Definition assertCanMoveIntoParent (fuel : nat) (d : D) (parent child : Node) : option (res unit) :=
  if bool_decide (parent = child) then Some (hostError "FAST_REACT_DOM_INVALID_MUTATION_TARGET")
  else
    match isAncestorOf fuel d child (Some parent) with
    | None => None
    | Some true => Some (hostError "FAST_REACT_DOM_INVALID_MUTATION_TARGET")
    | Some false => Some (Ok tt)
    end.

Definition assertCurrentChild (d : D) (parent child : Node) (code : string) : res unit :=
  if bool_decide (parentNode d child = Some parent) then Ok tt
  else
    match childNodes d parent with
    | Some l => require (bool_decide (child ∈ l)) code
    | None => hostError code
    end.

(** ** Moving and removing *)

(** The last guard may not end; the host's method runs when all guards pass. *)
Definition guarded {A : Type} (g : option (res unit)) (k : D -> effect D A) (d : D)
    : option (effect D A) :=
  match g with
  | None => None
  | Some r => Some (do* _, d := pureStep r d in k d)
  end.

Definition appendChild (fuel : nat) (parentInstance child : domArg Node) (d : D)
    : option (effect D Node) :=
  match (let* p := assertAppendParent d parentInstance in
         let* c := assertChildNode child in Ok (p, c)) with
  | Throw e => Some (Throw e, d)
  | Ok (p, c) => guarded (assertCanMoveIntoParent fuel d p c) (callAppendChild p c) d
  end.

Definition appendInitialChild := appendChild.
Definition appendChildToContainer := appendChild.

Definition insertBefore (fuel : nat) (parentInstance child beforeChild : domArg Node) (d : D)
    : option (effect D Node) :=
  match (let* p := assertInsertParent d parentInstance in
         let* c := assertChildNode child in
         let* b := assertChildNode beforeChild in Ok (p, c, b)) with
  | Throw e => Some (Throw e, d)
  | Ok (p, c, b) =>
      guarded (assertCanMoveIntoParent fuel d p c) (fun d =>
        do* _, d := pureStep (assertCurrentChild d p b "FAST_REACT_DOM_MISSING_INSERTION_TARGET") d in
        callInsertBefore p c b d) d
  end.

Definition insertInContainerBefore := insertBefore.

Definition removeChild (parentInstance child : domArg Node) (d : D) : effect D Node :=
  match (let* p := assertRemoveParent d parentInstance in
         let* c := assertChildNode child in
         let* _ := assertCurrentChild d p c "FAST_REACT_DOM_MISSING_REMOVAL_TARGET" in
         Ok (p, c)) with
  | Throw e => (Throw e, d)
  | Ok (p, c) => callRemoveChild p c d
  end.

Definition removeChildFromContainer := removeChild.

Definition getFirstChild (d : D) (parent : Node) : option Node :=
  match firstChild d parent with
  | Some c => c
  | None => match childNodes d parent with Some (c :: _) => Some c | _ => None end
  end.

Definition getLastChild (d : D) (parent : Node) : option Node :=
  match lastChild d parent with
  | Some c => c
  | None => match childNodes d parent with Some l => last l | None => None end
  end.

(** The loop of [clearContainer] and of [clearContainerForRootUnmount], which records the
    removed children. *)
Fixpoint clearLoop (fuel : nat) (container : Node) (removedChildren : list Node) (d : D)
    : option (effect D (list Node)) :=
  match getFirstChild d container with
  | None => Some (Ok removedChildren, d)
  | Some c =>
      match fuel with
      | O => None
      | S fuel =>
          match callRemoveChild container c d with
          | (Throw e, d) => Some (Throw e, d)
          | (Ok _, d) => clearLoop fuel container (removedChildren ++ [c]) d
          end
      end
  end.

Definition clearContainer (fuel : nat) (container : domArg Node) (d : D) : option (effect D unit) :=
  match assertRemoveParent d container with
  | Throw e => Some (Throw e, d)
  | Ok n =>
      match clearLoop fuel n [] d with
      | None => None
      | Some r => Some (do* _, d := r in (Ok tt, d))
      end
  end.

(** The record of a removed child: its index and description; the constant fields are left
    out. *)
Definition createRootUnmountRemovedChildCleanupRecords (d : D) (removedChildren : list Node)
    : res (list (nat * containerInfo)) :=
  let* infos := mapRes (describeContainerCleanupTarget d) removedChildren in
  Ok (imap (fun i info => (i, info)) infos).

Record clearRecord : Type := mkClearRecord {
  cl_container : Node;
  cl_removedChildren : list Node;
  cl_infoBefore : containerInfo;
  cl_infoAfter : containerInfo;
  cl_removedChildRecords : list (nat * containerInfo) }.

Definition clearContainerForRootUnmount (fuel : nat) (container : domArg Node) (d : D)
    : option (effect D clearRecord) :=
  match (let* n := assertRemoveParent d container in
         let* infoBefore := describeContainerCleanupTarget d n in Ok (n, infoBefore)) with
  | Throw e => Some (Throw e, d)
  | Ok (n, infoBefore) =>
      match clearLoop fuel n [] d with
      | None => None
      | Some r =>
          Some (do* removedChildren, d := r in
                (let* records := createRootUnmountRemovedChildCleanupRecords d removedChildren in
                 let* infoAfter := describeContainerCleanupTarget d n in
                 Ok (mkClearRecord n removedChildren infoBefore infoAfter records), d))
      end
  end.

(** ** Text *)

Definition setTextNodeValue (textInstance : domArg Node) (text : value) (d : D) : effect D unit :=
  do* n, d := pureStep (assertDomLikeObject textInstance Child) d in
  do* stringText, d := pureStep (toStringRes heap text) d in
  if hasProperty d n "nodeValue" then writeProperty n "nodeValue" (VStr stringText) d
  else if hasProperty d n "data" then writeProperty n "data" (VStr stringText) d
  else if hasProperty d n "textContent" then writeProperty n "textContent" (VStr stringText) d
  else (hostError "FAST_REACT_DOM_INVALID_TEXT_INSTANCE", d).

Definition commitTextUpdate (textInstance : domArg Node) (oldText newText : value) (d : D)
    : effect D unit := setTextNodeValue textInstance newText d.

Definition isTextNode (d : D) (n : Node) : res bool :=
  let* nodeType := readProperty d n "nodeType" in
  if isNodeType nodeType 3 then Ok true
  else let* nodeName := readProperty d n "nodeName" in Ok (isStr nodeName "#text").

(** Is the node's only child a text node? *)
Definition onlyTextChild (d : D) (n : Node) : res (option Node) :=
  match getFirstChild d n with
  | Some c =>
      if bool_decide (getLastChild d n = Some c) then
        let* text := isTextNode d c in Ok (if text then Some c else None)
      else Ok None
  | None => Ok None
  end.

Definition setNodeTextContent (instance : domArg Node) (text : value) (d : D) : effect D unit :=
  do* n, d := pureStep (assertDomLikeObject instance Parent) d in
  do* _, d := pureStep (require (hasProperty d n "textContent")
                          "FAST_REACT_DOM_INVALID_TEXT_CONTENT_TARGET") d in
  do* stringText, d := pureStep (toStringRes heap text) d in
  if bool_decide (stringText = "") then writeProperty n "textContent" (VStr "") d
  else
    do* child, d := pureStep (onlyTextChild d n) d in
    match child with
    | Some c => setTextNodeValue (inr c) (VStr stringText) d
    | None => writeProperty n "textContent" (VStr stringText) d
    end.

Definition resetTextContent (instance : domArg Node) (d : D) : effect D unit :=
  setNodeTextContent instance (VStr "") d.
Definition setTextContent (instance : domArg Node) (text : value) (d : D) : effect D unit :=
  setNodeTextContent instance text d.

(** ** Creation *)

Definition getOwnerDocumentForHostText (d : D) (rootContainerInstance : domArg Node) : res Node :=
  let* n := assertDomLikeObject rootContainerInstance Parent in
  let* nodeType := readProperty d n "nodeType" in
  if isNodeType nodeType 9 then Ok n
  else
    match ownerDocument d n with
    | Some doc => Ok doc
    | None => hostError "FAST_REACT_DOM_INVALID_TEXT_CREATION_TARGET"
    end.

Definition createDomHostTextInstance (text : value) (rootContainerInstance : domArg Node) (d : D)
    : effect D Node :=
  do* doc, d := pureStep (getOwnerDocumentForHostText d rootContainerInstance) d in
  do* _, d := pureStep (require (hasMethod d doc "createTextNode")
                          "FAST_REACT_DOM_INVALID_TEXT_CREATION_TARGET") d in
  do* stringText, d := pureStep (toStringRes heap text) d in
  do* textInstance, d := callCreateTextNode doc stringText d in
  pureStep (assertDomLikeObject textInstance Child) d.

Definition createDomHostElementInstance (type : value) (rootContainerInstance : domArg Node) (d : D)
    : effect D Node :=
  match type with
  | VStr t =>
      do* _, d := pureStep (require (negb (bool_decide (t = "")))
                              "FAST_REACT_DOM_INVALID_ELEMENT_TYPE") d in
      do* doc, d := pureStep (getOwnerDocumentForHostText d rootContainerInstance) d in
      do* _, d := pureStep (require (hasMethod d doc "createElement")
                              "FAST_REACT_DOM_INVALID_ELEMENT_CREATION_TARGET") d in
      do* instance, d := callCreateElement doc t d in
      pureStep (assertDomLikeObject instance Child) d
  | _ => (hostError "FAST_REACT_DOM_INVALID_ELEMENT_TYPE", d)
  end.
End Tree.
Arguments clearRecord Node : clear implicits.
