(* ===== verification/DomCommit.v ===== *)
(** * Transactional commits (mutation.js)

    The functions that apply a whole payload, roll it back when a mutation throws, and
    hand out records. The WeakMaps that hold the private payload of a record are finite
    maps of a registry, keyed by the record's identity; a value that is no such record is
    [None]. *)
From S2P Require Import Prelude JsValue PropertyPayload DomHost DomPayload DomTree.

Section Commit.
Context {Node D : Type} `{!EqDecision Node} `{!Host Node D} (heap : ref -> jsobject).
#[local] Abbreviation rollbackRecord := (rollbackRecord Node).

(** ** Rolling back *)

Definition applyTextContentRollbackRecord (n : Node) (children : option (list Node))
    (innerHTML : option string) (v : string) (d : D) : effect D unit :=
  do* _, d :=
    match shouldRollbackTextContentViaInnerHTML children innerHTML with
    | Some saved =>
        do* html, d := pureStep (getInnerHtmlRollbackSnapshot heap d n) d in
        if bool_decide (html = saved) then (Ok tt, d)
        else writeProperty n "innerHTML" (VStr saved) d
    | None =>
        do* text, d := pureStep (getTextContentRollbackSnapshot heap d n) d in
        if bool_decide (text = v) then (Ok tt, d)
        else setNodeTextContent heap (inr n) (VStr v) d
    end in
  restoreRollbackChildNodes n children d.

Definition unless (matches : res bool) (k : D -> effect D unit) (d : D) : effect D unit :=
  do* same, d := pureStep matches d in if same : bool then (Ok tt, d) else k d.

Definition applyDomPropertyPayloadRollbackRecord (n : Node) (r : rollbackRecord) (d : D)
    : effect D unit :=
  match r with
  | AttributeRollback a had v =>
      unless (attributeRollbackRecordMatchesCurrentValue heap d n a had v)
        (match had, v with
         | true, Some s => callSetAttribute n a s
         | _, _ => callRemoveAttribute n a
         end) d
  | PropertyRollback p v =>
      unless (let* current := readProperty d n p in Ok (strictEq current v)) (writeProperty n p v) d
  | StyleRollback m style v =>
      unless (styleRollbackRecordMatchesCurrentValue heap d n m style v)
        (applyStyleRollbackRecord n m style v) d
  | InnerHtmlRollback children v =>
      unless (innerHtmlRollbackRecordMatchesCurrentValue heap d n children v)
        (applyInnerHtmlRollbackRecord heap n children v) d
  | TextContentRollback children innerHTML v =>
      unless (textContentRollbackRecordMatchesCurrentValue heap d n children innerHTML v)
        (applyTextContentRollbackRecord n children innerHTML v) d
  end.

(** The loop of [rollbackDomPropertyPayloadEntries] over the records in the order it
    visits them: every record is tried, and the first error is thrown at the end. *)
Fixpoint rollbackLoop (n : Node) (records : list (option rollbackRecord)) (first : option error)
    (d : D) : effect D unit :=
  match records with
  | [] => (match first with Some e => Throw e | None => Ok tt end, d)
  | None :: records => rollbackLoop n records first d
  | Some r :: records =>
      let '(o, d) := applyDomPropertyPayloadRollbackRecord n r d in
      let first := match o, first with
                   | Throw e, None => Some e
                   | _, _ => first
                   end in
      rollbackLoop n records first d
  end.

Definition rollbackDomPropertyPayloadEntries (n : Node) (records : list (option rollbackRecord))
    (rollbackLimit : nat) (d : D) : effect D unit :=
  rollbackLoop n (rev (take rollbackLimit records)) None d.

Definition rollbackLatestPropsSafeDomPropertyPayloadEntries (n : Node)
    (records : list (option rollbackRecord)) (rollbackLimit : nat) (d : D) : effect D unit :=
  rollbackDomPropertyPayloadEntries n records rollbackLimit d.

(** ** Applying *)

(** The loop over the entries: its outcome and [rollbackLimit]. *)
Fixpoint applyLoop {E : Type} (apply : E -> D -> effect D unit) (entries : list E)
    (rollbackLimit : nat) (d : D) : (res unit * nat) * D :=
  match entries with
  | [] => (Ok tt, rollbackLimit, d)
  | e :: entries =>
      match apply e d with
      | (Ok _, d) => applyLoop apply entries (S rollbackLimit) d
      | (Throw err, d) => (Throw err, S rollbackLimit, d)
      end
  end.

(** Apply the entries; on an error roll back and throw it, whatever the rollback does. *)
Definition applyWithRollback {E : Type} (apply : E -> D -> effect D unit) (n : Node)
    (entries : list E) (records : list (option rollbackRecord)) (d : D) : effect D unit :=
  let '(o, rollbackLimit, d) := applyLoop apply entries 0 d in
  match o with
  | Ok _ => (Ok tt, d)
  | Throw err =>
      let '(_, d) := rollbackDomPropertyPayloadEntries n records rollbackLimit d in
      (Throw err, d)
  end.

(** [payload] when it is an array. *)
Definition assertPayload (payload : option (list item)) (code : string) : res (list item) :=
  match payload with Some l => Ok l | None => hostError code end.

(** ** Records of applied entries *)

Definition createAppliedPropertyPayloadRecord (e : entry) : entry :=
  if isStr (kind e) ENTRY_SET_ATTRIBUTE then
    mkEntry (kind e) VUndef (attributeName e) VUndef VUndef VUndef (entryValue e) VUndef VUndef None
  else if isStr (kind e) ENTRY_REMOVE_ATTRIBUTE then
    mkEntry (kind e) VUndef (attributeName e) VUndef VUndef VUndef VUndef VUndef VUndef None
  else
    mkEntry (kind e) VUndef VUndef (propertyName e) VUndef VUndef (entryValue e) VUndef VUndef None.

Definition createAdmittedPropertyPayloadRecord (e : entry) : entry :=
  if isOrdinaryPropertyPayloadEntry e then createAppliedPropertyPayloadRecord e else e.

Definition createLatestPropsPayloadRecord (e : entry) : entry :=
  if isStr (kind e) ENTRY_SET_ATTRIBUTE then
    mkEntry (kind e) (propName e) (attributeName e) VUndef VUndef VUndef (entryValue e) VUndef VUndef None
  else if isStr (kind e) ENTRY_REMOVE_ATTRIBUTE then
    mkEntry (kind e) (propName e) (attributeName e) VUndef VUndef VUndef VUndef VUndef VUndef None
  else if isStr (kind e) ENTRY_SET_PROPERTY then
    mkEntry (kind e) (propName e) VUndef (propertyName e) VUndef VUndef (entryValue e) VUndef VUndef None
  else if isStr (kind e) ENTRY_REMOVE_PROPERTY then
    mkEntry (kind e) (propName e) VUndef (propertyName e) VUndef VUndef VNull VUndef VUndef None
  else if isStylePropertyPayloadEntry e then
    mkEntry (kind e) (propName e) VUndef VUndef (styleName e) (mutation e) (entryValue e) VUndef VUndef
      None
  else if isStr (kind e) ENTRY_SET_INNER_HTML then
    mkEntry (kind e) (propName e) VUndef (propertyName e) VUndef VUndef (entryValue e) VUndef VUndef None
  else e.

Definition applyDomPropertyPayload (instance : domArg Node) (payload : option (list item)) (d : D)
    : effect D (list entry) :=
  do* n, d := pureStep (assertDomLikeObject instance Parent) d in
  do* l, d := pureStep (assertPayload payload INVALID_PROPERTY_PAYLOAD) d in
  do* entries, d := pureStep (mapRes (normalizePropertyPayloadEntry d n) l) d in
  do* _, d := forEach (applyNormalizedPropertyPayloadEntry n) entries d in
  (Ok (map createAppliedPropertyPayloadRecord entries), d).

(** The entries and rollback records of a payload that is applied. *)
Definition applied : Type := (Node * list entry * list (option rollbackRecord))%type.

(** The common shape of the transactional appliers. *)
Definition applyTransaction (normalize : D -> Node -> item -> res entry)
    (apply : Node -> entry -> D -> effect D unit) (code : string)
    (instance : domArg Node) (payload : option (list item)) (d : D) : effect D applied :=
  do* n, d := pureStep (assertDomLikeObject instance Parent) d in
  do* l, d := pureStep (assertPayload payload code) d in
  do* entries, d := pureStep (mapRes (normalize d n) l) d in
  do* records, d := pureStep (createDomPropertyPayloadRollbackRecords heap d n entries) d in
  do* _, d := applyWithRollback (apply n) n entries records d in
  (Ok (n, entries, records), d).

(** [applyAdmittedDomPropertyPayload] and [applyStyleDangerousHtmlPayload], up to the
    registration of the returned records. *)
Definition applyAdmitted := applyTransaction normalizeAdmittedDomPropertyPayloadEntry
  applyAdmittedNormalizedPropertyPayloadEntry INVALID_PROPERTY_PAYLOAD.
Definition applyStyleDangerousHtml := applyTransaction validateStyleDangerousHtmlPayloadEntry
  applyStyleDangerousHtmlPayloadEntry "FAST_REACT_DOM_INVALID_PAYLOAD".

(** ** Latest props *)

Definition latestPropsSafePayloadKinds : list string :=
  [ENTRY_SET_ATTRIBUTE; ENTRY_REMOVE_ATTRIBUTE; ENTRY_SET_PROPERTY; ENTRY_REMOVE_PROPERTY;
   ENTRY_SET_STYLE; ENTRY_REMOVE_STYLE; ENTRY_SET_INNER_HTML; ENTRY_NON_PAYLOAD].

Definition INVALID_LATEST_PROPS_PAYLOAD_RECORD := "FAST_REACT_DOM_INVALID_LATEST_PROPS_PAYLOAD_RECORD".

(** The fields that must be strings, by kind. *)
Definition requiredFields (e : entry) : list value :=
  if isKind e [ENTRY_SET_ATTRIBUTE; ENTRY_REMOVE_ATTRIBUTE] then [propName e; attributeName e]
  else if isKind e [ENTRY_SET_PROPERTY; ENTRY_REMOVE_PROPERTY] then [propName e; propertyName e]
  else if isKind e [ENTRY_SET_STYLE; ENTRY_REMOVE_STYLE] then
    [propName e; styleName e; mutation e; entryValue e]
  else if isKind e [ENTRY_SET_INNER_HTML] then [propName e; propertyName e; entryValue e]
  else [propName e; category e].

Definition cloneSafeLatestPropsPayloadRecord (i : item) : res entry :=
  match i with
  | inl _ => hostError INVALID_LATEST_PROPS_PAYLOAD_RECORD
  | inr e =>
      let* _ := require (kindIn (kind e) latestPropsSafePayloadKinds)
                  "FAST_REACT_DOM_UNSAFE_LATEST_PROPS_PAYLOAD_RECORD" in
      let* _ := require (forallb isString (requiredFields e)) INVALID_LATEST_PROPS_PAYLOAD_RECORD in
      Ok e
  end.

(** An argument that is nullish, an array, or something else. *)
Inductive arrayArg : Type := NullishArg | ArrayArg (l : list item) | OtherArg.

Definition normalizeLatestPropsCommitPayloadRecords (payloadRecords : arrayArg) : res (list entry) :=
  match payloadRecords with
  | NullishArg => Ok []
  | OtherArg => hostError "FAST_REACT_DOM_INVALID_LATEST_PROPS_PAYLOAD"
  | ArrayArg l => mapRes cloneSafeLatestPropsPayloadRecord l
  end.

(** ** The registry *)

Record latestPropsPayload : Type := mkLatestProps {
  lp_latestProps : value;
  lp_node : Node;
  lp_payloadRecords : list entry }.

Record handoffPayload : Type := mkHandoff {
  hp_latestPropsCommitRecord : N;
  hp_mutationRecords : list entry;
  hp_rollbackRecords : list (option rollbackRecord) }.

Record mutationPayload : Type := mkMutation {
  mp_mutationRecords : list entry;
  mp_node : Node;
  mp_rollbackRecords : list (option rollbackRecord) }.

Record registry : Type := mkRegistry {
  nextRecord : N;
  latestPropsCommitRecordPayloads : gmap N latestPropsPayload;
  domPropertyUpdateLatestPropsHandoffPayloads : gmap N handoffPayload;
  domPropertyPayloadMutationRecordsPayloads : gmap N mutationPayload;
  clearContainerForRootUnmountRecordPayloads : gmap N (clearRecord Node) }.

Record world : Type := mkWorld { host : D; records : registry }.

Definition onHost {A : Type} (f : D -> effect D A) (w : world) : effect world A :=
  let '(r, d) := f (host w) in (r, mkWorld d (records w)).

Definition fresh (g : registry) : N := nextRecord g.

Definition registerMutation (p : mutationPayload) (w : world) : effect world N :=
  let g := records w in
  (Ok (fresh g),
   mkWorld (host w)
     (mkRegistry (nextRecord g + 1) (latestPropsCommitRecordPayloads g)
        (domPropertyUpdateLatestPropsHandoffPayloads g)
        (<[fresh g := p]> (domPropertyPayloadMutationRecordsPayloads g))
        (clearContainerForRootUnmountRecordPayloads g))).

Definition registerLatestProps (p : latestPropsPayload) (w : world) : effect world N :=
  let g := records w in
  (Ok (fresh g),
   mkWorld (host w)
     (mkRegistry (nextRecord g + 1) (<[fresh g := p]> (latestPropsCommitRecordPayloads g))
        (domPropertyUpdateLatestPropsHandoffPayloads g)
        (domPropertyPayloadMutationRecordsPayloads g)
        (clearContainerForRootUnmountRecordPayloads g))).

Definition registerHandoff (p : handoffPayload) (w : world) : effect world N :=
  let g := records w in
  (Ok (fresh g),
   mkWorld (host w)
     (mkRegistry (nextRecord g + 1) (latestPropsCommitRecordPayloads g)
        (<[fresh g := p]> (domPropertyUpdateLatestPropsHandoffPayloads g))
        (domPropertyPayloadMutationRecordsPayloads g)
        (clearContainerForRootUnmountRecordPayloads g))).

Definition registerClear (p : clearRecord Node) (w : world) : effect world N :=
  let g := records w in
  (Ok (fresh g),
   mkWorld (host w)
     (mkRegistry (nextRecord g + 1) (latestPropsCommitRecordPayloads g)
        (domPropertyUpdateLatestPropsHandoffPayloads g)
        (domPropertyPayloadMutationRecordsPayloads g)
        (<[fresh g := p]> (clearContainerForRootUnmountRecordPayloads g)))).

(** [getX(record)]: the payload of a record that the module made. *)
Definition lookupRecord {P : Type} (m : gmap N P) (record : option N) : option P :=
  r ← record; m !! r.

Definition getLatestPropsCommitRecordPayload (w : world) :=
  lookupRecord (latestPropsCommitRecordPayloads (records w)).
Definition getDomPropertyUpdateLatestPropsHandoffPayload (w : world) :=
  lookupRecord (domPropertyUpdateLatestPropsHandoffPayloads (records w)).
Definition getDomPropertyPayloadMutationRecordsPayload (w : world) :=
  lookupRecord (domPropertyPayloadMutationRecordsPayloads (records w)).
Definition getClearContainerForRootUnmountRecordPayload (w : world) :=
  lookupRecord (clearContainerForRootUnmountRecordPayloads (records w)).

Definition isLatestPropsCommitRecord (w : world) (record : option N) : bool :=
  isSome (getLatestPropsCommitRecordPayload w record).
Definition isDomPropertyUpdateLatestPropsHandoff (w : world) (handoff : option N) : bool :=
  isSome (getDomPropertyUpdateLatestPropsHandoffPayload w handoff).
Definition isDomPropertyPayloadMutationRecords (w : world) (rs : option N) : bool :=
  isSome (getDomPropertyPayloadMutationRecordsPayload w rs).
Definition isClearContainerForRootUnmountRecord (w : world) (record : option N) : bool :=
  isSome (getClearContainerForRootUnmountRecordPayload w record).

(** ** Entry points *)

Definition createDomPropertyPayloadMutationRecords (record : entry -> entry) (a : applied)
    : world -> effect world N :=
  let '(n, entries, rollbacks) := a in
  registerMutation (mkMutation (map record entries) n rollbacks).

(** The end of [clearContainerForRootUnmount]: its record is registered and returned. *)
Definition clearContainerForRootUnmountRecord (fuel : nat) (container : domArg Node) (w : world)
    : option (effect world N) :=
  match clearContainerForRootUnmount fuel container (host w) with
  | None => None
  | Some (r, d) =>
      Some (do* record, w := (r, mkWorld d (records w)) in registerClear record w)
  end.

Definition applyAdmittedDomPropertyPayload (instance : domArg Node) (payload : option (list item))
    (w : world) : effect world N :=
  do* a, w := onHost (applyAdmitted instance payload) w in
  createDomPropertyPayloadMutationRecords createAdmittedPropertyPayloadRecord a w.

Definition applyStyleDangerousHtmlPayload (instance : domArg Node) (payload : option (list item))
    (w : world) : effect world N :=
  do* a, w := onHost (applyStyleDangerousHtml instance payload) w in
  createDomPropertyPayloadMutationRecords id a w.

Definition commitDomPropertyUpdate (instance : domArg Node) (tag lastProps nextProps : value)
    (w : world) : effect world N :=
  do* payload, w := pureStep (diffDomPropertyPayload heap tag lastProps nextProps) w in
  applyAdmittedDomPropertyPayload instance (Some (map inr payload)) w.

Definition createLatestPropsCommitRecord (node : domArg Node) (latestProps : value)
    (payloadRecords : arrayArg) (w : world) : effect world N :=
  do* n, w := pureStep (assertDomLikeObject node Child) w in
  do* safePayloadRecords, w :=
    pureStep (normalizeLatestPropsCommitPayloadRecords payloadRecords) w in
  registerLatestProps
    (mkLatestProps (match latestProps with VUndef => VNull | _ => latestProps end) n
       safePayloadRecords) w.

(** The evidence attached to the error of a failed latest-props commit. *)
Record rollbackEvidence : Type := mkEvidence {
  ev_normalizedEntryCount : nat;
  ev_mutationAttempted : bool;
  ev_appliedMutationCount : nat;
  ev_rollbackAttempted : bool;
  ev_rollbackApplied : bool;
  ev_rollbackRecordCount : nat;
  ev_unsupportedPropertyPayloadRejected : bool;
  ev_rollbackError : option error }.

Definition rollbackRecordCount (l : list (option rollbackRecord)) : nat := length (omap id l).

Definition isUnsupportedPropertyPayloadError (e : error) : bool :=
  match e with
  | HostError c => mem c [BLOCKED_PROPERTY_PAYLOAD_ENTRY; UNSUPPORTED_PROPERTY_PAYLOAD_ENTRY]
  | _ => false
  end.

(** [isWeakMapKey(error)] *)
Definition errorIsObject (e : error) : bool :=
  match e with Thrown (VObj _) | Thrown (VFun _) => true | Thrown _ => false | _ => true end.

Definition attachLatestPropsPropertyRollbackEvidence (err : error) (entries : option (list entry))
    (rollbackApplied : bool) (rollbackError : option error) (rollbackLimit : nat)
    (rollbacks : option (list (option rollbackRecord))) : option rollbackEvidence :=
  if errorIsObject err then
    Some (mkEvidence (match entries with Some l => length l | None => 0 end)
            (0 <? rollbackLimit)%nat rollbackLimit
            (match rollbacks with Some _ => (0 <? rollbackLimit)%nat | None => false end)
            rollbackApplied
            (match rollbacks with Some l => rollbackRecordCount l | None => 0 end)
            (isUnsupportedPropertyPayloadError err) rollbackError)
  else None.

(** The [catch] of [applyDomPropertyPayloadForLatestProps]: roll back what was tried,
    attach the evidence, rethrow. *)
Definition failLatestProps (n : Node) (entries : option (list entry))
    (rollbacks : option (list (option rollbackRecord))) (rollbackLimit : nat) (err : error)
    (w : world) : (res N * option rollbackEvidence) * world :=
  match rollbacks with
  | Some l =>
      if (0 <? rollbackLimit)%nat then
        let '(r, w) :=
          onHost (rollbackLatestPropsSafeDomPropertyPayloadEntries n l rollbackLimit) w in
        (Throw err,
         match r with
         | Ok _ => attachLatestPropsPropertyRollbackEvidence err entries true None rollbackLimit rollbacks
         | Throw e =>
             attachLatestPropsPropertyRollbackEvidence err entries false (Some e) rollbackLimit rollbacks
         end, w)
      else
        (Throw err,
         attachLatestPropsPropertyRollbackEvidence err entries false None rollbackLimit rollbacks, w)
  | None =>
      (Throw err,
       attachLatestPropsPropertyRollbackEvidence err entries false None rollbackLimit rollbacks, w)
  end.

Definition createDomPropertyUpdateLatestPropsHandoff (mutationRecords : list entry)
    (latestPropsCommitRecord : N) (rollbacks : list (option rollbackRecord)) (w : world)
    : effect world N :=
  registerHandoff (mkHandoff latestPropsCommitRecord mutationRecords rollbacks) w.

Definition applyDomPropertyPayloadForLatestProps (instance : domArg Node)
    (payload : option (list item)) (latestProps : value) (w : world)
    : (res N * option rollbackEvidence) * world :=
  match (let* n := assertDomLikeObject instance Parent in
         let* l := assertPayload payload INVALID_PROPERTY_PAYLOAD in Ok (n, l)) with
  | Throw e => (Throw e, None, w)
  | Ok (n, l) =>
      match mapRes (normalizeLatestPropsSafeDomPropertyPayloadEntry (host w) n) l with
      | Throw e => failLatestProps n None None 0 e w
      | Ok entries =>
          match createLatestPropsSafeDomPropertyPayloadRollbackRecords heap (host w) n entries with
          | Throw e => failLatestProps n (Some entries) None 0 e w
          | Ok rollbacks =>
              let '(o, rollbackLimit, d) :=
                applyLoop (applyLatestPropsSafeDomPropertyPayloadEntry n) entries 0 (host w) in
              let w := mkWorld d (records w) in
              match o with
              | Throw e => failLatestProps n (Some entries) (Some rollbacks) rollbackLimit e w
              | Ok _ =>
                  match createLatestPropsCommitRecord (inr n) latestProps
                          (ArrayArg (map (inr ∘ createLatestPropsPayloadRecord) entries)) w with
                  | (Throw e, w) => failLatestProps n (Some entries) (Some rollbacks) rollbackLimit e w
                  | (Ok record, w) =>
                      let '(r, w) := createDomPropertyUpdateLatestPropsHandoff
                        (map createAdmittedPropertyPayloadRecord entries) record rollbacks w in
                      (r, None, w)
                  end
              end
          end
      end
  end.

Definition commitDomPropertyUpdateForLatestProps (instance : domArg Node)
    (tag lastProps nextProps : value) (w : world) : (res N * option rollbackEvidence) * world :=
  match diffDomPropertyPayload heap tag lastProps nextProps with
  | Throw e => (Throw e, None, w)
  | Ok payload =>
      applyDomPropertyPayloadForLatestProps instance (Some (map inr payload)) nextProps w
  end.

Definition rollbackDomPropertyUpdateLatestPropsHandoff (handoff : option N) (w : world)
    : effect world nat :=
  match getDomPropertyUpdateLatestPropsHandoffPayload w handoff with
  | None => (hostError "FAST_REACT_DOM_INVALID_LATEST_PROPS_MUTATION_HANDOFF_ROLLBACK", w)
  | Some payload =>
      match getLatestPropsCommitRecordPayload w (Some (hp_latestPropsCommitRecord payload)) with
      | None => (hostError "FAST_REACT_DOM_INVALID_LATEST_PROPS_COMMIT_ROLLBACK", w)
      | Some latest =>
          do* _, w := onHost (rollbackLatestPropsSafeDomPropertyPayloadEntries (lp_node latest)
                         (hp_rollbackRecords payload) (length (hp_rollbackRecords payload))) w in
          (Ok (rollbackRecordCount (hp_rollbackRecords payload)), w)
      end
  end.

Definition rollbackDomPropertyPayloadMutationRecords (rs : option N) (w : world)
    : effect world nat :=
  match getDomPropertyPayloadMutationRecordsPayload w rs with
  | None => (hostError "FAST_REACT_DOM_INVALID_PROPERTY_PAYLOAD_MUTATION_ROLLBACK", w)
  | Some payload =>
      do* _, w := onHost (rollbackDomPropertyPayloadEntries (mp_node payload)
                     (mp_rollbackRecords payload) (length (mp_rollbackRecords payload))) w in
      (Ok (rollbackRecordCount (mp_rollbackRecords payload)), w)
  end.
End Commit.
