(* ===== verification/DomCommitSpec.v ===== *)
(** * Correctness of payload application: admission, rollback, and the commit of a diff *)
From S2P Require Import Prelude JsValue PropertyPayload PropertyPayloadSpec DomHost DomPayload DomTree DomCommit.

Lemma require_Ok b c : require b c = Ok tt <-> b = true.
Proof. unfold require. by destruct b. Qed.

Lemma bind_require {A} b c (k : unit -> res A) x :
  bind (require b c) k = Ok x <-> b = true /\ k tt = Ok x.
Proof. unfold require. destruct b; simpl; [tauto|]. split; [done|]. by intros [? _]. Qed.

(** ** Admitted entries *)

(** What the appliers run: entries with safe names and string values. *)
Inductive normalForm : entry -> Prop :=
| nf_setAttribute p a v : isAttributeNameSafe a = true -> normalForm (createSetAttributeEntry p a v)
| nf_removeAttribute p a : isAttributeNameSafe a = true -> normalForm (createRemoveAttributeEntry p a)
| nf_setProperty p name v : isSafePayloadPropertyName (VStr name) = true ->
    isFunction v = false -> isSymbol v = false ->
    normalForm (createPropertyEntry ENTRY_SET_PROPERTY p name v)
| nf_removeProperty p name : isSafePayloadPropertyName (VStr name) = true ->
    normalForm (createPropertyEntry ENTRY_REMOVE_PROPERTY p name VNull)
| nf_style k style m v : k ∈ [ENTRY_SET_STYLE; ENTRY_REMOVE_STYLE] ->
    m ∈ ["propertyAssignment"; "setProperty"] -> (k = ENTRY_REMOVE_STYLE -> v = "") ->
    normalForm (createStylePayloadEntry k style m (VStr v))
| nf_innerHTML v : normalForm (createSetInnerHtmlEntry "dangerouslySetInnerHTML" v)
| nf_nonPayload p c r : normalForm (createNonPayloadEntry p (VStr c) (VStr r)).

Section Admission.
Context {Node D : Type} `{!EqDecision Node} `{!Host Node D} (heap : ref -> jsobject).
Implicit Types (d : D) (n : Node).

Lemma attributeName_ok e a : normalizePayloadAttributeName e = Ok a ->
  attributeName e = VStr a /\ isAttributeNameSafe a = true.
Proof.
  unfold normalizePayloadAttributeName. destruct (attributeName e); try done.
  intros [H [= <-]]%bind_require. by bools.
Qed.

Lemma propertyName_ok e p : normalizePayloadPropertyName e = Ok p ->
  propertyName e = VStr p /\ isSafePayloadPropertyName (VStr p) = true.
Proof.
  unfold normalizePayloadPropertyName. destruct (propertyName e); try done.
  by intros [H [= <-]]%bind_require.
Qed.

Lemma normalizeProperty_ok d n i e :
  normalizePropertyPayloadEntry d n i = Ok e -> normalForm e /\ isOrdinaryPropertyPayloadEntry e = true.
Proof.
  destruct i as [v|i]; [done|]. unfold normalizePropertyPayloadEntry.
  destruct (isStr _ _); [|destruct (isStr _ _); [|destruct (isStr _ _); [|destruct (isStr _ _); [|done]]]].
  - intros (_ & _ & H)%bind_Ok. apply bind_Ok in H as (a & [_ Ha]%attributeName_ok & H).
    destruct (entryValue i); try done. apply bind_Ok in H as (p & _ & [= <-]).
    split; [by constructor|done].
  - intros (_ & _ & H)%bind_Ok. apply bind_Ok in H as (a & [_ Ha]%attributeName_ok & H).
    apply bind_Ok in H as (p & _ & [= <-]). split; [by constructor|done].
  - intros (name & [_ Hn]%propertyName_ok & H)%bind_Ok. apply bind_Ok in H as (_ & _ & H).
    apply bind_require in H as [Hv H]. bools. apply bind_Ok in H as (p & _ & [= <-]).
    split; [by constructor|done].
  - intros (name & [_ Hn]%propertyName_ok & H)%bind_Ok. apply bind_Ok in H as (_ & _ & H).
    apply bind_Ok in H as (p & _ & [= <-]). split; [by constructor|done].
Qed.

Lemma validateStyle_ok d n i k e : k ∈ [ENTRY_SET_STYLE; ENTRY_REMOVE_STYLE] ->
  validateStylePayloadEntry d n i k = Ok e -> normalForm e /\ isStylePropertyPayloadEntry e = true.
Proof.
  intros Hk. unfold validateStylePayloadEntry. intros (_ & _ & H)%bind_Ok.
  destruct (styleName i) as [| | | |style| | | |]; try done. apply bind_require in H as [_ H].
  destruct (mutation i) as [| | | |m| | | |]; try done. apply bind_require in H as [Hm H].
  apply bind_Ok in H as (_ & _ & H). apply bind_require in H as [Hv [= <-]].
  assert (Hval : exists v, entryValue i = VStr v /\ (k = ENTRY_REMOVE_STYLE -> v = "")).
  { destruct (bool_decide (k = ENTRY_REMOVE_STYLE)) eqn:Hrm; bools.
    - unfold isStr in Hv. bools. exists "". auto.
    - destruct (entryValue i) as [| | | |v| | | |]; try done. by exists v. }
  destruct Hval as (v & -> & Hv'). unfold mem in Hm. bools. split; [by constructor|].
  set_solver.
Qed.

Lemma validateInnerHtml_ok d n i e :
  validateInnerHtmlPayloadEntry d n i = Ok e ->
  exists v, e = createSetInnerHtmlEntry "dangerouslySetInnerHTML" v.
Proof.
  unfold validateInnerHtmlPayloadEntry. intros [_ H]%bind_require. apply bind_require in H as [_ H].
  destruct (entryValue i); try done. injection H as <-. eauto.
Qed.

Lemma validateStyleHtml_ok d n i e :
  validateStyleDangerousHtmlPayloadEntry d n i = Ok e -> normalForm e.
Proof.
  destruct i as [v|i]; [done|]. unfold validateStyleDangerousHtmlPayloadEntry.
  destruct (isStr _ _); [intros H; eapply (validateStyle_ok d n i ENTRY_SET_STYLE); [set_solver|done]|].
  destruct (isStr _ _); [intros H; eapply (validateStyle_ok d n i ENTRY_REMOVE_STYLE); [set_solver|done]|].
  destruct (isStr _ _); [by intros [v ->]%validateInnerHtml_ok; constructor|].
  repeat case_bool; done.
Qed.

Lemma normalizeNonPayload_ok i e :
  normalizeNonPayloadPropertyPayloadEntry i = Ok e -> normalForm e.
Proof.
  unfold normalizeNonPayloadPropertyPayloadEntry.
  destruct (propName i), (category i), (reason i); try done. intros [= <-]. constructor.
Qed.

Lemma normalizeAdmitted_ok d n i e :
  normalizeAdmittedDomPropertyPayloadEntry d n i = Ok e -> normalForm e.
Proof.
  destruct i as [v|i]; [done|]. unfold normalizeAdmittedDomPropertyPayloadEntry.
  destruct (isOrdinaryPropertyPayloadEntry i); [by intros [? _]%normalizeProperty_ok|].
  destruct (isStyleDangerousHtmlPayloadEntry i); [apply validateStyleHtml_ok|].
  destruct (isNonPayloadPropertyPayloadEntry i); [apply normalizeNonPayload_ok|done].
Qed.

Lemma normalizeLatest_ok d n i e :
  normalizeLatestPropsSafeDomPropertyPayloadEntry d n i = Ok e -> normalForm e.
Proof.
  destruct i as [v|i]; [done|]. unfold normalizeLatestPropsSafeDomPropertyPayloadEntry.
  destruct (isOrdinaryPropertyPayloadEntry i); [by intros [? _]%normalizeProperty_ok|].
  destruct (isStylePropertyPayloadEntry i) eqn:Es.
  { unfold isStylePropertyPayloadEntry, isKind in Es. destruct (kind i); try done.
    unfold mem in Es. bools. intros H. by eapply validateStyle_ok. }
  destruct (isStr _ _); [by intros [v ->]%validateInnerHtml_ok; constructor|].
  destruct (isNonPayloadPropertyPayloadEntry i); [apply normalizeNonPayload_ok|done].
Qed.
End Admission.

(** Evaluate the membership tests of constant kinds. *)
Ltac eval_mem :=
  repeat match goal with
  | |- context [mem ?k ?l] => let b := eval vm_compute in (mem k l) in change (mem k l) with b
  end; cbv beta iota.

(** ** Channels *)

(** The parts of a node that a payload may write. A style property is written by
    [style.setProperty] or by assignment; [innerHTML] is a property. *)
Inductive channel : Type :=
| CAttribute (name : string)
| CProperty (name : string)
| CStyle (viaSetProperty : bool) (name : string).

#[export] Instance channel_eq_dec : EqDecision channel.
Proof. solve_decision. Defined.

(** Equal, or equal for [===]. *)
Definition sameValue (v w : value) : Prop := v = w \/ strictEq v w = true.

Section Channels.
Context {Node D : Type} `{!EqDecision Node} `{!Host Node D}.

(** Write a value to a channel with the host's operation; for an attribute, a value that is
    no string removes it. *)
Definition writeChannel (n : Node) (c : channel) (v : value) (d : D) : effect D unit :=
  match c, v with
  | CAttribute a, VStr s => callSetAttribute n a s d
  | CAttribute a, _ => callRemoveAttribute n a d
  | CProperty p, _ => writeProperty n p v d
  | CStyle true s, VStr x => callSetStyleProperty n s x d
  | CStyle false s, VStr x => writeStyle n s x d
  | CStyle _ _, _ => (Ok tt, d)
  end.

(** The documented behaviour of a host node that the theorems use, for the channels that
    are [touched]: what [look] finds in a channel is what the reading methods return
    ([VNull] is an absent attribute); writing a channel, even when it throws, leaves the
    other touched channels as they are; and writing back a value the channel held
    succeeds and restores it. Child nodes are no array, as in browsers. *)
Class ChannelHost (n : Node) (touched : channel -> Prop) (look : D -> channel -> value) : Prop := {
  ch_method d m : m ∈ ["setAttribute"; "removeAttribute"; "hasAttribute"; "getAttribute"] ->
    hasMethod d n m = true;
  ch_attribute d a : look d (CAttribute a) = VNull \/ exists s, look d (CAttribute a) = VStr s;
  ch_hasAttribute d a : callHasAttribute d n a = Ok (VBool (isString (look d (CAttribute a))));
  ch_getAttribute d a : callGetAttribute d n a = Ok (look d (CAttribute a));
  ch_innerHTML d : hasProperty d n "innerHTML" = true
    /\ exists s, look d (CProperty "innerHTML") = VStr s;
  ch_property d p : readProperty d n p = Ok (look d (CProperty p));
  ch_styleObject d : styleIsObject d n = true;
  ch_styleMethod d m : styleHasMethod d n m = true;
  ch_style d b s : exists x, look d (CStyle b s) = VStr x;
  ch_getPropertyValue d s : callGetPropertyValue d n s = Ok (look d (CStyle true s));
  ch_readStyle d s : readStyle d n s = Ok (look d (CStyle false s));
  ch_children d : childNodes d n = None;
  ch_frame c c' v d : touched c -> touched c' -> c' <> c ->
    look (snd (writeChannel n c v d)) c' = look d c';
  ch_restore c d0 d : touched c ->
    exists d', writeChannel n c (look d0 c) d = (Ok tt, d') /\ look d' c = look d0 c }.

(** The write that applying an entry performs. *)
Definition entryWrite (e : entry) : option (channel * value) :=
  match kind e with
  | VStr k =>
      if mem k [ENTRY_SET_ATTRIBUTE; ENTRY_REMOVE_ATTRIBUTE] then
        match attributeName e with
        | VStr a => Some (CAttribute a, if bool_decide (k = ENTRY_SET_ATTRIBUTE)
                                        then entryValue e else VNull)
        | _ => None
        end
      else if mem k [ENTRY_SET_PROPERTY; ENTRY_REMOVE_PROPERTY; ENTRY_SET_INNER_HTML] then
        match propertyName e with VStr p => Some (CProperty p, entryValue e) | _ => None end
      else if mem k [ENTRY_SET_STYLE; ENTRY_REMOVE_STYLE] then
        match styleName e with
        | VStr s => Some (CStyle (isStr (mutation e) "setProperty") s, entryValue e)
        | _ => None
        end
      else None
  | _ => None
  end.

Lemma normalForm_apply n e d : normalForm e ->
  applyAdmittedNormalizedPropertyPayloadEntry n e d
  = match entryWrite e with Some (c, v) => writeChannel n c v d | None => (Ok tt, d) end
  /\ applyLatestPropsSafeDomPropertyPayloadEntry n e d
     = applyAdmittedNormalizedPropertyPayloadEntry n e d.
Proof.
  destruct 1 as [| | | |k style m v Hk Hm Hv| |]; try done.
  apply elem_of_cons in Hk as [->|Hk%list_elem_of_singleton]; [|subst k];
    (apply elem_of_cons in Hm as [->|Hm%list_elem_of_singleton]; [|subst m]); done.
Qed.

Context (heap : ref -> jsobject) (n : Node) (touched : channel -> Prop) (look : D -> channel -> value)
  `{!ChannelHost n touched look}.

(** The rollback record of a channel that held a value. *)
Definition channelRecord (c : channel) (v : value) : rollbackRecord Node :=
  match c, v with
  | CAttribute a, VStr s => AttributeRollback a true (Some s)
  | CAttribute a, _ => AttributeRollback a false None
  | CProperty p, VStr s =>
      if bool_decide (p = "innerHTML") then InnerHtmlRollback None s else PropertyRollback p v
  | CProperty p, _ => PropertyRollback p v
  | CStyle b s, VStr x => StyleRollback (if b then "setProperty" else "propertyAssignment") s x
  | CStyle b s, _ => StyleRollback "" s ""
  end.

Lemma attributeSnapshot d a :
  getAttributeRollbackSnapshot heap d n a
  = Ok (match look d (CAttribute a) with VStr s => (true, Some s) | _ => (false, None) end).
Proof.
  unfold getAttributeRollbackSnapshot. rewrite !ch_method by set_solver. simpl.
  rewrite ch_hasAttribute. simpl. destruct (ch_attribute d a) as [E|[s E]]; rewrite E; [done|]. simpl.
  rewrite ch_getAttribute, E. done.
Qed.

Lemma styleSnapshot d (b : bool) s x :
  look d (CStyle b s) = VStr x ->
  getStyleRollbackSnapshot heap d n (if b then "setProperty" else "propertyAssignment") s = Ok x.
Proof.
  intros E. unfold getStyleRollbackSnapshot, assertStyleTarget. rewrite ch_styleObject. simpl.
  destruct b; simpl.
  - rewrite ch_styleMethod, ch_getPropertyValue, E. simpl. destruct (decide (x = "")) as [->|Hx]; [done|].
    by rewrite bool_decide_eq_false_2.
  - by rewrite ch_readStyle, E.
Qed.

Lemma innerHtmlSnapshot d x :
  look d (CProperty "innerHTML") = VStr x -> getInnerHtmlRollbackSnapshot heap d n = Ok x.
Proof.
  intros E. unfold getInnerHtmlRollbackSnapshot. destruct (ch_innerHTML d) as [-> _]. simpl.
  by rewrite ch_property, E.
Qed.

Lemma safe_not_innerHTML p : isSafePayloadPropertyName (VStr p) = true -> p <> "innerHTML".
Proof. intros H ->. by vm_compute in H. Qed.

Lemma createRecord_ok d e : normalForm e ->
  createDomPropertyPayloadRollbackRecord heap d n e
  = Ok ((fun w => channelRecord (fst w) (look d (fst w))) <$> entryWrite e).
Proof.
  destruct 1 as [p a v|p a|p name v Hs _ _|p name Hs|k style m v Hk Hm Hv|v|p c r].
  1-4: unfold createDomPropertyPayloadRollbackRecord; simpl.
  1-2: unfold createAttributePayloadRollbackRecord, assertAttributeRollbackTarget;
    rewrite !ch_method by set_solver; simpl; rewrite attributeSnapshot; simpl;
    by destruct (look d (CAttribute a)).
  1-2: unfold createPropertyPayloadRollbackRecord; rewrite ch_property; simpl;
    apply safe_not_innerHTML in Hs; rewrite bool_decide_eq_false_2 by done;
    by destruct (look d (CProperty name)).
  - set (b := bool_decide (m = "setProperty")).
    assert (Hb : m = (if b then "setProperty" else "propertyAssignment") /\ isStr (VStr m) "setProperty" = b).
    { unfold b, isStr. apply elem_of_cons in Hm as [->|Hm%list_elem_of_singleton]; [|subst m]; done. }
    destruct Hb as [Hmb Hb].
    assert (Hw : entryWrite (createStylePayloadEntry k style m (VStr v)) = Some (CStyle b style, VStr v)).
    { unfold entryWrite. simpl. rewrite Hb.
      apply elem_of_cons in Hk as [->|Hk%list_elem_of_singleton]; [|subst k]; done. }
    rewrite Hw. unfold createDomPropertyPayloadRollbackRecord. simpl.
    destruct (ch_style d b style) as [x Hx].
    assert (Hkind : isKind (createStylePayloadEntry k style m (VStr v))
        [ENTRY_SET_ATTRIBUTE; ENTRY_REMOVE_ATTRIBUTE] = false
      /\ isKind (createStylePayloadEntry k style m (VStr v))
        [ENTRY_SET_PROPERTY; ENTRY_REMOVE_PROPERTY] = false
      /\ isKind (createStylePayloadEntry k style m (VStr v))
        [ENTRY_SET_STYLE; ENTRY_REMOVE_STYLE] = true).
    { apply elem_of_cons in Hk as [->|Hk%list_elem_of_singleton]; [|subst k]; done. }
    destruct Hkind as (-> & -> & ->). unfold createStylePayloadRollbackRecord. rewrite Hmb.
    rewrite (styleSnapshot d b style x Hx), Hx. done.
  - unfold createDomPropertyPayloadRollbackRecord. simpl.
    unfold createInnerHtmlPayloadRollbackRecord. destruct (ch_innerHTML d) as [_ [x Hx]].
    rewrite (innerHtmlSnapshot d x Hx), ch_children, Hx. done.
  - done.
Qed.

Lemma channelRecord_innerHTML d0 : exists s, look d0 (CProperty "innerHTML") = VStr s
  /\ channelRecord (CProperty "innerHTML") (look d0 (CProperty "innerHTML")) = InnerHtmlRollback None s.
Proof. destruct (ch_innerHTML d0) as [_ [s Hs]]. exists s. by rewrite Hs. Qed.

Lemma restore_step c d0 d : touched c ->
  exists d', writeChannel n c (look d0 c) d = (Ok tt, d') /\ sameValue (look d' c) (look d0 c)
    /\ forall c', touched c' -> c' <> c -> look d' c' = look d c'.
Proof.
  intros Hc. destruct (ch_restore c d0 d Hc) as (d' & Hw & Hl). exists d'. split; [done|].
  split; [by left|]. intros c' Hc' Hne. pose proof (ch_frame c c' (look d0 c) d Hc Hc' Hne) as H.
  by rewrite Hw in H.
Qed.

Lemma restore_skip c d0 d : sameValue (look d c) (look d0 c) ->
  exists d', (Ok tt, d) = (Ok tt : res unit, d') /\ sameValue (look d' c) (look d0 c)
    /\ forall c', touched c' -> c' <> c -> look d' c' = look d c'.
Proof. intros H. exists d. auto. Qed.

(** Applying the rollback record of a channel restores it and touches nothing else. *)
Lemma applyRecord_ok c d0 d : touched c ->
  exists d', applyDomPropertyPayloadRollbackRecord heap n (channelRecord c (look d0 c)) d = (Ok tt, d')
    /\ sameValue (look d' c) (look d0 c)
    /\ forall c', touched c' -> c' <> c -> look d' c' = look d c'.
Proof.
  intros Hc. pose proof (restore_step c d0 d Hc) as Hstep. pose proof (restore_skip c d0 d) as Hskip.
  destruct c as [a|p|b s].
  - unfold writeChannel in Hstep.
    destruct (ch_attribute d0 a) as [E0|[x E0]]; rewrite E0 in *; simpl;
      unfold unless, attributeRollbackRecordMatchesCurrentValue; rewrite attributeSnapshot; simpl;
      case_bool_decide as Hm; auto; destruct (ch_attribute d a) as [E|[y E]]; rewrite E in Hm;
      simplify_eq; apply Hskip; left; congruence.
  - assert (Hcase : p = "innerHTML" \/ channelRecord (CProperty p) (look d0 (CProperty p))
        = PropertyRollback p (look d0 (CProperty p))).
    { destruct (decide (p = "innerHTML")); [by left|right]. simpl.
      destruct (look d0 (CProperty p)); try done. by rewrite bool_decide_eq_false_2. }
    unfold writeChannel in Hstep. destruct Hcase as [-> | ->].
    + destruct (channelRecord_innerHTML d0) as (x & Hx & ->). rewrite Hx in *. simpl.
      unfold unless, innerHtmlRollbackRecordMatchesCurrentValue.
      destruct (ch_innerHTML d) as [_ [y Hy]]. rewrite (innerHtmlSnapshot d y Hy). simpl.
      case_bool_decide as Hm; simpl.
      * apply Hskip. left. congruence.
      * unfold applyInnerHtmlRollbackRecord. rewrite (innerHtmlSnapshot d y Hy). simpl.
        rewrite bool_decide_eq_false_2 by done. destruct Hstep as (d' & -> & H). simpl. eauto.
    + simpl. unfold unless. rewrite ch_property. simpl.
      destruct (strictEq (look d (CProperty p)) (look d0 (CProperty p))) eqn:E; [|done].
      apply Hskip. by right.
  - destruct (ch_style d0 b s) as [x Hx]. rewrite Hx in *. simpl.
    destruct (ch_style d b s) as [y Hy].
    unfold unless, styleRollbackRecordMatchesCurrentValue.
    rewrite (styleSnapshot d b s y Hy). simpl. case_bool_decide as Hm; [apply Hskip; left; congruence|].
    unfold applyStyleRollbackRecord, assertStyleTarget, assertStyleSetPropertyTarget.
    rewrite ch_styleObject. destruct b; simpl; [rewrite ch_styleMethod|]; exact Hstep.
Qed.

Definition recordOf (d0 : D) (w : channel * value) : rollbackRecord Node :=
  channelRecord (fst w) (look d0 (fst w)).

(** Rolling back a list of writes restores the channels written, whatever the state, and
    touches no other. *)
Lemma rollbackLoop_ok d0 (ws : list (option (channel * value))) d :
  Forall (fun w => match w with Some w => touched (fst w) | None => True end) ws ->
  exists d', rollbackLoop heap n (map (fmap (recordOf d0)) ws) None d = (Ok tt, d')
    /\ forall c, touched c ->
        (Forall (fun w => fst <$> w <> Some c) ws -> look d' c = look d c)
        /\ (sameValue (look d' c) (look d0 c) \/ Forall (fun w => fst <$> w <> Some c) ws).
Proof.
  intros Hws. revert d. induction Hws as [|w ws Hw _ IH]; intros d; simpl.
  - exists d. split; [done|]. intros c _. split; [done|]. by right.
  - destruct w as [w|]; simpl.
    + destruct (applyRecord_ok (fst w) d0 d Hw) as (d1 & H1 & H2 & H3).
      unfold recordOf at 1. rewrite H1.
      destruct (IH d1) as (d' & -> & Hd'). exists d'. split; [done|]. intros c Hc.
      destruct (Hd' c Hc) as [Hn Hs]. split.
      * intros [Hne Hall]%Forall_cons. rewrite (Hn Hall). apply H3; [done|]. by intros ->.
      * destruct Hs as [?|Hall]; [by left|]. destruct (decide (c = fst w)) as [->|Hne].
        -- left. by rewrite (Hn Hall).
        -- right. constructor; [by intros [= ?]|done].
    + destruct (IH d) as (d' & -> & Hd'). exists d'. split; [done|]. intros c Hc.
      destruct (Hd' c Hc) as [Hn Hs]. split; [by intros [_ ?]%Forall_cons; auto|].
      destruct Hs; [by left|right]. by constructor.
Qed.

(** The loop that applies entries changes only the channels of the entries it tried. *)
Lemma applyLoop_frame (apply : entry -> D -> effect D unit) entries k d o limit d' :
  (forall e d, e ∈ entries -> apply e d
     = match entryWrite e with Some (c, v) => writeChannel n c v d | None => (Ok tt, d) end) ->
  Forall (fun e => match entryWrite e with Some w => touched (fst w) | None => True end) entries ->
  applyLoop apply entries k d = (o, limit, d') ->
  k <= limit /\ (o = Ok tt -> limit = k + length entries) /\
  forall c, touched c ->
    Forall (fun e => fst <$> entryWrite e <> Some c) (take (limit - k) entries) ->
    look d' c = look d c.
Proof.
  intros Happly Ht. revert k d. induction Ht as [|e entries He _ IH]; intros k d; simpl.
  - intros [= <- <- <-]. auto with lia.
  - rewrite (Happly e d) by by left.
    assert (Hframe : forall c, touched c -> fst <$> entryWrite e <> Some c ->
      look (snd (match entryWrite e with
                 | Some (c, v) => writeChannel n c v d | None => (Ok tt, d) end)) c = look d c).
    { intros c Hc Hne. destruct (entryWrite e) as [[c' v]|]; [|done]. simpl in *.
      apply ch_frame; [done|done|]. by intros ->. }
    destruct (match entryWrite e with Some (c, v) => _ | None => _ end) as [[[]|err] d1].
    + intros H. apply IH in H as (H1 & H2 & H3); [|intros; apply Happly; by right].
      split; [lia|]. split; [intros Ho; rewrite (H2 Ho); simpl; lia|]. intros c Hc Hall.
      replace (limit - k) with (S (limit - S k)) in Hall by lia. simpl in Hall.
      apply Forall_cons in Hall as [Hne Hall]. rewrite H3 by done. by apply Hframe.
    + intros [= <- <- <-]. split; [lia|]. split; [done|]. intros c Hc Hall.
      replace (S k - k) with 1 in Hall by lia. simpl in Hall.
      apply Forall_cons in Hall as [Hne _]. by apply Hframe.
Qed.
End Channels.

(** ** Transactions *)

Section Transactions.
Context {Node D : Type} `{!EqDecision Node} `{!Host Node D} (heap : ref -> jsobject).
Context (n : Node) (touched : channel -> Prop) (look : D -> channel -> value)
  `{!ChannelHost n touched look}.

Definition covered (entries : list entry) : Prop :=
  Forall (fun e => match entryWrite e with Some w => touched (fst w) | None => True end) entries.

(** Every touched channel is as it was. *)
Definition restored (d d' : D) : Prop := forall c, touched c -> sameValue (look d' c) (look d c).

Lemma restored_refl d : restored d d.
Proof. intros c _. by left. Qed.

Lemma createRecords_ok d entries : Forall normalForm entries ->
  createDomPropertyPayloadRollbackRecords heap d n entries
  = Ok (map (fmap (recordOf look d)) (map entryWrite entries)).
Proof.
  unfold createDomPropertyPayloadRollbackRecords. induction 1 as [|e entries He _ IH]; simpl; [done|].
  rewrite (createRecord_ok heap n touched look d e He), IH. done.
Qed.

(** Undoing the first entries of a payload, of which at most those were applied. *)
Lemma rollback_ok d0 d entries limit :
  covered entries ->
  (forall c, touched c -> Forall (fun e => fst <$> entryWrite e <> Some c) (take limit entries) ->
     look d c = look d0 c) ->
  exists d', rollbackDomPropertyPayloadEntries heap n
      (map (fmap (recordOf look d0)) (map entryWrite entries)) limit d = (Ok tt, d')
    /\ restored d0 d'.
Proof.
  intros Hcov Hd. unfold rollbackDomPropertyPayloadEntries.
  assert (Hin : forall e, e ∈ rev (take limit entries) <-> e ∈ take limit entries).
  { intros e. rewrite !list_elem_of_In. symmetry. apply List.in_rev. }
  rewrite !List.firstn_map, <- !List.map_rev.
  destruct (rollbackLoop_ok heap n touched look d0 (map entryWrite (rev (take limit entries))) d)
    as (d' & Hr & Hl).
  - apply Forall_map, Forall_forall. intros e He%Hin. unfold covered in Hcov.
    rewrite Forall_forall in Hcov. apply Hcov.
    apply elem_of_take in He as (i & He & _). by eapply list_elem_of_lookup_2.
  - exists d'. split; [exact Hr|]. intros c Hc. destruct (Hl c Hc) as [E [H|Hn]]; [done|].
    left. rewrite (E Hn). apply Hd; [done|]. rewrite Forall_forall in Hn. apply Forall_forall.
    intros e He. apply (Hn (entryWrite e)), (list_elem_of_fmap_2 entryWrite). by apply Hin.
Qed.

(** What a transaction over normalised entries does: all are applied, or those that were
    are rolled back. *)
Definition transactionDone (apply : entry -> D -> effect D unit) (entries : list entry) (d : D)
    (r : res (applied (Node := Node))) (d' : D) : Prop :=
  match r with
  | Ok a => a = (n, entries, map (fmap (recordOf look d)) (map entryWrite entries))
            /\ applyLoop apply entries 0 d = (Ok tt, length entries, d')
  | Throw err => restored d d' /\ exists limit d1, applyLoop apply entries 0 d = (Throw err, limit, d1)
  end.

Section Transaction.
Context (normalize : D -> Node -> item -> res entry) (apply : Node -> entry -> D -> effect D unit)
  (code : string).
Context (Hnorm : forall d i e, normalize d n i = Ok e -> normalForm e)
  (Happly : forall d e, normalForm e -> apply n e d
     = match entryWrite e with Some (c, v) => writeChannel n c v d | None => (Ok tt, d) end).

Lemma normalize_normalForm d l entries : mapRes (normalize d n) l = Ok entries -> Forall normalForm entries.
Proof. intros Hf%mapRes_Ok. clear -Hf Hnorm. induction Hf; constructor; eauto. Qed.

Lemma apply_writes entries : Forall normalForm entries ->
  forall e d, e ∈ entries -> apply n e d
    = match entryWrite e with Some (c, v) => writeChannel n c v d | None => (Ok tt, d) end.
Proof. intros Hnf e d He. apply Happly. rewrite Forall_forall in Hnf. by apply Hnf. Qed.

Lemma applyTransaction_run l entries d r d' :
  mapRes (normalize d n) l = Ok entries -> covered entries ->
  applyTransaction heap normalize apply code (inr n) (Some l) d = (r, d') ->
  transactionDone (apply n) entries d r d'.
Proof.
  intros Hl Hcov. pose proof (normalize_normalForm d l entries Hl) as Hnf.
  unfold applyTransaction, assertPayload. simpl. rewrite Hl. simpl.
  rewrite (createRecords_ok d entries Hnf). simpl. unfold applyWithRollback.
  destruct (applyLoop (apply n) entries 0 d) as [[o limit] d1] eqn:Eloop.
  destruct (applyLoop_frame n touched look (apply n) entries 0 d o limit d1
    (apply_writes entries Hnf) Hcov Eloop) as (_ & Hlim & Hframe). rewrite Nat.sub_0_r in Hframe.
  destruct o as [[]|err]; simpl.
  - intros [= <- <-]. split; [done|]. by rewrite Eloop, (Hlim eq_refl).
  - destruct (rollback_ok d d1 entries limit Hcov Hframe) as (d2 & Hrb & Hrs).
    rewrite Hrb. simpl. intros [= <- <-]. split; [done|]. eauto.
Qed.

Lemma applyTransaction_cases payload d r d' :
  applyTransaction heap normalize apply code (inr n) payload d = (r, d') ->
  (forall l entries, payload = Some l -> mapRes (normalize d n) l = Ok entries -> covered entries) ->
  (exists e, r = Throw e /\ d' = d)
  \/ exists l entries, payload = Some l /\ mapRes (normalize d n) l = Ok entries
      /\ Forall normalForm entries /\ covered entries /\ transactionDone (apply n) entries d r d'.
Proof.
  destruct payload as [l|]; [|intros [= <- <-] _; eauto]. intros H Hcov.
  destruct (mapRes (normalize d n) l) as [entries|e] eqn:Hl.
  - right. exists l, entries. specialize (Hcov l entries eq_refl Hl).
    split_and!; [done|done|by eapply normalize_normalForm|done|by eapply applyTransaction_run].
  - left. unfold applyTransaction, assertPayload in H. simpl in H. rewrite Hl in H.
    injection H as <- <-. eauto.
Qed.
End Transaction.

Lemma admitted_normal d i e :
  normalizeAdmittedDomPropertyPayloadEntry d n i = Ok e -> normalForm e.
Proof. apply normalizeAdmitted_ok. Qed.
Lemma admitted_apply d e : normalForm e -> applyAdmittedNormalizedPropertyPayloadEntry n e d
  = match entryWrite e with Some (c, v) => writeChannel n c v d | None => (Ok tt, d) end.
Proof. intros He. by apply normalForm_apply. Qed.
Lemma latest_normal d i e :
  normalizeLatestPropsSafeDomPropertyPayloadEntry d n i = Ok e -> normalForm e.
Proof. apply normalizeLatest_ok. Qed.
Lemma latest_apply d e : normalForm e -> applyLatestPropsSafeDomPropertyPayloadEntry n e d
  = match entryWrite e with Some (c, v) => writeChannel n c v d | None => (Ok tt, d) end.
Proof. intros He. destruct (normalForm_apply n e d He) as [<- ->]. done. Qed.

Lemma applyAdmitted_cases payload d r d' :
  applyAdmitted heap (inr n) payload d = (r, d') ->
  (forall l entries, payload = Some l ->
     mapRes (normalizeAdmittedDomPropertyPayloadEntry d n) l = Ok entries -> covered entries) ->
  (exists e, r = Throw e /\ d' = d)
  \/ exists l entries, payload = Some l
      /\ mapRes (normalizeAdmittedDomPropertyPayloadEntry d n) l = Ok entries
      /\ Forall normalForm entries /\ covered entries
      /\ transactionDone (applyAdmittedNormalizedPropertyPayloadEntry n) entries d r d'.
Proof. apply applyTransaction_cases; [apply admitted_normal|apply admitted_apply]. Qed.

(** Rolling back all the records of a payload, in whatever state the host is by then. *)
Lemma undo_ok d0 entries d : covered entries ->
  exists d', rollbackDomPropertyPayloadEntries heap n
      (map (fmap (recordOf look d0)) (map entryWrite entries))
      (length (map (fmap (recordOf (Node := Node) look d0)) (map entryWrite entries))) d = (Ok tt, d')
    /\ (forall c v e, e ∈ entries -> entryWrite e = Some (c, v) -> sameValue (look d' c) (look d0 c))
    /\ (forall c, touched c -> Forall (fun e => fst <$> entryWrite e <> Some c) entries ->
         look d' c = look d c).
Proof.
  intros Hc. unfold rollbackDomPropertyPayloadEntries. rewrite firstn_all, <- !List.map_rev.
  assert (Hin : forall e, e ∈ rev entries <-> e ∈ entries).
  { intros e. rewrite !list_elem_of_In. symmetry. apply List.in_rev. }
  unfold covered in Hc. rewrite Forall_forall in Hc.
  destruct (rollbackLoop_ok heap n touched look d0 (map entryWrite (rev entries)) d) as (d' & Hr & Hl).
  { apply Forall_map, Forall_forall. intros e He%Hin. by apply Hc. }
  exists d'. split; [exact Hr|]. split.
  - intros c v e He Hw. pose proof (Hc e He) as Ht. rewrite Hw in Ht.
    destruct (Hl c Ht) as [_ [?|Hn]]; [done|]. rewrite Forall_forall in Hn.
    destruct (Hn (entryWrite e)); [|by rewrite Hw]. by apply (list_elem_of_fmap_2 entryWrite), Hin.
  - intros c Ht Hn. destruct (Hl c Ht) as [E0 _]. apply E0. rewrite Forall_forall in Hn.
    apply Forall_forall. intros x Hx. apply (list_elem_of_fmap entryWrite) in Hx as (e & -> & He).
    by apply Hn, Hin.
Qed.

Lemma recordCount_ok d0 entries :
  rollbackRecordCount (map (fmap (recordOf (Node := Node) look d0)) (map entryWrite entries))
  = length (omap entryWrite entries).
Proof.
  unfold rollbackRecordCount. induction entries as [|e es IH]; [done|].
  cbn [map]. destruct (entryWrite e) eqn:E; cbn; rewrite E; cbn; by rewrite IH.
Qed.

(** ** Payloads of a diff *)

(** No prop of the payload was taken for a reserved one because [Object.prototype] has a
    property of its name. *)
Definition noInherited (es : list entry) : Prop :=
  forall e, e ∈ es -> isKind e [ENTRY_NON_PAYLOAD] = true -> isString (category e) = true.

Lemma unsupported_kind e : isUnsupported e = true -> kind e = VStr ENTRY_UNSUPPORTED.
Proof.
  unfold isUnsupported, isKind. destruct (kind e); try done. unfold mem. intros. bools. set_solver.
Qed.

Lemma safe_admitted tag next e d :
  safeEntry tag next e -> isUnsupported e = false ->
  (isKind e [ENTRY_NON_PAYLOAD] = true -> isString (category e) = true) ->
  normalizeAdmittedDomPropertyPayloadEntry d n (inr e) = Ok e.
Proof.
  intros Hs Hu Hi.
  assert (Hp : forall prop a k, ordinaryAttribute tag prop = Some (a, k) -> isAttributeNameSafe a = true ->
    prop <> "" /\ a <> "").
  { intros prop a k Ho Ha. split; [|by intros ->]. intros ->. revert Ho.
    unfold ordinaryAttribute. destruct (readTable _ _), (isControlledFormProp tag "") as [[]|]; try done.
    destruct (_ || _); done. }
  destruct Hs as [prop a k v Ho Ha _|prop a k Ho Ha _|style v _|style _|v o ch _ _ _|prop c r|prop _|e Hu'].
  - destruct (Hp _ _ _ Ho Ha) as [H1 H2].
    unfold normalizeAdmittedDomPropertyPayloadEntry, normalizePropertyPayloadEntry,
      normalizeSetAttributePayloadEntry, assertAttributePayloadTarget, normalizePayloadAttributeName,
      normalizePayloadPropName. cbn -[isAttributeNameSafe].
    rewrite ch_method by set_solver. cbn -[isAttributeNameSafe]. rewrite Ha.
    by rewrite !bool_decide_eq_false_2.
  - destruct (Hp _ _ _ Ho Ha) as [H1 H2].
    unfold normalizeAdmittedDomPropertyPayloadEntry, normalizePropertyPayloadEntry,
      normalizeRemoveAttributePayloadEntry, assertAttributePayloadTarget, normalizePayloadAttributeName,
      normalizePayloadPropName. cbn -[isAttributeNameSafe].
    rewrite ch_method by set_solver. cbn -[isAttributeNameSafe]. rewrite Ha.
    by rewrite !bool_decide_eq_false_2.
  - unfold normalizeAdmittedDomPropertyPayloadEntry, validateStyleDangerousHtmlPayloadEntry,
      validateStylePayloadEntry, assertStyleTarget, assertStyleSetPropertyTarget, createSetStyleEntry,
      getStyleMutationTarget. cbn. rewrite ch_styleObject, ch_styleMethod.
    by destruct (isCustomStyleProperty style).
  - unfold normalizeAdmittedDomPropertyPayloadEntry, validateStyleDangerousHtmlPayloadEntry,
      validateStylePayloadEntry, assertStyleTarget, assertStyleSetPropertyTarget, createRemoveStyleEntry,
      getStyleMutationTarget. cbn. rewrite ch_styleObject, ch_styleMethod.
    by destruct (isCustomStyleProperty style).
  - unfold normalizeAdmittedDomPropertyPayloadEntry, validateStyleDangerousHtmlPayloadEntry,
      validateInnerHtmlPayloadEntry. cbn. by destruct (ch_innerHTML d) as [-> _].
  - done.
  - by specialize (Hi eq_refl).
  - congruence.
Qed.

Lemma diff_admitted tag last next q es d :
  normalizeProps heap next "nextProps" = Ok q -> diffDomPropertyPayload heap tag last next = Ok es ->
  supported es -> noInherited es ->
  mapRes (normalizeAdmittedDomPropertyPayloadEntry d n) (map inr es) = Ok es.
Proof.
  intros Hq Hes Hsup Hinh.
  assert (H : forall l, l ⊆ es -> mapRes (normalizeAdmittedDomPropertyPayloadEntry d n) (map inr l) = Ok l).
  { induction l as [|e l IH]; intros Hsub; [done|]. cbn [map mapRes].
    assert (He : e ∈ es) by set_solver. unfold supported in Hsup. rewrite Forall_forall in Hsup.
    rewrite (safe_admitted tag q e d); [|by eapply diff_safe|by apply Hsup|by apply Hinh].
    cbn [bind]. rewrite IH; [done|]. set_solver. }
  by apply H.
Qed.

(** The last value written to a channel. *)
Definition lastWrite (c : channel) (es : list entry) (v : value) : value :=
  foldl (fun v e => match entryWrite e with
                    | Some (c', v') => if bool_decide (c' = c) then v' else v
                    | None => v
                    end) v es.

(** What a write of an admitted entry may be. *)
Definition safeWrite (w : channel * value) : Prop :=
  match w with
  | (CAttribute a, v) => isAttributeNameSafe a = true /\ (v = VNull \/ exists s, v = VStr s)
  | (CProperty p, v) =>
      (p = "innerHTML" /\ exists s, v = VStr s)
      \/ (isSafePayloadPropertyName (VStr p) = true /\ isFunction v = false /\ isSymbol v = false)
  | (CStyle _ _, v) => exists s, v = VStr s
  end.

Lemma normalForm_safe e w : normalForm e -> entryWrite e = Some w -> safeWrite w.
Proof.
  destruct 1 as [p a v H|p a H|p name v H H1 H2|p name H|k style m v Hk Hm Hv|v|p c r].
  7: done.
  5: { apply elem_of_cons in Hk as [->|Hk%list_elem_of_singleton]; [|subst k];
       intros [= <-]; by exists v. }
  - intros [= <-]. split; [done|]. right. by exists v.
  - intros [= <-]. split; [done|]. by left.
  - intros [= <-]. right. by split.
  - intros [= <-]. right. by split.
  - intros [= <-]. left. split; [done|]. by exists v.
Qed.

(** The writes to attributes and styles of an admitted entry. *)
Definition storable (c : channel) (v : value) : Prop :=
  match c, v with
  | CAttribute _, (VStr _ | VNull) | CStyle _ _, VStr _ => True
  | _, _ => False
  end.

Lemma safeWrite_storable c v : safeWrite (c, v) ->
  match c with CProperty _ => False | _ => True end -> storable c v.
Proof. destruct c; simpl; [|done|]; [intros [_ [->|[s ->]]]|intros [s ->]]; done. Qed.

(** A host whose writes, when they return, store the given string, or the absence of an
    attribute. *)
Definition storing : Prop := forall c v d d', touched c -> storable c v ->
  writeChannel n c v d = (Ok tt, d') -> look d' c = v.

Lemma applyLoop_store (apply : entry -> D -> effect D unit) entries k d limit d' c :
  storing ->
  (forall e d, e ∈ entries -> apply e d
     = match entryWrite e with Some (c, v) => writeChannel n c v d | None => (Ok tt, d) end) ->
  Forall normalForm entries -> covered entries ->
  touched c -> match c with CProperty _ => False | _ => True end ->
  applyLoop apply entries k d = (Ok tt, limit, d') ->
  look d' c = lastWrite c entries (look d c).
Proof.
  intros Hst Happly Hnf Hcov Hc Hnp. unfold lastWrite. revert k d.
  induction entries as [|e entries IH]; intros k d; simpl; [by intros [= _ <-]|].
  apply Forall_cons in Hcov as [He Hcov]. apply Forall_cons in Hnf as [Hnfe Hnf].
  rewrite (Happly e d) by by left.
  assert (IH' := fun k d => IH (fun e d He => Happly e d (list_elem_of_further _ _ _ He)) Hnf Hcov k d).
  pose proof (fun w => normalForm_safe e w Hnfe) as Hsafe.
  destruct (entryWrite e) as [[c' v]|]; [|apply IH'].
  destruct (writeChannel n c' v d) as [[[]|err] d1] eqn:E; [|done]. intros H%IH'. rewrite H.
  case_bool_decide as Hcc.
  - subst c'. rewrite (Hst c v d d1); [done|done| |done]. apply safeWrite_storable; [by apply Hsafe|done].
  - pose proof (ch_frame c' c v d He Hc (not_eq_sym Hcc)) as Hf. rewrite E in Hf. simpl in Hf.
    by rewrite Hf.
Qed.

Definition attributeCell (w : option string) : value := match w with Some s => VStr s | None => VNull end.
Definition styleCell (w : option string) : value := VStr (default "" w).

(** Patching a map is writing channels. *)
Lemma lastWrite_attributes tag next es m a :
  Forall (safeEntry tag next) es -> supported es ->
  lastWrite (CAttribute a) es (attributeCell (m !! a)) = attributeCell (patch attributeWrite es m !! a).
Proof.
  intros Hs Hsup. revert m. unfold lastWrite, patch.
  induction Hs as [|e es He _ IH]; intros m; [done|]. simpl.
  apply Forall_cons in Hsup as [Hu Hsup]. rewrite <- (IH Hsup). f_equal.
  rewrite patchEntry_lookup.
  destruct He as [p b k v _ _ _|p b k _ _ _|style v _|style _|v o ch _ _ _|p c r|p _|e Hu'];
    try (by rewrite Hu' in Hu); try done; unfold entryWrite; cbn; eval_mem;
    repeat case_bool_decide; try congruence; simplify_eq; done.
Qed.

Lemma mutationTarget style :
  isStr (VStr (getStyleMutationTarget style)) "setProperty" = isCustomStyleProperty style.
Proof. unfold getStyleMutationTarget. by destruct (isCustomStyleProperty style). Qed.

Lemma lastWrite_styles tag next es m style :
  Forall (safeEntry tag next) es -> supported es ->
  lastWrite (CStyle (isCustomStyleProperty style) style) es (styleCell (m !! style))
  = styleCell (patch styleWrite es m !! style).
Proof.
  intros Hs Hsup. revert m. unfold lastWrite, patch.
  induction Hs as [|e es He _ IH]; intros m; [done|]. simpl.
  apply Forall_cons in Hsup as [Hu Hsup]. rewrite <- (IH Hsup). f_equal.
  rewrite patchEntry_lookup.
  destruct He as [p b k v _ _ _|p b k _ _ _|s v _|s _|v o ch _ _ _|p c r|p _|e Hu'];
    try (by rewrite Hu' in Hu); try done; unfold entryWrite; cbn -[isStr];
    eval_mem; rewrite ?mutationTarget; repeat case_bool_decide; simplify_eq; try done; congruence.
Qed.

(** ** Properties *)

(** Every entry that the payload is normalised to writes touched channels only. *)
Definition coversPayload (normalize : D -> Node -> item -> res entry) (d : D)
    (payload : option (list item)) : Prop :=
  forall l entries, payload = Some l -> mapRes (normalize d n) l = Ok entries -> covered entries.

(** C3: a commit that fails changes nothing. When [applyAdmittedDomPropertyPayload]
    throws, on a payload from wherever, every touched channel of the node has the value it
    had before and no record is registered; and either the host was not touched at all, or
    the error thrown is the one that the host threw for one of the entries (an error of the
    rollback never replaces it). *)
Theorem failed_commit_restores payload w e w' :
  coversPayload normalizeAdmittedDomPropertyPayloadEntry (host w) payload ->
  applyAdmittedDomPropertyPayload heap (inr n) payload w = (Throw e, w') ->
  restored (host w) (host w') /\ records w' = records w
  /\ (host w' = host w \/ exists entries limit d1,
       applyLoop (applyAdmittedNormalizedPropertyPayloadEntry n) entries 0 (host w)
       = (Throw e, limit, d1)).
Proof.
  intros Hcov. unfold applyAdmittedDomPropertyPayload, onHost.
  destruct (applyAdmitted heap (inr n) payload (host w)) as [r d'] eqn:E. simpl.
  destruct (applyAdmitted_cases _ _ _ _ E Hcov) as [(e0 & -> & ->)|(l & entries & _ & _ & _ & _ & H)].
  - simpl. intros [= <- <-]. split; [apply restored_refl|]. auto.
  - destruct r as [a|err].
    + destruct a as [[n' es] rs]. simpl. unfold registerMutation. by intros.
    + destruct H as (Hr & limit & d1 & Hl). simpl. intros [= <- <-]. simpl. split; [done|].
      split; [done|]. right. eauto.
Qed.

(** C20: a committed payload can be undone, at any later time. The records that
    [applyAdmittedDomPropertyPayload] returns are registered, and rolling them back in any
    world that still has them succeeds, returns the number of entries that write, restores
    every channel the entries wrote to its value before the commit, and leaves the other
    touched channels and the registry alone. A value that is no such record is rejected
    without effect. *)
Theorem rollback_roundtrip payload w r w1 :
  coversPayload normalizeAdmittedDomPropertyPayloadEntry (host w) payload ->
  applyAdmittedDomPropertyPayload heap (inr n) payload w = (Ok r, w1) ->
  exists entries, Forall normalForm entries /\
  forall w2, getDomPropertyPayloadMutationRecordsPayload w2 (Some r)
             = getDomPropertyPayloadMutationRecordsPayload w1 (Some r) ->
  exists w3,
    rollbackDomPropertyPayloadMutationRecords heap (Some r) w2
    = (Ok (length (omap entryWrite entries)), w3)
    /\ records w3 = records w2
    /\ (forall c v e, e ∈ entries -> entryWrite e = Some (c, v) ->
         sameValue (look (host w3) c) (look (host w) c))
    /\ (forall c, touched c -> Forall (fun e => fst <$> entryWrite e <> Some c) entries ->
         look (host w3) c = look (host w2) c).
Proof.
  intros Hcov. unfold applyAdmittedDomPropertyPayload, onHost.
  destruct (applyAdmitted heap (inr n) payload (host w)) as [o d'] eqn:E. simpl.
  destruct (applyAdmitted_cases _ _ _ _ E Hcov) as [(e0 & -> & ->)|(l & entries & _ & _ & Hnf & Hc & H)];
    [done|]. destruct o as [a|err]; [|done]. destruct H as [-> _]. simpl.
  unfold registerMutation. intros [= <- <-]. exists entries. split; [done|]. intros w2.
  unfold getDomPropertyPayloadMutationRecordsPayload, lookupRecord. simpl.
  rewrite lookup_insert_eq. intros Hw2. unfold rollbackDomPropertyPayloadMutationRecords,
    getDomPropertyPayloadMutationRecordsPayload, lookupRecord. simpl in *. rewrite Hw2. simpl.
  unfold onHost. destruct (undo_ok (host w) entries (host w2) Hc) as (d3 & -> & H1 & H2).
  simpl. eexists. split; [by rewrite recordCount_ok|]. by split_and!.
Qed.
(** A diff without unsupported entries is normalised to itself and run. *)
Lemma commit_run tag last next q es w :
  normalizeProps heap next "nextProps" = Ok q -> diffDomPropertyPayload heap tag last next = Ok es ->
  supported es -> noInherited es -> covered es ->
  exists r d', transactionDone (applyAdmittedNormalizedPropertyPayloadEntry n) es (host w) r d'
    /\ commitDomPropertyUpdate heap (inr n) tag last next w
       = (do* a, w := (r, mkWorld d' (records w)) in
          createDomPropertyPayloadMutationRecords createAdmittedPropertyPayloadRecord a w).
Proof.
  intros Hq Hes Hsup Hinh Hcov.
  destruct (applyAdmitted heap (inr n) (Some (map inr es)) (host w)) as [r d'] eqn:E.
  exists r, d'. split.
  - refine (applyTransaction_run _ _ INVALID_PROPERTY_PAYLOAD admitted_normal admitted_apply _ _ _ _ _ _ Hcov E).
    exact (diff_admitted tag last next q es (host w) Hq Hes Hsup Hinh).
  - unfold commitDomPropertyUpdate. rewrite Hes. cbn -[applyAdmittedDomPropertyPayload].
    unfold applyAdmittedDomPropertyPayload, onHost. by rewrite E.
Qed.

(** The touched attributes and styles of the node are those that a payload renders. *)
Definition rendered (es : list entry) (d : D) : Prop :=
  (forall a, touched (CAttribute a) ->
     look d (CAttribute a) = attributeCell (patch attributeWrite es ∅ !! a))
  /\ (forall s, touched (CStyle (isCustomStyleProperty s) s) ->
     look d (CStyle (isCustomStyleProperty s) s) = styleCell (patch styleWrite es ∅ !! s)).

Lemma sameValue_cell v c (d : D) : match c with CProperty _ => False | _ => True end ->
  sameValue v (look d c) -> v = look d c.
Proof.
  intros Hc [->|E]; [done|]. destruct c as [a|p|b s]; [|done|].
  - destruct (ch_attribute d a) as [H|[x H]]; rewrite H in *; destruct v; simpl in E; bools; congruence.
  - destruct (ch_style d b s) as [x H]. rewrite H in *. destruct v; simpl in E; bools; congruence.
Qed.

Lemma rendered_restored es d d' : restored d d' -> rendered es d -> rendered es d'.
Proof.
  intros H [H1 H2]. split; intros x Hx.
  - rewrite <- H1 by done. by apply sameValue_cell, H.
  - rewrite <- H2 by done. by apply sameValue_cell, H.
Qed.

Lemma applied_rendered tag last next p q r1 r2 es d d' limit :
  storing -> renderable heap tag last next p q r1 r2 es -> Forall normalForm es -> covered es ->
  rendered r1 d ->
  applyLoop (applyAdmittedNormalizedPropertyPayloadEntry n) es 0 d = (Ok tt, limit, d') ->
  rendered r2 d'.
Proof.
  intros Hst R Hnf Hcov [H1 H2] Hloop.
  assert (Hes : Forall (safeEntry tag q) es).
  { apply Forall_forall. intros e. eapply diff_safe; [apply (rd_next _ _ _ _ _ _ _ _ _ R)|apply (rd_diff _ _ _ _ _ _ _ _ _ R)]. }
  destruct (rd_supported _ _ _ _ _ _ _ _ _ R) as (_ & _ & Hsup).
  assert (Hw := apply_writes _ admitted_apply es Hnf).
  split; intros x Hx.
  - rewrite (applyLoop_store _ es 0 d limit d' _ Hst Hw Hnf Hcov Hx I Hloop), H1 by done.
    rewrite (lastWrite_attributes tag q) by done. by rewrite (diff_renders_attribute _ _ _ _ _ _ _ _ _ R).
  - rewrite (applyLoop_store _ es 0 d limit d' _ Hst Hw Hnf Hcov Hx I Hloop), H2 by done.
    rewrite (lastWrite_styles tag q) by done. by rewrite (diff_renders_style _ _ _ _ _ _ _ _ _ R).
Qed.

(** C1: A commit renders the attributes and styles of the next props or leaves those of the
    last ones. This is for props that are object literals, no two of which name one
    attribute, whose payloads (mounting the last, mounting the next, and their diff) have no
    unsupported entry, and none of which is named like an inherited method of objects; and
    for a node whose attributes and styles, as far as the payload writes them, keep what is
    written and show the last props. Then [commitDomPropertyUpdate] either returns, and the
    attributes and styles are those that mounting the next props gives, and the mutation
    records of the whole payload are registered; or it throws, the node still shows the last
    props, nothing is registered, and the error is the one that the host threw when the
    entries were applied: the payload of the diff is never rejected. Markup set by
    dangerouslySetInnerHTML is not among what is rendered here. *)
Theorem commit_renders tag last next p q r1 r2 es w :
  storing -> renderable heap tag last next p q r1 r2 es -> noInherited es -> covered es ->
  rendered r1 (host w) ->
  let '(r, w') := commitDomPropertyUpdate heap (inr n) tag last next w in
  match r with
  | Ok record => rendered r2 (host w')
      /\ exists m, getDomPropertyPayloadMutationRecordsPayload w' (Some record) = Some m
           /\ mp_node m = n /\ mp_mutationRecords m = map createAdmittedPropertyPayloadRecord es
  | Throw e => rendered r1 (host w') /\ records w' = records w
      /\ exists limit d1, applyLoop (applyAdmittedNormalizedPropertyPayloadEntry n) es 0 (host w)
                          = (Throw e, limit, d1)
  end.
Proof.
  intros Hst R Hinh Hcov Hr.
  destruct (rd_supported _ _ _ _ _ _ _ _ _ R) as (_ & _ & Hsup).
  pose proof (rd_next _ _ _ _ _ _ _ _ _ R) as Hq. pose proof (rd_diff _ _ _ _ _ _ _ _ _ R) as Hes.
  pose proof (normalize_normalForm _ admitted_normal _ _ _
    (diff_admitted tag last next q es (host w) Hq Hes Hsup Hinh)) as Hnf.
  destruct (commit_run tag last next q es w Hq Hes Hsup Hinh Hcov) as (r & d' & Hdone & ->).
  destruct r as [a|e]; simpl.
  - destruct Hdone as [-> Hloop]. simpl. split; [by eapply applied_rendered|].
    eexists. unfold getDomPropertyPayloadMutationRecordsPayload, lookupRecord. simpl.
    by rewrite lookup_insert_eq.
  - destruct Hdone as [Hrs Hx]. split; [by eapply rendered_restored|]. by split.
Qed.

Lemma mapRes_first {A B} (f : A -> res B) l err :
  (forall x, x ∈ l -> match f x with Ok _ => True | Throw e => e = err end) ->
  (exists x, x ∈ l /\ f x = Throw err) -> mapRes f l = Throw err.
Proof.
  induction l as [|x l IH]; intros H (z & Hz & Hf); [set_solver|]. simpl.
  pose proof (H x (list_elem_of_here _ _)) as Hx. destruct (f x) eqn:E; simpl; [|by subst].
  rewrite IH; [done|intros; apply H; by right|].
  apply elem_of_cons in Hz as [->|Hz]; [congruence|eauto].
Qed.

(** unsupported props block the commit before anything is mutated. If the payload of
    a diff holds an unsupported entry, [commitDomPropertyUpdate] throws the error for
    blocked entries, and neither the host nor the registry changes. *)
Theorem commit_blocks_unsupported tag last next q es w :
  normalizeProps heap next "nextProps" = Ok q -> diffDomPropertyPayload heap tag last next = Ok es ->
  noInherited es -> ~ supported es ->
  commitDomPropertyUpdate heap (inr n) tag last next w
  = (Throw (HostError BLOCKED_PROPERTY_PAYLOAD_ENTRY), w).
Proof.
  intros Hq Hes Hinh Hun. unfold commitDomPropertyUpdate. rewrite Hes. simpl.
  unfold applyAdmittedDomPropertyPayload, applyAdmitted, applyTransaction, assertPayload, onHost. simpl.
  assert (Hblock : forall e, isUnsupported e = true ->
    normalizeAdmittedDomPropertyPayloadEntry (host w) n (inr e)
    = Throw (HostError BLOCKED_PROPERTY_PAYLOAD_ENTRY)).
  { intros e Hk%unsupported_kind. unfold normalizeAdmittedDomPropertyPayloadEntry,
      isOrdinaryPropertyPayloadEntry, isStyleDangerousHtmlPayloadEntry, isNonPayloadPropertyPayloadEntry,
      createBlockedAdmittedPayloadEntryError, isKind. simpl. by rewrite Hk. }
  rewrite (mapRes_first _ _ (HostError BLOCKED_PROPERTY_PAYLOAD_ENTRY)); simpl; [by destruct w|..].
  - intros i Hi. apply list_elem_of_fmap in Hi as (e & -> & He).
    destruct (isUnsupported e) eqn:Eu; [by rewrite Hblock|].
    rewrite (safe_admitted tag q e (host w)); [done|by eapply diff_safe|done|by apply Hinh].
  - unfold supported in Hun. apply not_Forall_Exists in Hun; [|intros e; apply _].
    apply Exists_exists in Hun as (e & He & Hu). exists (inr e). split; [by apply list_elem_of_fmap_2|].
    by apply Hblock, not_false_iff_true.
Qed.
(** whoever made the payload, only safe writes reach the node. For an array of any
    values, an accepted payload is one write per entry at most; attributes get strings
    under valid names, style properties get strings, [innerHTML] gets a string and only
    from an entry for [dangerouslySetInnerHTML], and no other property is written unless
    its name is an identifier that is neither an event handler name, nor starts with an
    underscore, nor is one of the guarded names ([style], [textContent], [__proto__] and
    so on), with a value that is no function or symbol. One bad entry rejects the whole
    payload, with the node and the registry unchanged. *)
Theorem admitted_entries_safe l w :
  match mapRes (normalizeAdmittedDomPropertyPayloadEntry (host w) n) l with
  | Ok entries => length entries = length l
      /\ Forall (fun e => forall x, entryWrite e = Some x -> safeWrite x) entries
      /\ Forall (fun e => isStr (kind e) ENTRY_SET_INNER_HTML = true ->
           propName e = VStr "dangerouslySetInnerHTML") entries
      /\ forall e d, e ∈ entries -> applyAdmittedNormalizedPropertyPayloadEntry n e d
           = match entryWrite e with Some (c, v) => writeChannel n c v d | None => (Ok tt, d) end
  | Throw e => applyAdmittedDomPropertyPayload heap (inr n) (Some l) w = (Throw e, w)
  end.
Proof.
  destruct (mapRes _ l) as [entries|e] eqn:E.
  - pose proof (normalize_normalForm _ admitted_normal _ _ _ E) as Hnf. apply mapRes_Ok in E.
    split; [symmetry; by eapply Forall2_length|]. split; [|split].
    + eapply Forall_impl; [exact Hnf|]. intros e He x. by apply normalForm_safe.
    + eapply Forall_impl; [exact Hnf|]. intros e He.
      destruct He as [| | | |k style m v Hk _ _| |]; try done. unfold isStr. simpl. intros Hb. bools.
      set_solver.
    + exact (apply_writes _ admitted_apply entries Hnf).
  - unfold applyAdmittedDomPropertyPayload, applyAdmitted, applyTransaction, assertPayload, onHost.
    simpl. rewrite E. by destruct w.
Qed.

(** ** Latest props *)

Lemma cloneSafe_ok e : normalForm e ->
  cloneSafeLatestPropsPayloadRecord (inr (createLatestPropsPayloadRecord e))
  = Ok (createLatestPropsPayloadRecord e).
Proof.
  destruct 1 as [| | | |k style m v Hk Hm Hv| |]; try done.
  apply elem_of_cons in Hk as [->|Hk%list_elem_of_singleton]; [|subst k]; done.
Qed.

Lemma cloneSafe_all entries : Forall normalForm entries ->
  mapRes cloneSafeLatestPropsPayloadRecord (map (inr ∘ createLatestPropsPayloadRecord) entries)
  = Ok (map createLatestPropsPayloadRecord entries).
Proof.
  induction 1 as [|e es He _ IH]; [done|]. cbn [map mapRes]. unfold compose at 1.
  rewrite cloneSafe_ok by done. cbn [bind]. by rewrite IH.
Qed.

Lemma applyLoop_limit {E} (apply : E -> D -> effect D unit) entries k d e limit d' :
  applyLoop apply entries k d = (Throw e, limit, d') -> k < limit <= k + length entries.
Proof.
  revert k d. induction entries as [|x entries IH]; intros k d; simpl; [done|].
  destruct (apply x d) as [[?|?] d1]; [|intros [= _ <- _]; lia]. intros H%IH. lia.
Qed.

(** The evidence of a rolled back commit: everything tried was undone. *)
Definition evidenceOk (e : error) (ev : option rollbackEvidence) : Prop :=
  if errorIsObject e then
    exists v, ev = Some v /\ ev_rollbackError v = None
      /\ ev_rollbackAttempted v = ev_mutationAttempted v
      /\ ev_rollbackApplied v = ev_mutationAttempted v
      /\ ev_mutationAttempted v = (0 <? ev_appliedMutationCount v)%nat
      /\ ev_appliedMutationCount v <= ev_normalizedEntryCount v
  else ev = None.

Lemma failLatestProps_early entries e w :
  exists ev, failLatestProps heap n entries None 0 e w = (Throw e, ev, w) /\ evidenceOk e ev.
Proof.
  eexists. split; [done|]. unfold evidenceOk, attachLatestPropsPropertyRollbackEvidence.
  destruct (errorIsObject e); [|done]. eexists. split; [done|]. simpl. split_and!; done || lia.
Qed.

(** What the latest-props commit ends in. *)
Lemma latest_props_cases l latestProps w :
  coversPayload normalizeLatestPropsSafeDomPropertyPayloadEntry (host w) (Some l) ->
  let '(r, ev, w') := applyDomPropertyPayloadForLatestProps heap (inr n) (Some l) latestProps w in
  match r with
  | Throw e => restored (host w) (host w') /\ records w' = records w /\ evidenceOk e ev
      /\ forall entries, mapRes (normalizeLatestPropsSafeDomPropertyPayloadEntry (host w) n) l = Ok entries ->
         exists limit d1, applyLoop (applyLatestPropsSafeDomPropertyPayloadEntry n) entries 0 (host w)
                          = (Throw e, limit, d1)
  | Ok handoff => ev = None /\ exists entries h p,
      mapRes (normalizeLatestPropsSafeDomPropertyPayloadEntry (host w) n) l = Ok entries
      /\ applyLoop (applyLatestPropsSafeDomPropertyPayloadEntry n) entries 0 (host w)
         = (Ok tt, length entries, host w')
      /\ getDomPropertyUpdateLatestPropsHandoffPayload w' (Some handoff) = Some h
      /\ hp_mutationRecords h = map createAdmittedPropertyPayloadRecord entries
      /\ length (hp_rollbackRecords h) = length entries
      /\ getLatestPropsCommitRecordPayload w' (Some (hp_latestPropsCommitRecord h)) = Some p
      /\ lp_node p = n
      /\ lp_latestProps p = match latestProps with VUndef => VNull | _ => latestProps end
      /\ lp_payloadRecords p = map createLatestPropsPayloadRecord entries
  end.
Proof.
  intros Hcov. unfold applyDomPropertyPayloadForLatestProps. simpl.
  destruct (mapRes _ l) as [entries|e] eqn:E.
  2: { destruct (failLatestProps_early None e w) as (ev & Hf & Hev). simpl in Hf.
       injection Hf as Hf. rewrite <- Hf in Hev. split; [apply restored_refl|]. by split_and!. }
  specialize (Hcov l entries eq_refl E).
  pose proof (normalize_normalForm _ latest_normal _ _ _ E) as Hnf.
  change (createLatestPropsSafeDomPropertyPayloadRollbackRecords heap (host w) n entries)
    with (createDomPropertyPayloadRollbackRecords heap (host w) n entries).
  rewrite (createRecords_ok (host w) entries Hnf).
  destruct (applyLoop _ entries 0 (host w)) as [[o limit] d1] eqn:Eloop.
  destruct (applyLoop_frame n touched look _ entries 0 (host w) o limit d1
    (apply_writes _ latest_apply entries Hnf) Hcov Eloop) as (_ & Hlim & Hframe).
  rewrite Nat.sub_0_r in Hframe. destruct o as [[]|err].
  - unfold createLatestPropsCommitRecord. simpl. rewrite (cloneSafe_all entries Hnf). simpl.
    split; [done|]. eexists entries, _, _.
    unfold getDomPropertyUpdateLatestPropsHandoffPayload, getLatestPropsCommitRecordPayload,
      lookupRecord. simpl. rewrite lookup_insert_eq.
    split; [done|]. split; [by rewrite Eloop, (Hlim eq_refl)|]. split; [done|]. simpl.
    rewrite lookup_insert_eq. split; [done|]. split; [by rewrite !length_map|]. by split_and!.
  - apply applyLoop_limit in Eloop as Hle. simpl in Hle.
    destruct (rollback_ok (host w) d1 entries limit Hcov Hframe) as (d2 & Hrb & Hrs).
    unfold failLatestProps, onHost, rollbackLatestPropsSafeDomPropertyPayloadEntries.
    destruct (Nat.ltb_spec 0 limit) as [Hlt|?]; [|lia]. cbn [host]. rewrite Hrb.
    split; [done|]. split; [done|]. split; [|intros es [= <-]; by rewrite Eloop; eauto].
    unfold evidenceOk, attachLatestPropsPropertyRollbackEvidence.
    destruct (errorIsObject err); [|done]. eexists. split; [done|]. simpl.
    destruct (Nat.ltb_spec 0 limit); [|lia]. split_and!; done || lia.
Qed.

(** C24: the latest-props commit is atomic, and its evidence is true. When
    [applyDomPropertyPayloadForLatestProps] throws, the node's touched channels are as
    before and no record was registered, so that no latest props are published, and the
    evidence attached to the error says so: a rollback was made exactly when a mutation was
    tried, it succeeded, and at most the normalised entries were tried. When it returns,
    the handoff is registered with the node, the latest props ([null] for undefined), one
    safe record per entry and the rollback records, all entries are applied, and the
    mutation records are those of the entries. *)
Theorem latest_props_atomic l latestProps w :
  coversPayload normalizeLatestPropsSafeDomPropertyPayloadEntry (host w) (Some l) ->
  let '(r, ev, w') := applyDomPropertyPayloadForLatestProps heap (inr n) (Some l) latestProps w in
  match r with
  | Throw e => restored (host w) (host w') /\ records w' = records w /\ evidenceOk e ev
  | Ok handoff => ev = None /\ exists entries h p,
      mapRes (normalizeLatestPropsSafeDomPropertyPayloadEntry (host w) n) l = Ok entries
      /\ applyLoop (applyLatestPropsSafeDomPropertyPayloadEntry n) entries 0 (host w)
         = (Ok tt, length entries, host w')
      /\ getDomPropertyUpdateLatestPropsHandoffPayload w' (Some handoff) = Some h
      /\ hp_mutationRecords h = map createAdmittedPropertyPayloadRecord entries
      /\ length (hp_rollbackRecords h) = length entries
      /\ getLatestPropsCommitRecordPayload w' (Some (hp_latestPropsCommitRecord h)) = Some p
      /\ lp_node p = n
      /\ lp_latestProps p = match latestProps with VUndef => VNull | _ => latestProps end
      /\ lp_payloadRecords p = map createLatestPropsPayloadRecord entries
  end.
Proof.
  intros Hcov. pose proof (latest_props_cases l latestProps w Hcov) as H.
  destruct (applyDomPropertyPayloadForLatestProps heap (inr n) (Some l) latestProps w) as [[r ev] w'].
  destruct r as [handoff|e]; [done|]. destruct H as (H1 & H2 & H3 & _). by split_and!.
Qed.

(** The handoff that a latest-props commit registers: its payload, and that rolling it back
    in any later world with the same records restores what the commit wrote. *)
Lemma latest_handoff l latestProps w handoff ev w1 :
  coversPayload normalizeLatestPropsSafeDomPropertyPayloadEntry (host w) (Some l) ->
  applyDomPropertyPayloadForLatestProps heap (inr n) (Some l) latestProps w = (Ok handoff, ev, w1) ->
  exists entries h p, mapRes (normalizeLatestPropsSafeDomPropertyPayloadEntry (host w) n) l = Ok entries
    /\ getDomPropertyUpdateLatestPropsHandoffPayload w1 (Some handoff) = Some h
    /\ getLatestPropsCommitRecordPayload w1 (Some (hp_latestPropsCommitRecord h)) = Some p
    /\ lp_node p = n /\ lp_latestProps p = match latestProps with VUndef => VNull | _ => latestProps end
    /\ (forall c, touched c -> Forall (fun e => fst <$> entryWrite e <> Some c) entries ->
         look (host w1) c = look (host w) c)
    /\ forall w2, records w2 = records w1 -> exists w3,
      rollbackDomPropertyUpdateLatestPropsHandoff heap (Some handoff) w2
      = (Ok (length (omap entryWrite entries)), w3)
      /\ records w3 = records w2
      /\ (forall c v e, e ∈ entries -> entryWrite e = Some (c, v) ->
           sameValue (look (host w3) c) (look (host w) c))
      /\ (forall c, touched c -> Forall (fun e => fst <$> entryWrite e <> Some c) entries ->
           look (host w3) c = look (host w2) c).
Proof.
  intros Hcov. unfold applyDomPropertyPayloadForLatestProps. simpl.
  destruct (mapRes _ l) as [entries|e] eqn:E; [|done].
  specialize (Hcov l entries eq_refl E).
  pose proof (normalize_normalForm _ latest_normal _ _ _ E) as Hnf.
  change (createLatestPropsSafeDomPropertyPayloadRollbackRecords heap (host w) n entries)
    with (createDomPropertyPayloadRollbackRecords heap (host w) n entries).
  rewrite (createRecords_ok (host w) entries Hnf).
  destruct (applyLoop _ entries 0 (host w)) as [[[[]|err] limit] d1] eqn:Eloop.
  2: { unfold failLatestProps. repeat case_match; done. }
  destruct (applyLoop_frame n touched look _ entries 0 (host w) (Ok tt) limit d1
    (apply_writes _ latest_apply entries Hnf) Hcov Eloop) as (_ & Hlim & Hframe).
  rewrite Nat.sub_0_r, (Hlim eq_refl), Nat.add_0_l, firstn_all in Hframe.
  unfold createLatestPropsCommitRecord. simpl. rewrite (cloneSafe_all entries Hnf). simpl.
  intros [= <- <- <-].
  unfold rollbackDomPropertyUpdateLatestPropsHandoff, getDomPropertyUpdateLatestPropsHandoffPayload,
    getLatestPropsCommitRecordPayload, lookupRecord. simpl.
  eexists entries, _, _. split; [done|]. rewrite lookup_insert_eq. split; [done|]. simpl.
  rewrite lookup_insert_eq. split; [done|]. split; [done|]. split; [done|]. split; [exact Hframe|].
  intros w2 Hw2. rewrite Hw2. simpl. rewrite lookup_insert_eq. simpl. rewrite lookup_insert_eq. simpl.
  unfold onHost, rollbackLatestPropsSafeDomPropertyPayloadEntries.
  destruct (undo_ok (host w) entries (host w2) Hcov) as (d3 & -> & H1 & H2).
  simpl. eexists. split; [by rewrite recordCount_ok|]. by split_and!.
Qed.

(** the latest-props handoff of a commit can be rolled back later, once or several
    times: as long as its records are registered, the rollback succeeds and restores every
    channel that the commit wrote to its value before the commit, and touches no other. *)
Theorem latest_props_rollback l latestProps w handoff ev w1 :
  coversPayload normalizeLatestPropsSafeDomPropertyPayloadEntry (host w) (Some l) ->
  applyDomPropertyPayloadForLatestProps heap (inr n) (Some l) latestProps w = (Ok handoff, ev, w1) ->
  exists entries, mapRes (normalizeLatestPropsSafeDomPropertyPayloadEntry (host w) n) l = Ok entries /\
  forall w2, records w2 = records w1 -> exists w3,
    rollbackDomPropertyUpdateLatestPropsHandoff heap (Some handoff) w2
    = (Ok (length (omap entryWrite entries)), w3)
    /\ records w3 = records w2
    /\ (forall c v e, e ∈ entries -> entryWrite e = Some (c, v) ->
         sameValue (look (host w3) c) (look (host w) c))
    /\ (forall c, touched c -> Forall (fun e => fst <$> entryWrite e <> Some c) entries ->
         look (host w3) c = look (host w2) c).
Proof.
  intros Hcov Happly.
  destruct (latest_handoff l latestProps w handoff ev w1 Hcov Happly)
    as (entries & h & p & He & _ & _ & _ & _ & _ & Hback).
  exists entries. split; [done|]. exact Hback.
Qed.

(** a prop named like a property of [Object.prototype] cannot be committed. The table
    of reserved props finds the inherited function, the entry gets no category, and the
    commit rejects its own payload, though the prop could be rendered as an attribute or
    reported as unsupported. *)
Theorem constructor_prop_rejected k s x w :
  k ∈ objectPrototypeFunctions -> heap x = literal [(k, VStr s)] ->
  commitDomPropertyUpdate heap (inr n) (VStr "div") VNull (VObj x) w
  = (Throw (HostError INVALID_PROPERTY_PAYLOAD_ENTRY), w).
Proof.
  intros Hk Hx. unfold commitDomPropertyUpdate.
  assert (H : diffDomPropertyPayload heap (VStr "div") VNull (VObj x)
              = Ok [createNonPayloadEntry k VUndef VUndef]).
  { unfold diffDomPropertyPayload. simpl. rewrite Hx.
    repeat (apply elem_of_cons in Hk as [->|Hk]; [by vm_compute|]). set_solver. }
  rewrite H. simpl. by destruct w.
Qed.
End Transactions.
