(* ===== verification/DomTreeSpec.v ===== *)
(** * Correctness of tree mutation: the forest is kept, clearing ends, text is set *)
From S2P Require Import Prelude JsValue DomHost DomTree.

Lemma assertValidContainer_node {Node D : Type} `{!Host Node D} (d : D) (n : Node) c :
  assertValidContainer d (inr n) = Ok c -> c = inr n.
Proof. unfold assertValidContainer. destruct (isValidContainer d (inr n)) as [[]|]; by intros [=]. Qed.

Lemma imap_fst_seq {A} (l : list A) : (imap (fun i x => (i, x)) l).*1 = seq 0 (length l).
Proof.
  apply list_eq. intros i. rewrite list_lookup_fmap, list_lookup_imap.
  destruct (l !! i) as [x|] eqn:E; simpl.
  - symmetry. apply lookup_seq. apply lookup_lt_Some in E. lia.
  - symmetry. apply lookup_seq_ge. by apply lookup_ge_None in E.
Qed.

Section Tree.
Context {Node D : Type} `{!EqDecision Node} `{!Host Node D} (heap : ref -> jsobject).
Context (kids : D -> Node -> list Node).
Implicit Types (d : D) (p c x y : Node).

(** ** Hosts with a tree *)

(** The tree is the same. *)
Definition sameTree d d' : Prop :=
  (forall x, kids d' x = kids d x) /\ forall x, parentNode d' x = parentNode d x.

Definition without c (l : list Node) : list Node := filter (fun x => x <> c) l.

(** [c] was moved to [p], whose other children were rearranged to [l]. *)
Definition moved d d' p c (l : list Node) : Prop :=
  kids d' p = l /\ (forall x, x <> p -> kids d' x = without c (kids d x))
  /\ forall x, parentNode d' x = if bool_decide (x = c) then Some p else parentNode d x.

(** [c] was removed from [p]. *)
Definition detached d d' p c : Prop :=
  kids d' p = without c (kids d p) /\ (forall x, x <> p -> kids d' x = kids d x)
  /\ forall x, parentNode d' x = if bool_decide (x = c) then None else parentNode d x.

Fixpoint putBefore c b (l : list Node) : list Node :=
  match l with
  | [] => [c]
  | x :: l => if bool_decide (x = b) then c :: x :: l else x :: putBefore c b l
  end.

(** The documented behaviour of the tree methods of a DOM node: [appendChild] and
    [insertBefore] move the child, [removeChild] removes it, and when they throw the tree
    is unchanged. *)
Class TreeHost : Prop := {
  th_method d n m : m ∈ ["appendChild"; "insertBefore"; "removeChild"] -> hasMethod d n m = true;
  th_first d n : firstChild d n = Some (head (kids d n));
  th_last d n : lastChild d n = Some (last (kids d n));
  th_childNodes d n : childNodes d n = None \/ childNodes d n = Some (kids d n);
  th_append d p c : match callAppendChild p c d with
    | (Ok v, d') => v = c /\ moved d d' p c (without c (kids d p) ++ [c])
    | (Throw _, d') => sameTree d d' end;
  th_insert d p c b : b ∈ kids d p -> match callInsertBefore p c b d with
    | (Ok v, d') => v = c /\ if bool_decide (b = c) then sameTree d d'
        else moved d d' p c (putBefore c b (without c (kids d p)))
    | (Throw _, d') => sameTree d d' end;
  th_remove d p c : c ∈ kids d p -> match callRemoveChild p c d with
    | (Ok v, d') => v = c /\ detached d d' p c
    | (Throw _, d') => sameTree d d' end }.

(** ** Forests *)

(** Children and parents agree, no node is twice a child, and [depth] shows that no node
    is its own ancestor. *)
Record forestBy (depth : Node -> nat) (d : D) : Prop := {
  fo_parent p c : parentNode d c = Some p <-> c ∈ kids d p;
  fo_NoDup p : NoDup (kids d p);
  fo_depth p c : parentNode d c = Some p -> depth p < depth c }.
Definition forest (d : D) : Prop := exists depth, forestBy depth d.

(** [x] is [a] or below it. *)
Definition below d x a : Prop := rtc (fun x y => parentNode d x = Some y) x a.

Lemma below_step d x y a : parentNode d x = Some y -> x <> a -> below d x a <-> below d y a.
Proof.
  intros Hx Hne. split; [|by apply rtc_l]. intros H. inversion H as [|? z ? Hz Hr]; simplify_eq.
  exact Hr.
Qed.

Lemma below_root d x a : parentNode d x = None -> below d x a -> x = a.
Proof. intros Hx H. inversion H; [done|]. congruence. Qed.

(** The walk to the root ends, and decides [below]. *)
Lemma isAncestorOf_ok depth d a : forestBy depth d -> forall fuel x, depth x < fuel ->
  exists b, isAncestorOf fuel d a (Some x) = Some b /\ (b = true <-> below d x a).
Proof.
  intros Hf. induction fuel as [|fuel IH]; intros x Hx; [lia|]. simpl.
  case_bool_decide as Hxa; [subst; exists true; split; [done|]; split; [constructor|done]|].
  destruct (parentNode d x) as [y|] eqn:Hy.
  - destruct (IH y) as (b & -> & Hb); [pose proof (fo_depth _ _ Hf _ _ Hy); lia|].
    exists b. split; [done|]. rewrite Hb. symmetry. by apply below_step.
  - exists false. split; [by destruct fuel|]. split; [done|]. intros H.
    by destruct (Hxa (below_root _ _ _ Hy H)).
Qed.


Lemma forest_sameTree d d' : sameTree d d' -> forest d -> forest d'.
Proof.
  intros [Hk Hp] [depth [H1 H2 H3]]. exists depth. split; intros p; [|by rewrite Hk|].
  - intros c. rewrite Hk, Hp. apply H1.
  - intros c. rewrite Hp. apply H3.
Qed.

Lemma elem_of_without x c l : x ∈ without c l <-> x <> c /\ x ∈ l.
Proof. unfold without. by rewrite list_elem_of_filter. Qed.

(** Moving a node below a node that is not below it keeps the forest. *)
Lemma forest_moved d d' p c l :
  moved d d' p c l -> ~ below d p c -> NoDup l ->
  (forall x, x ∈ l <-> x = c \/ x ∈ kids d p) -> forest d -> forest d'.
Proof.
  intros (Hp & Hk & Hpar) Hnb HND Hl [depth Hf]. pose proof Hf as [H1 H2 H3].
  set (bel := fun x => bool_decide (isAncestorOf (S (depth x)) d c (Some x) = Some true)).
  assert (Hbel : forall x, bel x = true <-> below d x c).
  { intros x. unfold bel. destruct (isAncestorOf_ok depth d c Hf (S (depth x)) x) as (b & -> & <-); [lia|].
    rewrite bool_decide_eq_true. split; congruence. }
  exists (fun x => if bel x then depth x + S (depth p) else depth x). split.
  - intros x y. rewrite Hpar. destruct (decide (x = p)) as [->|Hxp].
    + rewrite Hp, Hl, <- H1. case_bool_decide; [by split; [left|]|]. split; [by right|]. by intros [?|?].
    + rewrite Hk, elem_of_without, <- H1 by done. case_bool_decide; [|tauto].
      split; [congruence|]. by intros [? _].
  - intros x. destruct (decide (x = p)) as [->|Hxp]; [by rewrite Hp|]. rewrite Hk by done.
    by apply NoDup_filter.
  - intros x y. rewrite Hpar. case_bool_decide as Hyc.
    + intros [= <-]. subst y. assert (Hb : bel p = false).
      { apply not_true_is_false. by rewrite Hbel. }
      assert (Hc : bel c = true) by (apply Hbel; constructor). rewrite Hb, Hc. lia.
    + intros Hy. pose proof (H3 _ _ Hy) as Hlt.
      assert (Hxy : bel x = bel y).
      { apply eq_iff_eq_true. rewrite !Hbel. symmetry. by apply below_step. }
      rewrite Hxy. destruct (bel y); lia.
Qed.

Lemma without_head c l : NoDup (c :: l) -> without c (c :: l) = l.
Proof.
  intros [Hc HND]%NoDup_cons. unfold without. rewrite filter_cons_False by auto.
  clear HND. induction l as [|x l IH]; [done|]. rewrite filter_cons_True; [|set_solver].
  rewrite IH; [done|set_solver].
Qed.

Lemma forest_detached d d' p c :
  detached d d' p c -> c ∈ kids d p -> forest d -> forest d'.
Proof.
  intros (Hp & Hk & Hpar) Hc [depth [H1 H2 H3]]. exists depth. split.
  - intros x y. rewrite Hpar. destruct (decide (x = p)) as [->|Hxp].
    + rewrite Hp, elem_of_without, <- H1. case_bool_decide; [|tauto]. split; [done|]. by intros [? _].
    + rewrite Hk, <- H1 by done. case_bool_decide; [|done]. subst. split; [done|].
      apply H1 in Hc. congruence.
  - intros x. destruct (decide (x = p)) as [->|Hxp]; [rewrite Hp; by apply NoDup_filter|].
    by rewrite Hk.
  - intros x y. rewrite Hpar. case_bool_decide; [done|]. apply H3.
Qed.

Lemma elem_of_putBefore x c b l : x ∈ putBefore c b l <-> x = c \/ x ∈ l.
Proof.
  induction l as [|y l IH]; simpl; [set_solver|]. case_bool_decide; [set_solver|].
  rewrite !elem_of_cons, IH. tauto.
Qed.

Lemma NoDup_putBefore c b l : c ∉ l -> NoDup l -> NoDup (putBefore c b l).
Proof.
  intros Hc. induction 1 as [|x l Hx HND IH]; simpl; [apply NoDup_singleton|].
  case_bool_decide; constructor; try (by constructor); try done.
  - rewrite elem_of_putBefore. set_solver.
  - apply IH. set_solver.
Qed.

(** ** Guards *)

Lemma assertCanMove_ok depth d p c fuel : forestBy depth d -> depth p < fuel ->
  (below d p c /\ assertCanMoveIntoParent fuel d p c
                  = Some (hostError "FAST_REACT_DOM_INVALID_MUTATION_TARGET"))
  \/ (~ below d p c /\ assertCanMoveIntoParent fuel d p c = Some (Ok tt)).
Proof.
  intros Hf Hfuel. unfold assertCanMoveIntoParent. case_bool_decide as Hpc.
  - left. subst. split; [constructor|done].
  - destruct (isAncestorOf_ok depth d c Hf fuel p Hfuel) as (b & -> & Hb). destruct b.
    + left. split; [by apply Hb|done].
    + right. split; [|done]. intros H. by apply Hb in H.
Qed.

Context `{TH : !TreeHost}.

Lemma assertCurrentChild_ok d p c code : forest d ->
  assertCurrentChild d p c code = if bool_decide (c ∈ kids d p) then Ok tt else hostError code.
Proof.
  intros [depth Hf]. unfold assertCurrentChild. case_bool_decide as Hp.
  - apply (fo_parent _ _ Hf) in Hp. by rewrite bool_decide_eq_true_2.
  - assert (Hc : c ∉ kids d p) by (intros Hc; by apply Hp, (fo_parent _ _ Hf)).
    destruct (th_childNodes d p) as [-> | ->]; unfold require; by rewrite bool_decide_eq_false_2.
Qed.

(** ** Properties of the tree operations *)

(** C16: [appendChild] keeps the DOM a forest. On nodes of a forest the check for moving a
    node into its own subtree ends; it rejects exactly the moves that would make a cycle,
    with nothing changed; any other move is the host's, after which the child is the last
    child of its new parent and of no other node. *)
Theorem appendChild_keeps_forest d p c : forest d ->
  exists bound, forall fuel, bound <= fuel -> exists r d',
    appendChild fuel (inr p) (inr c) d = Some (r, d') /\ forest d'
    /\ (below d p c -> r = hostError "FAST_REACT_DOM_INVALID_MUTATION_TARGET" /\ d' = d)
    /\ (~ below d p c -> (r, d') = callAppendChild p c d
        /\ match r with
           | Ok v => v = c /\ moved d d' p c (without c (kids d p) ++ [c])
           | Throw _ => sameTree d d'
           end).
Proof.
  intros HF. pose proof HF as [depth Hf]. exists (S (depth p)). intros fuel Hfuel.
  unfold appendChild, assertAppendParent, assertParentMethod. simpl.
  rewrite th_method by set_solver. simpl.
  destruct (assertCanMove_ok depth d p c fuel Hf Hfuel) as [[Hb ->]|[Hb ->]]; simpl.
  - do 2 eexists. split; [done|]. by split_and!.
  - pose proof (th_append d p c) as H. destruct (callAppendChild p c d) as [r d'].
    do 2 eexists. split; [done|]. split; [|by split_and!].
    destruct r as [v|e]; [|by eapply forest_sameTree].
    destruct H as [_ Hm]. eapply forest_moved; [exact Hm|done|..|done].
    + apply NoDup_app. split; [apply NoDup_filter, (fo_NoDup _ _ Hf)|].
      split; [|apply NoDup_singleton]. intros x. rewrite elem_of_without. set_solver.
    + intros x. rewrite elem_of_app, elem_of_without, list_elem_of_singleton.
      destruct (decide (x = c)); tauto.
Qed.

(** [insertBefore] keeps the DOM a forest. As for [appendChild], moves into the own
    subtree are rejected, first; then a reference node that is not a child of the parent
    is rejected, with nothing changed; otherwise the child ends right before the reference
    node (inserting a node before itself changes nothing). *)
Theorem insertBefore_keeps_forest d p c b : forest d ->
  exists bound, forall fuel, bound <= fuel -> exists r d',
    insertBefore fuel (inr p) (inr c) (inr b) d = Some (r, d') /\ forest d'
    /\ (below d p c -> r = hostError "FAST_REACT_DOM_INVALID_MUTATION_TARGET" /\ d' = d)
    /\ (~ below d p c -> b ∉ kids d p ->
        r = hostError "FAST_REACT_DOM_MISSING_INSERTION_TARGET" /\ d' = d)
    /\ (~ below d p c -> b ∈ kids d p -> (r, d') = callInsertBefore p c b d
        /\ match r with
           | Ok v => v = c /\ if bool_decide (b = c) then sameTree d d'
                              else moved d d' p c (putBefore c b (without c (kids d p)))
           | Throw _ => sameTree d d'
           end).
Proof.
  intros HF. pose proof HF as [depth Hf]. exists (S (depth p)). intros fuel Hfuel.
  unfold insertBefore, assertInsertParent, assertParentMethod. simpl.
  rewrite th_method by set_solver. simpl.
  destruct (assertCanMove_ok depth d p c fuel Hf Hfuel) as [[Hb ->]|[Hb ->]]; simpl.
  - do 2 eexists. split; [done|]. by split_and!.
  - rewrite assertCurrentChild_ok by done. case_bool_decide as Hbk; simpl.
    + pose proof (th_insert d p c b Hbk) as H. destruct (callInsertBefore p c b d) as [r d'].
      do 2 eexists. split; [done|]. split; [|by split_and!].
      destruct r as [v|e]; [|by eapply forest_sameTree]. destruct H as [_ Hm].
      case_bool_decide as Hbc; [by eapply forest_sameTree|].
      eapply forest_moved; [exact Hm|done|..|done].
      * apply NoDup_putBefore; [rewrite elem_of_without; tauto|]. apply NoDup_filter, (fo_NoDup _ _ Hf).
      * intros x. rewrite elem_of_putBefore, elem_of_without. destruct (decide (x = c)); tauto.
    + do 2 eexists. split; [done|]. by split_and!.
Qed.

(** [removeChild] removes children and nothing else. A node that is no child of the
    parent is rejected with nothing changed; a child is removed by the host, and is then
    the root of its own tree. *)
Theorem removeChild_keeps_forest d p c : forest d ->
  let '(r, d') := removeChild (inr p) (inr c) d in
  forest d'
  /\ (c ∉ kids d p -> r = hostError "FAST_REACT_DOM_MISSING_REMOVAL_TARGET" /\ d' = d)
  /\ (c ∈ kids d p -> (r, d') = callRemoveChild p c d
      /\ match r with Ok v => v = c /\ detached d d' p c | Throw _ => sameTree d d' end).
Proof.
  intros HF. unfold removeChild, assertRemoveParent, assertParentMethod. simpl.
  rewrite th_method by set_solver. simpl. rewrite assertCurrentChild_ok by done.
  case_bool_decide as Hc; simpl; [|by split_and!].
  pose proof (th_remove d p c Hc) as H. destruct (callRemoveChild p c d) as [r d'].
  split; [|by split_and!]. destruct r as [v|e]; [|by eapply forest_sameTree].
  destruct H as [_ H]. by eapply forest_detached.
Qed.

(** ** Clearing *)

(** The first children [l] of [p] were removed. *)
Definition cleared d d' p (l rest : list Node) : Prop :=
  kids d p = l ++ rest /\ kids d' p = rest /\ (forall x, x <> p -> kids d' x = kids d x)
  /\ forall x, parentNode d' x = if bool_decide (x ∈ l) then None else parentNode d x.

Lemma cleared_none d p : cleared d d p [] (kids d p).
Proof. split_and!; [done|done|done|]. intros x. by rewrite bool_decide_eq_false_2 by set_solver. Qed.

Lemma cleared_sameTree d d1 d' p l rest : cleared d d1 p l rest -> sameTree d1 d' -> cleared d d' p l rest.
Proof.
  intros (H1 & H2 & H3 & H4) [Hk Hp]. split_and!; [done|by rewrite Hk|..].
  - intros x Hx. by rewrite Hk, H3.
  - intros x. by rewrite Hp, H4.
Qed.

Lemma cleared_cons d d1 d' p c l rest : NoDup (kids d p) -> c ∈ kids d p ->
  head (kids d p) = Some c -> detached d d1 p c -> cleared d1 d' p l rest -> cleared d d' p (c :: l) rest.
Proof.
  intros HND Hc Hh (Hp & Hk & Hpar) (H1 & H2 & H3 & H4).
  destruct (kids d p) as [|x xs] eqn:E; simplify_eq/=.
  pose proof (without_head _ _ HND) as Hw. simpl in Hp, Hw. rewrite Hw in Hp.
  split_and!; [simpl; congruence|done|..].
  - intros x Hx. by rewrite H3, Hk.
  - intros x. rewrite H4, Hpar. repeat case_bool_decide; try done; set_solver.
Qed.

(** The loop that removes the first child until there is none. *)
Lemma clearLoop_ok p : forall fuel d removed, forest d -> length (kids d p) <= fuel ->
  exists r d' l rest, clearLoop fuel p removed d = Some (r, d') /\ forest d'
    /\ cleared d d' p l rest
    /\ match r with
       | Ok removed' => rest = [] /\ removed' = removed ++ l
       | Throw e => exists c rest' d1 d2, rest = c :: rest' /\ callRemoveChild p c d1 = (Throw e, d2)
       end.
Proof.
  induction fuel as [|fuel IH]; intros d removed HF Hlen.
  - assert (Hnil : kids d p = []) by (destruct (kids d p); simpl in *; [done|lia]).
    simpl. unfold getFirstChild. rewrite th_first, Hnil. simpl. do 2 eexists. exists [], [].
    split; [done|]. split; [done|]. split; [rewrite <- Hnil at 2; apply cleared_none|].
    by rewrite app_nil_r.
  - simpl. unfold getFirstChild. rewrite th_first. destruct (head (kids d p)) as [c|] eqn:Hh.
    + assert (Hc : c ∈ kids d p) by (destruct (kids d p); simplify_eq/=; set_solver).
      pose proof HF as [depth Hf].
      pose proof (th_remove d p c Hc) as Hr. destruct (callRemoveChild p c d) as [[v|e] d1] eqn:E.
      * destruct Hr as [_ Hd]. destruct (IH d1 (removed ++ [c])) as (r & d' & l & rest & Hl & HF' & Hcl & Hres).
        -- by eapply forest_detached.
        -- destruct Hd as (-> & _). destruct (kids d p) as [|x xs] eqn:Ek; simplify_eq/=.
           pose proof (without_head c xs) as Hw. simpl in Hw. rewrite Hw; [simpl in Hlen; lia|].
           rewrite <- Ek. apply (fo_NoDup _ _ Hf).
        -- exists r, d', (c :: l), rest. split; [exact Hl|]. split; [done|]. split.
           ++ eapply cleared_cons; try done. apply (fo_NoDup _ _ Hf).
           ++ destruct r as [removed'|e]; [|done]. destruct Hres as [-> ->].
              by rewrite <- app_assoc.
      * do 2 eexists. exists [], (kids d p). split; [done|]. split; [by eapply forest_sameTree|].
        split; [eapply cleared_sameTree; [apply cleared_none|done]|].
        destruct (kids d p) as [|x xs]; simplify_eq/=. eauto 10.
    + do 2 eexists. exists [], []. assert (Hnil : kids d p = []) by (by destruct (kids d p)).
      split; [done|]. split; [done|]. split; [rewrite <- Hnil at 2; apply cleared_none|].
      by rewrite app_nil_r.
Qed.

(** [clearContainer] ends and clears. Its loop ends after as many rounds as the
    container has children; on return the container is empty, each former child is the
    root of its tree, and no other node has changed. If the host refuses a removal, the
    error is the host's and the children before it are gone. *)
Theorem clearContainer_clears d p fuel : forest d -> length (kids d p) <= fuel ->
  exists r d' l rest, clearContainer fuel (inr p) d = Some (r, d') /\ forest d'
    /\ cleared d d' p l rest
    /\ match r with
       | Ok _ => l = kids d p /\ rest = []
       | Throw e => exists c rest' d1 d2, rest = c :: rest' /\ callRemoveChild p c d1 = (Throw e, d2)
       end.
Proof.
  intros HF Hlen. unfold clearContainer, assertRemoveParent, assertParentMethod. simpl.
  rewrite th_method by set_solver. simpl.
  destruct (clearLoop_ok p fuel d [] HF Hlen) as (r & d' & l & rest & -> & HF' & Hc & Hr).
  destruct r as [removed|e]; simpl; do 2 eexists; exists l, rest; split_and!; try done.
  destruct Hr as [-> _]. split; [|done]. destruct Hc as (-> & _). by rewrite app_nil_r.
Qed.

(** the cleanup record of a root unmount lists what was removed.
    [clearContainerForRootUnmount] ends like [clearContainer]; when it returns, the
    container is empty, the record names it and holds its former children in order, with
    one numbered record each, and the counts it took before and after are the number of
    children and zero, when the host has a [childNodes] array. *)
Theorem root_unmount_record d p fuel : forest d -> length (kids d p) <= fuel ->
  exists r d', clearContainerForRootUnmount fuel (inr p) d = Some (r, d') /\ forest d'
    /\ match r with
       | Ok record => cl_container record = p /\ cl_removedChildren record = kids d p
           /\ kids d' p = [] /\ (cl_removedChildRecords record).*1 = seq 0 (length (kids d p))
           /\ (ci_hasChildNodesArray (cl_infoBefore record) = true ->
               ci_childNodeCount (cl_infoBefore record) = length (kids d p))
           /\ ci_childNodeCount (cl_infoAfter record) = 0
       | Throw _ => exists l rest, cleared d d' p l rest
       end.
Proof.
  intros HF Hlen. unfold clearContainerForRootUnmount, assertRemoveParent, assertParentMethod. simpl.
  rewrite th_method by set_solver. simpl.
  assert (Hinfo : forall d n i, describeContainerCleanupTarget d n = Ok i ->
    (ci_hasChildNodesArray i = true -> ci_childNodeCount i = length (kids d n))
    /\ ci_childNodeCount i <= length (kids d n)).
  { clear -TH. intros d n i. unfold describeContainerCleanupTarget.
    intros (a & _ & H)%bind_Ok. apply bind_Ok in H as (b & _ & H). apply bind_Ok in H as (v & _ & [= <-]).
    simpl. destruct (th_childNodes d n) as [-> | ->]; split; try done; lia. }
  destruct (describeContainerCleanupTarget d p) as [before|e] eqn:Eb; simpl.
  2: { do 2 eexists. split; [done|]. split; [done|]. do 2 eexists. apply cleared_none. }
  destruct (clearLoop_ok p fuel d [] HF Hlen) as (r & d' & l & rest & -> & HF' & Hc & Hr).
  destruct r as [removed|e]; simpl; [|do 2 eexists; split; [done|]; split; eauto].
  do 2 eexists. split; [done|]. split; [done|].
  destruct (createRootUnmountRemovedChildCleanupRecords d' removed) as [rs|e] eqn:Er; simpl; [|eauto].
  destruct (describeContainerCleanupTarget d' p) as [after|e] eqn:Ea; simpl; [|eauto].
  destruct Hr as [-> Hrem]. simpl in Hrem. subst removed.
  destruct Hc as (Hk & Hk' & _). rewrite app_nil_r in Hk. subst l.
  split_and!; try done.
  - unfold createRootUnmountRemovedChildCleanupRecords in Er.
    apply bind_Ok in Er as (infos & Hi%mapRes_Ok & [= <-]).
    by rewrite imap_fst_seq, (Forall2_length _ _ _ Hi).
  - apply (Hinfo _ _ _ Eb).
  - destruct (Hinfo _ _ _ Ea) as [_ Hle]. rewrite Hk' in Hle. simpl in Hle. lia.
Qed.
End Tree.

(** ** Text *)

Section Text.
Context {Node D : Type} `{!EqDecision Node} `{!Host Node D} (heap : ref -> jsobject).
Context (kids : D -> Node -> list Node) (isText : D -> Node -> bool) (textOf : D -> Node -> string).

(** The documented behaviour of text: a text node's [nodeValue] is its text, which is also
    the text of a parent whose only child it is; assigning [textContent] makes it the
    text, and clears the children when it is empty. *)
Class TextHost : Prop := {
  tx_property d n : hasProperty d n "textContent" = true;
  tx_isText d n : isTextNode d n = Ok (isText d n);
  tx_nodeValue d c : isText d c = true -> hasProperty d c "nodeValue" = true;
  tx_only d p c : kids d p = [c] -> isText d c = true -> textOf d p = textOf d c;
  tx_setText d p s : match writeProperty p "textContent" (VStr s) d with
    | (Ok _, d') => textOf d' p = s /\ (s = "" -> kids d' p = [])
    | (Throw _, _) => True end;
  tx_setNodeValue d c s : isText d c = true -> match writeProperty c "nodeValue" (VStr s) d with
    | (Ok _, d') => textOf d' c = s /\ isText d' c = true /\ sameTree kids d d'
    | (Throw _, _) => True end }.
Context `{TX : !TextHost} `{TH : !TreeHost kids}.

Lemma onlyTextChild_ok d p : forest kids d -> onlyTextChild d p
  = Ok (match kids d p with [c] => if isText d c then Some c else None | _ => None end).
Proof.
  intros [depth Hf]. pose proof (fo_NoDup _ _ _ Hf p) as HND.
  unfold onlyTextChild, getFirstChild, getLastChild. rewrite (th_first kids), (th_last kids).
  destruct (kids d p) as [|c l] eqn:Ek; [done|]. cbn [head]. case_bool_decide as Hl.
  - assert (l = []) as ->.
    { destruct l as [|y l]; [done|]. apply NoDup_cons in HND as [Hc _]. destruct Hc.
      by apply last_Some_elem_of. }
    by rewrite tx_isText.
  - by destruct l.
Qed.

(** [setTextContent] sets the text the cheap way. The value is converted with
    [String], and a value that cannot be converted is rejected with nothing changed. On
    return the node's text is that string; the empty string leaves no children; and if the
    node's only child was a text node, a non-empty text updates this text node and keeps
    the tree. Any other error is the host's. *)
Theorem setTextContent_sets d p v : forest kids d ->
  let '(r, d') := setTextContent heap (inr p) v d in
  match toString heap v, r with
  | None, _ => r = Throw (TypeError "Cannot convert object to primitive value") /\ d' = d
  | Some s, Ok _ => textOf d' p = s /\ (s = "" -> kids d' p = [])
      /\ (s <> "" -> forall c, kids d p = [c] -> isText d c = true -> sameTree kids d d')
  | Some s, Throw e => exists c name d1, (c = p /\ name = "textContent" \/ kids d p = [c] /\ name = "nodeValue")
      /\ writeProperty c name (VStr s) d = (Throw e, d1)
  end.
Proof.
  intros HF. unfold setTextContent, setNodeTextContent. simpl. rewrite tx_property. simpl.
  unfold toStringRes. destruct (toString heap v) as [s|]; [|done]. simpl.
  pose proof (tx_setText d p s) as Hp. case_bool_decide as Hs.
  - subst. destruct (writeProperty p "textContent" (VStr "") d) as [[[]|e] d1] eqn:E; [|eauto 10].
    destruct Hp as [H1 H2]. by split_and!.
  - rewrite onlyTextChild_ok by done.
    set (child := match kids d p with [c] => _ | _ => _ end).
    assert (Hc : match child with
                 | Some c => kids d p = [c] /\ isText d c = true
                 | None => forall c, kids d p = [c] -> isText d c = true -> False
                 end).
    { unfold child. destruct (kids d p) as [|c [|? ?]]; try done.
      destruct (isText d c) eqn:Et; [done|]. intros c' [= <-]. congruence. }
    clearbody child. destruct child as [c|]; simpl.
    + destruct Hc as [Hk Ht]. unfold setTextNodeValue. simpl. rewrite tx_nodeValue by done.
      pose proof (tx_setNodeValue d c s Ht) as Hw.
      destruct (writeProperty c "nodeValue" (VStr s) d) as [[[]|e] d1] eqn:E; [|eauto 10].
      destruct Hw as (H1 & H2 & H3). split_and!; [|done|].
      * rewrite (tx_only d1 p c); [done| |done]. destruct H3 as [H3 _]. by rewrite H3.
      * intros _ c' _ _. exact H3.
    + destruct (writeProperty p "textContent" (VStr s) d) as [[[]|e] d1] eqn:E; [|eauto 10].
      destruct Hp as [H1 H2]. split_and!; try done. intros _ c Hk Ht. by destruct (Hc c).
Qed.
End Text.
