(* ===== verification/DomHtmlReset.v ===== *)
(** * dangerousHTML and text reset rows (mutation.js)

    Rows that set [innerHTML], set the text or reset it are applied to admitted targets,
    as one transaction with a registered record and its own rollback. The WeakSet of
    targets and the WeakMap of records are the state [resets]; a value that is no such
    record is [None]. *)
From S2P Require Import Prelude JsValue PropertyPayload DomHost DomPayload DomTree DomCommit.

Section Reset.
Context {Node D : Type} `{!EqDecision Node} `{!Host Node D} (heap : ref -> jsobject).
#[local] Abbreviation rollbackRecord := (rollbackRecord Node).

(** ** Rows *)

(** A row: the fields of a payload entry, and [status] and [id]. A row that is no object
    is [inl]. *)
Record resetRow : Type := mkRow {
  row_entry : entry;
  row_status : value;
  row_id : value }.
Definition rowItem : Type := (value + resetRow)%type.

(** A validated row. *)
Record resetEntry : Type := mkResetEntry {
  re_kind : string;
  re_mutation : string;
  re_operation : string;
  re_propName : value;
  re_propertyName : string;
  re_sourceRowId : string;
  re_value : string }.

Definition INVALID_DANGEROUS_HTML_TEXT_RESET_ROW := "FAST_REACT_DOM_INVALID_DANGEROUS_HTML_TEXT_RESET_ROW".
Definition UNSUPPORTED_DANGEROUS_HTML_TEXT_RESET_ROW :=
  "FAST_REACT_DOM_UNSUPPORTED_DANGEROUS_HTML_TEXT_RESET_ROW".

Definition normalizeDangerousHtmlTextResetSourceRowId (row : resetRow) : res string :=
  match row_id row with
  | VStr id => let* _ := require (negb (bool_decide (id = ""))) INVALID_DANGEROUS_HTML_TEXT_RESET_ROW in
               Ok id
  | _ => hostError INVALID_DANGEROUS_HTML_TEXT_RESET_ROW
  end.

(** [row.propName || null] *)
Definition orNull (v : value) : value := if truthy v then v else VNull.

Definition validateTextContentMutationRow (d : D) (n : Node) (row : resetRow)
    (operation : string) (requiredValue : option string) : res resetEntry :=
  let e := row_entry row in
  let* _ := require (hasProperty d n "textContent") "FAST_REACT_DOM_INVALID_TEXT_CONTENT_TARGET" in
  match entryValue e with
  | VStr v =>
      let* _ := require (isStr (mutation e) "textContent" && isStr (propertyName e) "textContent")
                  INVALID_DANGEROUS_HTML_TEXT_RESET_ROW in
      let* _ := require (match requiredValue with Some r => bool_decide (v = r) | None => true end)
                  INVALID_DANGEROUS_HTML_TEXT_RESET_ROW in
      let* id := normalizeDangerousHtmlTextResetSourceRowId row in
      Ok (mkResetEntry operation "textContent" operation (orNull (propName e)) "textContent" id v)
  | _ => hostError INVALID_DANGEROUS_HTML_TEXT_RESET_ROW
  end.

Definition validateDangerousHtmlTextResetFakeDomRow (d : D) (n : Node) (i : rowItem) : res resetEntry :=
  match i with
  | inl _ => hostError INVALID_DANGEROUS_HTML_TEXT_RESET_ROW
  | inr row =>
      let e := row_entry row in
      let* _ := require (isStr (row_status row) "blocked") INVALID_DANGEROUS_HTML_TEXT_RESET_ROW in
      if isStr (kind e) ENTRY_UNSUPPORTED then hostError UNSUPPORTED_DANGEROUS_HTML_TEXT_RESET_ROW
      else if isStr (kind e) ENTRY_SET_INNER_HTML then
        let* entry := validateInnerHtmlPayloadEntry d n e in
        let* id := normalizeDangerousHtmlTextResetSourceRowId row in
        match entryValue entry with
        | VStr v => Ok (mkResetEntry ENTRY_SET_INNER_HTML "innerHTML" "setInnerHTML" (propName entry)
                          "innerHTML" id v)
        | _ => hostError INVALID_PAYLOAD_ENTRY
        end
      else if isStr (kind e) "setTextContent" then
        validateTextContentMutationRow d n row "setTextContent" None
      else if isStr (kind e) "resetTextContent" then
        validateTextContentMutationRow d n row "resetTextContent" (Some "")
      else hostError INVALID_DANGEROUS_HTML_TEXT_RESET_ROW
  end.

Definition isTextContentResetEntry (e : resetEntry) : bool :=
  mem (re_kind e) ["setTextContent"; "resetTextContent"].

Definition applyDangerousHtmlTextResetFakeDomRow (n : Node) (e : resetEntry) (d : D) : effect D unit :=
  if bool_decide (re_kind e = ENTRY_SET_INNER_HTML) then writeProperty n "innerHTML" (VStr (re_value e)) d
  else if bool_decide (re_kind e = "setTextContent") then
    setTextContent heap (inr n) (VStr (re_value e)) d
  else if bool_decide (re_kind e = "resetTextContent") then resetTextContent heap (inr n) d
  else (hostError INVALID_DANGEROUS_HTML_TEXT_RESET_ROW, d).

(** ** Rollback records *)

Definition createDangerousHtmlTextResetFakeDomRollbackRecord (d : D) (n : Node) (e : resetEntry)
    : res (option rollbackRecord) :=
  if bool_decide (re_kind e = ENTRY_SET_INNER_HTML) then
    let* r := createInnerHtmlPayloadRollbackRecord heap d n in Ok (Some r)
  else if isTextContentResetEntry e then
    let* r := createTextContentPayloadRollbackRecord heap d n in Ok (Some r)
  else Ok None.

Definition createDangerousHtmlTextResetFakeDomRollbackRecords (d : D) (n : Node)
    (entries : list resetEntry) : res (list (option rollbackRecord)) :=
  mapRes (createDangerousHtmlTextResetFakeDomRollbackRecord d n) entries.

(** ** Mutation records *)

(** The constant fields are left out. *)
Record resetMutationRecord : Type := mkResetMutation {
  rm_rowIndex : nat;
  rm_sourceRowId : string;
  rm_sourceKind : string;
  rm_operation : string;
  rm_mutation : string;
  rm_propName : value;
  rm_propertyName : value;
  rm_valueLength : nat }.

Definition createDangerousHtmlTextResetFakeDomMutationRecord (index : nat) (e : resetEntry)
    : resetMutationRecord :=
  mkResetMutation index (re_sourceRowId e) (re_kind e) (re_operation e) (re_mutation e)
    (orNull (re_propName e)) (orNull (VStr (re_propertyName e))) (String.length (re_value e)).

Record resetPayload : Type := mkResetPayload {
  rp_mutationRecords : list resetMutationRecord;
  rp_node : Node;
  rp_rollbackRecordCount : nat;
  rp_rollbackRecords : list (option rollbackRecord);
  rp_textContentRowCount : nat;
  rp_setInnerHTMLCount : nat;
  rp_setTextContentCount : nat;
  rp_resetTextContentCount : nat }.

Record resets : Type := mkResets {
  nextResetRecord : N;
  dangerousHtmlTextResetFakeDomTargets : list Node;
  dangerousHtmlTextResetFakeDomMutationPayloads : gmap N resetPayload }.

Record resetWorld : Type := mkResetWorld { rw_host : D; rw_resets : resets }.

Definition countKind (k : string) (entries : list resetEntry) : nat :=
  length (List.filter (fun e => bool_decide (re_kind e = k)) entries).

Definition createDangerousHtmlTextResetFakeDomMutationRecords (n : Node) (entries : list resetEntry)
    (rollbacks : list (option rollbackRecord)) (w : resetWorld) : effect resetWorld N :=
  let g := rw_resets w in
  let payload :=
    mkResetPayload (imap createDangerousHtmlTextResetFakeDomMutationRecord entries) n
      (rollbackRecordCount rollbacks) rollbacks (length (List.filter isTextContentResetEntry entries))
      (countKind ENTRY_SET_INNER_HTML entries) (countKind "setTextContent" entries)
      (countKind "resetTextContent" entries) in
  (Ok (nextResetRecord g),
   mkResetWorld (rw_host w)
     (mkResets (nextResetRecord g + 1) (dangerousHtmlTextResetFakeDomTargets g)
        (<[nextResetRecord g := payload]> (dangerousHtmlTextResetFakeDomMutationPayloads g)))).

Definition getDangerousHtmlTextResetFakeDomMutationPayload (w : resetWorld) (record : option N)
    : option resetPayload :=
  lookupRecord (dangerousHtmlTextResetFakeDomMutationPayloads (rw_resets w)) record.
Definition isDangerousHtmlTextResetFakeDomMutationRecords (w : resetWorld) (record : option N) : bool :=
  isSome (getDangerousHtmlTextResetFakeDomMutationPayload w record).

(** ** Targets *)

Definition markDangerousHtmlTextResetFakeDomTarget (target : domArg Node) (w : resetWorld)
    : effect resetWorld Node :=
  do* n, w := pureStep (assertDomLikeObject target Parent) w in
  let g := rw_resets w in
  (Ok n, mkResetWorld (rw_host w)
           (mkResets (nextResetRecord g) (n :: dangerousHtmlTextResetFakeDomTargets g)
              (dangerousHtmlTextResetFakeDomMutationPayloads g))).

Definition isDangerousHtmlTextResetFakeDomTarget (w : resetWorld) (target : domArg Node) : bool :=
  match target with
  | inr n => bool_decide (n ∈ dangerousHtmlTextResetFakeDomTargets (rw_resets w))
  | inl _ => false
  end.

Definition assertDangerousHtmlTextResetFakeDomTarget (w : resetWorld) (target : domArg Node) : res unit :=
  require (isDangerousHtmlTextResetFakeDomTarget w target)
    "FAST_REACT_DOM_UNADMITTED_DANGEROUS_HTML_TEXT_RESET_FAKE_DOM_TARGET".

(** ** Application *)

Definition isUnsupportedDangerousHtmlTextResetRowError (e : error) : bool :=
  match e with
  | HostError c => bool_decide (c = UNSUPPORTED_DANGEROUS_HTML_TEXT_RESET_ROW)
  | _ => false
  end.

(** The evidence has the fields of that of a latest-props commit; the flag says that a row
    of an unsupported kind was rejected. *)
Definition attachDangerousHtmlTextResetRollbackEvidence (err : error)
    (entries : option (list resetEntry)) (rollbackApplied : bool) (rollbackError : option error)
    (rollbackLimit : nat) (rollbacks : option (list (option rollbackRecord))) : option rollbackEvidence :=
  if errorIsObject err then
    Some (mkEvidence (match entries with Some l => length l | None => 0 end)
            (0 <? rollbackLimit)%nat rollbackLimit
            (match rollbacks with Some _ => (0 <? rollbackLimit)%nat | None => false end)
            rollbackApplied
            (match rollbacks with Some l => rollbackRecordCount l | None => 0 end)
            (isUnsupportedDangerousHtmlTextResetRowError err) rollbackError)
  else None.

(** The [catch] block. *)
Definition failReset (n : Node) (entries : option (list resetEntry))
    (rollbacks : option (list (option rollbackRecord))) (rollbackLimit : nat) (err : error)
    (w : resetWorld) : (res N * option rollbackEvidence) * resetWorld :=
  match rollbacks with
  | Some l =>
      if (0 <? rollbackLimit)%nat then
        let '(r, d) := rollbackDomPropertyPayloadEntries heap n l rollbackLimit (rw_host w) in
        (Throw err,
         match r with
         | Ok _ => attachDangerousHtmlTextResetRollbackEvidence err entries true None rollbackLimit rollbacks
         | Throw e =>
             attachDangerousHtmlTextResetRollbackEvidence err entries false (Some e) rollbackLimit rollbacks
         end, mkResetWorld d (rw_resets w))
      else
        (Throw err,
         attachDangerousHtmlTextResetRollbackEvidence err entries false None rollbackLimit rollbacks, w)
  | None =>
      (Throw err,
       attachDangerousHtmlTextResetRollbackEvidence err entries false None rollbackLimit rollbacks, w)
  end.

(** [rows] is [None] when it is no array. *)
Definition applyDangerousHtmlTextResetFakeDomRows (instance : domArg Node)
    (rows : option (list rowItem)) (w : resetWorld) : (res N * option rollbackEvidence) * resetWorld :=
  match (let* n := assertDomLikeObject instance Parent in
         let* _ := assertDangerousHtmlTextResetFakeDomTarget w instance in Ok n) with
  | Throw e => (Throw e, None, w)
  | Ok n =>
      match (let* l := match rows with
                       | Some l => Ok l
                       | None => hostError "FAST_REACT_DOM_INVALID_DANGEROUS_HTML_TEXT_RESET_ROWS"
                       end in
             mapRes (validateDangerousHtmlTextResetFakeDomRow (rw_host w) n) l) with
      | Throw e => failReset n None None 0 e w
      | Ok entries =>
          match createDangerousHtmlTextResetFakeDomRollbackRecords (rw_host w) n entries with
          | Throw e => failReset n (Some entries) None 0 e w
          | Ok rollbacks =>
              let '(o, rollbackLimit, d) :=
                applyLoop (applyDangerousHtmlTextResetFakeDomRow n) entries 0 (rw_host w) in
              let w := mkResetWorld d (rw_resets w) in
              match o with
              | Throw e => failReset n (Some entries) (Some rollbacks) rollbackLimit e w
              | Ok _ =>
                  let '(r, w) :=
                    createDangerousHtmlTextResetFakeDomMutationRecords n entries rollbacks w in
                  (r, None, w)
              end
          end
      end
  end.

Definition rollbackDangerousHtmlTextResetFakeDomMutation (record : option N) (w : resetWorld)
    : effect resetWorld nat :=
  match getDangerousHtmlTextResetFakeDomMutationPayload w record with
  | None => (hostError "FAST_REACT_DOM_INVALID_DANGEROUS_HTML_TEXT_RESET_ROLLBACK", w)
  | Some payload =>
      let '(r, d) := rollbackDomPropertyPayloadEntries heap (rp_node payload)
        (rp_rollbackRecords payload) (length (rp_rollbackRecords payload)) (rw_host w) in
      let w := mkResetWorld d (rw_resets w) in
      match r with
      | Ok _ => (Ok (rp_rollbackRecordCount payload), w)
      | Throw e => (Throw e, w)
      end
  end.
End Reset.
Arguments resetPayload Node : clear implicits.
Arguments resets Node : clear implicits.
Arguments resetWorld Node D : clear implicits.
