(* ===== verification/DomHtmlResetSpec.v ===== *)
(** * Correctness of the dangerousHTML and text reset rows: a transaction with its undo *)
From S2P Require Import Prelude JsValue PropertyPayload DomHost DomPayload DomTree DomCommit DomCommitSpec DomHtmlReset.

Section ResetSpec.
Context {Node D : Type} `{!EqDecision Node} `{!Host Node D} (heap : ref -> jsobject).
Context (n : Node) (html : D -> string) (textOfHtml htmlOfText : string -> string).

(** The documented behaviour of a node's content: [innerHTML] reads as its markup, whose
    text [textContent] reads as; markup that the node had can be written back; writing
    text, also through an only text child, leaves the markup or makes it that of the text,
    and removing all text works. *)
Class ContentHost : Prop := {
  ct_html d : hasProperty d n "innerHTML" = true
    /\ readProperty d n "innerHTML" = Ok (VStr (html d));
  ct_text d : hasProperty d n "textContent" = true
    /\ readProperty d n "textContent" = Ok (VStr (textOfHtml (html d)));
  ct_children d : childNodes d n = None;
  ct_restore d0 d : exists d', writeProperty n "innerHTML" (VStr (html d0)) d = (Ok tt, d')
    /\ html d' = html d0;
  ct_write s d : let d' := snd (writeProperty n "textContent" (VStr s) d) in
    html d' = html d \/ html d' = htmlOfText s;
  ct_clear d : exists d', writeProperty n "textContent" (VStr "") d = (Ok tt, d') /\ html d' = "";
  ct_child d : exists o, onlyTextChild d n = Ok o /\ forall c, o = Some c ->
    hasProperty d c "nodeValue" = true
    /\ forall s, let d' := snd (writeProperty c "nodeValue" (VStr s) d) in
         html d' = html d \/ html d' = htmlOfText s;
  ct_empty : htmlOfText "" = "" /\ textOfHtml "" = "";
  ct_roundtrip s : textOfHtml (htmlOfText s) = s }.
Context `{CT : !ContentHost}.

(** ** Validated rows *)

Inductive validRow : resetEntry -> Prop :=
| vr_html p id v : validRow (mkResetEntry ENTRY_SET_INNER_HTML "innerHTML" "setInnerHTML" p "innerHTML" id v)
| vr_set p id v :
    validRow (mkResetEntry "setTextContent" "textContent" "setTextContent" p "textContent" id v)
| vr_reset p id :
    validRow (mkResetEntry "resetTextContent" "textContent" "resetTextContent" p "textContent" id "").

Lemma validateText_ok d row op rv e :
  validateTextContentMutationRow d n row op rv = Ok e ->
  exists p id v, e = mkResetEntry op "textContent" op p "textContent" id v
    /\ forall r, rv = Some r -> v = r.
Proof.
  unfold validateTextContentMutationRow. intros [_ H]%bind_require.
  destruct (entryValue _) as [| | | |v| | | |]; try done. apply bind_require in H as [_ H].
  apply bind_require in H as [Hr H]. apply bind_Ok in H as (id & _ & [= <-]).
  do 3 eexists. split; [done|]. intros r ->. by bools.
Qed.

Lemma validateRow_ok d i e : validateDangerousHtmlTextResetFakeDomRow d n i = Ok e -> validRow e.
Proof.
  destruct i as [v|row]; [done|]. unfold validateDangerousHtmlTextResetFakeDomRow.
  intros [_ H]%bind_require. destruct (isStr _ ENTRY_UNSUPPORTED); [done|].
  destruct (isStr _ ENTRY_SET_INNER_HTML).
  { apply bind_Ok in H as (x & _ & H). apply bind_Ok in H as (id & _ & H).
    destruct (entryValue x); try done. injection H as <-. constructor. }
  destruct (isStr _ "setTextContent").
  { apply validateText_ok in H as (p & id & v & -> & _). constructor. }
  destruct (isStr _ "resetTextContent"); [|done].
  apply validateText_ok in H as (p & id & v & -> & Hv). rewrite (Hv "" eq_refl). constructor.
Qed.

Lemma validateRows_ok d l entries :
  mapRes (validateDangerousHtmlTextResetFakeDomRow d n) l = Ok entries -> Forall validRow entries.
Proof.
  intros Hf%mapRes_Ok. clear -Hf. induction Hf; constructor; eauto using validateRow_ok.
Qed.

(** ** Snapshots and their application *)

Lemma htmlSnapshot d : getInnerHtmlRollbackSnapshot heap d n = Ok (html d).
Proof. unfold getInnerHtmlRollbackSnapshot. destruct (ct_html d) as [-> H]. simpl. by rewrite H. Qed.

Lemma textSnapshot d : getTextContentRollbackSnapshot heap d n = Ok (textOfHtml (html d)).
Proof. unfold getTextContentRollbackSnapshot. destruct (ct_text d) as [-> H]. simpl. by rewrite H. Qed.

(** The rollback record of a row. *)
Definition rowRecord (d0 : D) (e : resetEntry) : rollbackRecord Node :=
  if isTextContentResetEntry e then TextContentRollback None (Some (html d0)) (textOfHtml (html d0))
  else InnerHtmlRollback None (html d0).

Lemma rowRecord_ok d e : validRow e ->
  createDangerousHtmlTextResetFakeDomRollbackRecord heap d n e = Ok (Some (rowRecord d e)).
Proof.
  destruct 1; unfold createDangerousHtmlTextResetFakeDomRollbackRecord; simpl.
  - unfold createInnerHtmlPayloadRollbackRecord. by rewrite htmlSnapshot, ct_children.
  - unfold createTextContentPayloadRollbackRecord. destruct (ct_html d) as [-> _].
    by rewrite htmlSnapshot, textSnapshot, ct_children.
  - unfold createTextContentPayloadRollbackRecord. destruct (ct_html d) as [-> _].
    by rewrite htmlSnapshot, textSnapshot, ct_children.
Qed.

Lemma rowRecords_ok d entries : Forall validRow entries ->
  createDangerousHtmlTextResetFakeDomRollbackRecords heap d n entries
  = Ok (map (fun e => Some (rowRecord d e)) entries).
Proof.
  unfold createDangerousHtmlTextResetFakeDomRollbackRecords.
  induction 1 as [|e es He _ IH]; simpl; [done|]. by rewrite rowRecord_ok, IH.
Qed.

Lemma setText_html s d : let d' := snd (setTextContent heap (inr n) (VStr s) d) in
  html d' = html d \/ html d' = htmlOfText s.
Proof.
  unfold setTextContent, setNodeTextContent. simpl. destruct (ct_text d) as [-> _]. simpl.
  case_bool_decide as Hs; [subst; apply ct_write|].
  destruct (ct_child d) as (o & -> & Ho). simpl. destruct o as [c|]; [|apply ct_write].
  destruct (Ho c eq_refl) as [Hn Hw]. unfold setTextNodeValue. simpl. rewrite Hn. apply Hw.
Qed.

(** The markup that applying a prefix of the rows can leave. *)
Definition touchedBy (d0 : D) (es : list resetEntry) (h : string) : Prop :=
  h = html d0
  \/ Exists (fun e => isTextContentResetEntry e = false) es
  \/ (es <> [] /\ exists s, h = htmlOfText s).

Lemma apply_touched d0 es e d : validRow e -> touchedBy d0 es (html d) ->
  touchedBy d0 (es ++ [e]) (html (snd (applyDangerousHtmlTextResetFakeDomRow heap n e d))).
Proof.
  intros He Ht. assert (Hsame : forall s h, h = html d \/ h = htmlOfText s -> touchedBy d0 (es ++ [e]) h).
  { intros s h [->| ->]; [|right; right; split; [by destruct es|eauto]].
    destruct Ht as [Ht|[Ht|[Hne Ht]]]; [by left|right; left|right; right].
    - apply Exists_app. by left.
    - split; [by destruct es|done]. }
  destruct He as [p id v|p id v|p id].
  - right. left. apply Exists_app. right. by constructor.
  - apply (Hsame v), setText_html.
  - apply (Hsame ""), setText_html.
Qed.

Lemma applyRows_touched d0 entries done_ d o limit d' k :
  Forall validRow entries -> touchedBy d0 done_ (html d) -> length done_ = k ->
  applyLoop (applyDangerousHtmlTextResetFakeDomRow heap n) entries k d = (o, limit, d') ->
  touchedBy d0 (take limit (done_ ++ entries)) (html d')
  /\ k <= limit <= k + length entries /\ (o = Ok tt -> limit = k + length entries).
Proof.
  intros Hv. revert done_ k d. induction Hv as [|e es He _ IH]; intros done_ k d Ht Hk; simpl.
  - intros [= <- <- <-]. rewrite app_nil_r, take_ge by lia. split; [done|]. lia.
  - pose proof (apply_touched d0 done_ e d He Ht) as Ht'.
    destruct (applyDangerousHtmlTextResetFakeDomRow heap n e d) as [[[]|err] d1].
    + intros H. replace (done_ ++ e :: es) with ((done_ ++ [e]) ++ es) by (by rewrite <- app_assoc).
      apply (IH (done_ ++ [e])) in H as (H1 & H2 & H3); [|done|rewrite length_app; simpl; lia].
      split; [done|]. split; [lia|]. intros Ho. rewrite (H3 Ho). lia.
    + intros [= <- <- <-]. split; [|split; [lia|done]].
      assert (Htake : take (S k) (done_ ++ e :: es) = done_ ++ [e]).
      { rewrite cons_middle, app_assoc. apply take_app_length'. rewrite length_app. simpl. lia. }
      by rewrite Htake.
Qed.

Lemma restoreHtml d0 d : exists d', writeProperty n "innerHTML" (VStr (html d0)) d = (Ok tt, d')
  /\ html d' = html d0.
Proof. apply ct_restore. Qed.

(** One rollback step. *)
Lemma rollback_row d0 es e d : validRow e -> touchedBy d0 (es ++ [e]) (html d) ->
  exists d', applyDomPropertyPayloadRollbackRecord heap n (rowRecord d0 e) d = (Ok tt, d')
    /\ touchedBy d0 es (html d').
Proof.
  intros He Ht.
  assert (Hexact : forall d', html d' = html d0 -> touchedBy d0 es (html d')) by (intros; by left).
  destruct (ct_restore d0 d) as (d1 & Hw & Hd1). destruct ct_empty as [He1 He2].
  unfold rowRecord. destruct (isTextContentResetEntry e) eqn:Ee.
  - simpl. unfold unless, textContentRollbackRecordMatchesCurrentValue,
      shouldRollbackTextContentViaInnerHTML. simpl.
    destruct (decide (html d0 = "")) as [Hh|Hh].
    + rewrite Hh. rewrite bool_decide_eq_true_2 by done. simpl. rewrite textSnapshot, He2. simpl.
      destruct (decide (textOfHtml (html d) = "")) as [Htx|Htx].
      * rewrite bool_decide_eq_true_2 by done. simpl. exists d. split; [done|].
        destruct Ht as [Ht|[Ht|[_ [s Ht]]]]; [by left|right; left|left].
        -- apply Exists_app in Ht as [Ht|Ht]; [done|]. apply Exists_cons in Ht as [Ht|Ht]; [congruence|].
           by inversion Ht.
        -- rewrite Ht, ct_roundtrip in Htx. subst s. congruence.
      * rewrite bool_decide_eq_false_2 by done. simpl. unfold applyTextContentRollbackRecord,
          shouldRollbackTextContentViaInnerHTML. simpl. rewrite textSnapshot. simpl.
        rewrite bool_decide_eq_false_2 by done. unfold setNodeTextContent. simpl.
        destruct (ct_text d) as [-> _]. simpl. destruct (ct_clear d) as (d2 & -> & Hd2). simpl.
        exists d2. split; [done|]. apply Hexact. congruence.
    + rewrite bool_decide_eq_false_2 by done. simpl. rewrite htmlSnapshot. simpl.
      case_bool_decide as Hm; simpl.
      * rewrite textSnapshot. simpl. rewrite Hm, bool_decide_eq_true_2 by done. simpl.
        exists d. split; [done|]. by apply Hexact.
      * unfold applyTextContentRollbackRecord, shouldRollbackTextContentViaInnerHTML. simpl.
        rewrite (bool_decide_eq_false_2 (html d0 = "")) by done. simpl. rewrite htmlSnapshot. simpl.
        rewrite bool_decide_eq_false_2 by done. rewrite Hw. simpl. exists d1. split; [done|]. auto.
  - simpl. unfold unless, innerHtmlRollbackRecordMatchesCurrentValue. rewrite htmlSnapshot. simpl.
    case_bool_decide as Hm; simpl; [exists d; auto|]. unfold applyInnerHtmlRollbackRecord.
    rewrite htmlSnapshot. simpl. rewrite bool_decide_eq_false_2 by done. rewrite Hw. simpl. eauto.
Qed.

Lemma rollback_rows d0 es d : Forall validRow es -> touchedBy d0 es (html d) ->
  exists d', rollbackLoop heap n (rev (map (fun e => Some (rowRecord d0 e)) es)) None d = (Ok tt, d')
    /\ html d' = html d0.
Proof.
  revert d. induction es as [|e es IH] using rev_ind; intros d Hv Ht.
  - exists d. split; [done|]. destruct Ht as [?|[Ht|[? _]]]; [done|by inversion Ht|done].
  - apply Forall_app in Hv as [Hv He]. apply Forall_cons in He as [He _].
    rewrite map_app, List.rev_app_distr. simpl.
    destruct (rollback_row d0 es e d He Ht) as (d1 & -> & H1). by apply IH.
Qed.

Lemma rowCounts entries : Forall validRow entries ->
  countKind ENTRY_SET_INNER_HTML entries + countKind "setTextContent" entries
    + countKind "resetTextContent" entries = length entries
  /\ countKind "setTextContent" entries + countKind "resetTextContent" entries
     = length (List.filter isTextContentResetEntry entries).
Proof.
  unfold countKind. induction 1 as [|e es He _ [IH1 IH2]]; [done|]. destruct He; simpl; lia.
Qed.

Lemma earlyEvidence entries e :
  evidenceOk e (attachDangerousHtmlTextResetRollbackEvidence (Node := Node) e entries false None 0 None).
Proof.
  unfold evidenceOk, attachDangerousHtmlTextResetRollbackEvidence. destruct (errorIsObject e); [|done].
  eexists. split; [done|]. simpl. split_and!; done || lia.
Qed.

Lemma rowRecordCount d0 (entries : list resetEntry) :
  rollbackRecordCount (map (fun e => Some (rowRecord d0 e)) entries) = length entries.
Proof. unfold rollbackRecordCount. induction entries as [|e es IH]; [done|]. simpl. f_equal. exact IH. Qed.

Lemma rowIndices (entries : list resetEntry) :
  rm_rowIndex <$> imap createDangerousHtmlTextResetFakeDomMutationRecord entries = seq 0 (length entries).
Proof.
  apply list_eq. intros i. rewrite list_lookup_fmap, list_lookup_imap.
  destruct (entries !! i) as [x|] eqn:E; simpl.
  - symmetry. apply lookup_seq. apply lookup_lt_Some in E. lia.
  - symmetry. apply lookup_seq_ge. by apply lookup_ge_None in E.
Qed.

(** A failed row: what was applied is rolled back. *)
Lemma failReset_ok d0 entries limit e w : Forall validRow entries -> 0 < limit <= length entries ->
  touchedBy d0 (take limit entries) (html (rw_host w)) ->
  exists ev w', failReset heap n (Some entries) (Some (map (fun e => Some (rowRecord d0 e)) entries))
                  limit e w = (Throw e, ev, w')
    /\ html (rw_host w') = html d0 /\ rw_resets w' = rw_resets w /\ evidenceOk e ev.
Proof.
  intros Hv Hlim Ht. unfold failReset. destruct (Nat.ltb_spec 0 limit); [|lia].
  unfold rollbackDomPropertyPayloadEntries. rewrite List.firstn_map.
  destruct (rollback_rows d0 (take limit entries) (rw_host w)) as (d' & -> & Hd'); [by apply Forall_take|done|].
  do 2 eexists. split; [done|]. split; [done|]. split; [done|].
  unfold evidenceOk, attachDangerousHtmlTextResetRollbackEvidence. destruct (errorIsObject e); [|done].
  eexists. split; [done|]. simpl. destruct (Nat.ltb_spec 0 limit); [|lia]. split_and!; done || lia.
Qed.

(** the dangerousHTML and text reset rows are one transaction. If a row is rejected or
    the host throws, the node's markup is as before, nothing is registered, and the
    evidence tells that everything tried was undone. On return the payload is registered
    for the node, with a numbered mutation record and a rollback record per row and counts
    by kind that add up, and rolling the record back at once restores the markup. *)
Theorem reset_rows_atomic rows w :
  let '(r, ev, w') := applyDangerousHtmlTextResetFakeDomRows heap (inr n) rows w in
  match r with
  | Throw e => html (rw_host w') = html (rw_host w) /\ rw_resets w' = rw_resets w
      /\ (ev = None \/ evidenceOk e ev)
  | Ok record => ev = None /\ isDangerousHtmlTextResetFakeDomTarget w (inr n) = true
      /\ exists l p, rows = Some l
      /\ getDangerousHtmlTextResetFakeDomMutationPayload w' (Some record) = Some p
      /\ rp_node p = n /\ rm_rowIndex <$> rp_mutationRecords p = seq 0 (length l)
      /\ rp_rollbackRecordCount p = length l
      /\ rp_setInnerHTMLCount p + rp_textContentRowCount p = length l
      /\ rp_setTextContentCount p + rp_resetTextContentCount p = rp_textContentRowCount p
      /\ exists w3, rollbackDangerousHtmlTextResetFakeDomMutation heap (Some record) w'
                    = (Ok (length l), w3)
           /\ html (rw_host w3) = html (rw_host w)
  end.
Proof.
  unfold applyDangerousHtmlTextResetFakeDomRows, assertDangerousHtmlTextResetFakeDomTarget.
  cbn [assertDomLikeObject bind].
  destruct (isDangerousHtmlTextResetFakeDomTarget w (inr n)) eqn:Etarget; cbn [require bind]; [|simpl; by auto].
  destruct rows as [l|]; cbn [bind]; [|simpl; by eauto using earlyEvidence].
  destruct (mapRes _ l) as [entries|e] eqn:E; [|simpl; by eauto using earlyEvidence].
  pose proof (validateRows_ok _ _ _ E) as Hv. apply mapRes_Ok, Forall2_length in E.
  rewrite (rowRecords_ok (rw_host w) entries Hv).
  destruct (applyLoop _ entries 0 (rw_host w)) as [[o limit] d1] eqn:Eloop.
  destruct (applyRows_touched (rw_host w) entries [] (rw_host w) o limit d1 0 Hv)
    as (Ht & Hlim & Hok); [by left|done|exact Eloop|]. simpl in Ht.
  destruct o as [[]|err].
  - rewrite (Hok eq_refl) in Ht. simpl in Ht. rewrite take_ge in Ht by lia.
    destruct (rollback_rows (rw_host w) entries d1 Hv Ht) as (d3 & Hr & Hd3).
    destruct (rowCounts entries Hv) as [Hc1 Hc2].
    cbn [createDangerousHtmlTextResetFakeDomMutationRecords]. split; [done|]. split; [done|].
    eexists l, _. split; [done|].
    unfold rollbackDangerousHtmlTextResetFakeDomMutation, getDangerousHtmlTextResetFakeDomMutationPayload,
      lookupRecord. simpl. rewrite lookup_insert_eq. split; [done|]. simpl.
    rewrite rowIndices, rowRecordCount, E. split_and!; try done; try lia.
    unfold rollbackDomPropertyPayloadEntries. rewrite firstn_all, Hr. eexists. by split.
  - apply applyLoop_limit in Eloop as Hl.
    destruct (failReset_ok (rw_host w) entries limit err (mkResetWorld d1 (rw_resets w)) Hv)
      as (ev & w' & -> & H1 & H2 & H3); [lia|done|]. auto.
Qed.
End ResetSpec.
