(* ===== verification/DomDemo.v ===== *)
(** * A host DOM for concrete inputs

    A small host that satisfies the laws of [ChannelHost], [TreeHost] and [TextHost], and
    the instances of the DOM theorems at concrete nodes. Nodes are numbers: odd ones are
    text nodes, even ones elements. Property writes of numbers throw, and so does adding a
    child to a text node. *)
From S2P Require Import Prelude JsValue PropertyPayload PropertyPayloadSpec DomHost DomPayload DomTree DomCommit DomCommitSpec DomTreeSpec DomHtmlReset DomHtmlResetSpec.

(** ** The host *)

Record dom : Type := mkDom {
  cells : gmap (nat * (string * string)) value;
  children : gmap nat (list nat);
  parents : gmap nat nat }.

Definition isText (n : nat) : bool := Nat.odd n.
Definition kidsOf (d : dom) (n : nat) : list nat :=
  if isText n then [] else default [] (children d !! n).
Definition cell (d : dom) (n : nat) (kind name : string) : option value := cells d !! (n, (kind, name)).
Definition stringCell (d : dom) (n : nat) (kind name : string) : string :=
  match cell d n kind name with Some (VStr s) => s | _ => "" end.
Definition setCell (n : nat) (kind name : string) (v : value) (d : dom) : dom :=
  mkDom (<[(n, (kind, name)) := v]> (cells d)) (children d) (parents d).

Definition readCell (d : dom) (n : nat) (name : string) : value :=
  if bool_decide (name = "nodeType") then VNum (Finite (if isText n then 3 else 1) 0)
  else if bool_decide (name = "nodeName") then VStr (if isText n then "#text" else "DIV")
  else if bool_decide (name = "innerHTML") then VStr (stringCell d n "property" "innerHTML")
  else match cell d n "property" name with
       | Some (VNum _) => VNull
       | Some v => v
       | None => VUndef
       end.

Definition textOf (d : dom) (n : nat) : string :=
  if isText n then stringCell d n "property" "nodeValue"
  else stringCell d (match kidsOf d n with [c] => if isText c then c else n | _ => n end)
         "property" (match kidsOf d n with [c] => if isText c then "nodeValue" else "textContent"
                     | _ => "textContent" end).

Definition withoutKid (c : nat) (l : list nat) : list nat := without c l.

Definition place (p c : nat) (l : list nat) (d : dom) : dom :=
  mkDom (cells d) (<[p := l]> (withoutKid c <$> children d)) (<[c := p]> (parents d)).
Definition detach (p c : nat) (d : dom) : dom :=
  mkDom (cells d) (<[p := without c (kidsOf d p)]> (children d)) (delete c (parents d)).

Definition assignProperty (n : nat) (name : string) (v : value) (d : dom) : effect dom unit :=
  match v with
  | VNum _ => (Throw (TypeError "number refused"), d)
  | _ =>
      if bool_decide (name = "textContent") then
        if isText n then (Ok tt, setCell n "property" "nodeValue" v d)
        else (Ok tt, setCell n "property" "textContent" v
                       (mkDom (cells d) (delete n (children d))
                          (foldr delete (parents d) (kidsOf d n))))
      else (Ok tt, setCell n "property" name v d)
  end.

#[export] Instance demoHost : Host nat dom := {|
  hasMethod _ _ _ := true;
  hasProperty _ n name := if bool_decide (name = "nodeValue") then isText n else true;
  readProperty d n name := Ok (readCell d n name);
  writeProperty := assignProperty;
  callSetAttribute n a v d := (Ok tt, setCell n "attribute" a (VStr v) d);
  callRemoveAttribute n a d :=
    (Ok tt, mkDom (delete (n, ("attribute", a)) (cells d)) (children d) (parents d));
  callHasAttribute d n a :=
    Ok (VBool (match cell d n "attribute" a with Some (VStr _) => true | _ => false end));
  callGetAttribute d n a :=
    Ok (match cell d n "attribute" a with Some (VStr s) => VStr s | _ => VNull end);
  attributesMap _ _ := None;
  styleIsObject _ _ := true;
  styleHasMethod _ _ _ := true;
  callSetStyleProperty n s v d := (Ok tt, setCell n "style" s (VStr v) d);
  callGetPropertyValue d n s := Ok (VStr (stringCell d n "style" s));
  stylePropertiesMap _ _ := None;
  readStyle d n s := Ok (VStr (stringCell d n "assigned style" s));
  writeStyle n s v d := (Ok tt, setCell n "assigned style" s (VStr v) d);
  parentNode d n := parents d !! n;
  firstChild d n := Some (head (kidsOf d n));
  lastChild d n := Some (last (kidsOf d n));
  childNodes _ _ := None;
  ownerDocument _ _ := None;
  writeParentNode n p d :=
    (Ok tt, mkDom (cells d) (children d) (partial_alter (fun _ => p) n (parents d)));
  writeChildNodes n l d := (Ok tt, mkDom (cells d) (<[n := l]> (children d)) (parents d));
  callAppendChild p c d :=
    if isText p then (Throw (HostError "HierarchyRequestError"), d)
    else (Ok c, place p c (without c (kidsOf d p) ++ [c]) d);
  callInsertBefore p c b d :=
    if isText p then (Throw (HostError "HierarchyRequestError"), d)
    else (Ok c, if bool_decide (b = c) then d else place p c (putBefore c b (without c (kidsOf d p))) d);
  callRemoveChild p c d := (Ok c, detach p c d);
  callCreateElement n _ d := (Ok (inr 2), d);
  callCreateTextNode n _ d := (Ok (inr 1), d) |}.

(** ** Its channels *)

Definition demoLook (n : nat) (d : dom) (c : channel) : value :=
  match c with
  | CAttribute a => match cell d n "attribute" a with Some (VStr s) => VStr s | _ => VNull end
  | CProperty p => readCell d n p
  | CStyle true s => VStr (stringCell d n "style" s)
  | CStyle false s => VStr (stringCell d n "assigned style" s)
  end.

Definition demoTouched (c : channel) : Prop :=
  match c with CProperty p => p ∉ ["nodeType"; "nodeName"; "textContent"] | _ => True end.

(** Where a channel is stored. *)
Definition key (c : channel) : string * string :=
  match c with
  | CAttribute a => ("attribute", a)
  | CProperty p => ("property", p)
  | CStyle b s => (if b then "style" else "assigned style", s)
  end.

Lemma key_inj c c' : key c = key c' -> c = c'.
Proof. destruct c as [|p|[] s], c' as [|p'|[] s']; simpl; congruence. Qed.

Lemma look_cell n d d' c : cells d' !! (n, key c) = cells d !! (n, key c) ->
  demoLook n d' c = demoLook n d c.
Proof.
  intros H. destruct c as [a|p|[] s]; simpl in *; unfold readCell, stringCell, cell; simpl; try by rewrite H.
  do 2 (case_bool_decide; [done|]). case_bool_decide; [subst|]; by rewrite H.
Qed.

Lemma write_cells n c v d : demoTouched c ->
  (exists e, writeChannel n c v d = (Throw e, d))
  \/ exists d', writeChannel n c v d = (Ok tt, d')
      /\ forall c', c' <> c -> cells d' !! (n, key c') = cells d !! (n, key c').
Proof.
  intros Ht.
  assert (Hne : forall c', c' <> c -> (n, key c) <> (n, key c')).
  { intros c' Hne [= E]. by apply Hne, key_inj. }
  assert (Hset : forall (m : gmap (nat * (string * string)) value) (w : value) c', c' <> c ->
    <[(n, key c) := w]> m !! (n, key c') = m !! (n, key c')).
  { intros. by apply lookup_insert_ne, Hne. }
  assert (Hdel : forall (m : gmap (nat * (string * string)) value) c', c' <> c ->
    delete (n, key c) m !! (n, key c') = m !! (n, key c')).
  { intros. by apply lookup_delete_ne, Hne. }
  clear Hne. destruct c as [a|p|b s]; simpl in *.
  - right. destruct v; eexists; (split; [done|]); intros c' Hne; simpl; auto.
  - unfold assignProperty. rewrite (bool_decide_eq_false_2 (p = "textContent")) by set_solver.
    destruct v; eauto; right; eexists; (split; [done|]); intros c' Hne; simpl; auto.
  - right. destruct b, v; eexists; (split; [done|]); intros c' Hne; simpl; auto.
Qed.

Lemma readCell_ordinary d n p : p ∉ ["nodeType"; "nodeName"; "innerHTML"] ->
  readCell d n p = match cell d n "property" p with
                   | Some (VNum _) => VNull | Some v => v | None => VUndef end.
Proof. intros H. unfold readCell. by rewrite !bool_decide_eq_false_2 by set_solver. Qed.

Lemma assign_held n p d0 d : p ∉ ["nodeType"; "nodeName"; "textContent"] ->
  exists d', assignProperty n p (readCell d0 n p) d = (Ok tt, d') /\ readCell d' n p = readCell d0 n p.
Proof.
  intros Ht. unfold assignProperty. rewrite (bool_decide_eq_false_2 (p = "textContent")) by set_solver.
  destruct (decide (p = "innerHTML")) as [->|Hi].
  - eexists. split; [done|]. unfold readCell, stringCell, cell. simpl. by rewrite lookup_insert_eq.
  - rewrite !(readCell_ordinary d0) by set_solver.
    destruct (cell d0 n "property" p) as [[]|]; eexists; (split; [done|]);
      rewrite readCell_ordinary by set_solver; unfold cell; simpl; by rewrite lookup_insert_eq.
Qed.

#[export] Instance demoChannels n : ChannelHost n demoTouched (demoLook n).
Proof.
  split; try done.
  - intros d a. simpl. destruct (cell d n "attribute" a) as [[]|]; eauto.
  - intros d a. simpl. by destruct (cell d n "attribute" a) as [[]|].
  - intros d. split; [done|]. simpl. unfold readCell. simpl. eauto.
  - intros d [] s; simpl; eauto.
  - intros c c' v d Hc _ Hne. destruct (write_cells n c v d Hc) as [[e ->]|(d' & -> & H)]; [done|].
    simpl. by apply look_cell, H.
  - intros c d0 d Hc. destruct c as [a|p|b s]; simpl.
    + destruct (cell d0 n "attribute" a) as [[]|]; eexists; (split; [done|]); simpl;
        unfold cell; simpl; by rewrite ?lookup_insert_eq, ?lookup_delete_eq.
    + by apply assign_held.
    + destruct b; eexists; (split; [done|]); simpl; unfold stringCell, cell; simpl;
        by rewrite lookup_insert_eq.
Qed.

Lemma demo_storing n : storing n demoTouched (demoLook n).
Proof.
  intros [a|p|b s] v d d' _; simpl; [|by destruct v|].
  - destruct v; try done; intros _ [= <-]; unfold cell; simpl;
      by rewrite ?lookup_insert_eq, ?lookup_delete_eq.
  - destruct b, v; try done; intros _ [= <-]; unfold stringCell, cell; simpl;
      by rewrite lookup_insert_eq.
Qed.

(** ** Its tree *)

Lemma kids_place p c l d x : isText p = false -> kidsOf (place p c l d) x
  = if bool_decide (x = p) then l else without c (kidsOf d x).
Proof.
  intros Hp. unfold kidsOf, place. simpl.
  case_bool_decide; [subst; by rewrite Hp, lookup_insert_eq|].
  rewrite lookup_insert_ne, lookup_fmap by done. destruct (isText x); [done|].
  by destruct (children d !! x).
Qed.

Lemma place_moved p c l d : isText p = false -> moved kidsOf d (place p c l d) p c l.
Proof.
  intros Hp. split_and!; intros; rewrite ?kids_place by done; [by rewrite bool_decide_eq_true_2|
    by rewrite bool_decide_eq_false_2|]. simpl. case_bool_decide; [subst; apply lookup_insert_eq|].
  by apply lookup_insert_ne.
Qed.

#[export] Instance demoTree : TreeHost kidsOf.
Proof.
  split; try done.
  - intros. by left.
  - intros d p c. simpl. destruct (isText p) eqn:Hp; [done|]. split; [done|]. by apply place_moved.
  - intros d p c b _. simpl. destruct (isText p) eqn:Hp; [done|]. split; [done|].
    case_bool_decide; [done|]. by apply place_moved.
  - intros d p c Hc. simpl. split; [done|]. unfold detach. split_and!; simpl.
    + unfold kidsOf at 1. simpl. rewrite lookup_insert_eq. destruct (isText p) eqn:Hp; [|done].
      unfold kidsOf in Hc. rewrite Hp in Hc. set_solver.
    + intros x Hx. unfold kidsOf. simpl. by rewrite lookup_insert_ne.
    + intros x. case_bool_decide; [subst; apply lookup_delete_eq|]. by apply lookup_delete_ne.
Qed.

Lemma stringCell_set d n k a v n' k' a' : stringCell (setCell n k a v d) n' k' a'
  = if bool_decide ((n, (k, a)) = (n', (k', a')))
    then match v with VStr s => s | _ => "" end else stringCell d n' k' a'.
Proof.
  unfold stringCell, cell, setCell. simpl. case_bool_decide as E; [by rewrite E, lookup_insert_eq|].
  by rewrite lookup_insert_ne.
Qed.

#[export] Instance demoText : TextHost kidsOf (fun _ => isText) textOf.
Proof.
  split; try done.
  - intros d n. unfold isTextNode. simpl. unfold readCell. simpl. by destruct (isText n).
  - intros d p c Hk Ht. unfold textOf. rewrite Hk, Ht.
    destruct (isText p) eqn:Hp; [|done]. unfold kidsOf in Hk. by rewrite Hp in Hk.
  - intros d p s. simpl. unfold assignProperty. simpl. destruct (isText p) eqn:Hp; unfold textOf; rewrite Hp.
    + split; [rewrite stringCell_set; by rewrite bool_decide_eq_true_2|]. intros _.
      unfold kidsOf. by rewrite Hp.
    + assert (Hk : forall d, kidsOf (setCell p "property" "textContent" (VStr s)
        (mkDom (cells d) (delete p (children d)) (foldr delete (parents d) (kidsOf d p)))) p = []).
      { intros d0. unfold kidsOf at 1. rewrite Hp. simpl. by rewrite lookup_delete_eq. }
      rewrite Hk. split; [|done]. rewrite stringCell_set. by rewrite bool_decide_eq_true_2.
  - intros d c s Hc. simpl. unfold assignProperty. simpl. unfold textOf. rewrite Hc.
    split; [rewrite stringCell_set; by rewrite bool_decide_eq_true_2|]. split; [done|]. done.
Qed.

(** ** Concrete nodes *)

(** The element 0 has the children 2 and 4, and 2 the text node 1. *)
Definition demoDom : dom :=
  mkDom {[ (0, ("attribute", "title")) := VStr "old"; (1, ("property", "nodeValue")) := VStr "hello" ]}
    {[ 0 := [2; 4]; 2 := [1] ]} {[ 2 := 0; 4 := 0; 1 := 2 ]}.

Definition emptyDom : dom := mkDom ∅ ∅ ∅.
Definition emptyRegistry : registry (Node := nat) := mkRegistry 1 ∅ ∅ ∅ ∅.
Definition demoWorld : world (Node := nat) (D := dom) := mkWorld demoDom emptyRegistry.
Definition emptyWorld : world (Node := nat) (D := dom) := mkWorld emptyDom emptyRegistry.

Lemma demo_forest : forest kidsOf demoDom.
Proof.
  exists (fun n => match n with 0 => 0 | 1 => 2 | _ => 1 end). split.
  - intros p c. simpl. unfold kidsOf. simpl. rewrite ?lookup_insert, ?lookup_singleton, ?lookup_empty.
    destruct (decide (p = 0)) as [->|]; [|destruct (decide (p = 2)) as [->|]]; simpl;
      repeat case_decide; simplify_eq/=; try case_bool; set_solver.
  - intros p. unfold kidsOf. simpl. rewrite ?lookup_insert, ?lookup_singleton, ?lookup_empty.
    destruct (isText p); [constructor|]. repeat case_decide; simpl; apply (bool_decide_unpack _); done.
  - intros p c. simpl. rewrite ?lookup_insert, ?lookup_singleton, ?lookup_empty. repeat case_decide; intros Hp; simplify_eq/=; lia.
Qed.

(** Coverage and categories, decided on concrete entries. *)
Definition coveredb (es : list entry) : bool :=
  forallb (fun e => match entryWrite e with
                    | Some (CProperty p, _) => negb (mem p ["nodeType"; "nodeName"; "textContent"])
                    | _ => true end) es.
Lemma coveredb_ok es : coveredb es = true -> covered demoTouched es.
Proof.
  intros H. apply Forall_forall. intros e He%list_elem_of_In. unfold coveredb in H.
  rewrite List.forallb_forall in H. specialize (H e He).
  destruct (entryWrite e) as [[[a|p|b s] v]|]; try done. unfold mem in H. bools. done.
Qed.

Lemma coversPayload_ok normalize d l :
  coveredb (outcomeOf (mapRes (normalize d 0) l)) = true ->
  coversPayload (D := dom) 0 demoTouched normalize d (Some l).
Proof. intros Hc l' es [= <-] He. rewrite He in Hc. by apply coveredb_ok. Qed.

Definition noInheritedb (es : list entry) : bool :=
  forallb (fun e => negb (isKind e [ENTRY_NON_PAYLOAD]) || isString (category e)) es.
Lemma noInheritedb_ok es : noInheritedb es = true -> noInherited es.
Proof.
  intros H e He%list_elem_of_In Hk. unfold noInheritedb in H. rewrite List.forallb_forall in H.
  specialize (H e He). by rewrite Hk in H.
Qed.

(** A payload whose second entry the host refuses, and one that is accepted. *)
Definition refusedPayload : list item :=
  [inr (createSetAttributeEntry "title" "title" "new");
   inr (createPropertyEntry ENTRY_SET_PROPERTY "size" "size" (num 3))].
Definition acceptedPayload : list item :=
  [inr (createSetAttributeEntry "title" "title" "new"); inr (createSetStyleEntry "style" "width" "1px")].

Lemma failed_commit_restores_witness :
  exists w', applyAdmittedDomPropertyPayload demoHeap (inr 0) (Some refusedPayload) demoWorld
             = (Throw (TypeError "number refused"), w')
  /\ sameValue (demoLook 0 (host w') (CAttribute "title")) (VStr "old").
Proof.
  eexists. split; [reflexivity|].
  destruct (failed_commit_restores demoHeap 0 demoTouched (demoLook 0) (Some refusedPayload) demoWorld
    (TypeError "number refused") _ ltac:(by apply coversPayload_ok) eq_refl) as [H _].
  exact (H (CAttribute "title") I).
Defined.

Lemma rollback_roundtrip_witness :
  exists r w1 w3, applyAdmittedDomPropertyPayload demoHeap (inr 0) (Some acceptedPayload) demoWorld = (Ok r, w1)
  /\ rollbackDomPropertyPayloadMutationRecords demoHeap (Some r) w1 = (Ok 2, w3) /\ records w3 = records w1.
Proof.
  do 2 eexists.
  destruct (rollback_roundtrip demoHeap 0 demoTouched (demoLook 0) (Some acceptedPayload) demoWorld 1%N _
    ltac:(by apply coversPayload_ok) eq_refl) as (entries & _ & H).
  destruct (H _ eq_refl) as (w3 & Hr & Hrec & _). exists w3. split; [reflexivity|].
  split; [|exact Hrec]. etransitivity; [exact Hr|]. f_equal. exact (eq_trans (eq_sym (f_equal fst Hr)) eq_refl).
Defined.

Lemma demo_mount_renderable :
  renderable demoHeap demoTag VNull (VObj (User 2)) (mkProps true emptyProps)
    (mkProps true (demoHeap (User 2))) [] (demoMount (User 2)) (demoMount (User 2)).
Proof.
  split; try (vm_compute; reflexivity).
  - split; apply plain_literal.
  - split; apply plain_literal.
  - apply noAliasb_ok. by vm_compute.
  - split; [constructor|]. split; apply (bool_decide_unpack _); by vm_compute.
Qed.

Lemma empty_rendered : rendered demoTouched (demoLook 0) [] emptyDom.
Proof. split; intros x _; [done|]. simpl. by destruct (isCustomStyleProperty x). Qed.

Lemma commit_renders_witness :
  exists w', commitDomPropertyUpdate demoHeap (inr 0) demoTag VNull (VObj (User 2)) emptyWorld = (Ok 1%N, w')
  /\ rendered demoTouched (demoLook 0) (demoMount (User 2)) (host w').
Proof.
  pose proof (commit_renders demoHeap 0 demoTouched (demoLook 0) demoTag VNull (VObj (User 2)) _ _ _ _ _
    emptyWorld (demo_storing 0) demo_mount_renderable
    (noInheritedb_ok (demoMount (User 2)) eq_refl) (coveredb_ok (demoMount (User 2)) eq_refl) empty_rendered) as H.
  destruct (commitDomPropertyUpdate demoHeap (inr 0) demoTag VNull (VObj (User 2)) emptyWorld)
    as [r w'] eqn:E. exists w'.
  assert (Hr : r = Ok 1%N) by (apply (f_equal fst) in E; vm_compute in E; congruence).
  subst r. split; [done|]. apply H.
Defined.

Definition blockedHeap (r : ref) : jsobject := literal [("title", VStr "a"); ("innerHTML", VStr "x")].
Lemma commit_blocks_unsupported_witness :
  commitDomPropertyUpdate blockedHeap (inr 0) demoTag VNull (VObj (User 1)) demoWorld
  = (Throw (HostError BLOCKED_PROPERTY_PAYLOAD_ENTRY), demoWorld).
Proof.
  eapply (commit_blocks_unsupported blockedHeap 0 demoTouched (demoLook 0)).
  - reflexivity.
  - reflexivity.
  - apply noInheritedb_ok. by vm_compute.
  - intros [_ [H _]%Forall_cons]%Forall_cons. by vm_compute in H.
Defined.

Lemma admitted_entries_safe_witness :
  match mapRes (normalizeAdmittedDomPropertyPayloadEntry demoDom 0) acceptedPayload with
  | Ok entries => length entries = 2
  | Throw _ => False
  end.
Proof. exact (proj1 (admitted_entries_safe demoHeap 0 demoTouched (demoLook 0) acceptedPayload demoWorld)). Defined.

Lemma latest_props_atomic_witness :
  exists ev w', applyDomPropertyPayloadForLatestProps demoHeap (inr 0) (Some refusedPayload) VNull demoWorld
                = (Throw (TypeError "number refused"), ev, w')
  /\ restored demoTouched (demoLook 0) demoDom (host w')
  /\ evidenceOk (TypeError "number refused") ev.
Proof.
  do 2 eexists. split; [reflexivity|].
  pose proof (latest_props_atomic demoHeap 0 demoTouched (demoLook 0) refusedPayload VNull demoWorld
    ltac:(by apply coversPayload_ok)) as (H1 & _ & H2).
  split; [exact H1|exact H2].
Defined.

Lemma latest_props_rollback_witness :
  exists handoff ev w1 w3,
    applyDomPropertyPayloadForLatestProps demoHeap (inr 0) (Some acceptedPayload) VNull demoWorld
    = (Ok handoff, ev, w1)
  /\ rollbackDomPropertyUpdateLatestPropsHandoff demoHeap (Some handoff) w1 = (Ok 2, w3)
  /\ records w3 = records w1.
Proof.
  do 3 eexists.
  destruct (latest_props_rollback demoHeap 0 demoTouched (demoLook 0) acceptedPayload VNull demoWorld 2%N None _
    ltac:(by apply coversPayload_ok) eq_refl) as (entries & _ & H).
  destruct (H _ eq_refl) as (w3 & Hr & Hrec & _). exists w3. split; [reflexivity|].
  split; [|exact Hrec]. etransitivity; [exact Hr|]. f_equal. exact (eq_trans (eq_sym (f_equal fst Hr)) eq_refl).
Defined.

Definition inheritedHeap (r : ref) : jsobject := literal [("constructor", VStr "x")].
Lemma constructor_prop_rejected_witness :
  commitDomPropertyUpdate inheritedHeap (inr 0) (VStr "div") VNull (VObj (User 1)) demoWorld
  = (Throw (HostError INVALID_PROPERTY_PAYLOAD_ENTRY), demoWorld).
Proof. apply (constructor_prop_rejected inheritedHeap 0 demoTouched (demoLook 0) "constructor" "x"); [left|reflexivity]. Defined.

Lemma not_below_2_4 : ~ below demoDom 2 4.
Proof.
  intros H. apply rtc_inv in H as [H|(y & Hy & Hr)]; [done|]. vm_compute in Hy. injection Hy as <-.
  apply rtc_inv in Hr as [Hr|(z & Hz & _)]; [done|]. by vm_compute in Hz.
Qed.

Lemma appendChild_keeps_forest_witness :
  exists bound, forall fuel, bound <= fuel -> exists d',
    appendChild fuel (inr 2) (inr 4) demoDom = Some (Ok 4, d') /\ forest kidsOf d' /\ kidsOf d' 2 = [1; 4].
Proof.
  destruct (appendChild_keeps_forest kidsOf demoDom 2 4 demo_forest) as (bound & H).
  exists bound. intros fuel Hf. destruct (H fuel Hf) as (r & d' & H1 & H2 & _ & H3).
  destruct (H3 not_below_2_4) as [H4 H5]. simpl in H4. injection H4 as -> ->.
  eexists. split; [exact H1|]. split; [exact H2|]. reflexivity.
Defined.

Lemma insertBefore_keeps_forest_witness :
  exists bound, forall fuel, bound <= fuel -> exists d',
    insertBefore fuel (inr 2) (inr 4) (inr 1) demoDom = Some (Ok 4, d') /\ forest kidsOf d'
    /\ kidsOf d' 2 = [4; 1].
Proof.
  destruct (insertBefore_keeps_forest kidsOf demoDom 2 4 1 demo_forest) as (bound & H).
  exists bound. intros fuel Hf. destruct (H fuel Hf) as (r & d' & H1 & H2 & _ & _ & H3).
  destruct (H3 not_below_2_4 ltac:(by apply (bool_decide_unpack _))) as [H4 H5].
  simpl in H4. injection H4 as -> ->. eexists. split; [exact H1|]. split; [exact H2|]. reflexivity.
Defined.

Lemma removeChild_keeps_forest_witness :
  exists d', removeChild (inr 0) (inr 2) demoDom = (Ok 2, d') /\ forest kidsOf d' /\ kidsOf d' 0 = [4].
Proof.
  eexists. split; [reflexivity|].
  destruct (removeChild_keeps_forest kidsOf demoDom 0 2 demo_forest) as [H _].
  split; [exact H|reflexivity].
Defined.

Lemma clearContainer_clears_witness :
  exists r d', clearContainer 2 (inr 0) demoDom = Some (r, d') /\ forest kidsOf d'.
Proof.
  destruct (clearContainer_clears kidsOf demoDom 0 2 demo_forest (le_n 2))
    as (r & d' & l & rest & H1 & H2 & _). eauto.
Defined.

Lemma root_unmount_record_witness :
  exists r d', clearContainerForRootUnmount 2 (inr 0) demoDom = Some (r, d') /\ forest kidsOf d'
  /\ match r with Ok record => cl_removedChildren record = [2; 4] | Throw _ => False end.
Proof.
  destruct (root_unmount_record kidsOf demoDom 0 2 demo_forest (le_n 2)) as (r & d' & H1 & H2 & H3).
  exists r, d'. split; [exact H1|]. split; [exact H2|].
  destruct r; [apply H3|]. vm_compute in H1. discriminate.
Defined.

Lemma setTextContent_sets_witness :
  let '(r, d') := setTextContent demoHeap (inr 2) (VStr "bye") demoDom in
  r = Ok tt /\ textOf d' 2 = "bye" /\ kidsOf d' 2 = [1].
Proof.
  pose proof (setTextContent_sets demoHeap kidsOf (fun _ => isText) textOf demoDom 2 (VStr "bye") demo_forest)
    as H. simpl in H. destruct H as (H1 & _ & H2). split; [reflexivity|]. split; [exact H1|].
  destruct (H2 ltac:(done) 1 eq_refl eq_refl) as [H3 _]. rewrite H3. reflexivity.
Defined.

(** ** A node with markup

    The state is the text of a single node, and its markup is the text after an [m]; other
    markup is refused. *)

Definition markup (d : string) : string :=
  match d with EmptyString => "" | _ => "m" +:+ d end.
Definition textOfMarkup (h : string) : string :=
  match h with EmptyString => "" | String _ s => s end.
Definition assignMarkup (name : string) (v : value) (d : string) : effect string unit :=
  match v with
  | VStr s =>
      if bool_decide (name = "innerHTML") then
        if bool_decide (markup (textOfMarkup s) = s) then (Ok tt, textOfMarkup s)
        else (Throw (TypeError "markup refused"), d)
      else (Ok tt, s)
  | _ => (Ok tt, d)
  end.
Definition noMethod {A : Type} (d : string) : effect string A := (Throw (TypeError "no method"), d).

Definition markupHostOf (assign : string -> value -> string -> effect string unit) : Host unit string := {|
  hasMethod _ _ _ := false;
  hasProperty _ _ name := mem name ["innerHTML"; "textContent"];
  readProperty d _ name := Ok (VStr (if bool_decide (name = "innerHTML") then markup d else d));
  writeProperty _ := assign;
  callSetAttribute _ _ _ := noMethod;
  callRemoveAttribute _ _ := noMethod;
  callHasAttribute _ _ _ := Ok VUndef;
  callGetAttribute _ _ _ := Ok VUndef;
  attributesMap _ _ := None;
  styleIsObject _ _ := false;
  styleHasMethod _ _ _ := false;
  callSetStyleProperty _ _ _ := noMethod;
  callGetPropertyValue _ _ _ := Ok VUndef;
  stylePropertiesMap _ _ := None;
  readStyle _ _ _ := Ok VUndef;
  writeStyle _ _ _ := noMethod;
  parentNode _ _ := None;
  firstChild _ _ := Some None;
  lastChild _ _ := Some None;
  childNodes _ _ := None;
  ownerDocument _ _ := None;
  writeParentNode _ _ := noMethod;
  writeChildNodes _ _ := noMethod;
  callAppendChild _ _ := noMethod;
  callInsertBefore _ _ _ := noMethod;
  callRemoveChild _ _ := noMethod;
  callCreateElement _ _ := noMethod;
  callCreateTextNode _ _ := noMethod |}.
#[export] Instance markupHost : Host unit string := markupHostOf assignMarkup.

Lemma textOfMarkup_markup d : textOfMarkup (markup d) = d.
Proof. by destruct d. Qed.

#[export] Instance markupContent : ContentHost tt markup textOfMarkup markup.
Proof.
  split; try done.
  - intros d. split; [done|]. simpl. by rewrite textOfMarkup_markup.
  - intros d0 d. exists d0. simpl. unfold assignMarkup. simpl. rewrite textOfMarkup_markup, bool_decide_eq_true_2 by done. done.
  - intros s d. right. done.
  - intros d. by eexists.
  - intros d. eexists. split; [done|]. by intros c.
  - apply textOfMarkup_markup.
Qed.

(** Rows that set a text and then refused markup. *)
Definition refusedRows : list rowItem :=
  [inr (mkRow (mkEntry (VStr "setTextContent") VUndef VUndef (VStr "textContent") VUndef
                 (VStr "textContent") (VStr "new") VUndef VUndef None) (VStr "blocked") (VStr "row-1"));
   inr (mkRow (createSetInnerHtmlEntry "dangerouslySetInnerHTML" "<") (VStr "blocked") (VStr "row-2"))].
Definition markupWorld : resetWorld unit string := mkResetWorld "old" (mkResets 1 [tt] ∅).

Lemma reset_rows_atomic_witness :
  exists ev w', applyDangerousHtmlTextResetFakeDomRows demoHeap (inr tt) (Some refusedRows) markupWorld
                = (Throw (TypeError "markup refused"), ev, w')
  /\ markup (rw_host w') = "mold".
Proof.
  do 2 eexists. split; [reflexivity|].
  pose proof (reset_rows_atomic demoHeap tt markup textOfMarkup markup (Some refusedRows) markupWorld) as H.
  exact (proj1 H).
Defined.
