(* ===== verification/DomContent.v ===== *)
(** * Text content and dangerous HTML (dom-host/text-content.js, client/dom-property-operations.js)

    [shouldSetTextContent] tells the host elements whose content is text or markup from
    those with managed children. [createDangerousHtmlTextResetDiagnostic] compares the
    content of two props objects and names the rows that turn one into the other, for
    [applyDangerousHtmlTextResetFakeDomRows] of mutation.js. The WeakMap of diagnostics is
    the state [diagnostics]; a diagnostic is its number. Fields that the source sets to a
    constant are left out. *)
From S2P Require Import Prelude JsValue PropertyPayload DomHost DomHtmlReset.

Section Content.
Context (heap : ref -> jsobject).

(** ** Text content *)

Definition isPrimitiveText (v : value) : bool :=
  match v with VStr _ | VNum _ | VBigInt _ => true | _ => false end.

(** For props that are an object. *)
Definition shouldSetTextContentOf (type : value) (props : jsobject) : res bool :=
  if isStr type "textarea" || isStr type "noscript" then Ok false
  else
    let* children := get props "children" in
    if isPrimitiveText children then Ok true
    else
      let* html := get props "dangerouslySetInnerHTML" in
      match html with
      | VObj r => let* inner := get (heap r) "__html" in Ok (negb (nullish inner))
      | _ => Ok false
      end.

Definition shouldSetTextContent (type props : value) : res bool :=
  match props with
  | VObj r => shouldSetTextContentOf type (heap r)
  | _ => Ok false
  end.

(** ** The content of props *)

(** [normalizeProps] of dom-property-operations.js. *)
Definition normalizeContentProps (props : value) : res propsObject :=
  match props with
  | VUndef | VNull => Ok (mkProps true emptyProps)
  | VObj r => Ok (mkProps true (heap r))
  | VFun r => Ok (mkProps false (heap r))
  | _ => hostError "FAST_REACT_DOM_INVALID_HOST_PROPS"
  end.

Definition getPrimitiveChildrenText (props : propsObject) : res (option string) :=
  if hasOwn (p_object props) "children" then
    let* children := get (p_object props) "children" in
    Ok (if isPrimitiveText children then toString heap children else None)
  else Ok None.

Definition hasDangerousHtmlProp (props : propsObject) : bool :=
  hasOwn (p_object props) "dangerouslySetInnerHTML".

Definition getDangerousHtmlText (props : propsObject) : res (option string) :=
  if hasDangerousHtmlProp props then
    let* html := get (p_object props) "dangerouslySetInnerHTML" in
    match html with
    | VObj r =>
        if hasOwn (heap r) "__html" then
          let* inner := get (heap r) "__html" in
          Ok (match inner with VStr s => Some s | _ => None end)
        else Ok None
    | _ => Ok None
    end
  else Ok None.

Record contentProps : Type := mkContentProps {
  cp_contentSource : string;
  cp_html : option string;
  cp_phase : string;
  cp_props : propsObject;
  cp_shouldSetTextContent : bool;
  cp_text : option string }.

Definition contentSourceOf (props : propsObject) (text html : option string) : string :=
  match text, html with
  | Some _, Some _ => "children-and-dangerouslySetInnerHTML"
  | Some _, None => "children"
  | None, Some _ => "dangerouslySetInnerHTML"
  | None, None =>
      if hasDangerousHtmlProp props then "dangerouslySetInnerHTML-nullish-or-unsupported"
      else if hasOwn (p_object props) "children" then "children-non-text"
      else "none"
  end.

Definition describeTextOrHtmlProps (tag props : value) (phase : string) : res contentProps :=
  let* normalizedProps := normalizeContentProps props in
  let* text := getPrimitiveChildrenText normalizedProps in
  let* html := getDangerousHtmlText normalizedProps in
  let contentSource := contentSourceOf normalizedProps text html in
  let* should := if p_isObject normalizedProps
                 then shouldSetTextContentOf tag (p_object normalizedProps) else Ok false in
  Ok (mkContentProps contentSource html phase normalizedProps should text).

(** ** The decision and its rows *)

Record textResetDecision : Type := mkDecision {
  td_previousShouldSetTextContent : bool;
  td_nextShouldSetTextContent : bool;
  td_shouldResetTextContent : bool;
  td_contentResetFlagBlocked : bool;
  td_reason : string }.

Definition createTextResetDecision (previous next : contentProps) : textResetDecision :=
  let before := cp_shouldSetTextContent previous in
  let after := cp_shouldSetTextContent next in
  let shouldResetTextContent := before && negb after in
  mkDecision before after shouldResetTextContent shouldResetTextContent
    (if shouldResetTextContent then "previous-direct-text-or-html-to-managed-children"
     else if before && after then "next-direct-text-or-html-overwrites-previous-content"
     else if negb before && after then "next-direct-text-or-html-update"
     else "no-text-content-reset").

Definition createBlockedMutationRow (id : string) (e : entry) : resetRow :=
  mkRow e (VStr "blocked") (VStr id).

Definition unsupportedRow (row : entry) : resetRow :=
  createBlockedMutationRow "unsupported-property-payload-blocked"
    (mkEntry (kind row) (propName row) VUndef VUndef VUndef (VStr "unsupportedPropertyPayload")
       VUndef (category row) (reason row) None).

Definition resetTextRow : resetRow :=
  createBlockedMutationRow "dangerous-html-to-managed-child-reset-text-content-blocked"
    (mkEntry (VStr "resetTextContent") VUndef VUndef (VStr "textContent") VUndef (VStr "textContent")
       (VStr "") VUndef VUndef None).

Definition innerHtmlRow (row : entry) : resetRow :=
  createBlockedMutationRow "dangerous-html-set-inner-html-blocked"
    (mkEntry (kind row) (propName row) VUndef (propertyName row) VUndef (VStr "innerHTML")
       (entryValue row) VUndef VUndef None).

Definition setTextRow (text : string) : resetRow :=
  createBlockedMutationRow "dangerous-html-to-managed-text-set-text-content-blocked"
    (mkEntry (VStr "setTextContent") (VStr "children") VUndef (VStr "textContent") VUndef
       (VStr "textContent") (VStr text) VUndef VUndef None).

Definition isUnsupportedRow (row : entry) : bool := isStr (kind row) ENTRY_UNSUPPORTED.
Definition isInnerHtmlRow (row : entry) : bool := isStr (kind row) ENTRY_SET_INNER_HTML.

Definition createBlockedHostUpdateRows (next : contentProps) (resetDecision : textResetDecision)
    (propertyPayloadRows : list entry) : list resetRow :=
  match List.filter isUnsupportedRow propertyPayloadRows with
  | (_ :: _) as unsupportedRows => map unsupportedRow unsupportedRows
  | [] =>
      (if td_shouldResetTextContent resetDecision then [resetTextRow] else [])
        ++ map innerHtmlRow (List.filter isInnerHtmlRow propertyPayloadRows)
        ++ match cp_text next with Some text => [setTextRow text] | None => [] end
  end.

(** ** Diagnostics *)

Record contentDiagnostic : Type := mkDiagnostic {
  dg_hostTag : string;
  dg_previousText : option string;
  dg_previousHtml : option string;
  dg_previousContentSource : string;
  dg_previousShouldSetTextContent : bool;
  dg_nextText : option string;
  dg_nextHtml : option string;
  dg_nextContentSource : string;
  dg_nextShouldSetTextContent : bool;
  dg_resetDecision : textResetDecision;
  dg_propertyPayloadRows : list entry;
  dg_propertyPayloadRowsAccepted : bool;
  dg_blockedMutationRows : list resetRow;
  dg_blockedMutationRowCount : nat;
  dg_fakeDomCommitMetadataAvailable : bool }.

Record diagnosticPayload : Type := mkDiagnosticPayload {
  dp_blockedMutationRows : list resetRow;
  dp_hostTag : string;
  dp_nextProps : propsObject;
  dp_previousProps : propsObject;
  dp_propertyPayloadRows : list entry;
  dp_propertyPayloadRowsAccepted : bool;
  dp_resetDecision : textResetDecision }.

Record diagnostics : Type := mkDiagnostics {
  nextDiagnostic : N;
  dangerousHtmlTextResetDiagnosticPayloads : gmap N diagnosticPayload }.

(** Normalised props normalise to themselves, so the diff is given the arguments. *)
Definition createDangerousHtmlTextResetDiagnostic (tag previousProps nextProps : value)
    (s : diagnostics) : effect diagnostics (N * contentDiagnostic) :=
  match tag with
  | VStr t =>
      do* _, s := pureStep (require (negb (bool_decide (t = ""))) "FAST_REACT_DOM_INVALID_HOST_TAG") s in
      do* previous, s := pureStep (describeTextOrHtmlProps tag previousProps "previous") s in
      do* next, s := pureStep (describeTextOrHtmlProps tag nextProps "next") s in
      do* rows, s := pureStep (diffDomPropertyPayload heap tag previousProps nextProps) s in
      let resetDecision := createTextResetDecision previous next in
      let blocked := createBlockedHostUpdateRows next resetDecision rows in
      let accepted := forallb (fun row => negb (isUnsupportedRow row)) rows in
      let diagnostic :=
        mkDiagnostic t (cp_text previous) (cp_html previous) (cp_contentSource previous)
          (cp_shouldSetTextContent previous) (cp_text next) (cp_html next) (cp_contentSource next)
          (cp_shouldSetTextContent next) resetDecision rows accepted blocked (length blocked)
          (accepted && (0 <? length blocked)%nat) in
      let payload := mkDiagnosticPayload blocked t (cp_props next) (cp_props previous) rows accepted
                       resetDecision in
      (Ok (nextDiagnostic s, diagnostic),
       mkDiagnostics (nextDiagnostic s + 1)
         (<[nextDiagnostic s := payload]> (dangerousHtmlTextResetDiagnosticPayloads s)))
  | _ => (hostError "FAST_REACT_DOM_INVALID_HOST_TAG", s)
  end.

(** A record that is no diagnostic is [None]. *)
Definition getDangerousHtmlTextResetDiagnosticPayload (s : diagnostics) (record : option N)
    : option diagnosticPayload :=
  match record with
  | Some id => dangerousHtmlTextResetDiagnosticPayloads s !! id
  | None => None
  end.

Definition isDangerousHtmlTextResetDiagnostic (s : diagnostics) (record : option N) : bool :=
  match getDangerousHtmlTextResetDiagnosticPayload s record with Some _ => true | None => false end.
End Content.
