(* ===== verification/DomContentSpec.v ===== *)
(** * Correctness of the content rows: applied, they show the content of the next props *)
From S2P Require Import Prelude JsValue PropertyPayload PropertyPayloadSpec DomHost DomPayload DomTree DomCommit DomCommitSpec DomHtmlReset DomHtmlResetSpec DomContent.

(** ** The rows of a diff that set markup *)

Section Rows.
Context (heap : ref -> jsobject).
Abbreviation htmlProp := "dangerouslySetInnerHTML".

(** The markup of a value of the prop. *)
Definition markupOf (v : value) : option string :=
  match v with
  | VObj r => match assoc "__html" (o_own (heap r)) with Some (_, Data (VStr s)) => Some s | _ => None end
  | _ => None
  end.

Lemma markup_get r s : hasOwn (heap r) "__html" = true -> get (heap r) "__html" = Ok (VStr s) ->
  markupOf (VObj r) = Some s.
Proof.
  unfold hasOwn, get, markupOf. destruct (assoc _ _) as [[b [v|v]]|]; [|done..]. by intros _ [= ->].
Qed.

Lemma markup_getBack v s : markupOf v = Some s ->
  exists r, v = VObj r /\ hasOwn (heap r) "__html" = true /\ get (heap r) "__html" = Ok (VStr s).
Proof.
  destruct v as [| | | | | | | |r]; try done. unfold markupOf. intros H. exists r. split; [done|].
  unfold hasOwn, get. destruct (assoc _ _) as [[b [[]|?]]|]; try done. by injection H as ->.
Qed.

Lemma html_described p o : plain (p_object p) -> getDangerousHtmlText heap p = Ok o ->
  o = own (p_object p) htmlProp ≫= markupOf.
Proof.
  intros Hp. unfold getDangerousHtmlText, hasDangerousHtmlProp. rewrite plain_hasOwn, plain_get by done.
  destruct (own (p_object p) htmlProp) as [v|]; [|rewrite bool_decide_eq_false_2 by (by intros [? ?]); by intros [= <-]].
  rewrite bool_decide_eq_true_2 by done. simpl. destruct v as [| | | | | | | |r]; try by intros [= <-].
  unfold hasOwn, get, markupOf. destruct (assoc _ _) as [[b [w|w]]|]; [|done|by intros [= <-]].
  simpl. intros [= <-]. by destruct w.
Qed.

Lemma unsupportedRow_kind e : isUnsupportedRow e = isUnsupported e.
Proof.
  unfold isUnsupportedRow, isStr, isUnsupported, isKind. destruct (kind e); try by apply bool_decide_eq_false.
  apply bool_decide_ext. set_solver.
Qed.

Lemma unsupported_markup e : isUnsupported e = true -> isInnerHtmlRow e = true -> False.
Proof.
  rewrite <- unsupportedRow_kind. unfold isInnerHtmlRow, isUnsupportedRow, isStr.
  intros H1%bool_decide_eq_true H2%bool_decide_eq_true. rewrite H1 in H2. discriminate.
Qed.

(** Only the prop for markup sets markup, to that of its value. *)
Lemma innerHtml_entry tag k v pv q es e :
  createEntries heap tag k v pv q = Ok es -> e ∈ es -> isInnerHtmlRow e = true ->
  k = htmlProp /\ exists s, e = createSetInnerHtmlEntry htmlProp s /\ markupOf v = Some s.
Proof.
  intros H He Hk. destruct (createEntries_of _ _ _ _ _ _ _ H) as [a kd _|es -> Hs|e' -> Hd|c r _|c r _|e' Hu _ _].
  - apply list_elem_of_singleton in He as ->. destruct kd; simpl in Hk; unfold coerceSetAttributeEntry in Hk;
      repeat (case_match || case_bool); done.
  - destruct (createStyleEntries_shape heap _ _ _ _ _ Hs He) as [[Hu _]|[(y & -> & _)|(y & x & -> & _)]]; [|done..].
    by destruct (unsupported_markup _ Hu).
  - apply list_elem_of_singleton in He as ->. split; [done|].
    assert (Hown : forall r, v = VObj r -> hasOwn (heap r) "__html" = true).
    { intros r ->. unfold createDangerousHtmlEntry in Hd. simpl in Hd.
      destruct (hasOwn (heap r) "__html"); [done|]. by injection Hd as <-. }
    destruct (createDangerousHtmlEntry_shape heap _ _ _ _ Hd) as [(c & r & ->)|[[Hu _]|(x & o & ch & -> & Ho & Hg & _)]];
      [done| |].
    + by destruct (unsupported_markup _ Hu).
    + exists x. split; [done|]. destruct v as [| | | | | | | |r]; try done. injection Ho as <-. by apply markup_get; auto.
  - by apply list_elem_of_singleton in He as ->.
  - by apply list_elem_of_singleton in He as ->.
  - apply list_elem_of_singleton in He as ->. by destruct (unsupported_markup _ Hu).
Qed.

(** A supported change of the prop to markup sets it. *)
Lemma markup_entry tag v pv q es s :
  createEntries heap tag htmlProp v pv q = Ok es -> markupOf v = Some s ->
  (forall e, e ∈ es -> isUnsupportedRow e = false) -> es = [createSetInnerHtmlEntry htmlProp s].
Proof.
  unfold createEntries. cbn -[isDocumentScopedResourceTag createDangerousHtmlEntry].
  destruct (isDocumentScopedResourceTag tag).
  { intros [= <-] _ Ha. specialize (Ha _ (list_elem_of_here _ _)). done. }
  intros (e & He & [= <-])%bind_Ok (r & -> & H1 & H2)%markup_getBack Ha.
  specialize (Ha e (list_elem_of_here _ _)). unfold createDangerousHtmlEntry in He. simpl in He.
  rewrite H1, H2 in He. simpl in He. apply bind_Ok in He as (ch & _ & He).
  destruct (nullish ch); simpl in He; injection He as <-; done.
Qed.

(** The markup rows of a payload without unsupported entries. *)
Lemma diff_markup tag last next p q d hp hq :
  normalizeProps heap last "lastProps" = Ok p -> normalizeProps heap next "nextProps" = Ok q ->
  plain (p_object p) -> plain (p_object q) -> diffDomPropertyPayload heap tag last next = Ok d ->
  (forall e, e ∈ d -> isUnsupportedRow e = false) ->
  getDangerousHtmlText heap p = Ok hp -> getDangerousHtmlText heap q = Ok hq ->
  (forall e, e ∈ d -> isInnerHtmlRow e = true -> exists s, e = createSetInnerHtmlEntry htmlProp s /\ hq = Some s)
  /\ (forall s, hq = Some s -> hp <> Some s -> createSetInnerHtmlEntry htmlProp s ∈ d).
Proof.
  intros Hnp Hnq Hp Hq Hd Ha Hhp Hhq. apply html_described in Hhp, Hhq; [|done..].
  destruct (diff_parts heap tag last next p q d Hnp Hnq Hd) as (rm & ch & Hr & Hc & ->).
  destruct (diff_elem heap tag p q rm ch Hp Hq Hr Hc) as [Hiff Htot]. split.
  - intros e He Hk. apply Hiff in He as (k & v & es & Hv & Hes & He).
    destruct (innerHtml_entry _ _ _ _ _ _ _ Hes He Hk) as (-> & s & -> & Hm). exists s. split; [done|].
    rewrite Hhq. unfold changedTo in Hv. destruct (own (p_object q) htmlProp) as [w|].
    + destruct (_ || _); [done|]. by injection Hv as ->.
    + destruct (own _ _) as [w|]; [|done]. destruct (nullish w); [done|]. injection Hv as <-. done.
  - intros s Hs Hne. destruct (own (p_object q) htmlProp) as [v|] eqn:Ev; [|by rewrite Hhq in Hs].
    simpl in Hhq. rewrite Hhq in Hs.
    assert (Hch : changedTo (p_object p) (p_object q) htmlProp = Some v).
    { unfold changedTo. rewrite Ev. destruct (markup_getBack _ _ Hs) as (r & -> & _).
      set (pv := default _ _). assert (E : strictEq (VObj r) pv = false).
      { apply bool_decide_eq_false. intros E. apply Hne. rewrite Hhp. unfold pv in E.
        destruct (own (p_object p) htmlProp) as [w|]; [|by vm_compute in E]. simpl in E. subst w. exact Hs. }
      by rewrite E. }
    destruct (Htot _ _ Hch) as [es Hes].
    assert (Hsub : forall e, e ∈ es -> e ∈ rm ++ ch) by (intros e He; apply Hiff; eauto 10).
    rewrite (markup_entry _ _ _ _ _ _ Hes Hs) in Hsub by auto. apply Hsub. left.
Qed.
End Rows.

(** ** Applied to a host node *)

Section Applied.
Context {Node D : Type} `{!EqDecision Node} `{!Host Node D} (heap : ref -> jsobject).
Context (n : Node) (html : D -> string) (textOfHtml htmlOfText shown : string -> string).
Context `{CT : !ContentHost n html textOfHtml htmlOfText}.

(** Writes that succeed: the markup that is written shows as the markup the host makes of
    it, and text, also through an only text child, as its markup. *)
Class ContentWrites : Prop := {
  cw_html s d : exists d', writeProperty n "innerHTML" (VStr s) d = (Ok tt, d') /\ html d' = shown s;
  cw_text s d : exists d', writeProperty n "textContent" (VStr s) d = (Ok tt, d') /\ html d' = htmlOfText s;
  cw_child s d c : onlyTextChild d n = Ok (Some c) ->
    exists d', writeProperty c "nodeValue" (VStr s) d = (Ok tt, d') /\ html d' = htmlOfText s }.
Context `{CW : !ContentWrites}.

(** The node shows the content of the props. *)
Definition shows (c : contentProps) (d : D) : Prop :=
  match cp_text c, cp_html c with
  | Some t, _ => html d = htmlOfText t
  | None, Some s => html d = shown s
  | None, None => True
  end.

(** What the node shows after an update. *)
Definition contentAfter (previous next : contentProps) (h : string) : string :=
  match cp_text next, cp_html next with
  | Some t, _ => htmlOfText t
  | None, Some s => shown s
  | None, None => if cp_shouldSetTextContent previous && negb (cp_shouldSetTextContent next) then "" else h
  end.

Lemma setText_shows s d : exists d', setTextContent heap (inr n) (VStr s) d = (Ok tt, d') /\ html d' = htmlOfText s.
Proof.
  unfold setTextContent, setNodeTextContent. simpl. destruct (ct_text n html _ _ d) as [-> _]. simpl.
  case_bool_decide as Hs; [subst; apply cw_text|].
  destruct (ct_child n html _ _ d) as (o & Ho & Hc). rewrite Ho. simpl. destruct o as [c|]; [|apply cw_text].
  destruct (Hc c eq_refl) as [Hn _]. unfold setTextNodeValue. simpl. rewrite Hn. by apply cw_child.
Qed.

(** ** Rows of one update *)

(** The rows of an accepted update, in the order of the source. *)
Definition acceptedRows (reset : bool) (markups : list string) (text : option string) : list resetRow :=
  (if reset then [resetTextRow] else []) ++ map (fun s => innerHtmlRow (createSetInnerHtmlEntry "dangerouslySetInnerHTML" s)) markups
    ++ match text with Some t => [setTextRow t] | None => [] end.

Definition rowEntries (reset : bool) (markups : list string) (text : option string) : list resetEntry :=
  (if reset then [mkResetEntry "resetTextContent" "textContent" "resetTextContent" VNull "textContent"
                    "dangerous-html-to-managed-child-reset-text-content-blocked" ""] else [])
    ++ map (mkResetEntry ENTRY_SET_INNER_HTML "innerHTML" "setInnerHTML" (VStr "dangerouslySetInnerHTML") "innerHTML"
              "dangerous-html-set-inner-html-blocked") markups
    ++ match text with
       | Some t => [mkResetEntry "setTextContent" "textContent" "setTextContent" (VStr "children") "textContent"
                      "dangerous-html-to-managed-text-set-text-content-blocked" t]
       | None => []
       end.

Lemma rows_validated d reset markups text :
  mapRes (validateDangerousHtmlTextResetFakeDomRow d n) (map inr (acceptedRows reset markups text))
  = Ok (rowEntries reset markups text).
Proof.
  destruct (ct_html n html _ _ d) as [Hh _], (ct_text n html _ _ d) as [Ht _].
  assert (Htext : mapRes (validateDangerousHtmlTextResetFakeDomRow d n)
            (map inr (match text with Some t => [setTextRow t] | None => [] end))
          = Ok (match text with
                | Some t => [mkResetEntry "setTextContent" "textContent" "setTextContent" (VStr "children") "textContent"
                      "dangerous-html-to-managed-text-set-text-content-blocked" t]
                | None => [] end)).
  { destruct text as [t|]; [|done]. simpl. unfold validateTextContentMutationRow. by rewrite Ht. }
  assert (Hmarkup : forall l r, mapRes (validateDangerousHtmlTextResetFakeDomRow d n) l = Ok r ->
    mapRes (validateDangerousHtmlTextResetFakeDomRow d n)
      (map inr (map (fun s => innerHtmlRow (createSetInnerHtmlEntry "dangerouslySetInnerHTML" s)) markups) ++ l)
    = Ok (map (mkResetEntry ENTRY_SET_INNER_HTML "innerHTML" "setInnerHTML" (VStr "dangerouslySetInnerHTML") "innerHTML"
              "dangerous-html-set-inner-html-blocked") markups ++ r)).
  { intros l r Hl. induction markups as [|s ms IH]; [done|]. simpl. unfold validateInnerHtmlPayloadEntry. simpl.
    rewrite Hh. simpl. by rewrite IH. }
  unfold acceptedRows, rowEntries. rewrite !map_app. specialize (Hmarkup _ _ Htext).
  destruct reset; [|exact Hmarkup]. simpl. unfold validateTextContentMutationRow. rewrite Ht. simpl.
  simpl in Hmarkup. by rewrite Hmarkup.
Qed.

(** The markup that an applied row leaves. *)
Definition rowShows (e : resetEntry) : string :=
  if isTextContentResetEntry e then htmlOfText (re_value e) else shown (re_value e).

Lemma applyRow_shows e d : validRow e ->
  exists d', applyDangerousHtmlTextResetFakeDomRow heap n e d = (Ok tt, d') /\ html d' = rowShows e.
Proof.
  destruct 1 as [p id v|p id v|p id]; [apply cw_html|apply setText_shows|apply setText_shows].
Qed.

Lemma applyRows_show es k d : Forall validRow es ->
  exists d', applyLoop (applyDangerousHtmlTextResetFakeDomRow heap n) es k d = (Ok tt, k + length es, d')
    /\ html d' = foldl (fun _ e => rowShows e) (html d) es.
Proof.
  intros Hv. revert k d. induction Hv as [|e es He _ IH]; intros k d; simpl.
  - exists d. by rewrite Nat.add_0_r.
  - destruct (applyRow_shows e d He) as (d1 & -> & Hd1). destruct (IH (S k) d1) as (d' & -> & Hd').
    exists d'. rewrite Hd', Hd1. split; [|done]. do 2 f_equal. lia.
Qed.

Lemma rowEntries_valid reset markups text : Forall validRow (rowEntries reset markups text).
Proof.
  unfold rowEntries. repeat apply Forall_app_2.
  - destruct reset; repeat constructor.
  - apply Forall_map, Forall_true. constructor.
  - destruct text; repeat constructor.
Qed.

(** The markup that the rows of an update leave, when the markup rows agree. *)
Lemma rowEntries_show reset markups text h s : Forall (eq s) markups ->
  foldl (fun _ e => rowShows e) h (rowEntries reset markups text)
  = match text with
    | Some t => htmlOfText t
    | None => match markups with [] => if reset then "" else h | _ => shown s end
    end.
Proof.
  intros Hm. unfold rowEntries. rewrite !foldl_app. destruct text as [t|]; [done|]. simpl.
  set (h' := foldl _ h (if reset then _ else _)).
  assert (Hh : h' = if reset then "" else h).
  { unfold h'. destruct reset; [|done]. simpl. unfold rowShows. simpl. by destruct (ct_empty n html textOfHtml htmlOfText). }
  rewrite <- Hh. clear Hh. clearbody h'. revert h'. induction Hm as [|x ms <- Hm IH]; intros h'; [done|]. simpl.
  rewrite IH. unfold rowShows. simpl. by destruct ms.
Qed.

(** ** The rows of a diagnostic *)

Lemma described_content tag props phase c : describeTextOrHtmlProps heap tag props phase = Ok c ->
  (forall a, normalizeProps heap props a = Ok (cp_props c))
  /\ getPrimitiveChildrenText heap (cp_props c) = Ok (cp_text c)
  /\ getDangerousHtmlText heap (cp_props c) = Ok (cp_html c)
  /\ (if p_isObject (cp_props c) then shouldSetTextContentOf heap tag (p_object (cp_props c)) else Ok false)
     = Ok (cp_shouldSetTextContent c).
Proof.
  unfold describeTextOrHtmlProps. intros (p & Hp & H)%bind_Ok. apply bind_Ok in H as (text & Ht & H).
  apply bind_Ok in H as (o & Ho & H). apply bind_Ok in H as (b & Hb & [= <-]). simpl.
  split_and!; try done. intros a. destruct props; simpl in *; try done; by injection Hp as <-.
Qed.

(** Markup is content that the host element sets itself, but for two tags. *)
Lemma markup_direct tag (p : propsObject) s b b' q :
  plain (p_object p) -> getDangerousHtmlText heap p = Ok (Some s) -> shouldSetTextContentOf heap tag (p_object p) = Ok b ->
  shouldSetTextContentOf heap tag q = Ok b' -> b' = true -> b = true.
Proof.
  intros Hp Hh. unfold shouldSetTextContentOf. destruct (_ || _); [by intros _ [= <-]|].
  intros H _ _. apply bind_Ok in H as (ch & _ & H). destruct (isPrimitiveText ch); [by injection H as <-|].
  apply bind_Ok in H as (v & Hv & H). apply html_described in Hh; [|done]. rewrite plain_get in Hv by done.
  destruct (own (p_object p) _) as [w|]; [|done]. injection Hv as <-. simpl in Hh.
  destruct (markup_getBack heap w s) as (r & -> & _ & Hg); [done|]. rewrite Hg in H. simpl in H. by injection H as <-.
Qed.

Lemma markupRows (d : list entry) (o : option string) :
  (forall e, e ∈ d -> isInnerHtmlRow e = true -> exists s, e = createSetInnerHtmlEntry "dangerouslySetInnerHTML" s /\ o = Some s) ->
  exists ms, List.filter isInnerHtmlRow d = map (createSetInnerHtmlEntry "dangerouslySetInnerHTML") ms
    /\ Forall (fun s => o = Some s) ms
    /\ (forall s, createSetInnerHtmlEntry "dangerouslySetInnerHTML" s ∈ d -> ms <> []).
Proof.
  induction d as [|e d IH]; intros H; [exists []; split_and!; [done..|intros s Hs; by apply elem_of_nil in Hs]|].
  destruct IH as (ms & IH1 & IH2 & IH3); [intros; apply H; [by right|done]|]. simpl.
  destruct (isInnerHtmlRow e) eqn:E.
  - destruct (H e (list_elem_of_here _ _) E) as (s & -> & Hs). exists (s :: ms). rewrite IH1. split_and!; [done|by constructor|done].
  - exists ms. split_and!; [done..|]. intros s [Hs|Hs]%elem_of_cons; [subst e; done|by eapply IH3].
Qed.

Lemma accepted_filter (d : list entry) :
  if forallb (fun row => negb (isUnsupportedRow row)) d
  then List.filter isUnsupportedRow d = [] /\ forall e, e ∈ d -> isUnsupportedRow e = false
  else exists e l, List.filter isUnsupportedRow d = e :: l.
Proof.
  induction d as [|e d IH]; simpl; [split; [done|]; intros e He; by apply elem_of_nil in He|].
  destruct (isUnsupportedRow e) eqn:E; simpl; [eauto|]. destruct (forallb _ d); [|done].
  destruct IH as [IH1 IH2]. split; [done|]. intros x [->|Hx]%elem_of_cons; auto.
Qed.

Lemma map_inner ms : map innerHtmlRow (map (createSetInnerHtmlEntry "dangerouslySetInnerHTML") ms)
  = map (fun s => innerHtmlRow (createSetInnerHtmlEntry "dangerouslySetInnerHTML" s)) ms.
Proof. by rewrite List.map_map. Qed.

(** An admitted node and a host on which writes succeed: accepted rows are applied. *)
Lemma acceptedRows_applied reset ms text s w : isDangerousHtmlTextResetFakeDomTarget w (inr n) = true -> Forall (eq s) ms ->
  exists record w', applyDangerousHtmlTextResetFakeDomRows heap (inr n) (Some (map inr (acceptedRows reset ms text))) w
      = (Ok record, None, w')
    /\ html (rw_host w') = match text with
        | Some t => htmlOfText t
        | None => match ms with [] => if reset then "" else html (rw_host w) | _ => shown s end
        end.
Proof.
  intros Ht Hm. unfold applyDangerousHtmlTextResetFakeDomRows, assertDangerousHtmlTextResetFakeDomTarget.
  cbn [assertDomLikeObject bind]. rewrite Ht. cbn [require bind]. rewrite rows_validated.
  pose proof (rowEntries_valid reset ms text) as Hv. rewrite (rowRecords_ok heap n html _ _ (rw_host w) _ Hv).
  destruct (applyRows_show _ 0 (rw_host w) Hv) as (d' & -> & Hd').
  cbn [createDangerousHtmlTextResetFakeDomMutationRecords]. do 2 eexists. split; [done|]. simpl.
  by rewrite Hd', (rowEntries_show _ _ _ _ s).
Qed.

Lemma unsupportedRow_rejected e l w : isDangerousHtmlTextResetFakeDomTarget w (inr n) = true ->
  exists ev, applyDangerousHtmlTextResetFakeDomRows heap (inr n) (Some (map inr (map unsupportedRow (e :: l)))) w
    = (hostError UNSUPPORTED_DANGEROUS_HTML_TEXT_RESET_ROW, ev, w) \/ isUnsupportedRow e = false.
Proof.
  intros Ht. destruct (isUnsupportedRow e) eqn:E; [|exists None; by right].
  unfold applyDangerousHtmlTextResetFakeDomRows, assertDangerousHtmlTextResetFakeDomTarget.
  cbn [assertDomLikeObject bind]. rewrite Ht. cbn [require bind map mapRes validateDangerousHtmlTextResetFakeDomRow unsupportedRow
    createBlockedMutationRow row_entry row_status kind].
  unfold isUnsupportedRow in E. rewrite E. cbn. eexists. by left.
Qed.

(** C12: A content diagnostic is recorded, and its rows, applied to an admitted host node, are the
    update it announces. If the payload has an unsupported entry, the rows are rejected as
    unsupported and neither the node nor the records change. Otherwise, for props that are
    object literals, the previous ones without both text and markup, on a host whose writes
    succeed and on a node that shows the previous props, all rows are applied and
    the node shows the next props: their text, their markup, nothing when a host-set
    content gives way to managed children, and what was there when neither is set. *)
Theorem content_update_renders tag previousProps nextProps previous next s id dg s' w :
  createDangerousHtmlTextResetDiagnostic heap tag previousProps nextProps s = (Ok (id, dg), s') ->
  describeTextOrHtmlProps heap tag previousProps "previous" = Ok previous ->
  describeTextOrHtmlProps heap tag nextProps "next" = Ok next ->
  isDangerousHtmlTextResetFakeDomTarget w (inr n) = true ->
  (exists p, getDangerousHtmlTextResetDiagnosticPayload s' (Some id) = Some p
     /\ dp_blockedMutationRows p = dg_blockedMutationRows dg /\ dp_nextProps p = cp_props next /\ dp_previousProps p = cp_props previous)
  /\ if dg_propertyPayloadRowsAccepted dg
     then plain (p_object (cp_props previous)) -> plain (p_object (cp_props next)) -> p_isObject (cp_props next) = true ->
       (cp_text previous = None \/ cp_html previous = None) -> shows previous (rw_host w) ->
       exists record w', applyDangerousHtmlTextResetFakeDomRows heap (inr n) (Some (map inr (dg_blockedMutationRows dg))) w
           = (Ok record, None, w')
         /\ html (rw_host w') = contentAfter previous next (html (rw_host w)) /\ shows next (rw_host w')
     else exists ev, applyDangerousHtmlTextResetFakeDomRows heap (inr n) (Some (map inr (dg_blockedMutationRows dg))) w
           = (hostError UNSUPPORTED_DANGEROUS_HTML_TEXT_RESET_ROW, ev, w).
Proof.
  intros H Hprev Hnext Ht. unfold createDangerousHtmlTextResetDiagnostic in H.
  destruct tag as [| | | |t| | | |]; try done. case_bool_decide; [done|]. cbn [negb require pureStep andThen] in H.
  rewrite Hprev, Hnext in H. cbn [pureStep andThen] in H.
  destruct (diffDomPropertyPayload heap (VStr t) previousProps nextProps) as [d|] eqn:Hd; [|done].
  cbn [pureStep andThen] in H. injection H as <- <- <-. split.
  { eexists. simpl. by rewrite lookup_insert_eq. }
  cbn [dg_propertyPayloadRowsAccepted dg_blockedMutationRows]. pose proof (accepted_filter d) as Ha.
  unfold createBlockedHostUpdateRows. destruct (forallb _ d).
  - destruct Ha as [-> Ha]. intros Hp Hq Hobj Hone Hshows.
    apply described_content in Hprev as (Np & _ & Gp & Sp), Hnext as (Nq & Tq & Gq & Sq). rewrite Hobj in Sq.
    destruct (diff_markup heap (VStr t) previousProps nextProps _ _ d _ _ (Np _) (Nq _) Hp Hq Hd Ha Gp Gq) as [Hin Hset].
    destruct (markupRows d (cp_html next) Hin) as (ms & -> & Hms & Hne). rewrite map_inner.
    cbn [td_shouldResetTextContent createTextResetDecision].
    set (reset := cp_shouldSetTextContent previous && negb (cp_shouldSetTextContent next)).
    assert (Hall : Forall (eq (default "" (cp_html next))) ms).
    { eapply Forall_impl; [exact Hms|]. intros x Hx. by rewrite Hx. }
    destruct (acceptedRows_applied reset ms (cp_text next) _ w Ht Hall) as (record & w' & Hrun & Hw').
    exists record, w'. split; [exact Hrun|].
    assert (Hafter : html (rw_host w') = contentAfter previous next (html (rw_host w))).
    { rewrite Hw'. unfold contentAfter. destruct (cp_text next) as [x|] eqn:Ex; [done|].
      destruct (cp_html next) as [m|] eqn:Em.
      - destruct ms as [|m' ms']; [|done].
        destruct (decide (cp_html previous = Some m)) as [Hm|Hm]; [|by destruct (Hne m (Hset m eq_refl Hm))].
        unfold shows in Hshows. destruct Hone as [Ho|Ho]; [|congruence]. rewrite Ho, Hm in Hshows.
        assert (Hr : reset = false); [|by rewrite Hr].
        unfold reset. destruct (cp_shouldSetTextContent previous) eqn:Eb; [|done].
        destruct (p_isObject (cp_props previous)); [|done].
        by rewrite (markup_direct (VStr t) (cp_props next) m _ _ _ Hq Gq Sq Sp).
      - destruct ms as [|m' ms']; [done|]. by apply Forall_cons in Hms as [? _]. }
    split; [exact Hafter|]. unfold shows. rewrite Hafter. unfold contentAfter.
    by destruct (cp_text next), (cp_html next).
  - destruct Ha as (e & l & Hf). rewrite Hf.
    assert (He : isUnsupportedRow e = true).
    { assert (Hin : e ∈ List.filter isUnsupportedRow d) by (rewrite Hf; left).
      apply list_elem_of_In, List.filter_In in Hin. apply Hin. }
    destruct (unsupportedRow_rejected e l w Ht) as (ev & [Hr|Hr]); [|congruence]. by exists ev.
Qed.
End Applied.
