(* ===== verification/DomContentDemo.v ===== *)
(** * Content rows at concrete props

    A node whose state is its text; the markup that is written is stripped to a text. *)
From S2P Require Import Prelude JsValue PropertyPayload PropertyPayloadSpec DomHost DomHtmlReset DomHtmlResetSpec DomDemo DomContent DomContentSpec.

Section Demo.
Definition stripMarkup (name : string) (v : value) (d : string) : effect string unit :=
  match v with
  | VStr s => (Ok tt, if bool_decide (name = "innerHTML") then textOfMarkup s else s)
  | _ => (Ok tt, d)
  end.
#[local] Instance strippingHost : Host unit string := markupHostOf stripMarkup.

#[local] Instance strippingContent : ContentHost tt markup textOfMarkup markup.
Proof.
  split; try done.
  - intros d. split; [done|]. simpl. by rewrite textOfMarkup_markup.
  - intros d0 d. exists d0. simpl. by rewrite textOfMarkup_markup.
  - intros s d. by right.
  - intros d. by eexists.
  - intros d. eexists. split; [done|]. by intros c.
  - apply textOfMarkup_markup.
Qed.

#[local] Instance strippingWrites : ContentWrites tt markup markup (fun s => markup (textOfMarkup s)).
Proof. split; [intros s d; by eexists|intros s d; by eexists|done]. Qed.

Definition contentHeap (r : ref) : jsobject :=
  match r with
  | User 1 => literal [("children", VStr "hi")]
  | User 2 => literal [("dangerouslySetInnerHTML", VObj (User 3))]
  | User 3 => literal [("__html", VStr "mbold")]
  | _ => literal []
  end.
Definition contentWorld : resetWorld unit string := mkResetWorld "hi" (mkResets 1 [tt] ∅).

Lemma content_update_renders_witness :
  exists record w', applyDangerousHtmlTextResetFakeDomRows contentHeap (inr tt)
      (Some [inr (innerHtmlRow (createSetInnerHtmlEntry "dangerouslySetInnerHTML" "mbold"))]) contentWorld = (Ok record, None, w')
    /\ markup (rw_host w') = "mbold".
Proof.
  destruct (createDangerousHtmlTextResetDiagnostic contentHeap (VStr "div") (VObj (User 1)) (VObj (User 2)) (mkDiagnostics 1 ∅))
    as [[[id dg]|e] s'] eqn:E; [|exfalso; vm_compute in E; discriminate].
  destruct (describeTextOrHtmlProps contentHeap (VStr "div") (VObj (User 1)) "previous") as [previous|e] eqn:E1; [|exfalso; vm_compute in E1; discriminate].
  destruct (describeTextOrHtmlProps contentHeap (VStr "div") (VObj (User 2)) "next") as [next|e] eqn:E2; [|exfalso; vm_compute in E2; discriminate].
  pose proof (content_update_renders contentHeap tt markup textOfMarkup markup (fun s => markup (textOfMarkup s)) _ _ _ _ _ _ _ _ _
    contentWorld E E1 E2 eq_refl) as [_ H].
  vm_compute in E1, E2. injection E1 as <-. injection E2 as <-.
  assert (Hdg : dg_propertyPayloadRowsAccepted dg = true
    /\ dg_blockedMutationRows dg = [innerHtmlRow (createSetInnerHtmlEntry "dangerouslySetInnerHTML" "mbold")]).
  { vm_compute in E. injection E as _ <- _. split; reflexivity. }
  destruct Hdg as [Ha Hb]. rewrite Ha, Hb in H.
  destruct (H (plain_literal [("children", VStr "hi")]) (plain_literal [("dangerouslySetInnerHTML", VObj (User 3))]) eq_refl
    (or_intror eq_refl) eq_refl) as (record & w' & H1 & H2 & _).
  exists record, w'. split; [exact H1|exact H2].
Defined.
End Demo.
