(* ===== verification/HostContext.v ===== *)
(** * Namespaces, host contexts and portals (client/dom-namespaces.js, client/dom-host-context.js, shared/create-portal.js)

    A host context is the namespace and the document that host elements are created with.
    It is frozen, so a context that is reused and one that is made anew from it with the
    same fields are the same record here. What the [Host] interface does not have is a
    parameter: [container.documentElement] when it is an object, and the call of
    [createElementNS]. *)
From S2P Require Import Prelude JsValue DomHost DomTree.

(** ** Namespaces *)

Definition HTML_NAMESPACE := "http://www.w3.org/1999/xhtml".
Definition MATH_NAMESPACE := "http://www.w3.org/1998/Math/MathML".
Definition SVG_NAMESPACE := "http://www.w3.org/2000/svg".

Definition normalizeDOMNamespace (namespaceURI : value) : string :=
  if isStr namespaceURI SVG_NAMESPACE then SVG_NAMESPACE
  else if isStr namespaceURI MATH_NAMESPACE then MATH_NAMESPACE
  else HTML_NAMESPACE.

Definition getDOMElementNamespace (parentNamespaceURI type : value) : string :=
  let parentNamespace := normalizeDOMNamespace parentNamespaceURI in
  if bool_decide (parentNamespace = HTML_NAMESPACE) then
    if isStr type "svg" then SVG_NAMESPACE
    else if isStr type "math" then MATH_NAMESPACE
    else HTML_NAMESPACE
  else parentNamespace.

Definition getChildDOMNamespace (parentNamespaceURI type : value) : string :=
  let parentNamespace := normalizeDOMNamespace parentNamespaceURI in
  if bool_decide (parentNamespace = HTML_NAMESPACE) then
    if isStr type "svg" then SVG_NAMESPACE
    else if isStr type "math" then MATH_NAMESPACE
    else HTML_NAMESPACE
  else if bool_decide (parentNamespace = SVG_NAMESPACE) && isStr type "foreignObject" then HTML_NAMESPACE
  else parentNamespace.

(** ** Host contexts *)

Section Contexts.
Context {Node D : Type} `{!EqDecision Node} `{!Host Node D}.
Context (documentElement : D -> Node -> option Node).
Context (callCreateElementNS : Node -> string -> string -> D -> effect D (value + Node)).

Definition domHostContextErrorCode := "FAST_REACT_DOM_HOST_CONTEXT".

Record hostContext : Type := mkHostContext {
  hc_namespaceURI : value;
  hc_ownerDocument : domArg Node }.

Definition createDOMHostContext (ownerDocument : domArg Node) (namespaceURI : value) : res hostContext :=
  match ownerDocument with
  | inl _ => hostError domHostContextErrorCode
  | inr doc => Ok (mkHostContext (VStr (normalizeDOMNamespace namespaceURI)) (inr doc))
  end.

(** A context that is no object is [inl]. *)
Definition requireDOMHostContext (context : value + hostContext) : res hostContext :=
  match context with
  | inl _ => hostError domHostContextErrorCode
  | inr c => match hc_ownerDocument c with
             | inl _ => hostError domHostContextErrorCode
             | inr _ => Ok c
             end
  end.

(** [a || b || c || ''], the next only read when the one before is falsy. *)
Definition getContainerType (d : D) (container : Node) : res value :=
  let* localName := readProperty d container "localName" in
  if truthy localName then Ok localName
  else
    let* tagName := readProperty d container "tagName" in
    if truthy tagName then Ok tagName
    else
      let* nodeName := readProperty d container "nodeName" in
      Ok (if truthy nodeName then nodeName else VStr "").

Definition getRootDOMNamespace (d : D) (container : domArg Node) : res string :=
  match container with
  | inl _ => Ok HTML_NAMESPACE
  | inr n =>
      let* nodeType := readProperty d n "nodeType" in
      if isNodeType nodeType 9 || isNodeType nodeType 11 then
        match documentElement d n with
        | Some root =>
            let* namespaceURI := readProperty d root "namespaceURI" in
            Ok (normalizeDOMNamespace namespaceURI)
        | None => Ok HTML_NAMESPACE
        end
      else
        let* type := getContainerType d n in
        let* namespaceURI := readProperty d n "namespaceURI" in
        Ok (getChildDOMNamespace namespaceURI type)
  end.

Definition getOwnerDocumentFromDOMContainer (d : D) (container : domArg Node) : res (domArg Node) :=
  let* doc := getOwnerDocument d container in
  Ok (match doc with Some n => inr n | None => inl VNull end).

Definition createRootDOMHostContext (d : D) (container : domArg Node) : res hostContext :=
  let* doc := getOwnerDocumentFromDOMContainer d container in
  let* namespaceURI := getRootDOMNamespace d container in
  createDOMHostContext doc (VStr namespaceURI).

Definition getChildDOMHostContext (parentHostContext : value + hostContext) (type : value) : res hostContext :=
  let* context := requireDOMHostContext parentHostContext in
  let parentNamespace := normalizeDOMNamespace (hc_namespaceURI context) in
  let namespaceURI := getChildDOMNamespace (VStr parentNamespace) type in
  if bool_decide (namespaceURI = parentNamespace) && isStr (hc_namespaceURI context) parentNamespace
  then Ok context
  else createDOMHostContext (hc_ownerDocument context) (VStr namespaceURI).

Definition createDOMElement (type : string) (context : value + hostContext) (d : D) : effect D (value + Node) :=
  do* c, d := pureStep (requireDOMHostContext context) d in
  let namespaceURI := getDOMElementNamespace (hc_namespaceURI c) (VStr type) in
  match hc_ownerDocument c with
  | inl _ => (hostError domHostContextErrorCode, d)
  | inr doc =>
      if bool_decide (namespaceURI = HTML_NAMESPACE) then
        if hasMethod d doc "createElement" then callCreateElement doc type d
        else (hostError domHostContextErrorCode, d)
      else if hasMethod d doc "createElementNS" then callCreateElementNS doc namespaceURI type d
      else (hostError domHostContextErrorCode, d)
  end.

(** ** Portals *)

Definition unsupportedPortalImplementationErrorCode := "FAST_REACT_DOM_PORTAL_IMPLEMENTATION_UNSUPPORTED".
Definition unnormalizedPortalKeyErrorCode := "FAST_REACT_DOM_PORTAL_KEY_UNNORMALIZED".

Section Portals.
(** [defaultString] is what adding an object to a string gives, [toStringTag] the read of its
    property [Symbol.toStringTag]. *)
Context (heap : ref -> jsobject) (defaultString : ref -> option string) (toStringTag : ref -> res value).
Context (development : bool).

(** [$$typeof] is always [REACT_PORTAL_TYPE]. *)
Record portal : Type := mkPortal {
  pt_key : value;
  pt_children : value;
  pt_containerInfo : domArg Node;
  pt_implementation : value }.

(** ['' + value]: a symbol does not convert. *)
Definition testStringCoercion (v : value) : res string :=
  match v with
  | VSym _ _ => Throw (TypeError "Cannot convert a Symbol value to a string")
  | VFun r | VObj r =>
      match defaultString r with
      | Some s => Ok s
      | None => Throw (TypeError "Cannot convert object to primitive value")
      end
  | _ => toStringRes heap v
  end.

(** For a value that does not convert. *)
Definition getUnsupportedKeyTypeName (v : value) : res value :=
  match v with
  | VSym _ _ => Ok (VStr "Symbol")
  | VFun r | VObj r =>
      let* tag := toStringTag r in
      if truthy tag then Ok tag
      else
        let* constructor := get (heap r) "constructor" in
        match constructor with
        | VFun c | VObj c =>
            let* name := get (heap c) "name" in
            Ok (if truthy name then name else VStr "Object")
        | _ => Ok (VStr "Object")
        end
  | _ => Ok (VStr "Object")
  end.

(** The state is the list of type names that the unsupported-key warning was logged for. *)
Definition checkKeyStringCoercion (v : value) (log : list value) : effect (list value) unit :=
  match testStringCoercion v with
  | Ok _ => (Ok tt, log)
  | Throw _ =>
      do* name, log := pureStep (getUnsupportedKeyTypeName v) log in
      match testStringCoercion v with
      | Ok _ => (Ok tt, log ++ [name])
      | Throw e => (Throw e, log ++ [name])
      end
  end.

Definition normalizePortalKey (key : value) (log : list value) : effect (list value) value :=
  do* _, log := (if development then checkKeyStringCoercion key log else (Ok tt, log)) in
  if nullish key then (Ok VNull, log)
  else do* s, log := pureStep (testStringCoercion key) log in (Ok (VStr s), log).

Definition assertNormalizedPortalKey (key : value) : res unit :=
  require (match key with VNull | VStr _ => true | _ => false end) unnormalizedPortalKeyErrorCode.
Definition assertSupportedPortalImplementation (implementation : value) : res unit :=
  require (strictEq implementation VNull) unsupportedPortalImplementationErrorCode.

Definition createPortalRecordFromNormalizedParts (key children : value) (containerInfo : domArg Node)
    (implementation : value) : res portal :=
  let* _ := assertNormalizedPortalKey key in
  let* _ := assertSupportedPortalImplementation implementation in
  Ok (mkPortal key children containerInfo implementation).

Definition createPortalObject (children : value) (containerInfo : domArg Node) (implementation key : value)
    (log : list value) : effect (list value) portal :=
  do* k, log := normalizePortalKey key log in
  pureStep (createPortalRecordFromNormalizedParts k children containerInfo implementation) log.

Definition createPortal (d : D) (children : value) (container : domArg Node) (key : value)
    (log : list value) : effect (list value) portal :=
  do* _, log := pureStep (assertValidContainer d container) log in
  createPortalObject children container VNull key log.
End Portals.
End Contexts.
Arguments hostContext Node : clear implicits.
Arguments portal Node : clear implicits.
