(* ===== verification/HostContextSpec.v ===== *)
(** * Correctness of host contexts and portals *)
From S2P Require Import Prelude JsValue DomHost DomTree HostContext.

(** ** Namespaces *)

Inductive namespace : Type := Html | Svg | Math.

#[export] Instance namespace_eq_dec : EqDecision namespace.
Proof. solve_decision. Defined.

Definition uri (x : namespace) : string :=
  match x with Html => HTML_NAMESPACE | Svg => SVG_NAMESPACE | Math => MATH_NAMESPACE end.

(** The namespace of an element with the given type, for a parent that puts its children
    in a namespace; and the namespace that the element puts its children in. *)
Definition elementIn (x : namespace) (type : string) : namespace :=
  match x with
  | Html => if bool_decide (type = "svg") then Svg else if bool_decide (type = "math") then Math else Html
  | _ => x
  end.
Definition childrenIn (x : namespace) (type : string) : namespace :=
  match x with
  | Svg => if bool_decide (type = "foreignObject") then Html else Svg
  | _ => elementIn x type
  end.

Lemma normalize_uri x : normalizeDOMNamespace (VStr (uri x)) = uri x.
Proof. by destruct x. Qed.

Lemma isStr_VStr s t : isStr (VStr s) t = bool_decide (s = t).
Proof. unfold isStr. apply bool_decide_ext. split; congruence. Qed.

Lemma elementNamespace_uri x type : getDOMElementNamespace (VStr (uri x)) (VStr type) = uri (elementIn x type).
Proof.
  unfold getDOMElementNamespace. rewrite normalize_uri, !isStr_VStr.
  destruct x; simpl; try done. by repeat case_bool_decide.
Qed.

Lemma childNamespace_uri x type : getChildDOMNamespace (VStr (uri x)) (VStr type) = uri (childrenIn x type).
Proof.
  unfold getChildDOMNamespace. rewrite normalize_uri, !isStr_VStr. destruct x; simpl; try done; by repeat case_bool_decide.
Qed.

Lemma normalize_total v : exists x, normalizeDOMNamespace v = uri x.
Proof. unfold normalizeDOMNamespace. case_match; [by exists Svg|]. case_match; [by exists Math|by exists Html]. Qed.

Lemma childNamespace_total v w : exists x, getChildDOMNamespace v w = uri x.
Proof.
  unfold getChildDOMNamespace. repeat case_match; try (by exists Svg); try (by exists Math); try (by exists Html).
  apply normalize_total.
Qed.

Section Contexts.
Context {Node D : Type} `{!EqDecision Node} `{!Host Node D}.
Context (documentElement : D -> Node -> option Node).
Context (callCreateElementNS : Node -> string -> string -> D -> effect D (value + Node)).
Abbreviation createDOMElement := (createDOMElement callCreateElementNS).

(** The contexts that the code makes. *)
Definition contextOf (doc : Node) (x : namespace) : hostContext Node := mkHostContext (VStr (uri x)) (inr doc).

(** The context below a path of element types. *)
Fixpoint contextBelow (c : hostContext Node) (path : list string) : res (hostContext Node) :=
  match path with
  | [] => Ok c
  | type :: path => let* c := getChildDOMHostContext (inr c) (VStr type) in contextBelow c path
  end.

Lemma childContext doc x type :
  getChildDOMHostContext (inr (contextOf doc x)) (VStr type) = Ok (contextOf doc (childrenIn x type)).
Proof.
  unfold getChildDOMHostContext. cbn [requireDOMHostContext contextOf hc_ownerDocument bind hc_namespaceURI].
  rewrite normalize_uri, childNamespace_uri. unfold isStr. rewrite (bool_decide_eq_true_2 (VStr _ = _)) by done.
  rewrite andb_true_r. case_bool_decide as E.
  - unfold contextOf. by rewrite E.
  - unfold createDOMHostContext. by rewrite normalize_uri.
Qed.

Lemma contextBelow_spec doc x path : contextBelow (contextOf doc x) path = Ok (contextOf doc (foldl childrenIn x path)).
Proof.
  revert x. induction path as [|type path IH]; intros x; [done|]. cbn [contextBelow foldl].
  rewrite childContext. apply IH.
Qed.

(** The path leaves MathML never, and SVG only through a [foreignObject]. *)
Lemma math_absorbs path : foldl childrenIn Math path = Math.
Proof. by induction path. Qed.

(** the context of a root is that of its document and never fails to give contexts for
    elements at any depth: they have the root's document and the namespace that the path
    leads to, and an element made in one has the namespace that HTML parsing gives it: it is
    made with [createElement] for HTML and with [createElementNS] and the namespace
    otherwise. An element's children are in its own namespace, but for those of a
    [foreignObject] in SVG; below [math] everything is MathML. *)
Theorem host_context_spec d container path type :
  match createRootDOMHostContext documentElement d container with
  | Throw e => e = HostError domHostContextErrorCode /\ getOwnerDocument d container = Ok None
      \/ getOwnerDocument d container = Throw e \/ getRootDOMNamespace documentElement d container = Throw e
  | Ok root => exists doc x, root = contextOf doc x /\ getOwnerDocument d container = Ok (Some doc)
      /\ getRootDOMNamespace documentElement d container = Ok (uri x)
      /\ exists c y, contextBelow root path = Ok c /\ c = contextOf doc y /\ y = foldl childrenIn x path
      /\ (forall d', createDOMElement type (inr c) d'
          = let z := elementIn y type in
            if decide (z = Html) then
              if hasMethod d' doc "createElement" then callCreateElement doc type d' else (hostError domHostContextErrorCode, d')
            else if hasMethod d' doc "createElementNS" then callCreateElementNS doc (uri z) type d'
                 else (hostError domHostContextErrorCode, d'))
      /\ (childrenIn y type = elementIn y type \/ y = Svg /\ type = "foreignObject" /\ childrenIn y type = Html)
      /\ (x = Math -> y = Math)
  end.
Proof.
  unfold createRootDOMHostContext, getOwnerDocumentFromDOMContainer.
  destruct (getOwnerDocument d container) as [o|e]; [|by right; left]. cbn [bind].
  destruct (getRootDOMNamespace documentElement d container) as [ns|e] eqn:En; [|by right; right]. cbn [bind].
  destruct o as [doc|]; [|by left]. cbn [createDOMHostContext].
  assert (exists x, ns = uri x) as [x ->].
  { destruct container as [v|n]; simpl in En; [injection En as <-; by exists Html|].
    apply bind_Ok in En as (t & _ & En). destruct (_ || _).
    - destruct (documentElement d n); [|injection En as <-; by exists Html]. apply bind_Ok in En as (v & _ & [= <-]).
      apply normalize_total.
    - apply bind_Ok in En as (w & _ & En). apply bind_Ok in En as (v & _ & [= <-]). apply childNamespace_total. }
  rewrite normalize_uri. exists doc, x. do 3 (split; [done|]). exists (contextOf doc (foldl childrenIn x path)), (foldl childrenIn x path).
  split; [apply contextBelow_spec|]. do 2 (split; [done|]). split; [|split].
  - intros d'. unfold HostContext.createDOMElement. cbn [requireDOMHostContext contextOf hc_ownerDocument pureStep andThen hc_namespaceURI].
    rewrite elementNamespace_uri. by destruct (elementIn _ type).
  - destruct (foldl childrenIn x path); [by left| |by left]. simpl. case_bool_decide; [by right|by left].
  - intros ->. apply math_absorbs.
Qed.

(** ** Portals *)

Section Portals.
Context (heap : ref -> jsobject) (defaultString : ref -> option string) (toStringTag : ref -> res value).

(** [createPortal] checks the container first and then the key; the portal has the
    given children and container, no implementation, and a key that is null or the string
    of the given one. A key that does not convert is an error, reported in development. *)
Theorem portal_spec development d children container key log :
  let '(r, log') := createPortal heap defaultString toStringTag development d children container key log in
  match r with
  | Ok p => isValidContainer d container = Ok true /\ log' = log
      /\ pt_children p = children /\ pt_containerInfo p = container /\ pt_implementation p = VNull
      /\ (if nullish key then pt_key p = VNull
          else exists s, testStringCoercion heap defaultString key = Ok s /\ pt_key p = VStr s)
  | Throw e => (assertValidContainer d container = Throw e /\ log' = log)
      \/ isValidContainer d container = Ok true
         /\ (testStringCoercion heap defaultString key = Throw e /\ (development = false -> log' = log)
             \/ getUnsupportedKeyTypeName heap toStringTag key = Throw e /\ development = true /\ log' = log)
  end.
Proof.
  unfold createPortal, assertValidContainer. destruct (isValidContainer d container) as [[]|e]; [|simpl; by left..].
  cbn [bind pureStep andThen]. unfold createPortalObject, normalizePortalKey, checkKeyStringCoercion.
  destruct (testStringCoercion heap defaultString key) as [s|e] eqn:E.
  - destruct development; cbn [andThen]; destruct (nullish key) eqn:En; cbn; rewrite ?E; cbn;
      split_and!; done || by exists s.
  - assert (Hn : nullish key = false) by (by destruct key).
    destruct development; cbn [andThen pureStep].
    + destruct (getUnsupportedKeyTypeName heap toStringTag key) as [name|e'] eqn:Eg; cbn; [right; split; [done|]; left; done|].
      right. split; [done|]. right. done.
    + rewrite Hn. cbn. right. split; [done|]. by left.
Qed.
End Portals.
End Contexts.
