(* ===== verification/RootMarkers.v ===== *)
(** * Root markers (client/root-markers.js)

    The marker of a root container: an own property of the node under a key that only this
    module knows. [markers] holds the property of each node; a mutation record and its
    cleanup record are kept by their identity, as in the module's WeakMaps. Containers have
    no marker of another copy of the module, and writing the property does not throw. *)
From S2P Require Import Prelude JsValue DomHost DomTree.

Section Markers.
Context {Node D : Type} `{!EqDecision Node} `{!Countable Node} `{!Host Node D} (heap : ref -> jsobject).

(** [mm_previousValue] is undefined when there was no marker. *)
Record markerMutation : Type := mkMarkerMutation {
  mm_active : bool;
  mm_container : Node;
  mm_hadOwnMarker : bool;
  mm_previousValue : value;
  mm_rootOwner : value }.

Record markerProperty : Type := mkMarkerProperty {
  mk_enumerable : bool;
  mk_valueState : string;
  mk_valueType : string }.
Record markerInspection : Type := mkInspection {
  mi_inspectable : bool;
  mi_nullCount : nat;
  mi_properties : list markerProperty;
  mi_propertyCount : nat;
  mi_truthyCount : nat }.

Record markerRecord : Type := mkMarkerRecord {
  mr_beforeMarker : markerInspection;
  mr_afterMarker : markerInspection;
  mr_hadPreviousMarker : bool;
  mr_previousValueState : string;
  mr_rootOwnerKind : value;
  mr_warning : option string }.
Record cleanupRecord : Type := mkCleanup {
  cu_beforeMarker : markerInspection;
  cu_afterMarker : markerInspection }.

Record markerState : Type := mkMarkers {
  markers : gmap Node value;
  nextMarkerRecord : N;
  privateRootMarkerMutationPayloads : gmap N (markerMutation * markerRecord);
  privateRootMarkerCleanupRecords : gmap N cleanupRecord }.

Definition setMarkers (m : gmap Node value) (s : markerState) : markerState :=
  mkMarkers m (nextMarkerRecord s) (privateRootMarkerMutationPayloads s)
    (privateRootMarkerCleanupRecords s).

Definition describeMarkerValue (v : value) : string :=
  match v with
  | VNull => "null"
  | VUndef => "undefined"
  | _ => if truthy v then "truthy" else "falsy"
  end.

Definition typeofMarker (v : value) : string :=
  match v with VNull => "null" | _ => typeof v end.

Definition markerProperties (m : gmap Node value) (container : Node) : list markerProperty :=
  match m !! container with
  | Some v => [mkMarkerProperty true (describeMarkerValue v) (typeofMarker v)]
  | None => []
  end.

Definition inspectContainerRootMarker (s : markerState) (container : domArg Node) : markerInspection :=
  match container with
  | inl v => mkInspection (isObjectLike v) 0 [] 0 0
  | inr n =>
      let properties := markerProperties (markers s) n in
      let withState st := length (List.filter (fun p => String.eqb (mk_valueState p) st) properties) in
      mkInspection true (withState "null") properties (length properties) (withState "truthy")
  end.

(** [container[internalContainerInstanceKey] || null] *)
Definition getContainerRoot (s : markerState) (container : domArg Node) : option value :=
  match container with
  | inl _ => None
  | inr n => v ← markers s !! n; if truthy v then Some v else None
  end.

Definition isContainerMarkedAsRoot (s : markerState) (container : domArg Node) : bool :=
  match getContainerRoot s container with Some _ => true | None => false end.

Definition hasLegacyRootMarker (d : D) (container : domArg Node) : res bool :=
  match container with
  | inl (VObj r) => let* v := get (heap r) "_reactRootContainer" in Ok (truthy v)
  | inl _ => Ok false
  | inr n => let* v := readProperty d n "_reactRootContainer" in Ok (truthy v)
  end.

(** The two warnings, by the type that [describeCreateRootWarning] gives them. *)
Definition legacyRootWarning : string := "legacy-root-container".
Definition duplicateCreateRootWarning : string := "duplicate-create-root".

Definition getCreateRootWarning (development : bool) (d : D) (s : markerState)
    (container : domArg Node) : res (option string) :=
  if negb development then Ok None
  else
    let* legacy := hasLegacyRootMarker d container in
    Ok (if legacy then Some legacyRootWarning
        else if isContainerMarkedAsRoot s container then Some duplicateCreateRootWarning else None).

Definition describeRootOwnerKind (rootOwner : value) : res value :=
  match rootOwner with
  | VNull => Ok (VStr "null")
  | VUndef => Ok (VStr "undefined")
  | VObj r =>
      let* kind := get (heap r) "kind" in
      if truthy kind then
        match kind with VSym _ d => Ok (VStr ("Symbol(" +:+ d +:+ ")")) | _ => Ok kind end
      else
        let* type := get (heap r) "$$typeof" in
        if truthy type then
          match type with VSym _ d => Ok (VStr ("Symbol(" +:+ d +:+ ")")) | _ => Ok type end
        else Ok (VStr "object")
  | _ => Ok (VStr (typeof rootOwner))
  end.

Definition MISSING_ROOT_OWNER : string := "FAST_REACT_DOM_MISSING_ROOT_OWNER".

(** [assertValidContainer] and the check of the owner, with the container's node. *)
Definition rootTarget (d : D) (rootOwner : value) (container : domArg Node) : res Node :=
  let* c := assertValidContainer d container in
  match c with
  | inl _ => hostError "FAST_REACT_DOM_INVALID_CONTAINER"
  | inr n => let* _ := require (negb (nullish rootOwner)) MISSING_ROOT_OWNER in Ok n
  end.

Definition markContainerAsRoot (d : D) (rootOwner : value) (container : domArg Node)
    (s : markerState) : effect markerState value :=
  do* n, s := pureStep (rootTarget d rootOwner container) s in
  (Ok rootOwner, setMarkers (<[n := rootOwner]> (markers s)) s).

Definition unmarkContainerAsRoot (d : D) (container : domArg Node) (s : markerState) :
    effect markerState unit :=
  do* c, s := pureStep (assertValidContainer d container) s in
  match c with
  | inl _ => (hostError "FAST_REACT_DOM_INVALID_CONTAINER", s)
  | inr n => (Ok tt, setMarkers (<[n := VNull]> (markers s)) s)
  end.

(** The identity of the returned record is the key of its payload. *)
Definition markContainerAsRootWithRevertRecord (development : bool) (d : D) (rootOwner : value)
    (container : domArg Node) (s : markerState) : effect markerState N :=
  do* n, s := pureStep (rootTarget d rootOwner container) s in
  let previous := markers s !! n in
  let previousValue := default VUndef previous in
  do* _, s := pureStep (require (nullish previousValue) "FAST_REACT_DOM_ROOT_MARKER_OCCUPIED") s in
  let beforeMarker := inspectContainerRootMarker s container in
  do* warning, s := pureStep (getCreateRootWarning development d s container) s in
  do* _, s := markContainerAsRoot d rootOwner container s in
  let afterMarker := inspectContainerRootMarker s container in
  do* rootOwnerKind, s := pureStep (describeRootOwnerKind rootOwner) s in
  let had := match previous with Some _ => true | None => false end in
  let record := mkMarkerRecord beforeMarker afterMarker had (describeMarkerValue previousValue)
                  rootOwnerKind warning in
  let id := nextMarkerRecord s in
  (Ok id,
   mkMarkers (markers s) (id + 1)
     (<[id := (mkMarkerMutation true n had previousValue rootOwner, record)]>
        (privateRootMarkerMutationPayloads s))
     (privateRootMarkerCleanupRecords s)).

Definition deactivate (p : markerMutation) : markerMutation :=
  mkMarkerMutation false (mm_container p) (mm_hadOwnMarker p) (mm_previousValue p) (mm_rootOwner p).

(** The marker that a revert puts back. *)
Definition revertedMarkers (p : markerMutation) (m : gmap Node value) : gmap Node value :=
  if mm_hadOwnMarker p then <[mm_container p := mm_previousValue p]> m else delete (mm_container p) m.

Definition revertContainerRootMarkerMutation (d : D) (record : option N) (s : markerState) :
    effect markerState cleanupRecord :=
  match (id ← record; p ← privateRootMarkerMutationPayloads s !! id; Some (id, p)) with
  | None => (hostError "FAST_REACT_DOM_INVALID_ROOT_MARKER_RECORD", s)
  | Some (id, (p, r)) =>
      match (if mm_active p then None else privateRootMarkerCleanupRecords s !! id) with
      | Some existingCleanup => (Ok existingCleanup, s)
      | None =>
          do* _, s := pureStep (assertValidContainer d (inr (mm_container p))) s in
          do* _, s := pureStep (require (strictEq (default VUndef (markers s !! mm_container p))
                                           (mm_rootOwner p)) "FAST_REACT_DOM_ROOT_MARKER_CHANGED") s in
          let beforeMarker := inspectContainerRootMarker s (inr (mm_container p)) in
          let s := setMarkers (revertedMarkers p (markers s)) s in
          let cleanup := mkCleanup beforeMarker (inspectContainerRootMarker s (inr (mm_container p))) in
          (Ok cleanup,
           mkMarkers (markers s) (nextMarkerRecord s)
             (<[id := (deactivate p, r)]> (privateRootMarkerMutationPayloads s))
             (<[id := cleanup]> (privateRootMarkerCleanupRecords s)))
      end
  end.
End Markers.
Arguments markerState Node {EqDecision0 Countable0}.
