(* ===== verification/ComponentTree.v ===== *)
(** * The component tree (client/component-tree.js)

    The two-way map between host nodes and the opaque tokens of their instances, with the
    latest props of each node. A token is an object with an identity: a number. The private
    properties that the module puts on nodes are finite maps; writing them does not throw.
    A record of the module and its private payload, which a WeakMap keeps under the record,
    are one record here. Walks along the host's parents and children take fuel. *)
From S2P Require Import Prelude JsValue DomHost DomTree DomPayload DomCommit RootMarkers.

Definition INVALID_PRIVATE_ROOT_HOST_OUTPUT_EVENT_TARGET_CODE : string :=
  "FAST_REACT_DOM_INVALID_PRIVATE_ROOT_HOST_OUTPUT_EVENT_TARGET".
Definition INVALID_EVENT_TARGET_NORMALIZATION_RECORD_CODE : string :=
  "FAST_REACT_DOM_INVALID_EVENT_TARGET_NORMALIZATION_RECORD".
Definition EVENT_LISTENER_TARGET_LOOKUP_NODE_MISMATCH_CODE : string :=
  "FAST_REACT_DOM_EVENT_LISTENER_TARGET_LOOKUP_NODE_MISMATCH".
Definition EVENT_LISTENER_TARGET_LOOKUP_UNMOUNTED_CODE : string :=
  "FAST_REACT_DOM_EVENT_LISTENER_TARGET_LOOKUP_UNMOUNTED".
Definition UNATTACHED_HOST_INSTANCE_NODE : string := "FAST_REACT_DOM_UNATTACHED_HOST_INSTANCE_NODE".
Definition INVALID_HOST_INSTANCE_TOKEN : string := "FAST_REACT_DOM_INVALID_HOST_INSTANCE_TOKEN".
Definition UNMOUNTED_HOST_INSTANCE_TOKEN : string := "FAST_REACT_DOM_UNMOUNTED_HOST_INSTANCE_TOKEN".

Definition disabledMouseEventRegistrationNames : list string :=
  ["onClick"; "onClickCapture"; "onDoubleClick"; "onDoubleClickCapture"; "onMouseDown";
   "onMouseDownCapture"; "onMouseMove"; "onMouseMoveCapture"; "onMouseUp"; "onMouseUpCapture";
   "onMouseEnter"].
Definition interactiveTagNames : list string := ["button"; "input"; "select"; "textarea"].

Section ComponentTree.
Context {Node D : Type} `{!EqDecision Node} `{!Countable Node} `{!Host Node D} (heap : ref -> jsobject).
(** The members of [node.childNodes] when it is an array or an array-like object. *)
Context (childNodeItems : D -> Node -> option (list (domArg Node))).

Record treeState : Type := mkTree {
  nextToken : N;
  tokenMetadata : gmap N (value * value);
  tokenToNode : gmap N Node;
  nodeTokens : gmap Node N;
  nodeProps : gmap Node value }.

Definition emptyTree : treeState := mkTree 0 ∅ ∅ ∅ ∅.

(** ** Host nodes *)

Definition isHostInstanceNode (d : D) (node : domArg Node) : res bool :=
  match node with
  | inl _ => Ok false
  | inr n =>
      let* nodeType := readProperty d n "nodeType" in
      Ok (isNodeType nodeType 1 || isNodeType nodeType 3)
  end.

Definition assertHostInstanceNode (d : D) (node : domArg Node) : res Node :=
  let* valid := isHostInstanceNode d node in
  match node with
  | inr n => if valid then Ok n else hostError "FAST_REACT_DOM_INVALID_HOST_INSTANCE_NODE"
  | inl _ => hostError "FAST_REACT_DOM_INVALID_HOST_INSTANCE_NODE"
  end.

(** ** Tokens *)

Definition assertOwner (owner : value) (code : string) : res value :=
  if nullish owner then hostError code else Ok owner.

Definition createHostInstanceToken (hostOwner rootOwner : value) (t : treeState) : effect treeState N :=
  do* _, t := pureStep (assertOwner hostOwner "FAST_REACT_DOM_MISSING_HOST_OWNER") t in
  do* _, t := pureStep (assertOwner rootOwner MISSING_ROOT_OWNER) t in
  (Ok (nextToken t),
   mkTree (nextToken t + 1) (<[nextToken t := (hostOwner, rootOwner)]> (tokenMetadata t))
     (tokenToNode t) (nodeTokens t) (nodeProps t)).

(** A token argument; [None] is any value that is no token. *)
Definition getHostInstanceMetadata (t : treeState) (token : option N) : option (value * value) :=
  k ← token; tokenMetadata t !! k.

Definition assertKnownHostInstanceToken (t : treeState) (token : option N) : res (N * (value * value)) :=
  match token with
  | Some k =>
      match tokenMetadata t !! k with
      | Some m => Ok (k, m)
      | None => hostError INVALID_HOST_INSTANCE_TOKEN
      end
  | None => hostError INVALID_HOST_INSTANCE_TOKEN
  end.

Definition getMountedHostInstanceNodeFromToken (t : treeState) (token : option N) : option Node :=
  _ ← getHostInstanceMetadata t token;
  k ← token;
  n ← tokenToNode t !! k;
  if decide (nodeTokens t !! n = Some k) then Some n else None.

Definition assertMountedHostInstanceToken (t : treeState) (token : option N) : res Node :=
  let* _ := assertKnownHostInstanceToken t token in
  match getMountedHostInstanceNodeFromToken t token with
  | Some n => Ok n
  | None => hostError UNMOUNTED_HOST_INSTANCE_TOKEN
  end.

Definition getAttachedNodeFromHostInstanceToken := getMountedHostInstanceNodeFromToken.

Definition getHostInstanceTokenFromNode (t : treeState) (node : domArg Node) : option N :=
  match node with
  | inl _ => None
  | inr n =>
      k ← nodeTokens t !! n;
      _ ← getHostInstanceMetadata t (Some k);
      if decide (tokenToNode t !! k = Some n) then Some k else None
  end.

Definition getMountedHostInstanceTokenFromNode := getHostInstanceTokenFromNode.

Definition getHostInstanceOwnerFromToken (t : treeState) (token : option N) : option value :=
  fst <$> getHostInstanceMetadata t token.
Definition getRootOwnerFromHostInstanceToken (t : treeState) (token : option N) : option value :=
  snd <$> getHostInstanceMetadata t token.
Definition getHostInstanceOwnerFromNode (t : treeState) (node : domArg Node) : option value :=
  getHostInstanceOwnerFromToken t (getHostInstanceTokenFromNode t node).
Definition getRootOwnerFromNode (t : treeState) (node : domArg Node) : option value :=
  getRootOwnerFromHostInstanceToken t (getHostInstanceTokenFromNode t node).

(** [None] is null: the node is not attached. *)
Definition getLatestPropsFromNode (t : treeState) (node : domArg Node) : option value :=
  _ ← getHostInstanceTokenFromNode t node;
  match node with inr n => nodeProps t !! n | inl _ => None end.
Definition getLatestPropsFromHostInstanceToken (t : treeState) (token : option N) : option value :=
  n ← getMountedHostInstanceNodeFromToken t token; getLatestPropsFromNode t (inr n).

(** [latestProps === null ? 'missing' : 'present'] *)
Definition propsPresent (p : option value) : bool :=
  match p with Some VNull | None => false | Some _ => true end.

(** ** Attaching and detaching *)

Definition nullIfUndefined (v : value) : value := match v with VUndef => VNull | _ => v end.

Definition attachHostInstanceNode (d : D) (node : domArg Node) (token : option N) (latestProps : value)
    (t : treeState) : effect treeState N :=
  do* n, t := pureStep (assertHostInstanceNode d node) t in
  do* km, t := pureStep (assertKnownHostInstanceToken t token) t in
  let k := fst km in
  let attachedElsewhere := match tokenToNode t !! k with
                           | Some m => negb (bool_decide (m = n)) | None => false end in
  do* _, t := pureStep (require (negb attachedElsewhere)
                          "FAST_REACT_DOM_HOST_INSTANCE_TOKEN_ALREADY_ATTACHED") t in
  let otherToken := match getHostInstanceTokenFromNode t node with
                    | Some c => negb (bool_decide (c = k)) | None => false end in
  do* _, t := pureStep (require (negb otherToken)
                          "FAST_REACT_DOM_HOST_INSTANCE_NODE_ALREADY_ATTACHED") t in
  (Ok k, mkTree (nextToken t) (tokenMetadata t) (<[k := n]> (tokenToNode t))
           (<[n := k]> (nodeTokens t)) (<[n := nullIfUndefined latestProps]> (nodeProps t))).

Definition detachHostInstanceNode (node : domArg Node) (t : treeState) : option N * treeState :=
  match node with
  | inl _ => (None, t)
  | inr n =>
      let token := getHostInstanceTokenFromNode t node in
      let nodeTokens' := delete n (nodeTokens t) in
      let nodeProps' := delete n (nodeProps t) in
      match token with
      | None => (None, mkTree (nextToken t) (tokenMetadata t) (tokenToNode t) nodeTokens' nodeProps')
      | Some k => (Some k, mkTree (nextToken t) (delete k (tokenMetadata t)) (delete k (tokenToNode t))
                             nodeTokens' nodeProps')
      end
  end.

Definition detachHostInstanceToken (token : option N) (t : treeState) : option N * treeState :=
  match (k ← token; _ ← getHostInstanceMetadata t token; Some k) with
  | None => (None, t)
  | Some k =>
      let '(nt, np) := match tokenToNode t !! k with
        | Some n => if decide (nodeTokens t !! n = Some k)
                    then (delete n (nodeTokens t), delete n (nodeProps t))
                    else (nodeTokens t, nodeProps t)
        | None => (nodeTokens t, nodeProps t)
        end in
      (Some k, mkTree (nextToken t) (delete k (tokenMetadata t)) (delete k (tokenToNode t)) nt np)
  end.

Definition getChildNodesSnapshot (d : D) (node : domArg Node) : list (domArg Node) :=
  match node with inl _ => [] | inr n => default [] (childNodeItems d n) end.

(** Children before parents; [None] is fuel that ran out. *)
Fixpoint collectHostInstanceSubtreeNodes (fuel : nat) (d : D) (node : domArg Node) (nodes : list Node)
    : option (list Node) :=
  match fuel with
  | O => None
  | S fuel =>
      match node with
      | inl _ => Some nodes
      | inr n =>
          let fix loop (l : list (domArg Node)) (nodes : list Node) : option (list Node) :=
            match l with
            | [] => Some nodes
            | child :: l =>
                match collectHostInstanceSubtreeNodes fuel d child nodes with
                | Some nodes => loop l nodes
                | None => None
                end
            end in
          match loop (getChildNodesSnapshot d node) nodes with
          | Some nodes => Some (nodes ++ [n])
          | None => None
          end
      end
  end.

Fixpoint collectAll (fuel : nat) (d : D) (l : list (domArg Node)) (nodes : list Node) : option (list Node) :=
  match l with
  | [] => Some nodes
  | child :: l =>
      match collectHostInstanceSubtreeNodes fuel d child nodes with
      | Some nodes => collectAll fuel d l nodes
      | None => None
      end
  end.

Fixpoint detachAll (nodes : list Node) (t : treeState) : list N * treeState :=
  match nodes with
  | [] => ([], t)
  | n :: nodes =>
      let '(token, t) := detachHostInstanceNode (inr n) t in
      let '(tokens, t) := detachAll nodes t in
      (match token with Some k => k :: tokens | None => tokens end, t)
  end.

Record detachRecord : Type := mkDetach {
  dr_detachedHostInstanceCount : nat;
  dr_includeRoot : bool;
  dr_rootNodeType : value;
  dr_visitedNodeCount : nat;
  dr_detachedTokens : list N;
  dr_visitedNodes : list Node }.

Definition nodeTypeOf (d : D) (node : domArg Node) : res value :=
  match node with
  | inl _ => Ok VNull
  | inr n => let* v := readProperty d n "nodeType" in Ok (numberOrNull v)
  end.

Definition detachHostInstanceSubtree (fuel : nat) (d : D) (rootNode : domArg Node) (includeRoot : bool)
    (t : treeState) : option (effect treeState detachRecord) :=
  match (if includeRoot then collectHostInstanceSubtreeNodes fuel d rootNode []
         else collectAll fuel d (getChildNodesSnapshot d rootNode) []) with
  | None => None
  | Some nodes =>
      let '(detachedTokens, t) := detachAll nodes t in
      Some (do* rootNodeType, t := pureStep (nodeTypeOf d rootNode) t in
            (Ok (mkDetach (length detachedTokens) includeRoot rootNodeType (length nodes)
                   detachedTokens nodes), t))
  end.

(** ** Event targets *)

Fixpoint closestFrom (fuel : nat) (d : D) (m : markerState Node) (t : treeState) (n : option Node) :
    option (option N) :=
  match n with
  | None => Some None
  | Some n =>
      match fuel with
      | O => None
      | S fuel =>
          match getMountedHostInstanceTokenFromNode t (inr n) with
          | Some token => Some (Some token)
          | None =>
              if isContainerMarkedAsRoot m (inr n) then Some None
              else closestFrom fuel d m t (parentNode d n)
          end
      end
  end.

Definition asNode (node : domArg Node) : option Node :=
  match node with inr n => Some n | inl _ => None end.

Definition getClosestMountedHostInstanceTokenFromNode (fuel : nat) (d : D) (m : markerState Node)
    (t : treeState) (targetNode : domArg Node) : option (option N) :=
  closestFrom fuel d m t (asNode targetNode).

Definition getClosestMountedHostInstanceNodeFromNode (fuel : nat) (d : D) (m : markerState Node)
    (t : treeState) (targetNode : domArg Node) : option (option Node) :=
  match getClosestMountedHostInstanceTokenFromNode fuel d m t targetNode with
  | None => None
  | Some token => Some (getMountedHostInstanceNodeFromToken t token)
  end.

Record normalizationRecord : Type := mkNormalization {
  nr_closestMountedHostInstanceNode : option Node;
  nr_closestMountedHostInstanceToken : option N;
  nr_directMountedHostInstanceToken : option N;
  nr_hostOwner : option value;
  nr_isDirectMountedHostInstance : bool;
  nr_latestPropsPresent : bool;
  nr_mountedHostInstanceFound : bool;
  nr_rootOwner : option value;
  nr_status : string;
  nr_targetNode : option Node;
  nr_targetNodeType : value }.

Definition createEventTargetNormalizationRecord (fuel : nat) (d : D) (m : markerState Node)
    (t : treeState) (targetNode : domArg Node) : option (res normalizationRecord) :=
  match getClosestMountedHostInstanceTokenFromNode fuel d m t targetNode with
  | None => None
  | Some closest =>
      let direct := getMountedHostInstanceTokenFromNode t targetNode in
      let found := isSome closest in
      Some (
        let* targetNodeType := nodeTypeOf d targetNode in
        Ok (mkNormalization (getMountedHostInstanceNodeFromToken t closest) closest direct
              (getHostInstanceOwnerFromToken t closest)
              (isSome direct && bool_decide (direct = closest))
              (propsPresent (getLatestPropsFromHostInstanceToken t closest))
              found (getRootOwnerFromHostInstanceToken t closest)
              (if found then "mounted-host-instance" else "no-mounted-host-instance")
              (asNode targetNode) targetNodeType))
  end.

(** An argument that is no normalization record is [None]. *)
Definition assertEventTargetNormalizationRecord (record : option normalizationRecord) :
    res normalizationRecord :=
  match record with
  | None => hostError INVALID_EVENT_TARGET_NORMALIZATION_RECORD_CODE
  | Some r =>
      if Bool.eqb (isSome (nr_closestMountedHostInstanceToken r))
           (String.eqb (nr_status r) "mounted-host-instance")
      then Ok r else hostError INVALID_EVENT_TARGET_NORMALIZATION_RECORD_CODE
  end.

Definition assertTargetNodeDoesNotHaveMismatchedHostInstanceToken (t : treeState) (n : Node) : res unit :=
  match nodeTokens t !! n with
  | None => Ok tt
  | Some _ => require (isSome (getHostInstanceTokenFromNode t (inr n)))
                EVENT_LISTENER_TARGET_LOOKUP_NODE_MISMATCH_CODE
  end.
End ComponentTree.
Arguments treeState Node {EqDecision0 Countable0}.
