(* ===== verification/TreeTargets.v ===== *)
(** * Event targets and node records (client/component-tree.js)

    What an event needs of the component tree: the dispatch path from a target up to its
    root container, the listener that the latest props of the target hold, and the private
    records of host nodes. *)
From S2P Require Import Prelude JsValue DomHost DomTree DomPayload DomCommit RootMarkers ComponentTree.

Section Targets.
Context {Node D : Type} `{!EqDecision Node} `{!Countable Node} `{!Host Node D} (heap : ref -> jsobject).
Implicit Types (d : D) (m : markerState Node) (t : treeState Node) (n : Node).

(** ** Dispatch paths *)

Record pathEntry : Type := mkPathEntry {
  pe_hostOwner : option value;
  pe_index : nat;
  pe_isDirectEventTarget : bool;
  pe_isTargetHostInstance : bool;
  pe_latestPropsPresent : bool;
  pe_nodeType : value;
  pe_rootOwner : option value;
  pe_targetHostInstanceNode : Node;
  pe_targetHostInstanceToken : N;
  pe_targetNode : option Node }.

Definition createEventTargetDispatchPathEntryRecord d t (index : nat) n (token : N)
    (target : normalizationRecord (Node := Node)) : res pathEntry :=
  let* nodeType := nodeTypeOf d (inr n) in
  Ok (mkPathEntry (getHostInstanceOwnerFromToken t (Some token)) index
        (bool_decide (nr_directMountedHostInstanceToken target = Some token)) (index =? 0)%nat
        (propsPresent (getLatestPropsFromNode t (inr n))) nodeType
        (getRootOwnerFromHostInstanceToken t (Some token)) n token (nr_targetNode target)).

(** The inner loop: the next mounted node above, or the container root that ends the walk. *)
Fixpoint nextPathNode (fuel : nat) d m t (parent : option Node) :
    option (res (option Node * option (Node * value))) :=
  match parent with
  | None => Some (Ok (None, None))
  | Some p =>
      match fuel with
      | O => None
      | S fuel =>
          match assertTargetNodeDoesNotHaveMismatchedHostInstanceToken t p with
          | Throw e => Some (Throw e)
          | Ok _ =>
              match getContainerRoot m (inr p) with
              | Some owner => Some (Ok (None, Some (p, owner)))
              | None =>
                  match getMountedHostInstanceTokenFromNode t (inr p) with
                  | Some _ => Some (Ok (Some p, None))
                  | None => nextPathNode fuel d m t (parentNode d p)
                  end
              end
          end
      end
  end.

Fixpoint pathLoop (fuel : nat) d m t target (current : option Node) (entries : list pathEntry) :
    option (res (list pathEntry * option (Node * value))) :=
  match current with
  | None => Some (Ok (entries, None))
  | Some n =>
      match fuel with
      | O => None
      | S fuel' =>
          match (let* _ := assertTargetNodeDoesNotHaveMismatchedHostInstanceToken t n in
                 match getMountedHostInstanceTokenFromNode t (inr n) with
                 | Some token =>
                     let* e := createEventTargetDispatchPathEntryRecord d t (length entries) n token target in
                     Ok (entries ++ [e])
                 | None => Ok entries
                 end) with
          | Throw e => Some (Throw e)
          | Ok entries =>
              match nextPathNode fuel d m t (parentNode d n) with
              | None => None
              | Some (Throw e) => Some (Throw e)
              | Some (Ok (next, Some boundary)) => Some (Ok (entries, Some boundary))
              | Some (Ok (next, None)) => pathLoop fuel' d m t target next entries
              end
          end
      end
  end.

Record pathRecord : Type := mkPath {
  pr_containerRootBoundary : option (Node * value);
  pr_containerRootOwnerMatchesTargetRoot : option bool;
  pr_entries : list pathEntry;
  pr_ownerRootPreservedAcrossContainerRoot : bool;
  pr_ownerRootPreservedAcrossForeignContainerRoot : bool;
  pr_rootOwner : option value;
  pr_targetHostInstanceNode : option Node;
  pr_targetInst : option N;
  pr_targetRootOwnerMatchCount : nat;
  pr_targetRootOwnerMismatchCount : nat;
  pr_targetNormalizationRecord : normalizationRecord (Node := Node) }.

Definition sameOwner (a b : option value) : bool :=
  match a, b with Some v, Some w => strictEq v w | None, None => true | _, _ => false end.

Definition pathRecordOf (target : normalizationRecord (Node := Node)) (entries : list pathEntry)
    (boundary : option (Node * value)) : pathRecord :=
  let targetEntry := head entries in
  let targetRootOwner := targetEntry ≫= pe_rootOwner in
  let matchCount := match targetRootOwner with
    | None => 0
    | Some _ => length (List.filter (fun e => sameOwner (pe_rootOwner e) targetRootOwner) entries)
    end in
  let mismatchCount := match targetRootOwner with None => 0 | Some _ => length entries - matchCount end in
  let ownerMatches := match boundary, targetRootOwner with
    | Some (_, owner), Some root => Some (strictEq owner root) | _, _ => None end in
  let preserved := isSome boundary && isSome targetRootOwner && (mismatchCount =? 0)%nat in
  mkPath boundary ownerMatches entries preserved
    (preserved && bool_decide (ownerMatches = Some false))
    targetRootOwner (pe_targetHostInstanceNode <$> targetEntry)
    (pe_targetHostInstanceToken <$> targetEntry) matchCount mismatchCount target.

Definition createEventTargetDispatchPathRecord (fuel : nat) d m t
    (record : option (normalizationRecord (Node := Node))) : option (res pathRecord) :=
  match assertEventTargetNormalizationRecord record with
  | Throw e => Some (Throw e)
  | Ok target =>
      match pathLoop fuel d m t target (nr_closestMountedHostInstanceNode target) [] with
      | None => None
      | Some r => Some (let* p := r in Ok (pathRecordOf target (fst p) (snd p)))
      end
  end.

(** ** Names of host nodes *)

Definition lowerIfString (v : value) : option string :=
  match v with VStr s => Some (toLowerCase s) | _ => None end.

Definition getHostNodeName d n : res string :=
  let* nodeName := readProperty d n "nodeName" in
  match lowerIfString nodeName with
  | Some s => Ok s
  | None => let* tagName := readProperty d n "tagName" in Ok (default "" (lowerIfString tagName))
  end.

Definition nonEmptyString (v : value) : option string :=
  match v with VStr s => if decide (s = "") then None else Some s | _ => None end.

Definition getHostNodeLocalName d n : res (option string) :=
  let* localName := readProperty d n "localName" in
  match nonEmptyString localName with
  | Some s => Ok (Some (toLowerCase s))
  | None => let* name := getHostNodeName d n in Ok (nonEmptyString (VStr name))
  end.

Definition getHostNodeDisplayName d n : res (option string) :=
  let* nodeName := readProperty d n "nodeName" in
  match nonEmptyString nodeName with
  | Some s => Ok (Some s)
  | None =>
      let* tagName := readProperty d n "tagName" in
      match nonEmptyString tagName with
      | Some s => Ok (Some s)
      | None => let* localName := getHostNodeLocalName d n in Ok (toUpperCase <$> localName)
      end
  end.

Definition stringOf (v : value) : option string := match v with VStr s => Some s | _ => None end.

Definition getTextNodeContent d n : res string :=
  let* textContent := readProperty d n "textContent" in
  match stringOf textContent with
  | Some s => Ok s
  | None =>
      let* data := readProperty d n "data" in
      match stringOf data with
      | Some s => Ok s
      | None => let* v := readProperty d n "nodeValue" in Ok (default "" (stringOf v))
      end
  end.

(** ** Listener lookup *)

Definition shouldPreventMouseEvent (registrationName : string) d n (latestProps : ref) : res bool :=
  let* disabled := get (heap latestProps) "disabled" in
  if truthy disabled && bool_decide (registrationName ∈ disabledMouseEventRegistrationNames) then
    let* name := getHostNodeName d n in Ok (bool_decide (name ∈ interactiveTagNames))
  else Ok false.

Definition normalizeEventListenerRegistrationName (registrationName : value) : res (option string) :=
  match registrationName with
  | VNull | VUndef => Ok None
  | VStr s => if decide (s = "") then hostError "FAST_REACT_DOM_INVALID_EVENT_LISTENER_REGISTRATION_NAME"
              else Ok (Some s)
  | _ => hostError "FAST_REACT_DOM_INVALID_EVENT_LISTENER_REGISTRATION_NAME"
  end.

Inductive listenerStatus : Type :=
| NotApplicable
| NoMountedHostInstance
| MissingLatestProps
| DisabledInteractiveBlocked
| MissingListener
| PresentListener.

(** The visible record and its private payload (the latest props and the listener). *)
Record lookup : Type := mkLookup {
  lk_componentTreeStatus : string;
  lk_hostInstanceNode : option Node;
  lk_hostInstanceToken : option N;
  lk_hostOwner : option value;
  lk_rootOwner : option value;
  lk_latestProps : option value;
  lk_listener : option ref;
  lk_listenerStatus : listenerStatus;
  lk_registrationName : option string;
  lk_targetNormalizationRecord : normalizationRecord (Node := Node) }.

Definition lk_listenerFound (l : lookup) : bool := isSome (lk_listener l).

Definition createEventListenerTargetLookupRecordFromPayload t
    (target : normalizationRecord (Node := Node)) (name : option string) (n : option Node)
    (token : option N) (latestProps : option value) (listener : option ref) (status : listenerStatus) : lookup :=
  mkLookup (nr_status target) n token (getHostInstanceOwnerFromToken t token)
    (getRootOwnerFromHostInstanceToken t token) latestProps listener status name target.

(** The object that latest props must be. *)
Definition propsObjectOf (v : value) : option ref :=
  match v with VObj r | VFun r => Some r | _ => None end.

Definition createEventListenerTargetLookupRecord d t
    (record : option (normalizationRecord (Node := Node))) (registrationName : value) : res lookup :=
  let* target := assertEventTargetNormalizationRecord record in
  let* name := normalizeEventListenerRegistrationName registrationName in
  let* _ := (match nr_targetNode target with
             | Some n => assertTargetNodeDoesNotHaveMismatchedHostInstanceToken t n
             | None => Ok tt end) in
  let make := createEventListenerTargetLookupRecordFromPayload t target name in
  match nr_closestMountedHostInstanceToken target with
  | None => Ok (make None None None None
                  (match name with None => NotApplicable | Some _ => NoMountedHostInstance end))
  | Some token =>
      match getMountedHostInstanceNodeFromToken t (Some token) with
      | None => hostError EVENT_LISTENER_TARGET_LOOKUP_UNMOUNTED_CODE
      | Some n =>
          let* _ := require (bool_decide (nr_closestMountedHostInstanceNode target = Some n))
                      EVENT_LISTENER_TARGET_LOOKUP_NODE_MISMATCH_CODE in
          match getLatestPropsFromNode t (inr n) with
          | None | Some VNull => Ok (make (Some n) (Some token) None None MissingLatestProps)
          | Some latestProps =>
              match propsObjectOf latestProps with
              | None => hostError "FAST_REACT_DOM_INVALID_EVENT_LISTENER_LATEST_PROPS"
              | Some r =>
                  match name with
                  | None => Ok (make (Some n) (Some token) (Some latestProps) None NotApplicable)
                  | Some nm =>
                      let* listener := (if hasOwn (heap r) nm then get (heap r) nm else Ok VNull) in
                      if nullish listener then
                        Ok (make (Some n) (Some token) (Some latestProps) None MissingListener)
                      else
                        let* prevented := shouldPreventMouseEvent nm d n r in
                        if prevented then
                          Ok (make (Some n) (Some token) (Some latestProps) None DisabledInteractiveBlocked)
                        else
                          match listener with
                          | VFun f => Ok (make (Some n) (Some token) (Some latestProps) (Some f) PresentListener)
                          | _ => hostError "FAST_REACT_DOM_INVALID_EVENT_LISTENER"
                          end
                  end
              end
          end
      end
  end.

(** ** Host node records *)

Record hostNodeRecord : Type := mkHostNode {
  hn_token : N;
  hn_node : Node;
  hn_hostOwner : option value;
  hn_rootOwner : option value;
  hn_nodeType : value;
  hn_latestProps : option value;
  hn_latestRef : option value }.

(** The ref among the latest props, when it is an own property. *)
Definition latestRefOf (latestProps : option value) : res (option value) :=
  match latestProps with
  | Some (VObj r) => if hasOwn (heap r) "ref" then let* v := get (heap r) "ref" in Ok (Some v) else Ok None
  | _ => Ok None
  end.

Definition createMountedHostInstanceNodeRecord d t (token : option N) : res hostNodeRecord :=
  let* km := assertKnownHostInstanceToken t token in
  match getMountedHostInstanceNodeFromToken t token with
  | None => hostError UNMOUNTED_HOST_INSTANCE_TOKEN
  | Some n =>
      let latestProps := getLatestPropsFromNode t (inr n) in
      let* latestRef := latestRefOf latestProps in
      let* nodeType := nodeTypeOf d (inr n) in
      Ok (mkHostNode (fst km) n (getHostInstanceOwnerFromToken t token)
            (getRootOwnerFromHostInstanceToken t token) nodeType latestProps latestRef)
  end.

Inductive fakeHostNode : Type :=
| FakeText (textContent : string)
| FakeElement (localName nodeName : option string) (namespaceURI : option string) (nodeType : value).

Definition createFakeHostNodeFromHostInstance d n : res fakeHostNode :=
  let* nodeType := nodeTypeOf d (inr n) in
  if isNodeType nodeType 3 then let* s := getTextNodeContent d n in Ok (FakeText s)
  else
    let* localName := getHostNodeLocalName d n in
    let* nodeName := getHostNodeDisplayName d n in
    let* namespaceURI := readProperty d n "namespaceURI" in
    Ok (FakeElement localName nodeName (stringOf namespaceURI) nodeType).

(** The record of a fake node with its source; [None] is no private host node record. *)
Definition createRefCallbackFakeHostNodeRecord d (record : option hostNodeRecord) :
    res (fakeHostNode * hostNodeRecord) :=
  match record with
  | None => hostError "FAST_REACT_DOM_INVALID_REF_CALLBACK_HOST_NODE_RECORD"
  | Some r => let* fake := createFakeHostNodeFromHostInstance d (hn_node r) in Ok (fake, r)
  end.

(** ** Root host output *)

(** The payload that the root bridge passes: [None] for a token that is null or undefined,
    [Some None] for one that is no token. *)
Record hostOutputPayload : Type := mkHostOutput {
  ho_hostNode : domArg Node;
  ho_hostToken : option (option N);
  ho_rootOwner : value;
  ho_textNode : option (domArg Node);
  ho_createRecord : value;
  ho_renderRecord : value;
  ho_active : value }.

Definition isObjectValue (v : value) : bool := match v with VObj _ | VFun _ => true | _ => false end.

Definition assertPrivateRootHostOutputEventTargetPayload (payload : option hostOutputPayload) :
    res hostOutputPayload :=
  match payload with
  | None => hostError INVALID_PRIVATE_ROOT_HOST_OUTPUT_EVENT_TARGET_CODE
  | Some p =>
      let* _ := require (match ho_hostNode p with inr _ => true | inl v => isObjectValue v end
                         && isObjectValue (ho_rootOwner p)
                         && negb (bool_decide (ho_hostToken p = Some None)))
                  INVALID_PRIVATE_ROOT_HOST_OUTPUT_EVENT_TARGET_CODE in
      Ok p
  end.

Record renderMetadata : Type := mkRenderMetadata {
  rm_available : bool;
  rm_createRecordAvailable : bool;
  rm_hostOutputActive : bool;
  rm_renderRecordAvailable : bool;
  rm_status : string }.

Definition createPrivateRootHostOutputEventTargetRootRenderMetadata (p : hostOutputPayload) : renderMetadata :=
  let c := isObjectValue (ho_createRecord p) in
  let r := isObjectValue (ho_renderRecord p) in
  let active := bool_decide (ho_active p = VBool true) in
  mkRenderMetadata (c && r) c active r
    (if c && r then
       if active then "active-private-root-render-host-output"
       else "inactive-private-root-render-host-output"
     else "not-private-root-render-host-output").

Record eventTargetRecord : Type := mkEventTarget {
  et_hostOwner : option value;
  et_isSourceHostNode : bool;
  et_isSourceTextNode : bool;
  et_latestProps : option value;
  et_nodeType : value;
  et_rootRenderMetadata : renderMetadata;
  et_rootOwner : value;
  et_targetHostInstanceToken : N;
  et_sourceHostNode : Node;
  et_targetNode : Node }.

(** [options.rootOwner] and [options.targetNode], [None] when undefined *)
Definition createPrivateRootHostOutputEventTargetRecord d t (payload : option hostOutputPayload)
    (optRootOwner : option value) (optTargetNode : option (domArg Node)) : res eventTargetRecord :=
  let* p := assertPrivateRootHostOutputEventTargetPayload payload in
  let expectedRootOwner := default (ho_rootOwner p) optRootOwner in
  let targetArg := default (ho_hostNode p) optTargetNode in
  let* source := assertHostInstanceNode d (ho_hostNode p) in
  let* target := assertHostInstanceNode d targetArg in
  let* _ := (match ho_hostToken p with
             | None => Ok tt
             | Some token =>
                 let* mounted := assertMountedHostInstanceToken t token in
                 require (bool_decide (mounted = source)) INVALID_PRIVATE_ROOT_HOST_OUTPUT_EVENT_TARGET_CODE
             end) in
  match getRootOwnerFromNode t (inr source) with
  | None => hostError INVALID_PRIVATE_ROOT_HOST_OUTPUT_EVENT_TARGET_CODE
  | Some sourceRootOwner =>
      let* _ := require (bool_decide (expectedRootOwner = VNull) || strictEq expectedRootOwner sourceRootOwner)
                  INVALID_PRIVATE_ROOT_HOST_OUTPUT_EVENT_TARGET_CODE in
      match getMountedHostInstanceTokenFromNode t (inr target) with
      | None => hostError INVALID_PRIVATE_ROOT_HOST_OUTPUT_EVENT_TARGET_CODE
      | Some token =>
          match getRootOwnerFromHostInstanceToken t (Some token) with
          | None => hostError INVALID_PRIVATE_ROOT_HOST_OUTPUT_EVENT_TARGET_CODE
          | Some targetRootOwner =>
              let* _ := require (strictEq targetRootOwner sourceRootOwner)
                          INVALID_PRIVATE_ROOT_HOST_OUTPUT_EVENT_TARGET_CODE in
              let* nodeType := nodeTypeOf d (inr target) in
              Ok (mkEventTarget (getHostInstanceOwnerFromToken t (Some token))
                    (bool_decide (target = source))
                    (bool_decide (ho_textNode p = Some (inr target)))
                    (getLatestPropsFromNode t (inr target)) nodeType
                    (createPrivateRootHostOutputEventTargetRootRenderMetadata p)
                    targetRootOwner token source target)
          end
      end
  end.
End Targets.
