(* ===== verification/TreeProps.v ===== *)
(** * Publishing latest props (client/component-tree.js with dom-host/mutation.js)

    The second half of a host update: the mutation module has written the DOM and registered
    a handoff with the props that were rendered; the component tree publishes those props on
    the node, or rolls the DOM back. The state is the mutation module's world with the
    component tree. *)
From S2P Require Import Prelude JsValue DomHost DomTree DomPayload DomCommit RootMarkers ComponentTree.

Section Publish.
Context {Node D : Type} `{!EqDecision Node} `{!Countable Node} `{!Host Node D} (heap : ref -> jsobject).

Definition updateLatestPropsForNode (node : domArg Node) (latestProps : value) (t : treeState Node) :
    effect (treeState Node) value :=
  match getHostInstanceTokenFromNode t node, node with
  | Some _, inr n =>
      (Ok (nullIfUndefined latestProps),
       mkTree (nextToken t) (tokenMetadata t) (tokenToNode t) (nodeTokens t)
         (<[n := nullIfUndefined latestProps]> (nodeProps t)))
  | _, _ => (hostError UNATTACHED_HOST_INSTANCE_NODE, t)
  end.

Definition updateLatestPropsForHostInstanceToken (token : option N) (latestProps : value)
    (t : treeState Node) : effect (treeState Node) value :=
  do* n, t := pureStep (assertMountedHostInstanceToken t token) t in
  updateLatestPropsForNode (inr n) latestProps t.

Abbreviation propsPayload := (latestPropsPayload (Node := Node)).
Abbreviation mutationWorld := (world (Node := Node) (D := D)).

Definition getLatestPropsCommitPayload (w : mutationWorld) (record : option N) : res propsPayload :=
  match getLatestPropsCommitRecordPayload w record with
  | Some p => Ok p
  | None => hostError "FAST_REACT_DOM_INVALID_LATEST_PROPS_COMMIT_RECORD"
  end.

Definition assertAttachedLatestPropsCommitPayload (t : treeState Node) (p : propsPayload) : res unit :=
  require (isSome (getHostInstanceTokenFromNode t (inr (lp_node p)))) UNATTACHED_HOST_INSTANCE_NODE.

Definition publish (p : propsPayload) (t : treeState Node) : effect (treeState Node) value :=
  updateLatestPropsForNode (inr (lp_node p)) (lp_latestProps p) t.

Definition commitLatestPropsFromMutationRecord (w : mutationWorld) (record : option N)
    (t : treeState Node) : effect (treeState Node) value :=
  do* p, t := pureStep (getLatestPropsCommitPayload w record) t in
  do* _, t := pureStep (assertAttachedLatestPropsCommitPayload t p) t in
  publish p t.

(** A batch argument; [None] is no array. *)
Definition normalizeLatestPropsCommitRecords (w : mutationWorld) (records : option (list (option N))) :
    res (list propsPayload) :=
  match records with
  | None => hostError "FAST_REACT_DOM_INVALID_LATEST_PROPS_COMMIT_BATCH"
  | Some l => mapRes (getLatestPropsCommitPayload w) l
  end.

Definition publishAll (payloads : list propsPayload) (t : treeState Node) : effect (treeState Node) unit :=
  forEach (fun p t => do* _, t := publish p t in (Ok tt, t)) payloads t.

Definition assertAllAttached (t : treeState Node) (payloads : list propsPayload) : res (list unit) :=
  mapRes (assertAttachedLatestPropsCommitPayload t) payloads.

Definition commitLatestPropsFromMutationRecords (w : mutationWorld) (records : option (list (option N)))
    (t : treeState Node) : effect (treeState Node) nat :=
  do* payloads, t := pureStep (normalizeLatestPropsCommitRecords w records) t in
  do* _, t := pureStep (assertAllAttached t payloads) t in
  do* _, t := publishAll payloads t in
  (Ok (length payloads), t).

(** ** Handoffs *)

Definition getLatestPropsMutationHandoffPayload (w : mutationWorld) (handoff : option N) :
    res (handoffPayload (Node := Node)) :=
  match getDomPropertyUpdateLatestPropsHandoffPayload w handoff with
  | Some p => Ok p
  | None => hostError "FAST_REACT_DOM_INVALID_LATEST_PROPS_MUTATION_HANDOFF"
  end.

(** Best effort, last first: an error of a rollback is dropped. *)
Definition rollbackLatestPropsMutationHandoffs (handoffs : list (option N)) (w : mutationWorld) :
    mutationWorld :=
  fold_left (fun w handoff => snd (rollbackDomPropertyUpdateLatestPropsHandoff heap handoff w))
    (rev handoffs) w.

Definition commitLatestPropsFromMutationHandoff (handoff : option N) (w : mutationWorld)
    (t : treeState Node) : res value * mutationWorld * treeState Node :=
  match getLatestPropsMutationHandoffPayload w handoff with
  | Throw e => (Throw e, w, t)
  | Ok payload =>
      match commitLatestPropsFromMutationRecord w (Some (hp_latestPropsCommitRecord payload)) t with
      | (Ok v, t) => (Ok v, w, t)
      | (Throw e, t) => (Throw e, rollbackLatestPropsMutationHandoffs [handoff] w, t)
      end
  end.

(** The first loop of the batch: the handoffs whose payload was found, and the exception
    that ended it. *)
Fixpoint normalizeHandoffs (w : mutationWorld) (handoffs : list (option N)) :
    list (option N * handoffPayload (Node := Node)) * res unit :=
  match handoffs with
  | [] => ([], Ok tt)
  | handoff :: rest =>
      match getLatestPropsMutationHandoffPayload w handoff with
      | Throw e => ([], Throw e)
      | Ok payload =>
          let '(l, r) := normalizeHandoffs w rest in ((handoff, payload) :: l, r)
      end
  end.

Definition commitLatestPropsFromMutationHandoffs (handoffs : option (list (option N)))
    (w : mutationWorld) (t : treeState Node) : res nat * mutationWorld * treeState Node :=
  match handoffs with
  | None => (hostError "FAST_REACT_DOM_INVALID_LATEST_PROPS_MUTATION_HANDOFF_BATCH", w, t)
  | Some l =>
      let '(normalizedHandoffs, r) := normalizeHandoffs w l in
      match (let* _ := r in
             let* payloads := mapRes (fun p => getLatestPropsCommitPayload w
                                (Some (hp_latestPropsCommitRecord (snd p)))) normalizedHandoffs in
             let* _ := assertAllAttached t payloads in Ok payloads) with
      | Throw e => (Throw e, rollbackLatestPropsMutationHandoffs (map fst normalizedHandoffs) w, t)
      | Ok payloads =>
          match publishAll payloads t with
          | (Ok _, t) => (Ok (length payloads), w, t)
          | (Throw e, t) => (Throw e, w, t)
          end
      end
  end.
End Publish.
