(* ===== verification/ComponentTreeSpec.v ===== *)
(** * Theorems about the component tree

    The maps between nodes and tokens stay inverse under every operation; event paths are
    the mounted ancestors up to the root container; detaching a subtree detaches exactly the
    nodes of the subtree; latest props are published for a whole batch or not at all, and
    a host update whose props cannot be published is undone. *)
From S2P Require Import Prelude JsValue DomHost DomTree DomPayload DomCommit DomCommitSpec.
From S2P Require Import DomTreeSpec RootMarkers ComponentTree TreeTargets TreeProps.

Section Invariant.
Context {Node D : Type} `{!EqDecision Node} `{!Countable Node} `{!Host Node D} (heap : ref -> jsobject)
        (childNodeItems : D -> Node -> option (list (domArg Node))).
Implicit Types (d : D) (t : treeState Node) (n : Node) (k : N).

(** Nodes and tokens are paired; a paired token has its metadata, a paired node its props. *)
Record treeOk t : Prop := {
  ok_pair n k : nodeTokens t !! n = Some k <-> tokenToNode t !! k = Some n;
  ok_metadata k n : tokenToNode t !! k = Some n -> is_Some (tokenMetadata t !! k);
  ok_props n : is_Some (nodeProps t !! n) <-> is_Some (nodeTokens t !! n);
  ok_fresh k : is_Some (tokenMetadata t !! k) -> (k < nextToken t)%N }.

Lemma emptyTree_ok : treeOk emptyTree.
Proof.
  split; simpl; intros.
  - rewrite !lookup_empty. done.
  - by rewrite lookup_empty in H.
  - rewrite !lookup_empty. done.
  - rewrite lookup_empty in H. by destruct H.
Qed.

Lemma tokenFromNode_ok t n : treeOk t -> getHostInstanceTokenFromNode t (inr n) = nodeTokens t !! n.
Proof.
  intros Hok. unfold getHostInstanceTokenFromNode.
  destruct (nodeTokens t !! n) as [k|] eqn:E; [|done]. simpl.
  apply (ok_pair _ Hok) in E. destruct (ok_metadata _ Hok _ _ E) as [v ->]. simpl. by rewrite decide_True.
Qed.

Lemma nodeFromToken_ok t k : treeOk t -> getMountedHostInstanceNodeFromToken t (Some k) = tokenToNode t !! k.
Proof.
  intros Hok. unfold getMountedHostInstanceNodeFromToken, getHostInstanceMetadata. simpl.
  destruct (tokenToNode t !! k) as [n|] eqn:E.
  - destruct (ok_metadata _ Hok _ _ E) as [v ->]. simpl. rewrite decide_True; [done|].
    by apply (ok_pair _ Hok).
  - by destruct (tokenMetadata t !! k).
Qed.

Lemma createToken_ok hostOwner rootOwner t :
  treeOk t -> treeOk (snd (createHostInstanceToken hostOwner rootOwner t)).
Proof.
  intros Hok. unfold createHostInstanceToken.
  destruct (assertOwner hostOwner _); [|done]. simpl. destruct (assertOwner rootOwner _); [|done]. simpl.
  split; simpl.
  - apply Hok.
  - intros k n H. destruct (decide (k = nextToken t)) as [->|Hk].
    + rewrite lookup_insert_eq. eauto.
    + rewrite lookup_insert_ne by done. by eapply ok_metadata.
  - apply Hok.
  - intros k H. destruct (decide (k = nextToken t)) as [->|Hk]; [lia|].
    rewrite lookup_insert_ne in H by done. apply (ok_fresh _ Hok) in H. lia.
Qed.

Lemma attach_ok d node token latestProps t :
  treeOk t -> treeOk (snd (attachHostInstanceNode d node token latestProps t)).
Proof.
  intros Hok. unfold attachHostInstanceNode.
  destruct (assertHostInstanceNode d node) as [n|] eqn:En; [|done].
  unfold assertKnownHostInstanceToken. simpl. destruct token as [k|]; [|done].
  destruct (tokenMetadata t !! k) as [v|] eqn:Em; [|done]. simpl.
  assert (node = inr n) as ->.
  { unfold assertHostInstanceNode in En. apply bind_Ok in En as (b & _ & En).
    destruct node; [done|]. destruct b; [|done]. by injection En as ->. }
  rewrite tokenFromNode_ok by done.
  destruct (tokenToNode t !! k) as [n1|] eqn:E1; simpl.
  - case_bool_decide; [|done]. subst n1. simpl.
    pose proof E1 as E2. apply (ok_pair _ Hok) in E2. rewrite E2. rewrite bool_decide_eq_true_2 by done. simpl.
    rewrite (insert_id (tokenToNode t) k n E1), (insert_id (nodeTokens t) n k E2).
    split; simpl; try apply Hok.
    + intros n'.
      destruct (decide (n' = n)) as [->|Hn]; [rewrite lookup_insert_eq, E2; split; eauto|].
      rewrite lookup_insert_ne by done. apply Hok.
  - assert (Hfree : forall n', nodeTokens t !! n' <> Some k).
    { intros n' H. apply (ok_pair _ Hok) in H. congruence. }
    destruct (nodeTokens t !! n) as [k1|] eqn:E2; simpl.
    { case_bool_decide as E; [destruct (Hfree n); congruence|exact Hok]. }
    split; simpl.
    + intros n' k'. destruct (decide (n' = n)) as [->|Hn]; destruct (decide (k' = k)) as [->|Hk];
        rewrite ?lookup_insert_eq, ?lookup_insert_ne by done; try done.
      * split; [congruence|]. intros H. apply (ok_pair _ Hok) in H. congruence.
      * split; [|congruence]. intros H. by destruct (Hfree n').
      * apply Hok.
    + intros k' n' H. destruct (decide (k' = k)) as [->|Hk]; [by rewrite Em|].
      rewrite lookup_insert_ne in H by done. by eapply ok_metadata.
    + intros n'. destruct (decide (n' = n)) as [->|Hn]; [rewrite !lookup_insert_eq; split; eauto|].
      rewrite !lookup_insert_ne by done. apply Hok.
    + apply Hok.
Qed.

(** The tree without the pair of a node and a token. *)
Lemma unpair_ok t n k :
  treeOk t -> nodeTokens t !! n = Some k ->
  treeOk (mkTree (nextToken t) (delete k (tokenMetadata t)) (delete k (tokenToNode t))
            (delete n (nodeTokens t)) (delete n (nodeProps t))).
Proof.
  intros Hok Hn. pose proof Hn as Hk. apply (ok_pair _ Hok) in Hk. split; simpl.
  - intros n' k'. rewrite !lookup_delete_Some, (ok_pair _ Hok). split.
    + intros [Hne H]. split; [|done]. intros ->. congruence.
    + intros [Hne H]. split; [|done]. intros ->. apply (ok_pair _ Hok) in H. congruence.
  - intros k' n' [Hne H]%lookup_delete_Some. rewrite lookup_delete_ne by done. by eapply ok_metadata.
  - intros n'. destruct (decide (n' = n)) as [->|Hne]; [by rewrite !lookup_delete_eq|].
    rewrite !lookup_delete_ne by done. apply Hok.
  - intros k' [v H]. apply lookup_delete_Some in H as [_ H]. apply (ok_fresh _ Hok). eauto.
Qed.

Lemma detachNode_ok node t :
  treeOk t ->
  let '(token, t') := detachHostInstanceNode node t in
  treeOk t' /\ token = getHostInstanceTokenFromNode t node
  /\ forall n, nodeTokens t' !! n = if decide (node = inr n) then None else nodeTokens t !! n.
Proof.
  intros Hok. unfold detachHostInstanceNode. destruct node as [v|n]; [done|].
  rewrite tokenFromNode_ok by done. destruct (nodeTokens t !! n) as [k|] eqn:E.
  - split; [by apply unpair_ok|]. split; [done|]. intros n'. simpl. case_decide; simplify_eq.
    + by rewrite lookup_delete_eq.
    + rewrite lookup_delete_ne; congruence.
  - assert (Hp : nodeProps t !! n = None).
    { destruct (nodeProps t !! n) eqn:Ep; [|done].
      destruct (proj1 (ok_props _ Hok n)) as [? H]; [rewrite Ep; eauto|congruence]. }
    rewrite !delete_id by done. split; [by destruct t|]. split; [done|]. intros n'. simpl.
    case_decide; congruence.
Qed.

Lemma detachToken_ok token t : treeOk t -> treeOk (snd (detachHostInstanceToken token t)).
Proof.
  intros Hok. unfold detachHostInstanceToken. destruct token as [k|]; [|done]. simpl.
  destruct (tokenMetadata t !! k) as [v|] eqn:Em; [|done]. simpl.
  destruct (tokenToNode t !! k) as [n|] eqn:E.
  - rewrite decide_True by by apply (ok_pair _ Hok). simpl. apply unpair_ok; [done|].
    by apply (ok_pair _ Hok).
  - simpl. rewrite (delete_id (tokenToNode t)) by done. split; simpl.
    + apply Hok.
    + intros k' n' H. destruct (decide (k' = k)) as [->|Hne]; [congruence|].
      rewrite lookup_delete_ne by done. by eapply ok_metadata.
    + apply Hok.
    + intros k' [v' H]. apply lookup_delete_Some in H as [_ H]. apply (ok_fresh _ Hok). eauto.
Qed.

Lemma detachAll_ok nodes t :
  treeOk t ->
  let '(tokens, t') := detachAll nodes t in
  treeOk t'
  /\ forall n, nodeTokens t' !! n = if decide (n ∈ nodes) then None else nodeTokens t !! n.
Proof.
  induction nodes as [|x nodes IH] in t |- *; intros Hok.
  - by split.
  - cbn [detachAll]. pose proof (detachNode_ok (inr x) t Hok) as H.
    destruct (detachHostInstanceNode (inr x) t) as [token t1]. destruct H as (Hok1 & _ & Hn).
    specialize (IH t1 Hok1). destruct (detachAll nodes t1) as [tokens t2].
    destruct IH as [Hok2 IH]. split; [done|]. intros n. rewrite IH, Hn.
    destruct (decide (n = x)) as [->|Hne].
    + rewrite (decide_True (P := x ∈ x :: nodes)) by left.
      destruct (decide (x ∈ nodes)); [done|]. by case_decide.
    + destruct (decide (n ∈ nodes)) as [Hin|Hnin].
      * by rewrite decide_True by by right.
      * rewrite (decide_False (P := n ∈ x :: nodes)) by by intros [->|?]%elem_of_cons.
        case_decide; congruence.
Qed.

Lemma updateProps_ok node latestProps t :
  treeOk t -> treeOk (snd (updateLatestPropsForNode node latestProps t)).
Proof.
  intros Hok. unfold updateLatestPropsForNode. destruct node as [v|n]; [done|].
  rewrite tokenFromNode_ok by done. destruct (nodeTokens t !! n) as [k|] eqn:E; [|done].
  split; simpl; try apply Hok. intros n'. destruct (decide (n' = n)) as [->|Hne].
  - rewrite lookup_insert_eq, E. split; eauto.
  - rewrite lookup_insert_ne by done. apply Hok.
Qed.

Lemma publishAll_ok payloads t : treeOk t -> treeOk (snd (publishAll payloads t)).
Proof.
  induction payloads as [|p payloads IH] in t |- *; intros Hok; simpl; [done|].
  pose proof (updateProps_ok (inr (lp_node p)) (lp_latestProps p) t Hok) as H.
  unfold publishAll in *. simpl. unfold publish at 1.
  destruct (updateLatestPropsForNode _ _ t) as [[v|e] t1]; simpl in *; [by apply IH|done].
Qed.

Lemma commitRecord_ok (w : world (D := D)) record t :
  treeOk t -> treeOk (snd (commitLatestPropsFromMutationRecord w record t)).
Proof.
  intros Hok. unfold commitLatestPropsFromMutationRecord.
  destruct (getLatestPropsCommitPayload w record) as [p|]; [|done]. simpl.
  destruct (assertAttachedLatestPropsCommitPayload t p); [|done]. simpl. by apply updateProps_ok.
Qed.

Lemma commitRecords_ok (w : world (D := D)) records t :
  treeOk t -> treeOk (snd (commitLatestPropsFromMutationRecords w records t)).
Proof.
  intros Hok. unfold commitLatestPropsFromMutationRecords.
  destruct (normalizeLatestPropsCommitRecords w records) as [l|]; [|done]. simpl.
  destruct (assertAllAttached t l); [|done]. simpl.
  pose proof (publishAll_ok l t Hok) as H. by destruct (publishAll l t) as [[]].
Qed.

Lemma commitHandoff_ok (w : world (D := D)) handoff t :
  treeOk t -> treeOk (snd (commitLatestPropsFromMutationHandoff heap handoff w t)).
Proof.
  intros Hok. unfold commitLatestPropsFromMutationHandoff.
  destruct (getLatestPropsMutationHandoffPayload w handoff) as [p|]; [|done].
  pose proof (commitRecord_ok w (Some (hp_latestPropsCommitRecord p)) t Hok) as H.
  by destruct (commitLatestPropsFromMutationRecord w _ t) as [[]].
Qed.

Lemma commitHandoffs_ok (w : world (D := D)) handoffs t :
  treeOk t -> treeOk (snd (commitLatestPropsFromMutationHandoffs heap handoffs w t)).
Proof.
  intros Hok. unfold commitLatestPropsFromMutationHandoffs. destruct handoffs as [l|]; [|done].
  destruct (normalizeHandoffs w l) as [normalized r].
  match goal with |- context [match ?x with Ok _ => _ | Throw _ => _ end] => destruct x as [payloads|] end; [|done].
  pose proof (publishAll_ok payloads t Hok) as H. by destruct (publishAll payloads t) as [[]].
Qed.

(** One operation of the module, with any arguments, in any state of the host and of the
    mutation module, whether it returns or throws. *)
Inductive treeStep (t : treeState Node) : treeState Node -> Prop :=
| step_create hostOwner rootOwner : treeStep t (snd (createHostInstanceToken hostOwner rootOwner t))
| step_attach d node token latestProps :
    treeStep t (snd (attachHostInstanceNode d node token latestProps t))
| step_detachNode node : treeStep t (snd (detachHostInstanceNode node t))
| step_detachToken token : treeStep t (snd (detachHostInstanceToken token t))
| step_detachSubtree fuel d rootNode includeRoot r t' :
    detachHostInstanceSubtree childNodeItems fuel d rootNode includeRoot t = Some (r, t') -> treeStep t t'
| step_update node latestProps : treeStep t (snd (updateLatestPropsForNode node latestProps t))
| step_updateToken token latestProps :
    treeStep t (snd (updateLatestPropsForHostInstanceToken token latestProps t))
| step_commitRecord (w : world (D := D)) record :
    treeStep t (snd (commitLatestPropsFromMutationRecord w record t))
| step_commitRecords (w : world (D := D)) records :
    treeStep t (snd (commitLatestPropsFromMutationRecords w records t))
| step_commitHandoff (w : world (D := D)) handoff :
    treeStep t (snd (commitLatestPropsFromMutationHandoff heap handoff w t))
| step_commitHandoffs (w : world (D := D)) handoffs :
    treeStep t (snd (commitLatestPropsFromMutationHandoffs heap handoffs w t)).

Lemma treeStep_ok t t' : treeStep t t' -> treeOk t -> treeOk t'.
Proof.
  intros [] Hok; auto using createToken_ok, attach_ok, detachToken_ok, updateProps_ok, commitRecord_ok,
    commitRecords_ok, commitHandoff_ok, commitHandoffs_ok.
  - pose proof (detachNode_ok node t Hok) as H. by destruct (detachHostInstanceNode node t), H.
  - rename H into E. unfold detachHostInstanceSubtree in E.
    destruct (if includeRoot then _ else _) as [nodes|]; [|done].
    pose proof (detachAll_ok nodes t Hok) as H. destruct (detachAll nodes t) as [tokens t1].
    destruct H as [H _]. destruct (nodeTypeOf d rootNode); by injection E as <- <-.
  - unfold updateLatestPropsForHostInstanceToken.
    destruct (assertMountedHostInstanceToken t token); [|done]. by apply updateProps_ok.
Qed.

(** C10: The component tree is a bijection: in every state that the module's operations reach
    from the empty one, whatever they throw, the node of a token and the token of a node are
    inverse, attached nodes are those with latest props, attached tokens have owners, and the
    metadata of a node is never taken for mismatched. *)
Theorem component_tree_bijection t :
  rtc treeStep emptyTree t ->
  (forall n k, getHostInstanceTokenFromNode t (inr n) = Some k
               <-> getMountedHostInstanceNodeFromToken t (Some k) = Some n)
  /\ (forall n, isSome (getHostInstanceTokenFromNode t (inr n)) = isSome (nodeProps t !! n))
  /\ (forall n k, getHostInstanceTokenFromNode t (inr n) = Some k ->
        is_Some (getHostInstanceOwnerFromToken t (Some k)) /\ is_Some (getRootOwnerFromHostInstanceToken t (Some k)))
  /\ (forall n, assertTargetNodeDoesNotHaveMismatchedHostInstanceToken t n = Ok tt).
Proof.
  intros Hreach.
  assert (Hok : treeOk t).
  { revert Hreach. apply (rtc_ind_r (fun t => treeOk t)); [apply emptyTree_ok|].
    intros t1 t2 _ Hs H. by eapply treeStep_ok. }
  split; [|split; [|split]].
  - intros n k. rewrite tokenFromNode_ok, nodeFromToken_ok by done. apply Hok.
  - intros n. rewrite tokenFromNode_ok by done. pose proof (ok_props _ Hok n) as H.
    destruct (nodeProps t !! n), (nodeTokens t !! n); try done.
    + destruct (proj1 H) as [? ?]; [eauto|done].
    + destruct (proj2 H) as [? ?]; [eauto|done].
  - intros n k. rewrite tokenFromNode_ok by done. intros E%(ok_pair _ Hok).
    destruct (ok_metadata _ Hok _ _ E) as [v Hv].
    unfold getHostInstanceOwnerFromToken, getRootOwnerFromHostInstanceToken, getHostInstanceMetadata.
    simpl. rewrite Hv. simpl. eauto.
  - intros n. unfold assertTargetNodeDoesNotHaveMismatchedHostInstanceToken.
    rewrite tokenFromNode_ok by done. by destruct (nodeTokens t !! n).
Qed.
End Invariant.

(** ** Event paths *)

#[local] Arguments getHostInstanceTokenFromNode : simpl never.
#[local] Arguments getMountedHostInstanceTokenFromNode : simpl never.
#[local] Arguments getMountedHostInstanceNodeFromToken : simpl never.

Section Paths.
Context {Node D : Type} `{!EqDecision Node} `{!Countable Node} `{!Host Node D}.
Implicit Types (d : D) (m : markerState Node) (t : treeState Node) (n x : Node) (k : N).

(** The chain of parents of a node up to the root of its tree. *)
Inductive chain d : Node -> list Node -> Prop :=
| chain_root n : parentNode d n = None -> chain d n [n]
| chain_step n p l : parentNode d n = Some p -> chain d p l -> chain d n (n :: l).

Definition marked m n : bool := isContainerMarkedAsRoot m (inr n).
Definition token t n : option N := nodeTokens t !! n.

(** What the walk over a chain finds: the nodes with tokens above a node that was found,
    up to the first container root, and that root. *)
Fixpoint mountedAbove m t (l : list Node) : list (Node * N) :=
  match l with
  | [] => []
  | x :: l => if marked m x then []
              else match token t x with Some k => (x, k) :: mountedAbove m t l | None => mountedAbove m t l end
  end.
Fixpoint boundaryAbove m (l : list Node) : option (Node * value) :=
  match l with
  | [] => None
  | x :: l => match getContainerRoot m (inr x) with Some owner => Some (x, owner) | None => boundaryAbove m l end
  end.

(** The path of a chain starts at its first node with a token, if no container root comes
    before it. *)
Fixpoint pathOf m t (l : list Node) : list (Node * N) * option (Node * value) :=
  match l with
  | [] => ([], None)
  | x :: l => match token t x with
              | Some k => ((x, k) :: mountedAbove m t l, boundaryAbove m l)
              | None => if marked m x then ([], None) else pathOf m t l
              end
  end.

Lemma marked_owner m x : marked m x = isSome (getContainerRoot m (inr x)).
Proof. unfold marked, isContainerMarkedAsRoot. by destruct (getContainerRoot m (inr x)). Qed.

Lemma chain_head d n l : chain d n l -> exists rest, l = n :: rest /\
  match parentNode d n with Some p => chain d p rest | None => rest = [] end.
Proof. intros [? H|??? H Hc]; eexists; (split; [done|]); by rewrite H. Qed.

(** The walks along a chain that is not longer than the fuel. *)
Lemma closestFrom_chain d m t n l fuel :
  treeOk t -> chain d n l -> length l <= fuel ->
  closestFrom fuel d m t (Some n) = Some (snd <$> head (fst (pathOf m t l))).
Proof.
  intros Hok. revert n l. induction fuel as [|fuel IH]; intros n l Hc Hl.
  - apply chain_head in Hc as (rest & -> & _). simpl in Hl. lia.
  - apply chain_head in Hc as (rest & -> & Hc). simpl in Hl. cbn [closestFrom pathOf].
    unfold getMountedHostInstanceTokenFromNode. rewrite tokenFromNode_ok by done.
    unfold token, marked. destruct (nodeTokens t !! n) as [k|]; [done|].
    destruct (isContainerMarkedAsRoot m (inr n)); [done|].
    destruct (parentNode d n) as [p|]; [apply IH; [done|lia]|].
    subst rest. by destruct fuel.
Qed.

Lemma mismatch_ok t n : treeOk t -> assertTargetNodeDoesNotHaveMismatchedHostInstanceToken t n = Ok tt.
Proof.
  intros Hok. unfold assertTargetNodeDoesNotHaveMismatchedHostInstanceToken.
  rewrite tokenFromNode_ok by done. by destruct (nodeTokens t !! n).
Qed.

(** The result of the inner loop, by the chain of the parent. *)
Lemma nextPathNode_chain d m t parent l fuel :
  treeOk t -> match parent with Some p => chain d p l | None => l = [] end -> length l <= fuel ->
  match mountedAbove m t l with
  | (x, k) :: above =>
      exists pre rest, l = pre ++ x :: rest /\ chain d x (x :: rest) /\ token t x = Some k
        /\ above = mountedAbove m t rest /\ boundaryAbove m l = boundaryAbove m rest
        /\ nextPathNode fuel d m t parent = Some (Ok (Some x, None))
  | [] => nextPathNode fuel d m t parent = Some (Ok (None, boundaryAbove m l))
  end.
Proof.
  intros Hok. revert parent l. induction fuel as [|fuel IH]; intros parent l Hc Hl.
  - destruct parent as [p|]; [|by subst]. apply chain_head in Hc as (rest & -> & _). simpl in Hl. lia.
  - destruct parent as [p|]; [|by subst]. pose proof Hc as Hc0.
    apply chain_head in Hc as (rest & -> & Hc). simpl in Hl.
    cbn [nextPathNode mountedAbove boundaryAbove]. rewrite mismatch_ok, marked_owner by done.
    destruct (getContainerRoot m (inr p)) as [owner|] eqn:Eo; [done|]. simpl.
    unfold getMountedHostInstanceTokenFromNode. rewrite tokenFromNode_ok by done. unfold token at 1.
    destruct (nodeTokens t !! p) as [k|] eqn:Ek.
    + exists [], rest. done.
    + specialize (IH (parentNode d p) rest Hc ltac:(lia)).
      destruct (mountedAbove m t rest) as [|[x k] above]; [done|].
      destruct IH as (pre & rest' & -> & H1 & H2 & H3 & H4 & H5). by exists (p :: pre), rest'.
Qed.

Definition entryPlace (e : pathEntry (Node := Node)) : nat * (Node * N) :=
  (pe_index e, (pe_targetHostInstanceNode e, pe_targetHostInstanceToken e)).

(** What an entry says of its node is true. *)
Definition entryTrue t (e : pathEntry (Node := Node)) : Prop :=
  pe_hostOwner e = getHostInstanceOwnerFromToken t (Some (pe_targetHostInstanceToken e))
  /\ pe_rootOwner e = getRootOwnerFromHostInstanceToken t (Some (pe_targetHostInstanceToken e))
  /\ pe_latestPropsPresent e = propsPresent (nodeProps t !! pe_targetHostInstanceNode e).

(** Every node type can be read. *)
Definition readable d : Prop := forall n, exists v, readProperty d n "nodeType" = Ok v.

Lemma nodeTypeOf_readable d n : readable d -> exists v, nodeTypeOf d (inr n) = Ok v.
Proof. intros H. destruct (H n) as [v E]. simpl. rewrite E. simpl. eauto. Qed.

(** Numbering the entries that follow [i] others. *)
Fixpoint numbered {A} (i : nat) (l : list A) : list (nat * A) :=
  match l with [] => [] | x :: l => (i, x) :: numbered (S i) l end.

Lemma pathLoop_chain d m t target n k rest fuel entries :
  treeOk t -> readable d -> chain d n (n :: rest) -> token t n = Some k -> length rest < fuel ->
  exists path, pathLoop fuel d m t target (Some n) entries = Some (Ok (entries ++ path, boundaryAbove m rest))
    /\ map entryPlace path = numbered (length entries) ((n, k) :: mountedAbove m t rest)
    /\ Forall (entryTrue t) path.
Proof.
  intros Hok Hread. revert n k rest entries. induction fuel as [|fuel IH]; intros n k rest entries Hc Hk Hf; [lia|].
  cbn [pathLoop]. rewrite mismatch_ok by done. cbn [bind].
  unfold getMountedHostInstanceTokenFromNode. rewrite tokenFromNode_ok by done. unfold token in Hk. rewrite Hk.
  unfold createEventTargetDispatchPathEntryRecord.
  destruct (nodeTypeOf_readable d n Hread) as [v Hv]. rewrite Hv. cbn [bind].
  apply chain_head in Hc as (rest' & [= <-] & Hc).
  pose proof (nextPathNode_chain d m t (parentNode d n) rest (S fuel) Hok Hc ltac:(lia)) as Hn.
  match goal with |- context [entries ++ [?e]] => assert (He : entryTrue t e) end.
  { split; [done|]. split; [done|].
    cbn [pe_latestPropsPresent pe_targetHostInstanceNode]. unfold getLatestPropsFromNode.
    rewrite tokenFromNode_ok by done. by rewrite Hk. }
  cbn [numbered]. destruct (mountedAbove m t rest) as [|[x kx] above] eqn:Ea.
  - rewrite Hn. destruct (boundaryAbove m rest) as [b|].
    + eexists [_]. split; [done|]. split; [done|]. by constructor.
    + eexists [_]. split; [by destruct fuel|]. split; [done|]. by constructor.
  - destruct Hn as (pre & rest2 & -> & Hcx & Hkx & -> & Hb & Hn). rewrite Hn, Hb.
    match goal with |- context [pathLoop _ _ _ _ _ _ (entries ++ [?e])] =>
      destruct (IH x kx rest2 (entries ++ [e]) Hcx Hkx) as (path & Hp & Hplaces & Htrue); [|exists (e :: path)] end.
    { rewrite length_app in Hf. simpl in Hf. lia. }
    rewrite <- app_assoc in Hp. split; [exact Hp|]. split; [|by constructor].
    simpl. rewrite Hplaces, length_app, Nat.add_1_r. done.
Qed.

(** The chain's nodes on the path have the tokens that the path says. *)
Lemma pathOf_tokens m t l : Forall (fun p => token t (fst p) = Some (snd p)) (fst (pathOf m t l)).
Proof.
  assert (Habove : forall l, Forall (fun p => token t (fst p) = Some (snd p)) (mountedAbove m t l)).
  { clear. induction l as [|x l IH]; simpl; [constructor|]. destruct (marked m x); [constructor|].
    destruct (token t x) as [k|] eqn:Ek; [by constructor|done]. }
  induction l as [|x l IH]; simpl; [constructor|]. destruct (token t x) as [k|] eqn:Ek.
  - simpl. by constructor.
  - destruct (marked m x); [constructor|done].
Qed.

(** Both records of a target are made. *)
Lemma dispatch_path_made d m t n l fuel :
  treeOk t -> readable d -> chain d n l -> length l <= fuel ->
  exists target path,
    createEventTargetNormalizationRecord fuel d m t (inr n) = Some (Ok target)
    /\ createEventTargetDispatchPathRecord fuel d m t (Some target) = Some (Ok path)
    /\ map entryPlace (pr_entries path) = numbered 0 (fst (pathOf m t l))
    /\ pr_containerRootBoundary path = snd (pathOf m t l)
    /\ Forall (entryTrue t) (pr_entries path)
    /\ pr_targetInst path = nr_closestMountedHostInstanceToken target
    /\ pr_rootOwner path = nr_rootOwner target
    /\ nr_closestMountedHostInstanceToken target = snd <$> head (fst (pathOf m t l))
    /\ nr_closestMountedHostInstanceNode target = fst <$> head (fst (pathOf m t l))
    /\ assertEventTargetNormalizationRecord (Some target) = Ok target.
Proof.
  intros Hok Hread Hc Hl. unfold createEventTargetNormalizationRecord.
  unfold getClosestMountedHostInstanceTokenFromNode. simpl asNode.
  rewrite (closestFrom_chain d m t n l fuel Hok Hc Hl).
  destruct (nodeTypeOf_readable d n Hread) as [v Hv]. rewrite Hv. cbn [bind].
  unfold createEventTargetDispatchPathRecord.
  assert (Hpath : forall n l, chain d n l -> length l <= fuel ->
    (fst (pathOf m t l) = [] /\ snd (pathOf m t l) = None)
    \/ exists x k rest, chain d x (x :: rest) /\ token t x = Some k /\ length rest < fuel
         /\ pathOf m t l = ((x, k) :: mountedAbove m t rest, boundaryAbove m rest)).
  { clear. intros n l Hc. induction Hc as [n Hn|n p l Hp Hc IH]; intros Hl; cbn [pathOf].
    - destruct (token t n) as [k|] eqn:Ek; [|left; by destruct (marked m n)].
      right. exists n, k, []. split; [by constructor|]. split; [done|]. split; [simpl in *; lia|done].
    - destruct (token t n) as [k|] eqn:Ek.
      + right. exists n, k, l. split; [by eapply chain_step|]. split; [done|]. split; [simpl in Hl; lia|done].
      + destruct (marked m n); [by left|]. apply IH. simpl in Hl. lia. }
  destruct (Hpath n l Hc Hl) as [[H1 H2]|(x & k & rest & Hcx & Hk & Hf & E)].
  - rewrite H1, H2. simpl. eexists _, _. split; [done|]. simpl. by destruct fuel.
  - rewrite E. simpl fst. simpl snd.
    replace (snd <$> head ((x, k) :: mountedAbove m t rest)) with (Some k) by done.
    rewrite nodeFromToken_ok by done.
    assert (En : tokenToNode t !! k = Some x) by (by apply (ok_pair _ Hok)). rewrite En. simpl isSome.
    match goal with |- exists target path, Some (Ok ?tg) = _ /\ _ =>
      destruct (pathLoop_chain d m t tg x k rest fuel [] Hok Hread Hcx Hk Hf) as (path & Hp & Hplaces & Htrue);
      exists tg end.
    eexists. split; [done|]. unfold assertEventTargetNormalizationRecord.
    cbn [nr_closestMountedHostInstanceToken nr_status isSome nr_closestMountedHostInstanceNode].
    simpl Bool.eqb. cbv iota. cbn [nr_closestMountedHostInstanceNode].
    rewrite Hp. split; [done|]. cbn [pathRecordOf pr_entries pr_containerRootBoundary pr_targetInst pr_rootOwner fst snd].
    split; [exact Hplaces|]. split; [done|]. split; [exact Htrue|].
    destruct path as [|e path]; [done|]. simpl in Hplaces. injection Hplaces as Hi Hx Hke _.
    simpl. split; [by rewrite Hke|]. apply Forall_cons in Htrue as [(_ & -> & _) _]. by rewrite Hke.
Qed.
(** The dispatch path: for a target in a tree whose parent chain is [l], given more fuel
    than the chain is long, both records are made, and the path is the chain's nodes with
    tokens, numbered from the target, from the first one up to the first container root
    above it, which is the boundary of the record; each entry has the owners of its token and
    says whether its node has latest props, and the root owner of the path is the target's. *)
Theorem dispatch_path_spec d m t n l fuel :
  treeOk t -> readable d -> chain d n l -> length l <= fuel ->
  exists target path,
    createEventTargetNormalizationRecord fuel d m t (inr n) = Some (Ok target)
    /\ createEventTargetDispatchPathRecord fuel d m t (Some target) = Some (Ok path)
    /\ map entryPlace (pr_entries path) = numbered 0 (fst (pathOf m t l))
    /\ pr_containerRootBoundary path = snd (pathOf m t l)
    /\ Forall (entryTrue t) (pr_entries path)
    /\ pr_targetInst path = nr_closestMountedHostInstanceToken target
    /\ pr_rootOwner path = nr_rootOwner target.
Proof.
  intros Hok Hread Hc Hl. destruct (dispatch_path_made d m t n l fuel Hok Hread Hc Hl) as (target & path & H).
  exists target, path. tauto.
Qed.
End Paths.

(** ** Detaching a subtree *)

Section Subtree.
Context {Node D : Type} `{!EqDecision Node} `{!Countable Node} `{!Host Node D}.
Context (childNodeItems : D -> Node -> option (list (domArg Node))) (kids : D -> Node -> list Node).
Implicit Types (d : D) (t : treeState Node) (n x y : Node).

(** The children that the host lists, in trees whose height is finite. *)
Definition listsKids d : Prop := forall n, default [] (childNodeItems d n) = map inr (kids d n).
Definition heightBy (height : Node -> nat) d : Prop := forall p c, c ∈ kids d p -> height c < height p.

(** [x] is [n] or below it, along children. *)
Definition inSubtree d n x : Prop := rtc (fun p c => c ∈ kids d p) n x.

Lemma collect_loop fuel d l nodes :
  (fix loop (l : list (domArg Node)) (nodes : list Node) : option (list Node) :=
     match l with
     | [] => Some nodes
     | child :: l =>
         match collectHostInstanceSubtreeNodes childNodeItems fuel d child nodes with
         | Some nodes => loop l nodes
         | None => None
         end
     end) l nodes = collectAll childNodeItems fuel d l nodes.
Proof. induction l as [|c l IH] in nodes |- *; simpl; [done|]. by case_match. Qed.

Lemma collect_step fuel d n nodes :
  collectHostInstanceSubtreeNodes childNodeItems (S fuel) d (inr n) nodes
  = match collectAll childNodeItems fuel d (default [] (childNodeItems d n)) nodes with
    | Some nodes => Some (nodes ++ [n]) | None => None end.
Proof. cbn [collectHostInstanceSubtreeNodes]. by rewrite collect_loop. Qed.

Lemma collect_spec height d :
  listsKids d -> heightBy height d -> forall fuel,
  (forall n nodes, height n < fuel -> exists l,
     collectHostInstanceSubtreeNodes childNodeItems fuel d (inr n) nodes = Some (nodes ++ l)
     /\ forall x, x ∈ l <-> inSubtree d n x)
  /\ (forall ns nodes, Forall (fun n => height n < fuel) ns -> exists l,
     collectAll childNodeItems fuel d (map inr ns) nodes = Some (nodes ++ l)
     /\ forall x, x ∈ l <-> exists n, n ∈ ns /\ inSubtree d n x).
Proof.
  intros Hk Hh fuel. induction fuel as [|fuel [_ IHall]].
  - split; [intros n nodes H; lia|]. intros ns nodes H. destruct ns as [|n ns].
    + exists []. simpl. rewrite app_nil_r. split; [done|]. intros x. split; [by intros ?%not_elem_of_nil|].
      by intros (n & ?%not_elem_of_nil & _).
    + apply Forall_cons in H as [H _]. lia.
  - assert (Hone : forall n nodes, height n < S fuel -> exists l,
      collectHostInstanceSubtreeNodes childNodeItems (S fuel) d (inr n) nodes = Some (nodes ++ l)
      /\ forall x, x ∈ l <-> inSubtree d n x).
    { intros n nodes Hn. rewrite collect_step, Hk.
      destruct (IHall (kids d n) nodes) as (l & -> & Hl).
      { apply Forall_forall. intros c Hc. apply Hh in Hc. lia. }
      exists (l ++ [n]). rewrite app_assoc. split; [done|]. intros x.
      rewrite elem_of_app, Hl, list_elem_of_singleton. split.
      - intros [(c & Hc & Hx)| ->]; [by eapply rtc_l|constructor].
      - intros H. inversion H as [|? c ? Hc Hr]; subst; [by right|]. left. eauto. }
    split; [exact Hone|]. intros ns nodes Hns. induction ns as [|n ns IH] in nodes, Hns |- *.
    + exists []. simpl. rewrite app_nil_r. split; [done|]. intros x. split; [by intros ?%not_elem_of_nil|].
      by intros (n & ?%not_elem_of_nil & _).
    + apply Forall_cons in Hns as [Hn Hns]. cbn [map collectAll].
      destruct (Hone n nodes Hn) as (l1 & -> & H1). destruct (IH (nodes ++ l1) Hns) as (l2 & -> & H2).
      exists (l1 ++ l2). rewrite app_assoc. split; [done|]. intros x. rewrite elem_of_app, H1, H2. split.
      * intros [Hx|(c & Hc & Hx)]; [exists n; split; [left|done]|exists c; split; [by right|done]].
      * intros (c & [->|Hc]%elem_of_cons & Hx); [by left|right; eauto].
Qed.

(** The tokens that are detached are those of the nodes, each once. *)
Lemma detachAll_tokens nodes t :
  treeOk t -> NoDup nodes -> fst (detachAll nodes t) = omap (fun n => nodeTokens t !! n) nodes.
Proof.
  induction nodes as [|x nodes IH] in t |- *; intros Hok Hnd; [done|]. cbn [detachAll].
  apply NoDup_cons in Hnd as [Hx Hnd]. pose proof (detachNode_ok (inr x) t Hok) as H.
  destruct (detachHostInstanceNode (inr x) t) as [tok t1]. destruct H as (Hok1 & Htok & Hn).
  specialize (IH t1 Hok1 Hnd). destruct (detachAll nodes t1) as [tokens t2]. simpl in IH. simpl fst.
  rewrite tokenFromNode_ok in Htok by done. subst tokens tok.
  assert (E : omap (fun n => nodeTokens t1 !! n) nodes = omap (fun n => nodeTokens t !! n) nodes).
  { apply list_omap_ext. apply Forall2_same_length_lookup_2; [done|].
    intros i a b Ha Hb. simplify_eq. rewrite Hn. rewrite decide_False; [done|].
    intros [= ->]. apply Hx. by eapply list_elem_of_lookup_2. }
  rewrite E. simpl. by destruct (nodeTokens t !! x).
Qed.

(** Detaching a subtree: in a tree of finite height, with fuel above the height of the
    root, the operation returns; the nodes it visits are those of the subtree, without the
    root unless it is included; none of them is attached afterwards, every other node keeps
    its token, and the record's counts are those of the visited nodes and of their tokens. *)
Theorem detach_subtree_spec height d t root includeRoot fuel :
  treeOk t -> readable d -> listsKids d -> heightBy height d -> height root < fuel ->
  exists r t', detachHostInstanceSubtree childNodeItems fuel d (inr root) includeRoot t = Some (Ok r, t')
    /\ treeOk t'
    /\ (forall x, x ∈ dr_visitedNodes r <-> inSubtree d root x /\ (includeRoot = true \/ exists c, c ∈ kids d root /\ inSubtree d c x))
    /\ (forall x, getHostInstanceTokenFromNode t' (inr x)
          = if decide (x ∈ dr_visitedNodes r) then None else getHostInstanceTokenFromNode t (inr x))
    /\ dr_visitedNodeCount r = length (dr_visitedNodes r)
    /\ dr_detachedHostInstanceCount r = length (dr_detachedTokens r)
    /\ (NoDup (dr_visitedNodes r) ->
          dr_detachedTokens r = omap (fun n => getHostInstanceTokenFromNode t (inr n)) (dr_visitedNodes r)).
Proof.
  intros Hok Hread Hk Hh Hf.
  assert (Hnodes : exists nodes,
    (if includeRoot then collectHostInstanceSubtreeNodes childNodeItems fuel d (inr root) []
     else collectAll childNodeItems fuel d (getChildNodesSnapshot childNodeItems d (inr root)) []) = Some nodes
    /\ forall x, x ∈ nodes <-> inSubtree d root x
         /\ (includeRoot = true \/ exists c, c ∈ kids d root /\ inSubtree d c x)).
  { destruct (collect_spec height d Hk Hh fuel) as [Hone Hall]. destruct includeRoot.
    - destruct (Hone root [] Hf) as (l & -> & Hl). exists l. split; [done|]. intros x. rewrite Hl. tauto.
    - simpl. rewrite Hk. destruct (Hall (kids d root) []) as (l & -> & Hl).
      { apply Forall_forall. intros c Hc. apply Hh in Hc. lia. }
      exists l. split; [done|]. intros x. rewrite Hl. split.
      + intros (c & Hc & Hx). split; [by eapply rtc_l|right; eauto].
      + intros (_ & [?|?]); done. }
  destruct Hnodes as (nodes & Hn & Hin). unfold detachHostInstanceSubtree. rewrite Hn.
  pose proof (detachAll_ok nodes t Hok) as H. pose proof (detachAll_tokens nodes t Hok) as Ht.
  destruct (detachAll nodes t) as [tokens t']. destruct H as [Hok' Htok]. simpl in Ht.
  destruct (nodeTypeOf_readable d root Hread) as [v Hv]. rewrite Hv. simpl andThen.
  eexists _, _. split; [done|]. split; [done|]. cbn [dr_visitedNodes dr_visitedNodeCount
    dr_detachedHostInstanceCount dr_detachedTokens]. split; [exact Hin|]. split.
  - intros x. rewrite !tokenFromNode_ok by done. apply Htok.
  - split; [done|]. split; [done|]. intros Hnd. rewrite Ht by done. apply list_omap_ext.
    apply Forall2_same_length_lookup_2; [done|]. intros i a b Ha Hb. simplify_eq.
    by rewrite tokenFromNode_ok.
Qed.
End Subtree.

(** ** Listeners *)

Section Listeners.
Context {Node D : Type} `{!EqDecision Node} `{!Countable Node} `{!Host Node D} (heap : ref -> jsobject).
Implicit Types (d : D) (t : treeState Node) (x : Node) (k : N).

(** The node of the target listens to the registration name with a function. *)
Definition listens d t (target : normalizationRecord (Node := Node)) (name : string) (f : ref) : Prop :=
  exists k x r, nr_closestMountedHostInstanceToken target = Some k
    /\ nr_closestMountedHostInstanceNode target = Some x
    /\ getHostInstanceTokenFromNode t (inr x) = Some k
    /\ (getLatestPropsFromNode t (inr x) = Some (VObj r) \/ getLatestPropsFromNode t (inr x) = Some (VFun r))
    /\ hasOwn (heap r) name = true /\ get (heap r) name = Ok (VFun f)
    /\ shouldPreventMouseEvent heap name d x r = Ok false.

Lemma propsObject_some v r : propsObjectOf v = Some r <-> v = VObj r \/ v = VFun r.
Proof. destruct v; simpl; split; try (by intros [=->]; auto); try done; by intros [[=]|[=]]; subst. Qed.

(** Listener lookup finds a listener exactly when there is one to run: the target's
    node is still the node of its token, its latest props own a function under the
    registration name, and the event is not a mouse event on a disabled interactive
    element. A target whose token was detached in the meantime throws, and so never yields
    the listener of an unmounted node. *)
Theorem listener_lookup_spec d t target name f :
  treeOk t -> name <> "" -> assertEventTargetNormalizationRecord (Some target) = Ok target ->
  ((exists l, createEventListenerTargetLookupRecord heap d t (Some target) (VStr name) = Ok l
      /\ lk_listener l = Some f) <-> listens d t target name f)
  /\ (forall k, nr_closestMountedHostInstanceToken target = Some k ->
        getMountedHostInstanceNodeFromToken t (Some k) = None ->
        createEventListenerTargetLookupRecord heap d t (Some target) (VStr name)
        = Throw (HostError EVENT_LISTENER_TARGET_LOOKUP_UNMOUNTED_CODE)).
Proof.
  intros Hok Hname Hrec. unfold createEventListenerTargetLookupRecord. rewrite Hrec. cbn [bind].
  unfold normalizeEventListenerRegistrationName. rewrite decide_False by done. cbn [bind].
  assert (Hm : match nr_targetNode target with
    | Some n => assertTargetNodeDoesNotHaveMismatchedHostInstanceToken t n | None => Ok tt end = Ok tt).
  { destruct (nr_targetNode target); [by apply mismatch_ok|done]. }
  rewrite Hm. cbn [bind]. clear Hm.
  destruct (nr_closestMountedHostInstanceToken target) as [k|] eqn:Ek.
  2: { split; [|done]. split; [by intros (l & [= <-] & ?)|]. intros (k & x & r & H & _). congruence. }
  assert (Hpair : forall x, getMountedHostInstanceNodeFromToken t (Some k) = Some x
                            <-> getHostInstanceTokenFromNode t (inr x) = Some k).
  { intros x. rewrite nodeFromToken_ok, tokenFromNode_ok by done. symmetry. apply Hok. }
  destruct (getMountedHostInstanceNodeFromToken t (Some k)) as [x|] eqn:En.
  2: { split; [|done]. split; [by intros (l & ? & _)|]. intros (k' & x & r & Hk & _ & Hx & _).
       assert (k' = k) as -> by congruence. by apply Hpair in Hx. }
  split; [|by intros k' [= <-] H; congruence].
  assert (Hx : getHostInstanceTokenFromNode t (inr x) = Some k) by (by apply Hpair).
  unfold require. case_bool_decide as Ex; cbn [bind].
  2: { split; [by intros (l & ? & _)|]. intros (k' & x' & r & Hk & Hx' & Ht & _).
       assert (k' = k) as -> by congruence. apply Hpair in Ht. congruence. }
  split.
  - intros (l & Hl & Hf). destruct (getLatestPropsFromNode t (inr x)) as [v|] eqn:Ev.
    2: { injection Hl as <-. done. }
    destruct (propsObjectOf v) as [r|] eqn:Er.
    2: { destruct v; try done; by injection Hl as <-. }
    pose proof Er as Hv. apply propsObject_some in Hv.
    assert (Hl' : (let* listener := (if hasOwn (heap r) name then get (heap r) name else Ok VNull) in
      if nullish listener then Ok None
      else let* prevented := shouldPreventMouseEvent heap name d x r in
           if prevented then Ok None
           else match listener with VFun f => Ok (Some f)
                | _ => hostError "FAST_REACT_DOM_INVALID_EVENT_LISTENER" end) = Ok (Some f)).
    { destruct Hv as [-> | ->]; cbn [propsObjectOf] in Hl; clear -Hl Hf; destruct (if hasOwn _ _ then _ else _) as [listener|];
        try done; cbn [bind] in *; destruct (nullish listener); try (by injection Hl as <-);
        destruct (shouldPreventMouseEvent _ _ _ _ _) as [[]|]; cbn [bind] in *; try done;
        try (by injection Hl as <-); destruct listener; try done; injection Hl as <-; cbn in *; congruence. }
    exists k, x, r. destruct (hasOwn (heap r) name); [|done].
    destruct (get (heap r) name) as [listener|]; [|done]. cbn [bind] in Hl'.
    destruct (nullish listener) eqn:Enull; [done|].
    destruct (shouldPreventMouseEvent heap name d x r) as [[]|]; try done. cbn [bind] in Hl'.
    destruct listener; try done. injection Hl' as ->.
    split_and!; try done. by destruct Hv as [-> | ->]; [left|right].
  - intros (k' & x' & r & Hk & Hx' & Ht & Hp & Hown & Hget & Hprev).
    assert (x' = x) as -> by congruence.
    destruct Hp as [-> | ->]; cbn [propsObjectOf]; rewrite Hown, Hget; cbn [bind nullish];
      rewrite Hprev; cbn [bind]; eauto.
Qed.
End Listeners.
