(* ===== verification/TreePublishSpec.v ===== *)
(** * Theorems about publishing latest props

    A host update is a transaction over two modules: client/dom-host/mutation.js writes the
    DOM and registers a handoff, client/component-tree.js publishes the props or has the DOM
    rolled back. Also the round trip of root markers (client/root-markers.js). *)
From S2P Require Import Prelude JsValue PropertyPayload PropertyPayloadSpec DomHost DomTree DomPayload DomCommit DomCommitSpec DomTreeSpec RootMarkers ComponentTree TreeProps ComponentTreeSpec.

Section Publish.
Context {Node D : Type} `{!EqDecision Node} `{!Countable Node} `{!Host Node D} (heap : ref -> jsobject).
Implicit Types (t : treeState Node) (w : world (Node := Node) (D := D)) (x : Node).

Abbreviation payload := (latestPropsPayload (Node := Node)).

(** Only the props of nodes are published. *)
Definition samePairs t t' : Prop :=
  nextToken t' = nextToken t /\ tokenMetadata t' = tokenMetadata t
  /\ tokenToNode t' = tokenToNode t /\ nodeTokens t' = nodeTokens t.

Lemma samePairs_token t t' x : samePairs t t' ->
  getHostInstanceTokenFromNode t' (inr x) = getHostInstanceTokenFromNode t (inr x).
Proof.
  intros (_ & H1 & H2 & H3). unfold getHostInstanceTokenFromNode, getHostInstanceMetadata. by rewrite H1, H2, H3.
Qed.

Lemma latestProps_lookup t x :
  getLatestPropsFromNode t (inr x)
  = match getHostInstanceTokenFromNode t (inr x) with Some _ => nodeProps t !! x | None => None end.
Proof. unfold getLatestPropsFromNode. by destruct (getHostInstanceTokenFromNode t (inr x)). Qed.

Definition attached t (p : payload) : Prop := is_Some (getHostInstanceTokenFromNode t (inr (lp_node p))).

Lemma assertAttached_Ok t p u : assertAttachedLatestPropsCommitPayload t p = Ok u <-> attached t p.
Proof.
  unfold assertAttachedLatestPropsCommitPayload, attached, require. destruct u.
  destruct (getHostInstanceTokenFromNode t (inr (lp_node p))); simpl; split; eauto; try done.
Qed.

Lemma publish_attached p t : attached t p ->
  publish p t
  = (Ok (nullIfUndefined (lp_latestProps p)),
     mkTree (nextToken t) (tokenMetadata t) (tokenToNode t) (nodeTokens t)
       (<[lp_node p := nullIfUndefined (lp_latestProps p)]> (nodeProps t))).
Proof. intros [k Hk]. unfold publish, updateLatestPropsForNode. by rewrite Hk. Qed.

(** The last payload of a batch for a node. *)
Definition lastFor x (l : list payload) : option payload :=
  List.find (fun p => bool_decide (lp_node p = x)) (rev l).

Lemma lastFor_cons x p l :
  lastFor x (p :: l)
  = match lastFor x l with Some q => Some q | None => if bool_decide (lp_node p = x) then Some p else None end.
Proof.
  unfold lastFor. simpl. induction (rev l) as [|q l' IH]; simpl; [done|].
  destruct (bool_decide (lp_node q = x)); [done|]. exact IH.
Qed.

Lemma publishAll_attached payloads t : Forall (attached t) payloads ->
  exists t', publishAll payloads t = (Ok tt, t') /\ samePairs t t'
  /\ forall x, nodeProps t' !! x
       = match lastFor x payloads with
         | Some p => Some (nullIfUndefined (lp_latestProps p)) | None => nodeProps t !! x end.
Proof.
  induction payloads as [|p payloads IH] in t |- *; intros Hall.
  - exists t. by split_and!.
  - apply Forall_cons in Hall as [Hp Hall]. unfold publishAll in *. cbn [forEach].
    rewrite (publish_attached p t Hp). cbn [andThen].
    match goal with |- context [forEach _ _ ?t1] => destruct (IH t1) as (t' & -> & Hs & Hl) end.
    { eapply Forall_impl; [exact Hall|]. done. }
    exists t'. split; [done|]. split; [exact Hs|]. intros x. rewrite Hl, lastFor_cons. simpl.
    destruct (lastFor x payloads); [done|]. case_bool_decide as E; [by rewrite E, lookup_insert_eq|].
    by rewrite lookup_insert_ne.
Qed.

Lemma assertAllAttached_Ok t payloads :
  (exists us, assertAllAttached t payloads = Ok us) <-> Forall (attached t) payloads.
Proof.
  unfold assertAllAttached. split.
  - intros [us H%mapRes_Ok]. induction H; constructor; [by eapply assertAttached_Ok|done].
  - induction 1 as [|p l Hp _ [us IH]]; [by exists []|]. simpl.
    rewrite (proj2 (assertAttached_Ok t p tt) Hp). simpl. rewrite IH. simpl. eauto.
Qed.

(** The payload that a handoff publishes. *)
Definition handoffPublishes w (handoff : option N) (p : payload) : Prop :=
  exists h, getDomPropertyUpdateLatestPropsHandoffPayload w handoff = Some h
    /\ getLatestPropsCommitRecordPayload w (Some (hp_latestPropsCommitRecord h)) = Some p.
Definition publishable w t (handoff : option N) : Prop :=
  exists p, handoffPublishes w handoff p /\ attached t p.

Abbreviation payloadsOf w normalized :=
  (mapRes (fun p : option N * handoffPayload (Node := Node) =>
     getLatestPropsCommitPayload w (Some (hp_latestPropsCommitRecord (snd p)))) normalized).

(** The handoffs before the first one that the mutation module does not know. *)
Fixpoint knownHandoffs w (l : list (option N)) : list (option N) :=
  match l with
  | h :: l => match getDomPropertyUpdateLatestPropsHandoffPayload w h with Some _ => h :: knownHandoffs w l | None => [] end
  | [] => []
  end.

Lemma normalizeHandoffs_cases w l :
  let '(found, r) := normalizeHandoffs w l in
  map fst found = knownHandoffs w l
  /\ Forall (fun p => getDomPropertyUpdateLatestPropsHandoffPayload w (fst p) = Some (snd p)) found
  /\ match r with
     | Ok _ => map fst found = l
     | Throw _ => exists h, h ∈ l /\ getDomPropertyUpdateLatestPropsHandoffPayload w h = None
     end.
Proof.
  induction l as [|h l IH]; simpl; [by split_and!|].
  unfold getLatestPropsMutationHandoffPayload.
  destruct (getDomPropertyUpdateLatestPropsHandoffPayload w h) as [hp|] eqn:E.
  - destruct (normalizeHandoffs w l) as [found r]. destruct IH as (H1 & H2 & H3). simpl.
    split; [by f_equal|]. split; [by constructor|]. destruct r; [by f_equal|].
    destruct H3 as (h' & Hin & Hn). exists h'. split; [by right|done].
  - simpl. split; [done|]. split; [done|]. exists h. split; [left|done].
Qed.

Lemma rollbackAll_foldr handoffs w :
  rollbackLatestPropsMutationHandoffs heap handoffs w
  = foldr (fun h w => snd (rollbackDomPropertyUpdateLatestPropsHandoff heap h w)) w handoffs.
Proof.
  unfold rollbackLatestPropsMutationHandoffs. by rewrite <- fold_left_rev_right, rev_involutive.
Qed.

Lemma payloadsOf_Ok w found payloads : 
  Forall (fun p => getDomPropertyUpdateLatestPropsHandoffPayload w (fst p) = Some (snd p)) found ->
  payloadsOf w found = Ok payloads -> Forall2 (handoffPublishes w) (map fst found) payloads.
Proof.
  intros Hf H%mapRes_Ok. induction H as [|p q found l Hp _ IH]; simpl; [constructor|].
  apply Forall_cons in Hf as [Hh Hf]. constructor; [|by apply IH]. exists (snd p). split; [done|].
  unfold getLatestPropsCommitPayload in Hp. by destruct (getLatestPropsCommitRecordPayload w _); simplify_eq.
Qed.

Lemma handoffPublishes_fun w h p q : handoffPublishes w h p -> handoffPublishes w h q -> p = q.
Proof. intros (a & Ha & Hp) (b & Hb & Hq). congruence. Qed.

(** C34: A batch of handoffs is published as a whole or not at all. When
    [commitLatestPropsFromMutationHandoffs] throws, the component tree is unchanged, a
    handoff of the batch was not publishable, and the mutation module has rolled back, the
    last one first, the handoffs of the batch before the first one that it does not know:
    all of them, when it knows them all. When it returns, every handoff was publishable, it
    returns their number, each node has the props of its last handoff, every other node the
    props it had, and the host is left alone. *)
Theorem handoff_batch_atomic (handoffs : option (list (option N))) w t :
  let '(r, w', t') := commitLatestPropsFromMutationHandoffs heap handoffs w t in
  match r with
  | Throw _ => t' = t
      /\ (forall l, handoffs = Some l -> Exists (fun h => ~ publishable w t h) l)
      /\ w' = foldr (fun h w => snd (rollbackDomPropertyUpdateLatestPropsHandoff heap h w)) w
                (knownHandoffs w (default [] handoffs))
  | Ok count => w' = w /\ exists l payloads, handoffs = Some l /\ Forall2 (handoffPublishes w) l payloads
      /\ Forall (publishable w t) l /\ count = length l /\ samePairs t t'
      /\ forall x, getLatestPropsFromNode t' (inr x)
           = match lastFor x payloads with
             | Some p => Some (nullIfUndefined (lp_latestProps p))
             | None => getLatestPropsFromNode t (inr x)
             end
  end.
Proof.
  unfold commitLatestPropsFromMutationHandoffs. destruct handoffs as [l|].
  2: by split_and!.
  pose proof (normalizeHandoffs_cases w l) as Hn. destruct (normalizeHandoffs w l) as [found r].
  destruct Hn as (Hpre & Hfound & Hr).
  assert (Hback := rollbackAll_foldr (map fst found) w). rewrite Hpre in Hback at 2.
  destruct r as [[]|e].
  2: { simpl. split; [done|]. split; [|done]. intros l' [= <-]. destruct Hr as (h & Hin & Hh).
       apply Exists_exists. exists h. split; [done|]. intros (p & (hp & H & _) & _). congruence. }
  simpl. destruct (payloadsOf w found) as [payloads|e] eqn:Ep; simpl.
  2: { split; [done|]. split; [|done]. intros l' [= <-]. rewrite <- Hr. clear Hr Hpre Hback.
       induction Hfound as [|[h hp] found Hh _ IH]; [done|]. simpl in Ep, Hh. simpl.
       unfold getLatestPropsCommitPayload at 1 in Ep.
       destruct (getLatestPropsCommitRecordPayload w _) as [p|] eqn:Eq; simpl in Ep.
       - right. apply IH. by destruct (payloadsOf w found).
       - left. intros (p & (hp' & H & H') & _). congruence. }
  pose proof (payloadsOf_Ok w found payloads Hfound Ep) as H2. rewrite Hr in H2.
  destruct (assertAllAttached t payloads) as [us|e] eqn:Ea; simpl.
  - assert (Hatt : Forall (attached t) payloads) by (apply assertAllAttached_Ok; eauto).
    destruct (publishAll_attached payloads t Hatt) as (t' & -> & Hsame & Hl).
    split; [done|]. exists l, payloads. split_and!; try done.
    + clear -H2 Hatt. induction H2; [constructor|]. apply Forall_cons in Hatt as [? ?].
      constructor; [by eexists|auto].
    + symmetry. by eapply Forall2_length.
    + intros x. rewrite !latestProps_lookup, (samePairs_token _ _ _ Hsame), Hl.
      destruct (lastFor x payloads) as [p|] eqn:El; [|done].
      apply List.find_some in El as [Hin Hx]. apply bool_decide_eq_true_1 in Hx. subst x.
      rewrite <- List.in_rev, <- list_elem_of_In in Hin. rewrite Forall_forall in Hatt.
      by destruct (Hatt p Hin) as [k ->].
  - split; [done|]. split; [|done]. intros l' [= <-]. clear Hr Hpre Hfound Ep Hback.
    induction H2 as [|h p l payloads Hh _ IH]; [done|]. unfold assertAllAttached in *. simpl in Ea.
    destruct (assertAttachedLatestPropsCommitPayload t p) as [u|e'] eqn:Eu; simpl in Ea.
    + right. apply IH. by destruct (mapRes (assertAttachedLatestPropsCommitPayload t) payloads).
    + left. intros (q & Hq & Hatt). rewrite (handoffPublishes_fun _ _ _ _ Hq Hh) in Hatt.
      apply (assertAttached_Ok t p tt) in Hatt. congruence.
Qed.
End Publish.

(** ** The host update as a transaction *)

Section Transaction.
Context {Node D : Type} `{!EqDecision Node} `{!Countable Node} `{!Host Node D} (heap : ref -> jsobject).
Context (n : Node).
Implicit Types (t : treeState Node) (w : world (Node := Node) (D := D)) (d : D).

(** Both normalizations accept the same entries, and both appliers do the same. *)
Lemma latest_as_admitted d e :
  normalizeAdmittedDomPropertyPayloadEntry d n (inr e) = Ok e ->
  normalizeLatestPropsSafeDomPropertyPayloadEntry d n (inr e) = Ok e.
Proof.
  unfold normalizeAdmittedDomPropertyPayloadEntry, normalizeLatestPropsSafeDomPropertyPayloadEntry.
  destruct (isOrdinaryPropertyPayloadEntry e); [done|].
  unfold isStyleDangerousHtmlPayloadEntry, isStylePropertyPayloadEntry,
    validateStyleDangerousHtmlPayloadEntry, isKind, isStr.
  destruct (kind e) as [| | | |k| | | |] eqn:Ek; try by destruct (isNonPayloadPropertyPayloadEntry e).
  unfold mem. intros H.
  destruct (decide (k = ENTRY_SET_STYLE)) as [->|H1]; [done|].
  destruct (decide (k = ENTRY_REMOVE_STYLE)) as [->|H2]; [done|].
  destruct (decide (k = ENTRY_SET_INNER_HTML)) as [->|H3]; [done|].
  rewrite !bool_decide_eq_false_2 in * by set_solver.
  by destruct (isNonPayloadPropertyPayloadEntry e).
Qed.

Lemma latest_loop es k d : Forall normalForm es ->
  applyLoop (applyLatestPropsSafeDomPropertyPayloadEntry n) es k d
  = applyLoop (applyAdmittedNormalizedPropertyPayloadEntry n) es k d.
Proof.
  intros Hnf. induction Hnf as [|e es He _ IH] in k, d |- *; [done|]. simpl.
  rewrite (proj2 (normalForm_apply n e d He)).
  by destruct (applyAdmittedNormalizedPropertyPayloadEntry n e d) as [[] d'].
Qed.

Context (touched : channel -> Prop) (look : D -> channel -> value) `{!ChannelHost n touched look}.

Lemma diff_latest tag last next q es d :
  normalizeProps heap next "nextProps" = Ok q -> diffDomPropertyPayload heap tag last next = Ok es ->
  supported es -> noInherited es ->
  mapRes (normalizeLatestPropsSafeDomPropertyPayloadEntry d n) (map inr es) = Ok es.
Proof.
  intros Hq Hes Hsup Hinh. pose proof (diff_admitted heap n touched look tag last next q es d Hq Hes Hsup Hinh) as H.
  apply mapRes_Ok in H. clear -H.
  induction es as [|e es IH]; [done|]. inversion H as [|? ? ? ? He Hrest]; subst. cbn [map mapRes].
  by rewrite latest_as_admitted, IH.
Qed.

(** Rolling back a handoff at once restores every channel that is touched. *)
Lemma rollback_handoff_restores l latestProps w handoff ev w1 :
  coversPayload n touched normalizeLatestPropsSafeDomPropertyPayloadEntry (host w) (Some l) ->
  applyDomPropertyPayloadForLatestProps heap (inr n) (Some l) latestProps w = (Ok handoff, ev, w1) ->
  let w2 := rollbackLatestPropsMutationHandoffs heap [Some handoff] w1 in
  restored touched look (host w) (host w2) /\ records w2 = records w1.
Proof.
  intros Hcov Happly. destruct (latest_handoff heap n touched look l latestProps w handoff ev w1 Hcov Happly)
    as (entries & h & p & _ & _ & _ & _ & _ & Hframe & Hback).
  destruct (Hback w1 eq_refl) as (w3 & Hr & Hrec & Hw & Hf).
  unfold rollbackLatestPropsMutationHandoffs. simpl. rewrite Hr. simpl. split; [|done]. intros c Hc.
  destruct (decide (Forall (fun e => fst <$> entryWrite e <> Some c) entries)) as [Hn|Hn].
  - left. by rewrite Hf, Hframe.
  - apply not_Forall_Exists in Hn; [|intros e; apply _]. apply Exists_exists in Hn as (e & He & Hc').
    apply dec_stable in Hc'. destruct (entryWrite e) as [[c' v]|] eqn:E; [|done]. simpl in Hc'.
    injection Hc' as ->. by eapply Hw.
Qed.

(** C2: A host update is a transaction over the DOM and the component tree. Let the props be
    object literals, no two of which name one attribute, none of which is named like an
    inherited method of objects, and whose payloads have no unsupported entry; and let the
    node's attributes and styles keep what is written and show the last props. Then the
    commit with latest props and the publication of its handoff end in one of three ways. The
    commit throws the error that the host threw when the entries of the diff were applied;
    the node still shows the last props, nothing is registered and so nothing is published.
    Or the node is attached: the node shows the next props, [getLatestPropsFromNode] gives
    them, and no other node's props changed. Or it is not attached: the error says so, the
    handoff is rolled back, the node shows the last props, and the component tree is the one
    before. What is shown are attributes and styles. *)
Theorem host_update_transaction tag last next p q r1 r2 es w t :
  storing n touched look -> renderable heap tag last next p q r1 r2 es -> noInherited es -> covered touched es ->
  rendered touched look r1 (host w) ->
  let '(r, _, w1) := commitDomPropertyUpdateForLatestProps heap (inr n) tag last next w in
  match r with
  | Throw e => rendered touched look r1 (host w1) /\ records w1 = records w
      /\ exists limit d1, applyLoop (applyAdmittedNormalizedPropertyPayloadEntry n) es 0 (host w) = (Throw e, limit, d1)
  | Ok handoff =>
      let '(r', w2, t2) := commitLatestPropsFromMutationHandoff heap (Some handoff) w1 t in
      match getHostInstanceTokenFromNode t (inr n) with
      | Some _ => r' = Ok (nullIfUndefined next) /\ rendered touched look r2 (host w2)
          /\ getLatestPropsFromNode t2 (inr n) = Some (nullIfUndefined next)
          /\ forall x, x <> n -> getLatestPropsFromNode t2 (inr x) = getLatestPropsFromNode t (inr x)
      | None => r' = Throw (HostError UNATTACHED_HOST_INSTANCE_NODE)
          /\ rendered touched look r1 (host w2) /\ records w2 = records w1 /\ t2 = t
      end
  end.
Proof.
  intros Hst R Hinh Hcov Hr.
  destruct (rd_supported _ _ _ _ _ _ _ _ _ R) as (_ & _ & Hsup).
  pose proof (rd_next _ _ _ _ _ _ _ _ _ R) as Hq. pose proof (rd_diff _ _ _ _ _ _ _ _ _ R) as Hes.
  pose proof (diff_latest tag last next q es (host w) Hq Hes Hsup Hinh) as Hnorm.
  pose proof (normalize_normalForm n _ (latest_normal n) _ _ _ Hnorm) as Hnf.
  assert (Hcp : coversPayload n touched normalizeLatestPropsSafeDomPropertyPayloadEntry (host w) (Some (map inr es))).
  { intros l entries [= <-] He. congruence. }
  unfold commitDomPropertyUpdateForLatestProps. rewrite Hes.
  pose proof (latest_props_cases heap n touched look (map inr es) next w Hcp) as Hatomic.
  unfold item in Hatomic, Hcp, Hnorm.
  destruct (applyDomPropertyPayloadForLatestProps heap (inr n) (Some (map inr es)) next w)
    as [[[handoff|e] ev] w1] eqn:Eapply.
  - destruct Hatomic as (-> & es' & h & pl & He & Hloop & Hh & _ & _ & Hp & Hpn & Hpv & _).
    rewrite Hnorm in He. injection He as <-. rewrite (latest_loop es 0 (host w) Hnf) in Hloop.
    destruct (rollback_handoff_restores _ _ _ _ _ _ Hcp Eapply) as [Hback Hrec].
    pose proof (applied_rendered heap n touched look _ _ _ _ _ _ _ _ _ _ _ Hst R Hnf Hcov Hr Hloop) as Hnew.
    unfold commitLatestPropsFromMutationHandoff, getLatestPropsMutationHandoffPayload. rewrite Hh.
    unfold commitLatestPropsFromMutationRecord, getLatestPropsCommitPayload. rewrite Hp.
    unfold pureStep, andThen. unfold assertAttachedLatestPropsCommitPayload. rewrite Hpn.
    destruct (getHostInstanceTokenFromNode t (inr n)) as [k|] eqn:Ek; simpl.
    + rewrite (publish_attached pl t) by (unfold attached; rewrite Hpn; eauto). rewrite Hpn, Hpv.
      change (match next with VUndef => VNull | _ => next end) with (nullIfUndefined next).
      assert (nullIfUndefined (nullIfUndefined next) = nullIfUndefined next) as -> by by destruct next.
      set (t2 := mkTree _ _ _ _ _).
      assert (Hs : samePairs t t2) by by split_and!.
      split; [done|]. split; [exact Hnew|]. split.
      * rewrite latestProps_lookup, (samePairs_token _ _ _ Hs), Ek. apply lookup_insert_eq.
      * intros x Hx. rewrite !latestProps_lookup, (samePairs_token _ _ _ Hs). simpl.
        by rewrite lookup_insert_ne.
    + split; [done|]. split; [|by split]. by eapply rendered_restored.
  - destruct Hatomic as (Hrs & Hrec & _ & Herr). split; [by eapply rendered_restored|]. split; [done|].
    destruct (Herr es Hnorm) as (limit & d1 & Hloop). exists limit, d1. by rewrite <- (latest_loop es 0 (host w) Hnf).
Qed.
End Transaction.

(** ** Root markers *)

Section Markers.
Context {Node D : Type} `{!EqDecision Node} `{!Countable Node} `{!Host Node D} (heap : ref -> jsobject).
Implicit Types (s : markerState Node) (d : D) (n : Node).

Lemma rootTarget_node d owner n m : rootTarget d owner (inr n) = Ok m -> m = n.
Proof.
  unfold rootTarget. intros (c & ->%assertValidContainer_node & H)%bind_Ok.
  apply bind_Ok in H as (_ & _ & H). by injection H.
Qed.

Lemma revertedMarkers_lookup p (m : gmap Node value) x :
  revertedMarkers p m !! x
  = if decide (x = mm_container p) then (if mm_hadOwnMarker p then Some (mm_previousValue p) else None)
    else m !! x.
Proof.
  unfold revertedMarkers. destruct (mm_hadOwnMarker p); case_decide; subst;
    by rewrite ?lookup_insert_eq, ?lookup_delete_eq, ?lookup_insert_ne, ?lookup_delete_ne.
Qed.

(** Marking a container as a root and reverting the record is a round trip. Marking
    succeeds only on a container that no root has marked. Later, in any state that still
    has the record, the revert either throws with nothing changed, because the marker of
    the container is no longer the owner that was set or the node stopped being a
    container; or it puts back the property as it was before the marking (absent, or the
    value it held), leaves every other container alone, and a second revert is a no-op that
    returns the same cleanup record. *)
Theorem root_marker_roundtrip development d owner n s id s1 :
  markContainerAsRootWithRevertRecord heap development d owner (inr n) s = (Ok id, s1) ->
  isContainerMarkedAsRoot s (inr n) = false /\ markers s1 = <[n := owner]> (markers s)
  /\ forall d2 s2,
    privateRootMarkerMutationPayloads s2 !! id = privateRootMarkerMutationPayloads s1 !! id ->
    let '(r, s3) := revertContainerRootMarkerMutation d2 (Some id) s2 in
    match r with
    | Throw e => s3 = s2 /\ (assertValidContainer d2 (inr n) = Throw e
        \/ e = HostError "FAST_REACT_DOM_ROOT_MARKER_CHANGED"
           /\ strictEq (default VUndef (markers s2 !! n)) owner = false)
    | Ok cleanup => (forall x, markers s3 !! x = if decide (x = n) then markers s !! x else markers s2 !! x)
        /\ forall d4 s4,
          privateRootMarkerMutationPayloads s4 !! id = privateRootMarkerMutationPayloads s3 !! id ->
          privateRootMarkerCleanupRecords s4 !! id = privateRootMarkerCleanupRecords s3 !! id ->
          revertContainerRootMarkerMutation d4 (Some id) s4 = (Ok cleanup, s4)
    end.
Proof.
  unfold markContainerAsRootWithRevertRecord.
  destruct (rootTarget d owner (inr n)) as [m|] eqn:Et; [|done].
  pose proof (rootTarget_node _ _ _ _ Et) as ->. unfold pureStep, andThen at 1.
  unfold require at 1. destruct (nullish (default VUndef (markers s !! n))) eqn:Enull; [|done].
  unfold andThen at 1. destruct (getCreateRootWarning heap development d s (inr n)) as [warning|]; [|done].
  unfold markContainerAsRoot. rewrite Et. cbn [pureStep andThen].
  destruct (describeRootOwnerKind heap owner) as [kind|]; [|done]. cbn [andThen].
  intros [= <- <-]. split; [|split; [done|]].
  { unfold isContainerMarkedAsRoot, getContainerRoot. by destruct (markers s !! n) as [[]|]. }
  intros d2 s2 Hs2. simpl in Hs2. rewrite lookup_insert_eq in Hs2.
  unfold revertContainerRootMarkerMutation at 1. simpl. rewrite Hs2. simpl.
  destruct (assertValidContainer d2 (inr n)) as [c|e] eqn:Ec; [|by split; [|left]]. simpl.
  unfold require. destruct (strictEq _ owner) eqn:Eq; [|by split; [|right]]. simpl. split.
  - intros x. rewrite revertedMarkers_lookup. simpl. case_decide; [|done]. subst.
    by destruct (markers s !! n).
  - intros d4 s4 Hp Hc. simpl in Hp, Hc. rewrite lookup_insert_eq in Hp. rewrite lookup_insert_eq in Hc. unfold revertContainerRootMarkerMutation.
    simpl. rewrite Hp. simpl. by rewrite Hc.
Qed.
End Markers.
