(* ===== verification/TreeDemo.v ===== *)
(** * The component tree at concrete inputs

    The theorems on the component tree, the publication of props and root markers, applied to
    the host of [DomDemo]: the element 0 is attached under the token 0 and its text
    grandchild 1 under the token 1. *)
From S2P Require Import Prelude JsValue PropertyPayload PropertyPayloadSpec DomHost DomTree DomPayload DomCommit DomCommitSpec DomDemo RootMarkers ComponentTree TreeTargets TreeProps ComponentTreeSpec TreePublishSpec.

Definition kidItems (d : dom) (n : nat) : option (list (domArg nat)) := Some (map inr (kidsOf d n)).
Definition hostOwner : value := VObj (User 10).
Definition rootOwner : value := VObj (User 11).

(** The props of the element listen to clicks. *)
Definition listenHeap (r : ref) : jsobject :=
  match r with User 3 => literal [("onClick", VFun (User 4))] | _ => literal [] end.

Definition tree1 : treeState nat := snd (createHostInstanceToken hostOwner rootOwner emptyTree).
Definition tree2 : treeState nat := snd (attachHostInstanceNode demoDom (inr 0) (Some 0%N) (VObj (User 3)) tree1).
Definition tree3 : treeState nat := snd (createHostInstanceToken hostOwner rootOwner tree2).
Definition demoInstances : treeState nat := snd (attachHostInstanceNode demoDom (inr 1) (Some 1%N) VNull tree3).

Lemma instances_reachable : rtc (treeStep (D := dom) listenHeap kidItems) emptyTree demoInstances.
Proof.
  eapply rtc_l; [apply (step_create listenHeap kidItems emptyTree hostOwner rootOwner)|].
  eapply rtc_l; [apply (step_attach listenHeap kidItems tree1 demoDom (inr 0) (Some 0%N) (VObj (User 3)))|].
  eapply rtc_l; [apply (step_create listenHeap kidItems tree2 hostOwner rootOwner)|].
  eapply rtc_l; [apply (step_attach listenHeap kidItems tree3 demoDom (inr 1) (Some 1%N) VNull)|constructor].
Qed.

Lemma component_tree_bijection_witness :
  getMountedHostInstanceNodeFromToken demoInstances (Some 1%N) = Some 1
  /\ isSome (getHostInstanceTokenFromNode demoInstances (inr 1)) = isSome (nodeProps demoInstances !! 1).
Proof.
  destruct (component_tree_bijection listenHeap kidItems demoInstances instances_reachable) as (H & H2 & _).
  split; [|apply H2]. apply H. by vm_compute.
Defined.

Lemma demoInstances_ok : treeOk demoInstances.
Proof.
  unfold demoInstances, tree3, tree2, tree1.
  auto using attach_ok, createToken_ok, emptyTree_ok.
Qed.

Lemma demo_readable : readable demoDom.
Proof. intros n. by eexists. Qed.

Definition demoMarkers : markerState nat := mkMarkers {[ 0 := rootOwner ]} 0 ∅ ∅.
Definition noMarkers : markerState nat := mkMarkers ∅ 0 ∅ ∅.

Lemma demo_chain : chain demoDom 1 [1; 2; 0].
Proof. by repeat (eapply chain_step; [by vm_compute|]); constructor. Qed.

Lemma dispatch_path_spec_witness :
  exists target path,
    createEventTargetNormalizationRecord 3 demoDom noMarkers demoInstances (inr 1) = Some (Ok target)
    /\ createEventTargetDispatchPathRecord 3 demoDom noMarkers demoInstances (Some target) = Some (Ok path)
    /\ map entryPlace (pr_entries path) = [(0, (1, 1%N)); (1, (0, 0%N))].
Proof.
  destruct (dispatch_path_spec demoDom noMarkers demoInstances 1 [1; 2; 0] 3 demoInstances_ok demo_readable
    demo_chain (le_n 3)) as (target & path & H1 & H2 & H3 & _).
  exists target, path. split; [exact H1|]. split; [exact H2|]. rewrite H3. by vm_compute.
Defined.

Definition demoHeight (n : nat) : nat := match n with 0 => 2 | 2 => 1 | _ => 0 end.
Lemma demo_height : heightBy kidsOf demoHeight demoDom.
Proof.
  intros p c. destruct (decide (p = 0)) as [->|H0].
  { change (kidsOf demoDom 0) with [2; 4]. intros [->|[->|[]%not_elem_of_nil]%elem_of_cons]%elem_of_cons; simpl; lia. }
  destruct (decide (p = 2)) as [->|H2].
  { change (kidsOf demoDom 2) with [1]. intros ->%list_elem_of_singleton. simpl. lia. }
  unfold kidsOf. destruct (isText p); [by intros ?%not_elem_of_nil|]. simpl.
  rewrite lookup_insert_ne, lookup_singleton_ne by done. by intros ?%not_elem_of_nil.
Qed.

Lemma detach_subtree_spec_witness :
  exists r t', detachHostInstanceSubtree kidItems 3 demoDom (inr 0) true demoInstances = Some (Ok r, t')
    /\ dr_visitedNodeCount r = length (dr_visitedNodes r)
    /\ (1 ∈ dr_visitedNodes r <-> inSubtree kidsOf demoDom 0 1 /\ (true = true \/ exists c, c ∈ kidsOf demoDom 0 /\ inSubtree kidsOf demoDom c 1)).
Proof.
  destruct (detach_subtree_spec kidItems kidsOf demoHeight demoDom demoInstances 0 true 3 demoInstances_ok
    demo_readable (fun _ => eq_refl) demo_height (le_n 3)) as (r & t' & H & _ & Hv & _ & Hc & _).
  exists r, t'. split; [exact H|]. split; [exact Hc|apply Hv].
Defined.

(** The record for the text node's element. *)
Definition demoTarget : normalizationRecord (Node := nat) :=
  mkNormalization (Some 0) (Some 0%N) None (Some hostOwner) false true true (Some rootOwner)
    "mounted-host-instance" (Some 2) (VNum (Finite 1 0)).

Lemma listener_lookup_spec_witness :
  exists l, createEventListenerTargetLookupRecord listenHeap demoDom demoInstances (Some demoTarget) (VStr "onClick") = Ok l
    /\ lk_listener l = Some (User 4).
Proof.
  apply (listener_lookup_spec listenHeap demoDom demoInstances demoTarget "onClick" (User 4) demoInstances_ok
    ltac:(done) eq_refl).
  exists 0%N, 0, (User 3). split; [done|]. split; [done|]. split; [by vm_compute|]. split; [left; by vm_compute|].
  split; [by vm_compute|]. split; by vm_compute.
Defined.

Lemma host_update_transaction_witness :
  exists handoff ev w1 w2 t2,
    commitDomPropertyUpdateForLatestProps demoHeap (inr 0) demoTag VNull (VObj (User 2)) emptyWorld = (Ok handoff, ev, w1)
    /\ commitLatestPropsFromMutationHandoff demoHeap (Some handoff) w1 demoInstances = (Ok (VObj (User 2)), w2, t2)
    /\ rendered demoTouched (demoLook 0) (demoMount (User 2)) (host w2).
Proof.
  pose proof (host_update_transaction demoHeap 0 demoTouched (demoLook 0) demoTag VNull (VObj (User 2)) _ _ _ _ _
    emptyWorld demoInstances (demo_storing 0) demo_mount_renderable
    (noInheritedb_ok (demoMount (User 2)) eq_refl) (coveredb_ok (demoMount (User 2)) eq_refl) empty_rendered) as H.
  destruct (commitDomPropertyUpdateForLatestProps demoHeap (inr 0) demoTag VNull (VObj (User 2)) emptyWorld)
    as [[r ev] w1] eqn:E.
  assert (Hr : r = Ok 2%N) by (apply (f_equal (fst ∘ fst)) in E; vm_compute in E; congruence).
  subst r. destruct (commitLatestPropsFromMutationHandoff demoHeap (Some 2%N) w1 demoInstances) as [[r' w2] t2] eqn:E2.
  replace (getHostInstanceTokenFromNode demoInstances (inr 0)) with (Some 0%N) in H by (by vm_compute).
  destruct H as (-> & Hn & _). exists 2%N, ev, w1, w2, t2. split; [done|]. split; [done|exact Hn].
Defined.

Definition markedOnce : markerState nat :=
  snd (markContainerAsRootWithRevertRecord listenHeap true demoDom rootOwner (inr 0) noMarkers).

Lemma root_marker_roundtrip_witness :
  isContainerMarkedAsRoot markedOnce (inr 0) = true
  /\ exists cleanup s3, revertContainerRootMarkerMutation demoDom (Some 0%N) markedOnce = (Ok cleanup, s3)
       /\ markers s3 !! 0 = None.
Proof.
  split; [by vm_compute|].
  assert (Hmark : markContainerAsRootWithRevertRecord listenHeap true demoDom rootOwner (inr 0) noMarkers
                  = (Ok 0%N, markedOnce)) by (vm_compute; reflexivity).
  pose proof (root_marker_roundtrip listenHeap true demoDom rootOwner 0 noMarkers 0%N markedOnce Hmark) as (_ & _ & H).
  specialize (H demoDom markedOnce eq_refl).
  destruct (revertContainerRootMarkerMutation demoDom (Some 0%N) markedOnce) as [r s3] eqn:E.
  assert (Hr : exists c, r = Ok c) by (apply (f_equal fst) in E; vm_compute in E; eauto).
  destruct Hr as [cleanup ->]. exists cleanup, s3. split; [done|]. exact (proj1 H 0).
Defined.
