(* ===== verification/HydrationMarkers.v ===== *)
(** * Hydration markers (client/hydration-marker-parser.js)

    The diagnostic scan of a container for the comments and templates that a server renderer
    leaves, and the paths by which other modules find the nodes again. The scan reads the
    host and never writes it. An object among the child nodes is a node of the host. *)
From Stdlib Require Import Ascii.
From stdpp Require Import pretty.
From S2P Require Import Prelude JsValue PropertyPayload DomHost DomPayload DomTree ComponentTree.

(** ** Paths *)

(** [`.childNodes[${index}]`] *)
Definition childSegment (index : N) : string := ".childNodes[" +:+ pretty index +:+ "]".
Definition childPath (path : string) (index : N) : string := path +:+ childSegment index.

(** [String.prototype.slice] of a text that starts with [p]. *)
Fixpoint stripPrefix (p s : string) : option string :=
  match p, s with
  | EmptyString, _ => Some s
  | String a p, String b s => if Ascii.eqb a b then stripPrefix p s else None
  | _, EmptyString => None
  end.

Fixpoint spanChars (f : Ascii.ascii -> bool) (s : string) : string * string :=
  match s with
  | EmptyString => (EmptyString, EmptyString)
  | String c s' => if f c then let '(a, b) := spanChars f s' in (String c a, b) else (EmptyString, s)
  end.

(** [Number(digits)]. An index that no double holds is kept as it is written: no list is as
    long. *)
Fixpoint digitsValue (digits : string) (n : N) : N :=
  match digits with
  | EmptyString => n
  | String c digits => digitsValue digits (10 * n + (charCode c - 48))
  end.

(** [/^\.childNodes\[(\d+)\]/u.exec(s)], with the text after the match. *)
Definition matchChildSegment (s : string) : option (N * string) :=
  rest ← stripPrefix ".childNodes[" s;
  let '(digits, rest) := spanChars isDigit rest in
  if decide (digits = "") then None
  else rest ← stripPrefix "]" rest; Some (digitsValue digits 0, rest).

Fixpoint parseSegments (fuel : nat) (s : string) : option (list N) :=
  match s with
  | EmptyString => Some []
  | _ =>
      match fuel with
      | O => None
      | S fuel =>
          '(index, rest) ← matchChildSegment s;
          segments ← parseSegments fuel rest;
          Some (index :: segments)
      end
  end.

Definition parseHydrationContainerChildPath (path : value) : option (list N) :=
  match path with
  | VStr s =>
      rest ← stripPrefix "container" s;
      segments ← parseSegments (String.length rest) rest;
      match segments with [] => None | _ => Some segments end
  | _ => None
  end.

(** ** Marker ids *)

Record idParts : Type := mkIdParts {
  ip_full : string;
  ip_identifierPrefix : string;
  ip_kind : Ascii.ascii;
  ip_hex : string }.

Definition isHexDigit (c : Ascii.ascii) : bool := isDigit c || charIn c 97 102 || charIn c 65 70.
Definition isMarkerKind (c : Ascii.ascii) : bool := bool_decide (c ∈ ["B"; "P"; "S"]%char).
(** What [.] matches: no line terminator (below 256). *)
Definition isDotChar (c : Ascii.ascii) : bool := bool_decide (charCode c ≠ 10 /\ charCode c ≠ 13)%N.

(** The text after the first [kind:] from which the rest are hexadecimal digits; as these
    are no colons, it is the last. *)
Fixpoint matchMarkerId (s : string) : option (string * Ascii.ascii * string) :=
  match s with
  | EmptyString => None
  | String c rest =>
      match (if isMarkerKind c then
               hex ← stripPrefix ":" rest;
               if allChars isHexDigit hex && negb (bool_decide (hex = "")) then Some ("", c, hex) else None
             else None) with
      | Some m => Some m
      | None =>
          if isDotChar c then
            '(prefix, kind, hex) ← matchMarkerId rest; Some (String c prefix, kind, hex)
          else None
      end
  end.

(** [None] is null, and any value that is no string. *)
Definition parseHydrationMarkerId (v : option string) : option idParts :=
  s ← v;
  '(prefix, kind, hex) ← matchMarkerId s;
  Some (mkIdParts s prefix kind hex).

(** ** Contracts *)

Record markerContract : Type := mkContract {
  mc_id : value;
  mc_area : value;
  mc_serializedMarker : value;
  mc_commentData : value;
  mc_companionNode : value;
  mc_lifecycle : value }.

(** What a template's attributes say. *)
Record templateInfo : Type := mkTemplateInfo {
  ti_attributes : list (string * string);
  ti_id : option string;
  ti_idParts : option idParts;
  ti_dataBid : option string;
  ti_dataBidParts : option idParts;
  ti_dataPid : option string;
  ti_dataPidParts : option idParts;
  ti_dataSid : option string;
  ti_dataSidParts : option idParts;
  ti_digest : option string;
  ti_message : option string;
  ti_stack : option string;
  ti_componentStack : option string }.

Definition templateAttributeNames : list string :=
  ["id"; "data-rsi"; "data-rci"; "data-rri"; "data-rxi"; "data-bid"; "data-sid"; "data-pid";
   "data-sty"; "data-dgst"; "data-msg"; "data-stck"; "data-cstck"].
Definition instructionAttributes : list string := ["data-rsi"; "data-rci"; "data-rri"; "data-rxi"].

(** [attributePresence[name] === true] *)
Definition present (t : templateInfo) (name : string) : bool := isSome (assoc name (ti_attributes t)).
Definition hasAnyAttribute (t : templateInfo) (names : list string) : bool := existsb (present t) names.

Definition partsKind (p : option idParts) (kind : Ascii.ascii) : bool :=
  match p with Some p => Ascii.eqb (ip_kind p) kind | None => false end.

(** [attributes[name] || null] *)
Definition nonEmpty (s : option string) : option string :=
  match s with Some EmptyString => None | _ => s end.

Definition createTemplateInfoFrom (attributes : list (string * string)) : templateInfo :=
  let attr name := nonEmpty (assoc name attributes) in
  mkTemplateInfo attributes (attr "id") (parseHydrationMarkerId (attr "id"))
    (attr "data-bid") (parseHydrationMarkerId (attr "data-bid"))
    (attr "data-pid") (parseHydrationMarkerId (attr "data-pid"))
    (attr "data-sid") (parseHydrationMarkerId (attr "data-sid"))
    (attr "data-dgst") (attr "data-msg") (attr "data-stck") (attr "data-cstck").

Definition findContract (contracts : list markerContract) (id : string) : option markerContract :=
  List.find (fun c => isStr (mc_id c) id) contracts.

Definition commentDataValue (commentData : option string) : value :=
  match commentData with Some s => VStr s | None => VNull end.

Definition findCommentContract (contracts : list markerContract) (commentData : option string) :
    option markerContract :=
  List.find (fun c => negb (bool_decide (mc_commentData c = VNull))
                      && strictEq (mc_commentData c) (commentDataValue commentData)) contracts.

Definition classifyTemplateContract (contracts : list markerContract) (t : templateInfo) :
    option markerContract :=
  if partsKind (ti_idParts t) "P" && negb (hasAnyAttribute t instructionAttributes)
  then findContract contracts "segment-placeholder"
  else if present t "data-rsi" && partsKind (ti_dataSidParts t) "S" && partsKind (ti_dataPidParts t) "P"
  then findContract contracts "external-runtime-complete-segment"
  else if present t "data-rci" && partsKind (ti_dataBidParts t) "B" && partsKind (ti_dataSidParts t) "S"
  then findContract contracts "external-runtime-complete-boundary"
  else if present t "data-rri" && present t "data-sty" && partsKind (ti_dataBidParts t) "B"
          && partsKind (ti_dataSidParts t) "S"
  then findContract contracts "external-runtime-complete-boundary-with-styles"
  else if present t "data-rxi" && partsKind (ti_dataBidParts t) "B"
  then findContract contracts "external-runtime-client-render-boundary"
  else None.

Definition looksLikeHydrationCommentData (commentData : option string) : bool :=
  match commentData with
  | None => false
  | Some s => startsWith s "$" || startsWith s "/"
              || bool_decide (s ∈ ["&"; "/&"; "F"; "F!"; "html"; "head"; "body"])
  end.

Definition looksLikeHydrationTemplate (t : templateInfo) : bool :=
  isSome (ti_idParts t) || isSome (ti_dataBidParts t) || isSome (ti_dataPidParts t)
  || isSome (ti_dataSidParts t) || hasAnyAttribute t instructionAttributes.

(** ** Reading nodes *)

(** An own property of [node.attributes] or one of its items: its value, and when that is an
    object what [in], [name] and [value] say. *)
Record attribute : Type := mkAttribute {
  at_self : value;
  at_hasValue : bool;
  at_name : value;
  at_value : value }.
(** [node.attributes] when it is an object: its own properties, and the items below its
    length when that is a number. *)
Record attributesObject : Type := mkAttributes {
  ao_own : list (string * attribute);
  ao_items : option (list attribute) }.

(** [Map.prototype.get] and [set], for keys compared by SameValueZero. *)
Definition sameValueZero (v w : value) : bool :=
  strictEq v w || bool_decide (v = VNum NaN /\ w = VNum NaN).
Definition countOf (m : list (value * nat)) (k : value) : nat :=
  match List.find (fun p => sameValueZero (fst p) k) m with Some (_, c) => c | None => 0 end.
Fixpoint setCount (m : list (value * nat)) (k : value) (c : nat) : list (value * nat) :=
  match m with
  | [] => [(k, c)]
  | p :: m => if sameValueZero (fst p) k then (fst p, c) :: m else p :: setCount m k c
  end.

Section Scan.
Context {Node D : Type} `{!EqDecision Node} `{!Countable Node} `{!Host Node D} (heap : ref -> jsobject).
Context (childNodeItems : D -> Node -> option (list (domArg Node))).
(** [node.attributes] of a node without [getAttribute], and the node's own property. *)
Context (attributesOf : D -> Node -> option attributesObject) (ownProperty : D -> Node -> string -> option value).
Implicit Types (d : D) (n : Node).

Definition readChildNodes d n : list (domArg Node) := default [] (childNodeItems d n).

Record nodeInfo : Type := mkNodeInfo {
  ni_nodeName : option string;
  ni_nodeType : value }.

Definition createNodeInfo d n : res nodeInfo :=
  let* nodeName := readProperty d n "nodeName" in
  let* name := (if truthy nodeName then let* s := toStringRes heap nodeName in Ok (Some s) else Ok None) in
  let* nodeType := readNodeType d n in
  Ok (mkNodeInfo name nodeType).

(** [String(v || '')] *)
Definition stringOrEmpty (v : value) : res string := if truthy v then toStringRes heap v else Ok "".

Definition isTemplateElement d (node : option Node) : res bool :=
  match node with
  | None => Ok false
  | Some n =>
      let* nodeType := readNodeType d n in
      if negb (isNodeType nodeType 1) then Ok false
      else
        let* nodeName := readProperty d n "nodeName" in
        let* tagName := (if truthy nodeName then Ok nodeName else readProperty d n "tagName") in
        let* name := stringOrEmpty tagName in
        let* localName := readProperty d n "localName" in
        let* local := stringOrEmpty localName in
        Ok (bool_decide (toUpperCase name = "TEMPLATE") || bool_decide (toLowerCase local = "template"))
  end.

(** [v == null ? '' : String(v)] *)
Definition attributeText (v : value) : res (option string) :=
  if nullish v then Ok (Some "") else let* s := toStringRes heap v in Ok (Some s).

Definition readAttribute d n (name : string) : res (option string) :=
  let fallback := match ownProperty d n name with
    | Some v => let* s := toStringRes heap v in Ok (Some s) | None => Ok None end in
  if hasMethod d n "getAttribute" then
    let* v := callGetAttribute d n name in
    if nullish v then Ok None else let* s := toStringRes heap v in Ok (Some s)
  else
    match attributesOf d n with
    | None => fallback
    | Some ao =>
        match assoc name (ao_own ao) with
        | Some a => attributeText (if at_hasValue a then at_value a else at_self a)
        | None =>
            match List.find (fun a => truthy (at_self a) && isStr (at_name a) name) (default [] (ao_items ao)) with
            | Some a => attributeText (at_value a)
            | None => fallback
            end
        end
    end.

Fixpoint attributeSnapshot d n (names : list string) : res (list (string * string)) :=
  match names with
  | [] => Ok []
  | name :: names =>
      let* v := readAttribute d n name in
      let* rest := attributeSnapshot d n names in
      Ok (match v with Some s => (name, s) :: rest | None => rest end)
  end.
Definition createTemplateAttributeSnapshot d n := attributeSnapshot d n templateAttributeNames.

Definition createTemplateInfo d n : res templateInfo :=
  let* attributes := createTemplateAttributeSnapshot d n in Ok (createTemplateInfoFrom attributes).

Definition readCommentData d n : res (option string) :=
  let* data := readProperty d n "data" in
  match data with
  | VStr s => Ok (Some s)
  | _ => let* nodeValue := readProperty d n "nodeValue" in
         Ok (match nodeValue with VStr s => Some s | _ => None end)
  end.

Definition readHydrationTextNodeValue d (node : domArg Node) : res (option string) :=
  match node with
  | inl _ => Ok None
  | inr n =>
      let* nodeType := readNodeType d n in
      if negb (isNodeType nodeType 3) then Ok None
      else
        let* nodeValue := readProperty d n "nodeValue" in
        match nodeValue with
        | VStr s => Ok (Some s)
        | _ =>
            let* data := readProperty d n "data" in
            match data with
            | VStr s => Ok (Some s)
            | _ => let* textContent := readProperty d n "textContent" in
                   Ok (Some (match textContent with VStr s => s | _ => "" end))
            end
        end
  end.

(** ** Rows *)

Record companionRecord : Type := mkCompanion {
  cp_path : string;
  cp_status : string;
  cp_expected : value;
  cp_contractId : value;
  cp_templateInfo : option templateInfo;
  cp_nodeInfo : option nodeInfo;
  cp_acceptedEvidence : bool }.

(** The rows of comments and of templates, with the fields of their kind. *)
Inductive rowKind : Type :=
| CommentRow (commentData : option string) (companion : option companionRecord)
| TemplateRow (companionNode : value) (templateInfo : templateInfo).
Record markerRow : Type := mkRow {
  row_kind : rowKind;
  row_markerId : string;
  row_path : string;
  row_depth : nat;
  row_index : N;
  row_contractId : value;
  row_area : value;
  row_lifecycle : value;
  row_serializedMarker : value;
  row_nodeInfo : nodeInfo }.

Inductive unrecognizedRow : Type :=
| UnrecognizedComment (path : string) (nodeInfo : nodeInfo) (commentData : option string)
| UnrecognizedTemplate (path : string) (nodeInfo : nodeInfo) (templateInfo : templateInfo).

Record scanState : Type := mkScan {
  sc_acceptedMarkerCount : nat;
  sc_commentMarkerCount : nat;
  sc_companionPaths : gset string;
  sc_markerRows : list markerRow;
  sc_nodeCount : nat;
  sc_summaryCounts : list (value * nat);
  sc_templateMarkerCount : nat;
  sc_unrecognizedMarkerRows : list unrecognizedRow;
  sc_visitedNodes : gset Node }.

Definition initialScan : scanState := mkScan 0 0 ∅ [] 0 [] 0 [] ∅.

Definition visitNode n (s : scanState) : scanState :=
  mkScan (sc_acceptedMarkerCount s) (sc_commentMarkerCount s) (sc_companionPaths s) (sc_markerRows s)
    (S (sc_nodeCount s)) (sc_summaryCounts s) (sc_templateMarkerCount s)
    (sc_unrecognizedMarkerRows s) ({[n]} ∪ sc_visitedNodes s).
Definition addCompanionPath (path : string) (s : scanState) : scanState :=
  mkScan (sc_acceptedMarkerCount s) (sc_commentMarkerCount s) ({[path]} ∪ sc_companionPaths s)
    (sc_markerRows s) (sc_nodeCount s) (sc_summaryCounts s) (sc_templateMarkerCount s)
    (sc_unrecognizedMarkerRows s) (sc_visitedNodes s).
Definition pushUnrecognized (r : unrecognizedRow) (s : scanState) : scanState :=
  mkScan (sc_acceptedMarkerCount s) (sc_commentMarkerCount s) (sc_companionPaths s) (sc_markerRows s)
    (sc_nodeCount s) (sc_summaryCounts s) (sc_templateMarkerCount s)
    (sc_unrecognizedMarkerRows s ++ [r]) (sc_visitedNodes s).
(** [comments] and [templates] are added to the counts of the two kinds. *)
Definition pushMarkerRow (r : markerRow) (comments templates : nat) (s : scanState) : scanState :=
  mkScan (S (sc_acceptedMarkerCount s)) (sc_commentMarkerCount s + comments) (sc_companionPaths s)
    (sc_markerRows s ++ [r]) (sc_nodeCount s)
    (setCount (sc_summaryCounts s) (row_contractId r) (countOf (sc_summaryCounts s) (row_contractId r) + 1))
    (sc_templateMarkerCount s + templates) (sc_unrecognizedMarkerRows s) (sc_visitedNodes s).

(** [`${contractId}@${path}`] *)
Definition createMarkerRowId (contractId : value) (path : string) : res string :=
  match contractId with
  | VSym _ _ => Throw (TypeError "Cannot convert a Symbol value to a string")
  | _ => let* s := toStringRes heap contractId in Ok (s +:+ "@" +:+ path)
  end.

Definition classifyCommentCompanion d (contract : markerContract) (nextNode : option Node) :
    res (string * option templateInfo) :=
  let* template := isTemplateElement d nextNode in
  match nextNode with
  | Some n =>
      if template then
        let* t := createTemplateInfo d n in
        Ok (if isStr (mc_id contract) "suspense-pending-start" || isStr (mc_id contract) "suspense-queued-start"
            then if partsKind (ti_idParts t) "B" then "matched" else "template-companion-without-boundary-id"
            else if isStr (mc_id contract) "suspense-client-rendered-start" then "matched"
            else "unsupported-companion-contract", Some t)
      else Ok ("missing-template-companion", None)
  | None => Ok ("missing-template-companion", None)
  end.

Definition inspectCommentCompanion d (contract : markerContract) (nextNode : option Node) (nextPath : string) :
    res (option companionRecord) :=
  if bool_decide (mc_companionNode contract = VNull) then Ok None
  else
    let* companion := classifyCommentCompanion d contract nextNode in
    let* info := (match nextNode with
                  | Some n => let* i := createNodeInfo d n in Ok (Some i) | None => Ok None end) in
    Ok (Some (mkCompanion nextPath (fst companion) (mc_companionNode contract) (mc_id contract)
                (snd companion) info (bool_decide (fst companion = "matched")))).

Definition inspectCommentMarker d (contracts : list markerContract) (depth : nat) (index : N)
    (nextNode : option Node) (nextPath : string) n (path : string) (s : scanState) : res scanState :=
  let* commentData := readCommentData d n in
  let contract := findCommentContract contracts commentData in
  let* info := createNodeInfo d n in
  match contract with
  | None =>
      Ok (if looksLikeHydrationCommentData commentData
          then pushUnrecognized (UnrecognizedComment path info commentData) s else s)
  | Some c =>
      let* companion := inspectCommentCompanion d c nextNode nextPath in
      let s := match companion with Some cp => addCompanionPath (cp_path cp) s | None => s end in
      let* markerId := createMarkerRowId (mc_id c) path in
      Ok (pushMarkerRow (mkRow (CommentRow commentData companion) markerId path depth index (mc_id c)
                           (mc_area c) (mc_lifecycle c) (mc_serializedMarker c) info) 1 0 s)
  end.

Definition inspectTemplateMarker d (contracts : list markerContract) (depth : nat) (index : N) n
    (path : string) (s : scanState) : res scanState :=
  let* t := createTemplateInfo d n in
  match classifyTemplateContract contracts t with
  | None =>
      if looksLikeHydrationTemplate t then
        let* info := createNodeInfo d n in Ok (pushUnrecognized (UnrecognizedTemplate path info t) s)
      else Ok s
  | Some c =>
      let* markerId := createMarkerRowId (mc_id c) path in
      let* info := createNodeInfo d n in
      Ok (pushMarkerRow (mkRow (TemplateRow (mc_companionNode c) t) markerId path depth index (mc_id c)
                           (mc_area c) (mc_lifecycle c) (mc_serializedMarker c) info) 0 1 s)
  end.

Definition inspectHydrationNode d (contracts : list markerContract) (depth : nat) (index : N)
    (nextNode : option Node) (nextPath : string) n (path : string) (s : scanState) : res scanState :=
  let* nodeType := readNodeType d n in
  if isNodeType nodeType 8 then inspectCommentMarker d contracts depth index nextNode nextPath n path s
  else
    let* template := isTemplateElement d (Some n) in
    if template then inspectTemplateMarker d contracts depth index n path s else Ok s.

(** The child nodes are a snapshot; [None] is fuel that ran out. *)
Fixpoint scanChildNodes (fuel : nat) d (contracts : list markerContract) (parentNode : Node)
    (parentPath : string) (depth : nat) (s : scanState) : option (res scanState) :=
  match fuel with
  | O => None
  | S fuel =>
      let fix loop (index : N) (nodes : list (domArg Node)) (s : scanState) : option (res scanState) :=
        match nodes with
        | [] => Some (Ok s)
        | inl _ :: nodes => loop (index + 1)%N nodes s
        | inr n :: nodes =>
            if decide (n ∈ sc_visitedNodes s) then loop (index + 1)%N nodes s
            else
              let s := visitNode n s in
              let path := childPath parentPath index in
              match (if decide (path ∈ sc_companionPaths s) then Ok s
                     else inspectHydrationNode d contracts depth index (head nodes ≫= asNode)
                            (childPath parentPath (index + 1)) n path s) with
              | Throw e => Some (Throw e)
              | Ok s =>
                  match scanChildNodes fuel d contracts n path (S depth) s with
                  | Some (Ok s) => loop (index + 1)%N nodes s
                  | r => r
                  end
              end
        end in
      loop 0%N (readChildNodes d parentNode) s
  end.

(** ** Entry points *)

(** [contract && contract[name]] *)
Definition contractField (contract : value) (name : string) : res value :=
  if truthy contract then match contract with VObj r | VFun r => get (heap r) name | _ => Ok VUndef end
  else Ok contract.

(** [None] is no array. *)
Definition normalizeAcceptedMarkerContracts (markerContracts : option (list value)) : res (list markerContract) :=
  match markerContracts with
  | None => hostError "FAST_REACT_DOM_HYDRATION_MARKER_CONTRACTS_REQUIRED"
  | Some l =>
      mapRes (fun c =>
        let* id := contractField c "id" in
        let* area := contractField c "area" in
        let* serializedMarker := contractField c "serializedMarker" in
        let* commentData := contractField c "commentData" in
        let* companionNode := contractField c "companionNode" in
        let* lifecycle := contractField c "lifecycle" in
        Ok (mkContract id area serializedMarker commentData companionNode lifecycle)) l
  end.

Definition createSummaryByContract (contracts : list markerContract) (s : scanState) : list (value * nat) :=
  map (fun c => (mc_id c, countOf (sc_summaryCounts s) (mc_id c))) contracts.

Record diagnostics : Type := mkDiagnostics {
  dg_containerInfo : containerDescription;
  dg_markerContractCount : nat;
  dg_nodeCount : nat;
  dg_acceptedMarkerCount : nat;
  dg_commentMarkerCount : nat;
  dg_templateMarkerCount : nat;
  dg_unrecognizedMarkerCount : nat;
  dg_markers : list markerRow;
  dg_unrecognizedMarkers : list unrecognizedRow;
  dg_summaryByContract : list (value * nat) }.

Definition inspectHydrationContainerMarkers (fuel : nat) d (container : domArg Node)
    (markerContracts : option (list value)) : option (res diagnostics) :=
  match (let* c := assertValidContainer d container in
         let* contracts := normalizeAcceptedMarkerContracts markerContracts in Ok (c, contracts)) with
  | Throw e => Some (Throw e)
  | Ok (inl _, _) => Some (hostError "FAST_REACT_DOM_INVALID_CONTAINER")
  | Ok (inr n, contracts) =>
      match scanChildNodes fuel d contracts n "container" 0 initialScan with
      | None => None
      | Some (Throw e) => Some (Throw e)
      | Some (Ok s) =>
          Some (let* info := describeContainer d container in
                Ok (mkDiagnostics info (length contracts) (sc_nodeCount s) (sc_acceptedMarkerCount s)
                      (sc_commentMarkerCount s) (sc_templateMarkerCount s)
                      (length (sc_unrecognizedMarkerRows s)) (sc_markerRows s)
                      (sc_unrecognizedMarkerRows s) (createSummaryByContract contracts s)))
      end
  end.

Record resolution : Type := mkResolution {
  rs_resolvedPath : string;
  rs_status : string;
  rs_node : option Node;
  rs_nodeInfo : option nodeInfo;
  rs_parentNode : Node;
  rs_parentPath : string;
  rs_index : N;
  rs_segmentCount : nat }.

(** [childNodes[index]] *)
Definition childAt (nodes : list (domArg Node)) (index : N) : option (domArg Node) :=
  if (index <? N.of_nat (length nodes))%N then nodes !! N.to_nat index else None.

(** The walk down: the parent of the last step, its path, the last index, and the node. *)
Fixpoint resolveSegments d n (resolvedPath : string) (index : N) (segments : list N) :
    Node * string * N * option Node :=
  match childAt (readChildNodes d n) index ≫= asNode with
  | None => (n, resolvedPath, index, None)
  | Some child =>
      match segments with
      | [] => (n, resolvedPath, index, Some child)
      | next :: segments => resolveSegments d child (childPath resolvedPath index) next segments
      end
  end.

(** [Ok None] is null. *)
Definition resolveHydrationContainerNodePath d (container : domArg Node) (path : value) :
    res (option resolution) :=
  let* c := assertValidContainer d container in
  match c, parseHydrationContainerChildPath path with
  | inr n, Some (index :: segments) =>
      let '(parent, parentPath, last, node) := resolveSegments d n "container" index segments in
      let resolvedPath := childPath parentPath last in
      let count := S (length segments) in
      match node with
      | None => Ok (Some (mkResolution resolvedPath "missing-node" None None parent parentPath last count))
      | Some child =>
          let* info := createNodeInfo d child in
          Ok (Some (mkResolution resolvedPath
                (if isStr path resolvedPath then "resolved" else "resolved-path-mismatch")
                (Some child) (Some info) parent parentPath last count))
      end
  | _, _ => Ok None
  end.
End Scan.
