(* ===== verification/HydrationMarkersSpec.v ===== *)
(** * Theorems about hydration markers

    Marker ids and paths parse back to what they were printed from; the scan ends, visits
    every node below the container once, its counts are those of its rows, and the path of
    every row resolves to the node that the row describes. *)
From Stdlib Require Import Ascii.
From stdpp Require Import pretty.
From S2P Require Import Prelude JsValue PropertyPayload DomHost DomPayload DomTree DomTreeSpec ComponentTree HydrationMarkers.

(** ** Texts *)

Section Texts.
#[local] Arguments String.append : simpl nomatch.

Lemma stripPrefix_app p s : stripPrefix p (p +:+ s) = Some s.
Proof. induction p as [|c p IH]; simpl; [done|]. by rewrite Ascii.eqb_refl. Qed.

Lemma stripPrefix_Some p s r : stripPrefix p s = Some r -> s = p +:+ r.
Proof.
  revert s. induction p as [|a p IH]; intros s; simpl; [by intros [= <-]|].
  destruct s as [|b s]; [done|]. destruct (Ascii.eqb_spec a b) as [->|]; [|done]. intros H. simpl.
  by rewrite (IH s H).
Qed.

Lemma allChars_app f a b : allChars f (a +:+ b) = allChars f a && allChars f b.
Proof.
  induction a as [|c a IH]; simpl; [done|]. unfold allChars in *. simpl. rewrite IH. by destruct (f c).
Qed.

Lemma spanChars_spec f s :
  let '(a, b) := spanChars f s in
  s = a +:+ b /\ allChars f a = true /\ match b with EmptyString => True | String c _ => f c = false end.
Proof.
  induction s as [|c s IH]; simpl; [done|]. destruct (f c) eqn:E; [|by split].
  destruct (spanChars f s) as [a b]. destruct IH as (-> & H1 & H2). split; [done|]. split; [|done].
  unfold allChars in *. simpl. by rewrite E.
Qed.

Lemma spanChars_app f a c b : allChars f a = true -> f c = false ->
  spanChars f (a +:+ String c b) = (a, String c b).
Proof.
  intros Ha Hc. induction a as [|x a IH]; simpl; [by rewrite Hc|].
  unfold allChars in *. simpl in Ha. apply andb_true_iff in Ha as [-> Ha]. by rewrite IH.
Qed.

Lemma digitsValue_snoc t c n : digitsValue (t +:+ String c "") n = (10 * digitsValue t n + (charCode c - 48))%N.
Proof. induction t as [|x t IH] in n |- *; simpl; [done|]. apply IH. Qed.

Lemma pretty_char k : (k < 10)%N -> isDigit (pretty_N_char k) = true /\ (charCode (pretty_N_char k) - 48 = k)%N.
Proof.
  intros Hk. assert (k = 0 \/ k = 1 \/ k = 2 \/ k = 3 \/ k = 4 \/ k = 5 \/ k = 6 \/ k = 7 \/ k = 8 \/ k = 9)%N
    as [->|[->|[->|[->|[->|[->|[->|[->|[->| ->]]]]]]]]] by lia; done.
Qed.

Lemma pretty_go_digits k s : exists t, pretty_N_go k s = t +:+ s /\ allChars isDigit t = true
  /\ digitsValue t 0 = k /\ (k <> 0%N -> t <> "").
Proof.
  revert s. induction (N.lt_wf_0 k) as [k _ IH]. intros s. destruct (decide (k = 0)%N) as [->|Hk].
  { exists "". by rewrite pretty_N_go_0. }
  rewrite pretty_N_go_step by lia.
  destruct (IH (k `div` 10)%N ltac:(apply N.div_lt; lia) (String (pretty_N_char (k `mod` 10)) s))
    as (t & -> & Ht & Hv & _).
  destruct (pretty_char (k `mod` 10)%N ltac:(by apply N.mod_lt)) as [H1 H2].
  exists (t +:+ String (pretty_N_char (k `mod` 10)) ""). split_and!.
  - by rewrite string_app_assoc.
  - rewrite allChars_app, Ht. simpl. by rewrite H1.
  - rewrite digitsValue_snoc, Hv, H2. symmetry. by apply N.div_mod.
  - intros _. by destruct t.
Qed.

Lemma pretty_digits k : allChars isDigit (pretty k) = true /\ digitsValue (pretty k) 0 = k /\ pretty k <> "".
Proof.
  unfold pretty, pretty_N. case_decide as Hk; [by subst|].
  destruct (pretty_go_digits k "") as (t & -> & H1 & H2 & H3). rewrite string_app_nil_r. auto.
Qed.

(** ** Paths *)

Fixpoint segmentsText (segments : list N) : string :=
  match segments with [] => "" | k :: l => childSegment k +:+ segmentsText l end.

(** The path of a list of child indices. *)
Definition pathFrom (path : string) (segments : list N) : string := foldl childPath path segments.
Definition containerPath : list N -> string := pathFrom "container".

Lemma pathFrom_text p l : pathFrom p l = p +:+ segmentsText l.
Proof.
  unfold pathFrom. induction l as [|k l IH] in p |- *; simpl; [by rewrite string_app_nil_r|].
  rewrite IH. unfold childPath. by rewrite string_app_assoc.
Qed.

Lemma matchSegment_app k s : matchChildSegment (childSegment k +:+ s) = Some (k, s).
Proof.
  destruct (pretty_digits k) as (H1 & H2 & H3). unfold matchChildSegment, childSegment.
  rewrite !string_app_assoc, stripPrefix_app. simpl. rewrite spanChars_app by done.
  rewrite decide_False by done. cbn. by rewrite H2.
Qed.

Lemma parseSegments_text l fuel : length l <= fuel -> parseSegments fuel (segmentsText l) = Some l.
Proof.
  induction fuel as [|fuel IH] in l |- *; intros Hl; destruct l as [|k l]; simpl in Hl; try done; try lia.
  cbn [segmentsText parseSegments]. rewrite matchSegment_app.
  destruct (childSegment k +:+ segmentsText l) eqn:E; [done|]. simpl. rewrite IH by lia. done.
Qed.

Lemma segmentsText_length l : length l <= String.length (segmentsText l).
Proof.
  induction l as [|k l IH]; cbn [segmentsText length]; [lia|]. rewrite string_app_length. simpl. lia.
Qed.

(** A segment as it may be written: with leading zeros. *)
Definition writtenSegment (k : N) (text : string) : Prop :=
  exists digits, digits <> "" /\ allChars isDigit digits = true /\ digitsValue digits 0 = k
    /\ text = ".childNodes[" +:+ digits +:+ "]".

Fixpoint concatTexts (texts : list string) : string :=
  match texts with [] => "" | t :: l => t +:+ concatTexts l end.

Lemma matchSegment_Some s k rest : matchChildSegment s = Some (k, rest) ->
  exists text, writtenSegment k text /\ s = text +:+ rest.
Proof.
  unfold matchChildSegment. destruct (stripPrefix ".childNodes[" s) as [r|] eqn:E1; [|done].
  apply stripPrefix_Some in E1 as ->. cbn [mbind option_bind]. pose proof (spanChars_spec isDigit r) as Hs.
  destruct (spanChars isDigit r) as [digits b]. destruct Hs as (-> & Hd & _).
  case_decide as Hne; [done|]. destruct (stripPrefix "]" b) as [r|] eqn:E2; [|done].
  apply stripPrefix_Some in E2 as ->. simpl. intros [= <- <-].
  exists (".childNodes[" +:+ digits +:+ "]"). split; [by exists digits|]. simpl. by rewrite string_app_assoc.
Qed.

Lemma parseSegments_Some fuel s l : parseSegments fuel s = Some l ->
  exists texts, Forall2 writtenSegment l texts /\ s = concatTexts texts.
Proof.
  induction fuel as [|fuel IH] in s, l |- *; (destruct s as [|c s]; [by intros [= <-]; exists []|]);
    cbn [parseSegments]; [done|].
  destruct (matchChildSegment (String c s)) as [[k rest]|] eqn:E; [|done]. simpl.
  destruct (parseSegments fuel rest) as [segments|] eqn:Er; [|done]. simpl. intros [= <-].
  apply matchSegment_Some in E as (text & Ht & ->). destruct (IH _ _ Er) as (texts & H & ->).
  exists (text :: texts). by split; [constructor|].
Qed.

Lemma parse_containerPath segments : segments <> [] ->
  parseHydrationContainerChildPath (VStr (containerPath segments)) = Some segments.
Proof.
  intros Hl. unfold parseHydrationContainerChildPath, containerPath. rewrite pathFrom_text, stripPrefix_app.
  simpl. rewrite parseSegments_text by apply segmentsText_length. simpl. by destruct segments.
Qed.

(** A path of child nodes parses back to its indices, whatever they are and however
    many; and what parses is such a path, at least one step long, at most with leading
    zeros in its indices. Nothing else parses: not the container's own path, no value that
    is no string, no text after the last bracket. *)
Theorem child_path_roundtrip :
  (forall segments, segments <> [] ->
     parseHydrationContainerChildPath (VStr (containerPath segments)) = Some segments)
  /\ forall v segments, parseHydrationContainerChildPath v = Some segments ->
       segments <> [] /\ exists texts, Forall2 writtenSegment segments texts
         /\ v = VStr ("container" +:+ concatTexts texts).
Proof.
  split.
  - apply parse_containerPath.
  - intros v l. destruct v as [| | | |s| | | |]; try done. unfold parseHydrationContainerChildPath.
    destruct (stripPrefix "container" s) as [rest|] eqn:E; [|done]. apply stripPrefix_Some in E as ->. simpl.
    destruct (parseSegments (String.length rest) rest) as [l'|] eqn:E; [|done]. simpl.
    intros Hl. assert (l' = l /\ l <> []) as [-> Hne] by (destruct l'; [done|]; injection Hl as <-; done).
    split; [done|]. apply parseSegments_Some in E as (texts & H & ->). by exists texts.
Qed.

(** ** Marker ids *)

(** The text of a marker id: a prefix of one line, the kind, a colon and digits. *)
Definition isMarkerIdText (s prefix : string) (kind : Ascii.ascii) (hex : string) : Prop :=
  s = prefix +:+ String kind (":" +:+ hex) /\ allChars isDotChar prefix = true /\ isMarkerKind kind = true
  /\ hex <> "" /\ allChars isHexDigit hex = true.

Lemma colon_no_hex a b : allChars isHexDigit (a +:+ String ":" b) = false.
Proof. rewrite allChars_app. simpl. by rewrite andb_false_r. Qed.

(** Whether the marker starts here. *)
Definition markerHere (c : Ascii.ascii) (rest : string) : option (string * Ascii.ascii * string) :=
  if isMarkerKind c then
    hex ← stripPrefix ":" rest;
    if allChars isHexDigit hex && negb (bool_decide (hex = "")) then Some ("", c, hex) else None
  else None.

Lemma markerHere_Some c rest prefix kind hex :
  markerHere c rest = Some (prefix, kind, hex) <-> prefix = "" /\ isMarkerIdText (String c rest) "" kind hex.
Proof.
  unfold markerHere. split.
  - destruct (isMarkerKind c) eqn:Ek; [|done]. destruct (stripPrefix ":" rest) as [h|] eqn:Eh; [|done].
    apply stripPrefix_Some in Eh as ->. simpl. case_bool; [|done]. bools. intros [= <- <- <-].
    split; [done|]. by split_and!.
  - intros [-> (Heq & _ & Hk & Hne & Hh)]. simpl in Heq. injection Heq as -> ->. rewrite Hk.
    change (String ":" hex) with (":" +:+ hex). rewrite stripPrefix_app. simpl. by rewrite Hh, bool_decide_eq_false_2.
Qed.

Lemma matchMarkerId_step c rest :
  matchMarkerId (String c rest)
  = match markerHere c rest with
    | Some m => Some m
    | None => if isDotChar c then '(prefix, kind, hex) ← matchMarkerId rest; Some (String c prefix, kind, hex)
              else None
    end.
Proof. done. Qed.

Lemma markerHere_last c prefix kind hex :
  isMarkerKind kind = true -> markerHere c (prefix +:+ String kind (String ":" hex)) = None.
Proof.
  intros Hk. destruct (markerHere c _) as [[[p k] h]|] eqn:E; [|done]. exfalso.
  apply markerHere_Some in E as [_ (Heq & _ & _ & _ & Hh)]. simpl in Heq. injection Heq as _ Heq.
  destruct prefix as [|x prefix]; simpl in Heq.
  - injection Heq as -> _. done.
  - injection Heq as _ <-. replace (prefix +:+ String kind (String ":" hex))
      with ((prefix +:+ String kind "") +:+ String ":" hex) in Hh by (by rewrite string_app_assoc).
    by rewrite colon_no_hex in Hh.
Qed.

Lemma matchMarkerId_spec s prefix kind hex :
  matchMarkerId s = Some (prefix, kind, hex) <-> isMarkerIdText s prefix kind hex.
Proof.
  induction s as [|c s IH] in prefix |- *.
  { split; [done|]. intros (H & _). by destruct prefix. }
  rewrite matchMarkerId_step. split.
  - destruct (markerHere c s) as [[[p k] h]|] eqn:E.
    + intros [= -> -> ->]. by apply markerHere_Some in E as [-> E].
    + destruct (isDotChar c) eqn:Ed; [|done]. destruct (matchMarkerId s) as [[[p k] h]|] eqn:Em; [|done].
      simpl. intros [= <- -> ->]. destruct (proj1 (IH p) eq_refl) as (-> & H1 & H2). split; [done|]. simpl. by rewrite Ed.
  - intros H. pose proof H as (Heq & Hd & Hk & Hne & Hh). destruct prefix as [|x prefix].
    + by rewrite (proj2 (markerHere_Some c s "" kind hex)).
    + simpl in Heq, Hd. injection Heq as -> ->. apply andb_true_iff in Hd as [Hx Hd].
      rewrite (markerHere_last x prefix kind hex Hk), Hx. by rewrite (proj2 (IH prefix)).
Qed.

(** A hydration marker id parses exactly when it is a prefix of one line, one of the
    kinds B, P and S, a colon and a hexadecimal number; the parts are those of the text,
    put together they give it back, and no text parses in two ways, although the prefix may
    hold colons and kind letters of its own. *)
Theorem marker_id_roundtrip v p :
  parseHydrationMarkerId v = Some p
  <-> v = Some (ip_full p) /\ isMarkerIdText (ip_full p) (ip_identifierPrefix p) (ip_kind p) (ip_hex p).
Proof.
  unfold parseHydrationMarkerId. destruct v as [s|]; simpl; [|split; [done|by intros [? _]]].
  destruct p as [full prefix kind hex]; simpl. split.
  - destruct (matchMarkerId s) as [[[p k] h]|] eqn:E; simpl; [|done]. intros [= -> -> -> ->].
    split; [done|]. by apply matchMarkerId_spec.
  - intros [[= ->] H]. by rewrite (proj2 (matchMarkerId_spec _ _ _ _) H).
Qed.
End Texts.

(** ** Maps keyed by SameValueZero *)

Definition canonical (v : value) : value :=
  match v with VNum n => VNum (normal n) | VSym id _ => VSym id "" | _ => v end.

Lemma sameValueZero_canonical v w : sameValueZero v w = bool_decide (canonical v = canonical w).
Proof.
  unfold sameValueZero. apply eq_true_iff_eq. rewrite orb_true_iff, !bool_decide_eq_true.
  destruct v as [| | |m| | | | |], w as [| | |n| | | | |]; simpl; rewrite ?bool_decide_eq_true;
    try (split; [intros [?|[? ?]]; congruence|intros; left; congruence]).
  destruct m; rewrite ?bool_decide_eq_true;
    try (split; [intros [?|[? ?]]; congruence|intros [= H]; by left]).
  split; [by intros [?|[_ [= ->]]]|]. intros [= H]. right. split; [done|]. symmetry in H.
  by apply normal_NaN in H as ->.
Qed.

Lemma sameValueZero_refl v : sameValueZero v v = true.
Proof. rewrite sameValueZero_canonical. by apply bool_decide_eq_true. Qed.

Lemma countOf_setCount m k c k' :
  countOf (setCount m k c) k' = if sameValueZero k k' then c else countOf m k'.
Proof.
  induction m as [|[k0 c0] m IH]; cbn [setCount countOf List.find fst snd].
  - unfold countOf. simpl. by destruct (sameValueZero k k').
  - unfold countOf in *. destruct (sameValueZero k0 k) eqn:E; cbn [List.find fst snd].
    + assert (sameValueZero k0 k' = sameValueZero k k') as ->; [|by destruct (sameValueZero k k')].
      rewrite sameValueZero_canonical in *. bools. by rewrite E, sameValueZero_canonical.
    + destruct (sameValueZero k0 k') eqn:E'; [|exact IH].
      destruct (sameValueZero k k') eqn:E2; [|done]. rewrite sameValueZero_canonical in *. bools. congruence.
Qed.

(** Counting a list by keys that are listed once. *)
Lemma count_by_key {A} (key : A -> value) (ids : list value) (l : list A) :
  NoDup (map canonical ids) -> (forall x, x ∈ l -> exists id, id ∈ ids /\ sameValueZero (key x) id = true) ->
  sum_list_with (fun id => length (List.filter (fun x => sameValueZero (key x) id) l)) ids = length l.
Proof.
  intros Hnd Hall. induction l as [|x l IH].
  - clear. induction ids; simpl; auto.
  - assert (H1 : sum_list_with (fun id => if sameValueZero (key x) id then 1 else 0) ids = 1).
    { destruct (Hall x) as (id & Hid & Hk); [left|]. clear Hall IH. induction ids as [|id' ids IH].
      { by apply not_elem_of_nil in Hid. }
      simpl in Hnd |- *. apply NoDup_cons in Hnd as [Hn Hnd]. destruct (sameValueZero (key x) id') eqn:E.
      - assert (Hz : forall ids', canonical id' ∉ map canonical ids' ->
          sum_list_with (fun id => if sameValueZero (key x) id then 1 else 0) ids' = 0).
        { intros ids' Hn'. induction ids' as [|j ids' IHj]; [done|]. simpl in Hn' |- *.
          apply not_elem_of_cons in Hn' as [Hj Hn']. rewrite IHj by done.
          destruct (sameValueZero (key x) j) eqn:Ej; [|done]. rewrite sameValueZero_canonical in *. bools. congruence. }
        by rewrite Hz.
      - apply elem_of_cons in Hid as [->|Hid]; [congruence|]. by apply IH. }
    specialize (IH ltac:(intros y Hy; apply Hall; by right)).
    assert (H2 : sum_list_with (fun id => length (List.filter (fun x => sameValueZero (key x) id) (x :: l))) ids
      = sum_list_with (fun id => if sameValueZero (key x) id then 1 else 0) ids
        + sum_list_with (fun id => length (List.filter (fun x => sameValueZero (key x) id) l)) ids).
    { clear. induction ids as [|id ids IH]; simpl in *; [done|]. rewrite IH.
      destruct (sameValueZero (key x) id); simpl; lia. }
    rewrite H2, H1, IH. done.
Qed.

(** ** The scan *)

Section Scan.
Context {Node D : Type} `{!EqDecision Node} `{!Countable Node} `{!Host Node D} (heap : ref -> jsobject).
Context (childNodeItems : D -> Node -> option (list (domArg Node))).
Context (attributesOf : D -> Node -> option attributesObject) (ownProperty : D -> Node -> string -> option value).
Context (d : D) (contracts : list markerContract).
Implicit Types (n x y : Node) (s : scanState (Node := Node)).

Abbreviation kids := (readChildNodes childNodeItems d).
Abbreviation inspectNode := (inspectHydrationNode heap attributesOf ownProperty d contracts).
Abbreviation scan fuel := (scanChildNodes heap childNodeItems attributesOf ownProperty fuel d contracts).

(** The loop over the child nodes that remain, the next of which has the given index. *)
Fixpoint scanLoop (fuel : nat) (parentPath : string) (depth : nat) (index : N) (nodes : list (domArg Node)) s :
    option (res scanState) :=
  match nodes with
  | [] => Some (Ok s)
  | inl _ :: nodes => scanLoop fuel parentPath depth (index + 1)%N nodes s
  | inr n :: nodes =>
      if decide (n ∈ sc_visitedNodes s) then scanLoop fuel parentPath depth (index + 1)%N nodes s
      else
        let s := visitNode n s in
        let path := childPath parentPath index in
        match (if decide (path ∈ sc_companionPaths s) then Ok s
               else inspectNode depth index (head nodes ≫= asNode) (childPath parentPath (index + 1)) n path s) with
        | Throw e => Some (Throw e)
        | Ok s =>
            match scan fuel n path (S depth) s with
            | Some (Ok s) => scanLoop fuel parentPath depth (index + 1)%N nodes s
            | r => r
            end
        end
  end.

Lemma scan_step fuel x path depth s : scan (S fuel) x path depth s = scanLoop fuel path depth 0 (kids x) s.
Proof.
  cbn [scanChildNodes]. generalize 0%N as index. generalize (kids x) as nodes. intros nodes.
  induction nodes as [|[v|n] nodes IH] in s |- *; intros index; cbn [scanLoop]; [done|apply IH|].
  destruct (decide _); [apply IH|]. cbv zeta. destruct (if decide _ then _ else _) as [s1|]; [|done].
  destruct (scan fuel n _ _ s1) as [[s2|]|]; [apply IH|done|done].
Qed.

(** The node that a list of indices leads to. *)
Fixpoint nodeAt x (segments : list N) : option Node :=
  match segments with
  | [] => Some x
  | k :: segments => y ← childAt (kids x) k ≫= asNode; nodeAt y segments
  end.

Lemma nodeAt_snoc x l k : nodeAt x (l ++ [k]) = y ← nodeAt x l; childAt (kids y) k ≫= asNode.
Proof.
  induction l as [|i l IH] in x |- *; simpl.
  - destruct (childAt (kids x) k ≫= asNode); done.
  - destruct (childAt (kids x) i ≫= asNode) as [y|]; [apply IH|done].
Qed.

Lemma childPath_snoc l k : childPath (containerPath l) k = containerPath (l ++ [k]).
Proof. unfold containerPath, pathFrom. by rewrite foldl_snoc. Qed.

(** One node of the scan: it is visited and, unless it is a companion, inspected. *)
Definition scanNode (l : list N) (k : N) (next : option Node) n s : res scanState :=
  if decide (containerPath (l ++ [k]) ∈ sc_companionPaths (visitNode n s)) then Ok (visitNode n s)
  else inspectNode (length l) k next (containerPath (l ++ [(k + 1)%N])) n (containerPath (l ++ [k])) (visitNode n s).

Lemma childAt_drop (nodes : list (domArg Node)) k item rest :
  drop (N.to_nat k) nodes = item :: rest ->
  childAt nodes k = Some item /\ head rest = childAt nodes (k + 1) /\ drop (N.to_nat (k + 1)) nodes = rest.
Proof.
  intros H.
  assert (Hl : forall i, drop (N.to_nat k) nodes !! i = nodes !! (N.to_nat k + i)) by (intros; apply lookup_drop).
  assert (Hat : forall i, childAt nodes i = nodes !! N.to_nat i).
  { intros i. unfold childAt. destruct (N.ltb_spec i (N.of_nat (length nodes))) as [|Hge]; [done|].
    symmetry. apply lookup_ge_None. lia. }
  rewrite !Hat, N2Nat.inj_add. split_and!.
  - rewrite <- (Nat.add_0_r (N.to_nat k)), <- Hl, H. done.
  - rewrite <- Hl, H. by destruct rest.
  - rewrite <- drop_drop, H. done.
Qed.

Lemma scanLoop_cons fuel l k n (nodes : list (domArg Node)) s :
  scanLoop fuel (containerPath l) (length l) k (inr n :: nodes) s
  = if decide (n ∈ sc_visitedNodes s) then scanLoop fuel (containerPath l) (length l) (k + 1) nodes s
    else match scanNode l k (head nodes ≫= asNode) n s with
         | Throw e => Some (Throw e)
         | Ok s1 =>
             match scan fuel n (containerPath (l ++ [k])) (length (l ++ [k])) s1 with
             | Some (Ok s2) => scanLoop fuel (containerPath l) (length l) (k + 1) nodes s2
             | r => r
             end
         end.
Proof.
  cbn [scanLoop]. destruct (decide _); [done|]. cbv zeta. rewrite !childPath_snoc, length_app, Nat.add_1_r. done.
Qed.

Section Induction.
(** A property of the state that every node of the scan keeps is kept by the scan. *)
Context (root : Node) (I : scanState (Node := Node) -> Prop).
Context (Hnode : forall l k x n s s', nodeAt root l = Some x -> childAt (kids x) k = Some (inr n) ->
  n ∉ sc_visitedNodes s -> I s ->
  scanNode l k (childAt (kids x) (k + 1) ≫= asNode) n s = Ok s' -> I s').

Lemma scan_invariant fuel l x s s' :
  nodeAt root l = Some x -> I s -> scan fuel x (containerPath l) (length l) s = Some (Ok s') -> I s'.
Proof.
  induction fuel as [|fuel IH] in l, x, s, s' |- *; intros Hx Hs; [done|]. rewrite scan_step.
  assert (Hloop : forall nodes k s, drop (N.to_nat k) (kids x) = nodes -> I s ->
    scanLoop fuel (containerPath l) (length l) k nodes s = Some (Ok s') -> I s').
  { intros nodes. induction nodes as [|item nodes IHn]; intros k s0 Hd Hs0; [by intros [= <-]|].
    apply childAt_drop in Hd as (Hk & Hnext & Hd). destruct item as [v|n]; [by apply IHn|].
    rewrite scanLoop_cons, Hnext. destruct (decide _) as [|Hfresh]; [by apply IHn|].
    destruct (scanNode l k _ n s0) as [s1|] eqn:E1; [|done].
    pose proof (Hnode _ _ _ _ _ _ Hx Hk Hfresh Hs0 E1) as Hs1.
    destruct (scan fuel n _ _ s1) as [[s2|]|] eqn:E2; [|done|done].
    apply IHn; [done|]. eapply (IH (l ++ [k])); [|exact Hs1|exact E2].
    rewrite nodeAt_snoc, Hx. simpl. by rewrite Hk. }
  by apply Hloop.
Qed.
End Induction.

(** *** What a node of the scan adds *)

(** A row says the truth about the node at child [k] of the node at [l]. *)
Definition rowTrue (l : list N) (k : N) n (r : markerRow) : Prop :=
  row_path r = containerPath (l ++ [k]) /\ row_depth r = length l /\ row_index r = k
  /\ createNodeInfo heap d n = Ok (row_nodeInfo r)
  /\ exists c, c ∈ contracts /\ row_contractId r = mc_id c
    /\ match row_kind r with
       | CommentRow data _ => readCommentData d n = Ok data /\ findCommentContract contracts data = Some c
       | TemplateRow _ t => createTemplateInfo heap attributesOf ownProperty d n = Ok t
                            /\ classifyTemplateContract contracts t = Some c
       end.
Definition unrecognizedTrue (l : list N) (k : N) n (r : unrecognizedRow) : Prop :=
  match r with
  | UnrecognizedComment path info data => path = containerPath (l ++ [k]) /\ createNodeInfo heap d n = Ok info
      /\ readCommentData d n = Ok data /\ findCommentContract contracts data = None
      /\ looksLikeHydrationCommentData data = true
  | UnrecognizedTemplate path info t => path = containerPath (l ++ [k]) /\ createNodeInfo heap d n = Ok info
      /\ createTemplateInfo heap attributesOf ownProperty d n = Ok t
      /\ classifyTemplateContract contracts t = None /\ looksLikeHydrationTemplate t = true
  end.

Definition isCommentRow (r : markerRow) : bool :=
  match row_kind r with CommentRow _ _ => true | TemplateRow _ _ => false end.

Lemma find_contract {P} c : List.find P contracts = Some c -> c ∈ contracts.
Proof. intros H. apply list_elem_of_In. by apply List.find_some in H as [H _]. Qed.

Lemma classify_contract t c : classifyTemplateContract contracts t = Some c -> c ∈ contracts.
Proof. unfold classifyTemplateContract, findContract. repeat case_bool; try done; apply find_contract. Qed.

Lemma scanNode_cases l k next n s s' :
  scanNode l k next n s = Ok s' ->
  s' = visitNode n s
  \/ (exists u, s' = pushUnrecognized u (visitNode n s) /\ unrecognizedTrue l k n u)
  \/ exists r w, rowTrue l k n r
      /\ (w = visitNode n s \/ exists p, w = addCompanionPath p (visitNode n s))
      /\ s' = if isCommentRow r then pushMarkerRow r 1 0 w else pushMarkerRow r 0 1 w.
Proof.
  unfold scanNode. destruct (decide _) as [|_]; [intros [= <-]; by left|].
  unfold inspectHydrationNode. intros (nodeType & _ & H)%bind_Ok.
  destruct (isNodeType nodeType 8).
  - unfold inspectCommentMarker in H. apply bind_Ok in H as (data & Hdata & H).
    apply bind_Ok in H as (info & Hinfo & H).
    destruct (findCommentContract contracts data) as [c|] eqn:Ec.
    + apply bind_Ok in H as (cp & _ & H). apply bind_Ok in H as (mid & _ & H). right. right.
      cbv zeta in H. match type of H with Ok (pushMarkerRow ?r _ _ ?w) = _ => exists r, w end.
      split; [|split; [|by injection H as <-]].
      * split; [done|]. split; [done|]. split; [done|]. split; [done|]. exists c.
        split; [by eapply find_contract|]. by split.
      * destruct cp as [cp|]; [right; by eexists|by left].
    + injection H as <-. destruct (looksLikeHydrationCommentData data) eqn:El; [|by left].
      right. left. eexists. split; [done|]. by split_and!.
  - apply bind_Ok in H as (template & _ & H). destruct template; [|injection H as <-; by left].
    unfold inspectTemplateMarker in H. apply bind_Ok in H as (t & Ht & H).
    destruct (classifyTemplateContract contracts t) as [c|] eqn:Ec.
    + apply bind_Ok in H as (mid & _ & H). apply bind_Ok in H as (info & Hinfo & H). right. right.
      match type of H with Ok (pushMarkerRow ?r _ _ ?w) = _ => exists r, w end.
      split; [|split; [by left|by injection H as <-]].
      split; [done|]. split; [done|]. split; [done|]. split; [done|]. exists c.
      split; [by eapply classify_contract|]. by split.
    + destruct (looksLikeHydrationTemplate t) eqn:El; [|injection H as <-; by left].
      apply bind_Ok in H as (info & Hinfo & [= <-]). right. left. eexists. split; [done|]. by split_and!.
Qed.

(** *** The counts *)

Record countsOk s : Prop := {
  co_nodes : sc_nodeCount s = size (sc_visitedNodes s);
  co_accepted : sc_acceptedMarkerCount s = length (sc_markerRows s);
  co_comments : sc_commentMarkerCount s = length (List.filter isCommentRow (sc_markerRows s));
  co_templates : sc_templateMarkerCount s
    = length (List.filter (fun r => negb (isCommentRow r)) (sc_markerRows s));
  co_summary id : countOf (sc_summaryCounts s) id
    = length (List.filter (fun r => sameValueZero (row_contractId r) id) (sc_markerRows s)) }.

Lemma initialScan_counts : countsOk initialScan.
Proof. by split. Qed.

Lemma visit_counts n s : n ∉ sc_visitedNodes s -> countsOk s -> countsOk (visitNode n s).
Proof.
  intros Hn Hs. split; simpl; try apply Hs. rewrite size_union by set_solver. rewrite size_singleton.
  simpl. f_equal. apply Hs.
Qed.

Lemma scanNode_counts l k next n s s' :
  n ∉ sc_visitedNodes s -> countsOk s -> scanNode l k next n s = Ok s' -> countsOk s'.
Proof.
  intros Hn Hs H. apply (visit_counts n s Hn) in Hs.
  apply scanNode_cases in H as [->|[(u & -> & _)|(r & w & _ & Hw & ->)]]; [done| |].
  - split; simpl; apply Hs.
  - assert (Hok : countsOk w) by (destruct Hw as [->|[p ->]]; [done|]; split; simpl; apply Hs).
    assert (Hsum : forall a b id, countOf (sc_summaryCounts (pushMarkerRow r a b w)) id
      = length (List.filter (fun r => sameValueZero (row_contractId r) id) (sc_markerRows w ++ [r]))).
    { intros a b id. simpl. rewrite countOf_setCount, List.filter_app, length_app. simpl.
      rewrite <- (co_summary _ Hok id). destruct (sameValueZero (row_contractId r) id) eqn:E; simpl; [|lia].
      rewrite !(co_summary _ Hok). f_equal. f_equal. apply List.filter_ext. intros x.
      rewrite !sameValueZero_canonical in *. bools. by rewrite E. }
    destruct (isCommentRow r) eqn:Er; split; try apply Hsum; simpl; try apply Hok;
      rewrite ?List.filter_app, ?length_app; simpl; rewrite ?Er; simpl;
      rewrite ?(co_accepted _ Hok), ?(co_comments _ Hok), ?(co_templates _ Hok); lia.
Qed.

(** *** The nodes that are visited *)

Definition kid x y : Prop := inr y ∈ kids x.

Lemma scanNode_visited l k next n s s' :
  scanNode l k next n s = Ok s' -> sc_visitedNodes s' = {[n]} ∪ sc_visitedNodes s.
Proof.
  intros H. apply scanNode_cases in H as [->|[(u & -> & _)|(r & w & _ & [->|[p ->]] & ->)]]; try done;
    by destruct (isCommentRow r).
Qed.

(** What a scan from [x] visits: all that can be reached, and nothing else. *)
Definition visitedFrom x s s' : Prop :=
  sc_visitedNodes s ⊆ sc_visitedNodes s'
  /\ (forall y, y ∈ sc_visitedNodes s' -> y ∈ sc_visitedNodes s
       \/ (forall z, kid y z -> z ∈ sc_visitedNodes s') /\ tc kid x y).

Lemma visitedFrom_trans x s1 s2 s3 : visitedFrom x s1 s2 -> visitedFrom x s2 s3 -> visitedFrom x s1 s3.
Proof.
  intros [H1 H2] [H3 H4]. split; [set_solver|]. intros y [Hy|?]%H4; [|by right].
  apply H2 in Hy as [?|[Hz ?]]; [by left|right]. split; [|done]. intros z ?%Hz. set_solver.
Qed.

Lemma scan_visited fuel l x s s' :
  scan fuel x (containerPath l) (length l) s = Some (Ok s') ->
  visitedFrom x s s' /\ forall y, kid x y -> y ∈ sc_visitedNodes s'.
Proof.
  induction fuel as [|fuel IH] in l, x, s, s' |- *; [done|]. rewrite scan_step.
  assert (Hloop : forall nodes k s, (forall y, inr y ∈ nodes -> kid x y) ->
    scanLoop fuel (containerPath l) (length l) k nodes s = Some (Ok s') ->
    visitedFrom x s s' /\ forall y, inr y ∈ nodes -> y ∈ sc_visitedNodes s').
  { intros nodes. induction nodes as [|item nodes IHn]; intros k s0 Hkids.
    { intros [= <-]. split; [split; [done|by left]|]. intros y Hy. by apply not_elem_of_nil in Hy. }
    assert (Hrest : forall y, inr y ∈ nodes -> kid x y) by (intros y Hy; apply Hkids; by right).
    destruct item as [v|n].
    { intros [H1 H2]%IHn; [|done]. split; [done|]. intros y [?|Hy]%elem_of_cons; [done|auto]. }
    rewrite scanLoop_cons. destruct (decide _) as [Hin|Hfresh].
    { intros [H1 H2]%IHn; [|done]. split; [done|]. intros y [[= ->]|Hy]%elem_of_cons; [|auto].
      by apply (proj1 H1). }
    destruct (scanNode l k _ n s0) as [s1|] eqn:E1; [|done]. apply scanNode_visited in E1.
    destruct (scan fuel n _ _ s1) as [[s2|]|] eqn:E2; [|done|done].
    apply IH in E2 as [[Hsub Hold] Hn]. intros [H1 H2]%IHn; [|done].
    assert (Hxn : kid x n) by (apply Hkids; left).
    assert (H02 : visitedFrom x s0 s2).
    { split; [set_solver|]. intros y Hy. destruct (Hold y Hy) as [Hy1|[Hz Ht]].
      - rewrite E1 in Hy1. apply elem_of_union in Hy1 as [->%elem_of_singleton|?]; [right|by left].
        split; [exact Hn|by apply tc_once].
      - right. split; [done|]. by eapply tc_l. }
    split; [by eapply visitedFrom_trans|]. intros y [[= ->]|Hy]%elem_of_cons; [|auto].
    apply (proj1 H1), Hsub. rewrite E1. set_solver. }
  intros H. by apply (Hloop _ 0%N) in H.
Qed.

(** Fuel above the number of nodes that can still be visited is enough. *)
Lemma scan_returns (R : gset Node) fuel l x s :
  (forall y z, y ∈ R -> kid y z -> z ∈ R) -> (forall y, kid x y -> y ∈ R) ->
  size (R ∖ sc_visitedNodes s) < fuel ->
  exists r, scan fuel x (containerPath l) (length l) s = Some r.
Proof.
  intros Hclosed. induction fuel as [|fuel IH] in l, x, s |- *; intros Hx Hf; [lia|]. rewrite scan_step.
  assert (Hloop : forall nodes k s, (forall y, inr y ∈ nodes -> y ∈ R) -> size (R ∖ sc_visitedNodes s) <= fuel ->
    exists r, scanLoop fuel (containerPath l) (length l) k nodes s = Some r).
  { intros nodes. induction nodes as [|item nodes IHn]; intros k s0 Hkids Hs0; [eexists; done|].
    assert (Hrest : forall y, inr y ∈ nodes -> y ∈ R) by (intros y Hy; apply Hkids; by right).
    destruct item as [v|n]; [by apply IHn|].
    rewrite scanLoop_cons. destruct (decide _) as [|Hfresh]; [by apply IHn|].
    destruct (scanNode l k _ n s0) as [s1|] eqn:E1; [|eauto]. apply scanNode_visited in E1.
    assert (Hn : n ∈ R) by (apply Hkids; left).
    assert (Hlt : size (R ∖ sc_visitedNodes s1) < size (R ∖ sc_visitedNodes s0)).
    { apply subset_size. rewrite E1. set_solver. }
    destruct (IH (l ++ [k]) n s1) as [r Hr]; [by intros; eapply Hclosed|lia|]. rewrite Hr.
    destruct r as [s2|e]; [|eauto]. apply scan_visited in Hr as [[Hsub _] _]. apply IHn; [done|].
    assert (size (R ∖ sc_visitedNodes s2) <= size (R ∖ sc_visitedNodes s1)) by (apply subseteq_size; set_solver).
    lia. }
  apply Hloop; [done|lia].
Qed.

(** *** The rows *)

Definition unrecognizedPath (r : unrecognizedRow) : string :=
  match r with UnrecognizedComment path _ _ | UnrecognizedTemplate path _ _ => path end.

(** Rows of both kinds are about distinct nodes, which their paths lead to. *)
Record rowsOk (root : Node) s (rn un : list Node) : Prop := {
  ro_rows : Forall2 (fun r n => exists l k, nodeAt root (l ++ [k]) = Some n /\ rowTrue l k n r)
              (sc_markerRows s) rn;
  ro_unrecognized : Forall2 (fun r n => exists l k, nodeAt root (l ++ [k]) = Some n /\ unrecognizedTrue l k n r)
              (sc_unrecognizedMarkerRows s) un;
  ro_distinct : NoDup (rn ++ un);
  ro_visited n : n ∈ rn ++ un -> n ∈ sc_visitedNodes s }.

Lemma scanNode_rows root l k x n s s' :
  nodeAt root l = Some x -> childAt (kids x) k = Some (inr n) -> n ∉ sc_visitedNodes s ->
  (exists rn un, rowsOk root s rn un) ->
  scanNode l k (childAt (kids x) (k + 1) ≫= asNode) n s = Ok s' -> exists rn un, rowsOk root s' rn un.
Proof.
  intros Hx Hk Hfresh (rn & un & [Hr Hu Hd Hv]) H.
  assert (Hn : nodeAt root (l ++ [k]) = Some n) by (rewrite nodeAt_snoc, Hx; simpl; by rewrite Hk).
  assert (Hnew : n ∉ rn ++ un) by (intros Hin; by apply Hfresh, Hv).
  apply scanNode_cases in H as [->|[(u & -> & Ht)|(r & w & Ht & Hw & ->)]].
  - exists rn, un. split; try done. intros y Hy. simpl. apply Hv in Hy. set_solver.
  - exists rn, (un ++ [n]). split; simpl; try done.
    + apply Forall2_app; [done|]. constructor; [by eexists _, _|done].
    + rewrite app_assoc. apply NoDup_app. split; [done|]. split; [|apply NoDup_singleton].
      intros y Hy ->%list_elem_of_singleton. done.
    + intros y. rewrite app_assoc, elem_of_app, list_elem_of_singleton. intros [Hy| ->]; [apply Hv in Hy|]; set_solver.
  - assert (Hw' : sc_markerRows w = sc_markerRows s /\ sc_unrecognizedMarkerRows w = sc_unrecognizedMarkerRows s
      /\ sc_visitedNodes w = {[n]} ∪ sc_visitedNodes s) by (destruct Hw as [->|[p ->]]; done).
    destruct Hw' as (Hw1 & Hw2 & Hw3). exists (rn ++ [n]), un.
    assert (Hgoal : rowsOk root (pushMarkerRow r 0 0 w) (rn ++ [n]) un).
    { split; simpl; rewrite ?Hw1, ?Hw2, ?Hw3; try done.
      + apply Forall2_app; [done|]. constructor; [by eexists _, _|done].
      + rewrite <- app_assoc. simpl. rewrite <- Permutation_middle. by constructor.
      + intros y. rewrite <- app_assoc. simpl. rewrite elem_of_app, elem_of_cons.
        intros [Hy|[->|Hy]]; [|set_solver|]; assert (y ∈ rn ++ un) by (apply elem_of_app; auto); set_solver. }
    destruct (isCommentRow r); destruct Hgoal; split; done.
Qed.

(** A list of indices that leads to a node resolves to it. *)
Lemma resolve_path l0 x k l y :
  nodeAt x (k :: l) = Some y ->
  exists parent parentPath last,
    resolveSegments childNodeItems d x (containerPath l0) k l = (parent, parentPath, last, Some y)
    /\ childPath parentPath last = containerPath (l0 ++ k :: l) /\ List.last (k :: l) 0%N = last.
Proof.
  induction l as [|j l IH] in l0, x, k |- *; cbn [resolveSegments nodeAt];
    destruct (childAt (kids x) k ≫= asNode) as [z|]; try done.
  - intros [= ->]. eexists _, _, _. split; [done|]. split; [apply childPath_snoc|done].
  - cbn [mbind option_bind]. intros Hz. destruct (IH (l0 ++ [k]) z j Hz) as (parent & pp & last & Hr & Hp & Hl).
    exists parent, pp, last. rewrite childPath_snoc. split; [exact Hr|]. rewrite <- app_assoc in Hp.
    split; [exact Hp|exact Hl].
Qed.

Lemma resolve_container root l k n info :
  assertValidContainer d (inr root) = Ok (inr root) -> nodeAt root (l ++ [k]) = Some n ->
  createNodeInfo heap d n = Ok info ->
  exists r, resolveHydrationContainerNodePath heap childNodeItems d (inr root) (VStr (containerPath (l ++ [k])))
            = Ok (Some r)
    /\ rs_resolvedPath r = containerPath (l ++ [k]) /\ rs_status r = "resolved" /\ rs_node r = Some n
    /\ rs_nodeInfo r = Some info /\ rs_index r = k /\ rs_segmentCount r = S (length l).
Proof.
  intros Hc Hn Hinfo. unfold resolveHydrationContainerNodePath. rewrite Hc. cbn [bind].
  rewrite parse_containerPath by by destruct l.
  destruct (l ++ [k]) as [|k0 l1] eqn:E; [by destruct l|].
  destruct (resolve_path [] root k0 l1 n Hn) as (parent & pp & last & Hr & Hp & Hl).
  change "container" with (containerPath []). rewrite Hr, Hinfo. cbn [bind]. eexists. split; [done|].
  simpl in Hp |- *. rewrite Hp. split; [done|]. split; [unfold isStr; by rewrite bool_decide_eq_true_2|].
  split; [done|]. split; [done|]. split.
  - rewrite <- Hl, <- E. apply List.last_last.
  - rewrite <- (Nat.add_1_r (length l)). change 1 with (length [k]). by rewrite <- length_app, E.
Qed.

Lemma scan_rows fuel root s :
  scan fuel root "container" 0 initialScan = Some (Ok s) -> exists rn un, rowsOk root s rn un.
Proof.
  apply (scan_invariant root (fun s => exists rn un, rowsOk root s rn un)) with (l := []); [|done|].
  - intros l k x n s0 s' Hx Hk Hf Hs. by apply (scanNode_rows root l k x n s0 s').
  - exists [], []. split; simpl; [constructor|constructor|constructor|]. intros y Hy. by apply not_elem_of_nil in Hy.
Qed.

Lemma scan_counts fuel root s :
  scan fuel root "container" 0 initialScan = Some (Ok s) -> countsOk s.
Proof.
  apply (scan_invariant root countsOk) with (l := []); [|done|apply initialScan_counts].
  intros l k x n s0 s' _ _ Hf Hs. by apply scanNode_counts.
Qed.
End Scan.

(** *** The diagnostics *)

Section Diagnostics.
Context {Node D : Type} `{!EqDecision Node} `{!Countable Node} `{!Host Node D} (heap : ref -> jsobject).
Context (childNodeItems : D -> Node -> option (list (domArg Node))).
Context (attributesOf : D -> Node -> option attributesObject) (ownProperty : D -> Node -> string -> option value).
Implicit Types (d : D) (root : Node).

Abbreviation inspect := (inspectHydrationContainerMarkers heap childNodeItems attributesOf ownProperty).
Abbreviation resolve := (resolveHydrationContainerNodePath heap childNodeItems).

Lemma inspect_Ok fuel d root markerContracts dg :
  inspect fuel d (inr root) markerContracts = Some (Ok dg) ->
  exists contracts s info, assertValidContainer d (inr root) = Ok (inr root)
    /\ normalizeAcceptedMarkerContracts heap markerContracts = Ok contracts
    /\ scanChildNodes heap childNodeItems attributesOf ownProperty fuel d contracts root "container" 0 initialScan
       = Some (Ok s)
    /\ dg = mkDiagnostics info (length contracts) (sc_nodeCount s) (sc_acceptedMarkerCount s)
             (sc_commentMarkerCount s) (sc_templateMarkerCount s) (length (sc_unrecognizedMarkerRows s))
             (sc_markerRows s) (sc_unrecognizedMarkerRows s) (createSummaryByContract contracts s).
Proof.
  unfold inspectHydrationContainerMarkers. destruct (assertValidContainer d (inr root)) as [c|] eqn:Ec; [|done].
  pose proof (assertValidContainer_node _ _ _ Ec) as ->. cbn [bind].
  destruct (normalizeAcceptedMarkerContracts heap markerContracts) as [contracts|]; [|done]. cbn [bind].
  destruct (scanChildNodes _ _ _ _ _ _ _ _ _ _ _) as [[s|]|] eqn:Es; try done. intros [= H].
  apply bind_Ok in H as (info & _ & H). exists contracts, s, info. by injection H as <-.
Qed.

(** Every path that the diagnostics report leads back to its node. For each marker row,
    [resolveHydrationContainerNodePath] on the row's path gives a record with status
    [resolved] whose node has the row's node information, index and depth, and whose
    comment data or template the row's contract was found for; the same holds for the
    unrecognized rows; and no two rows of either kind have the same path. *)
Theorem marker_paths_resolve fuel d root markerContracts dg :
  inspect fuel d (inr root) markerContracts = Some (Ok dg) ->
  (forall r, r ∈ dg_markers dg -> exists x o, resolve d (inr root) (VStr (row_path r)) = Ok (Some o)
     /\ rs_status o = "resolved" /\ rs_node o = Some x /\ rs_nodeInfo o = Some (row_nodeInfo r)
     /\ rs_index o = row_index r /\ rs_segmentCount o = S (row_depth r)
     /\ exists contracts c, normalizeAcceptedMarkerContracts heap markerContracts = Ok contracts
          /\ row_contractId r = mc_id c
          /\ match row_kind r with
             | CommentRow data _ => readCommentData d x = Ok data /\ findCommentContract contracts data = Some c
             | TemplateRow _ t => createTemplateInfo heap attributesOf ownProperty d x = Ok t
                                  /\ classifyTemplateContract contracts t = Some c
             end)
  /\ (forall r, r ∈ dg_unrecognizedMarkers dg -> exists o,
       resolve d (inr root) (VStr (unrecognizedPath r)) = Ok (Some o) /\ rs_status o = "resolved")
  /\ NoDup (map row_path (dg_markers dg) ++ map unrecognizedPath (dg_unrecognizedMarkers dg)).
Proof.
  intros (contracts & s & info & Hc & Hn & Hs & ->)%inspect_Ok.
  destruct (scan_rows _ _ _ _ _ _ _ _ _ Hs) as (rn & un & [Hr Hu Hd _]). cbn [dg_markers dg_unrecognizedMarkers].
  split; [|split].
  - intros r Hin. apply list_elem_of_lookup_1 in Hin as [i Hi].
    destruct (Forall2_lookup_l _ _ _ _ _ Hr Hi) as (x & _ & l & k & Hx & Hp & Hdep & Hk & Hinfo & c & _ & Hid & Hkind).
    destruct (resolve_container heap childNodeItems d root l k x _ Hc Hx Hinfo) as (o & Ho & _ & H1 & H2 & H3 & H4 & H5).
    exists x, o. rewrite Hp, Hdep, Hk. split_and!; try done. by exists contracts, c.
  - intros r Hin. apply list_elem_of_lookup_1 in Hin as [i Hi].
    destruct (Forall2_lookup_l _ _ _ _ _ Hu Hi) as (x & _ & l & k & Hx & Ht).
    assert (Hri : exists inf, unrecognizedPath r = containerPath (l ++ [k]) /\ createNodeInfo heap d x = Ok inf).
    { destruct r; simpl in Ht |- *; destruct Ht as (-> & Hinf & _); by eexists. }
    destruct Hri as (inf & -> & Hinf).
    destruct (resolve_container heap childNodeItems d root l k x inf Hc Hx Hinf) as (o & Ho & _ & H1 & _). by exists o.
  - assert (Hpaths : Forall2 (fun p n => exists l k, nodeAt childNodeItems d root (l ++ [k]) = Some n
                                                     /\ p = containerPath (l ++ [k]))
      (map row_path (sc_markerRows s) ++ map unrecognizedPath (sc_unrecognizedMarkerRows s)) (rn ++ un)).
    { apply Forall2_app; apply Forall2_fmap_l; (eapply Forall2_impl; [eassumption|]).
      - intros r n (l & k & Hx & Hp & _). by exists l, k.
      - intros r n (l & k & Hx & Hp). exists l, k. split; [done|]. by destruct r, Hp. }
    clear -Hpaths Hd. revert Hd. induction Hpaths as [|p n ps ns (l & k & Hx & ->) Hrest IH]; [by constructor|].
    intros [Hn Hd]%NoDup_cons. constructor; [|by apply IH]. intros Hin. apply Hn.
    apply list_elem_of_lookup_1 in Hin as [i Hi].
    destruct (Forall2_lookup_l _ _ _ _ _ Hrest Hi) as (m & Hm & l' & k' & Hx' & Heq).
    assert (E : Some (l ++ [k]) = Some (l' ++ [k'])).
    { rewrite <- !parse_containerPath by (by destruct l, l'); by rewrite Heq. }
    injection E as E. rewrite E, Hx' in Hx. injection Hx as ->. by eapply list_elem_of_lookup_2.
Qed.

(** C27: The scan ends, visits every node once and counts truly. For a tree or graph of
    nodes with finitely many below the container, fuel above their number is enough,
    cycles and shared children included; the node count is that number; the accepted count
    is that of the rows and the sum of the comment and template counts, which are those of
    the rows of each kind; each contract's count in the summary is the number of its rows,
    and when the contracts' ids are distinct the summary adds up to the accepted count. *)
Theorem hydration_scan_counts fuel d root markerContracts (below : gset Node) :
  (forall y, y ∈ below <-> tc (kid childNodeItems d) root y) -> size below < fuel ->
  exists o, inspect fuel d (inr root) markerContracts = Some o /\
  match o with
  | Throw _ => True
  | Ok dg => dg_nodeCount dg = size below
      /\ dg_acceptedMarkerCount dg = length (dg_markers dg)
      /\ dg_commentMarkerCount dg = length (List.filter isCommentRow (dg_markers dg))
      /\ dg_templateMarkerCount dg = length (List.filter (fun r => negb (isCommentRow r)) (dg_markers dg))
      /\ dg_acceptedMarkerCount dg = dg_commentMarkerCount dg + dg_templateMarkerCount dg
      /\ dg_unrecognizedMarkerCount dg = length (dg_unrecognizedMarkers dg)
      /\ (forall id count, (id, count) ∈ dg_summaryByContract dg ->
           count = length (List.filter (fun r => sameValueZero (row_contractId r) id) (dg_markers dg)))
      /\ (NoDup (map (canonical ∘ fst) (dg_summaryByContract dg)) ->
           sum_list_with snd (dg_summaryByContract dg) = dg_acceptedMarkerCount dg)
  end.
Proof.
  intros Hbelow Hf.
  assert (Hret : forall contracts, exists r, scanChildNodes heap childNodeItems attributesOf ownProperty fuel d
    contracts root "container" 0 initialScan = Some r).
  { intros contracts. apply (scan_returns heap childNodeItems attributesOf ownProperty d contracts below fuel [] root).
    - intros y z Hy Hz. apply Hbelow in Hy. apply Hbelow. by eapply tc_r.
    - intros y Hy. apply Hbelow. by apply tc_once.
    - simpl. by rewrite difference_empty_L. }
  destruct (inspect fuel d (inr root) markerContracts) as [[dg|e]|] eqn:E.
  2: { exists (Throw e). by split. }
  - exists (Ok dg). split; [done|]. apply inspect_Ok in E as (contracts & s & info & _ & _ & Hs & ->).
    pose proof (scan_counts _ _ _ _ _ _ _ _ _ Hs) as [H1 H2 H3 H4 H5].
    pose proof (scan_rows _ _ _ _ _ _ _ _ _ Hs) as (rn & un & [Hr _ _ _]).
    pose proof (scan_visited _ _ _ _ _ _ fuel [] _ _ _ Hs) as [[_ Hvis] Hkids]. simpl.
    assert (Hset : sc_visitedNodes s = below).
    { apply set_eq. intros y. rewrite Hbelow. split.
      - intros [Hy|[_ Hy]]%Hvis; [by apply not_elem_of_empty in Hy|done].
      - assert (Hstep : forall y z, y ∈ sc_visitedNodes s -> kid childNodeItems d y z -> z ∈ sc_visitedNodes s).
        { intros y' z [Hy'|[Hy' _]]%Hvis; [by apply not_elem_of_empty in Hy'|auto]. }
        clear -Hstep Hkids. intros Hy. induction Hy as [x y Hy|x y z Hy _ IH]; [by apply Hkids|]. apply IH.
        intros w. by apply Hstep, Hkids. }
    rewrite Hset in H1. split_and!; try done.
    + rewrite H2, H3, H4. clear. induction (sc_markerRows s) as [|r l IH]; simpl; [done|].
      destruct (isCommentRow r); simpl; lia.
    + intros id count Hin. unfold createSummaryByContract in Hin. apply list_elem_of_fmap in Hin as (c & [= -> ->] & _).
      apply H5.
    + intros Hnd. rewrite H2. unfold createSummaryByContract in *. rewrite List.map_map in Hnd.
      rewrite <- (count_by_key row_contractId (map mc_id contracts) (sc_markerRows s)).
      * clear -H5. induction contracts as [|c l IH]; simpl; [done|]. by rewrite IH, H5.
      * by rewrite List.map_map.
      * intros r Hin. apply list_elem_of_lookup_1 in Hin as [i Hi].
        destruct (Forall2_lookup_l _ _ _ _ _ Hr Hi) as (x & _ & l & k & _ & _ & _ & _ & _ & c & Hc & Hid & _).
        exists (mc_id c). split; [by apply list_elem_of_fmap_2|]. rewrite Hid. apply sameValueZero_refl.
  - exfalso. unfold inspectHydrationContainerMarkers in E.
    destruct (assertValidContainer d (inr root)) as [c|] eqn:Ec; [|done]. cbn [bind] in E.
    pose proof (assertValidContainer_node _ _ _ Ec) as ->.
    destruct (normalizeAcceptedMarkerContracts heap markerContracts) as [contracts|]; [|done]. cbn [bind] in E.
    destruct (Hret contracts) as [[s|e] Hr]; by rewrite Hr in E.
Qed.
End Diagnostics.
