(* ===== verification/RefCallbacks.v ===== *)
(** * Callback refs (client/ref-callback-gate.js)

    Records of refs to detach and attach, their validation against the component tree, and
    the invocation of callback refs: a function that an attached callback returns is its
    cleanup, kept under a handle until a detach of the same ref runs it. The module's
    WeakMaps, its Map and its counter are [refState]; records and handles are numbers. The
    host DOM and the component tree belong to the rest of the world, which callbacks may
    change, this module's state included. Options are read without accessors. Constant
    fields of the gate records are left out. *)
From S2P Require Import Prelude JsValue DomHost DomTree ComponentTree TreeTargets HydrationMarkers.

(** ** Names *)

Inductive refAction : Type := Attach | Detach.
Inductive detachReason : Type := Deleted | RefChanged.
Inductive refKind : Type := CallbackRef | ObjectRef.
Inductive invocationKind : Type :=
| CallbackAttach | CallbackNullDetach | CleanupReturn | SkippedObjectRef.
Inductive refInvocationStatus : Type := InvocationOk | InvocationThrew | InvocationSkipped.
Inductive returnStatus : Type := ReturnCleanup | ReturnValue | ReturnVoid | ReturnNotApplicable.
Inductive cleanupSource : Type := SourceDirectFunction | SourceHandle | SourceNone.
#[export] Instance refAction_eq_dec : EqDecision refAction.
Proof. solve_decision. Defined.

Definition refGateError {A : Type} (code : string) : res A :=
  hostError ("FAST_REACT_DOM_REF_CALLBACK_GATE_" +:+ code).

Definition tokenPhaseForAction (action : refAction) : string :=
  match action with Attach => "commit" | Detach => "deletion" end.
Definition REF_TOKEN_TARGET_INSTANCE := "instance".

(** A token argument: a token or another value. *)
Definition tokenArg : Type := (value + N)%type.
Definition knownToken (token : tokenArg) : option N := match token with inr k => Some k | inl _ => None end.
Definition sameToken (a b : tokenArg) : bool :=
  match a, b with
  | inr j, inr k => bool_decide (j = k)
  | inl v, inl w => strictEq v w
  | _, _ => false
  end.

(** ** State *)

Record metadataPayload : Type := mkMetadata {
  mp_action : refAction;
  mp_detachReason : option detachReason;
  mp_rootOwner : value;
  mp_hostOwner : value;
  mp_hostInstanceToken : tokenArg;
  mp_fiber : value;
  mp_stateNode : value;
  mp_refHandle : value;
  mp_ref : value;
  mp_refCleanup : option ref;
  mp_refCleanupHandle : option N;
  mp_refCleanupSource : cleanupSource;
  mp_expectedLatestRef : value;
  mp_sourceToken : value;
  mp_tokenPhase : value;
  mp_tokenTarget : value }.

Record handlePayload : Type := mkHandlePayload {
  rh_cleanupReturn : ref;
  rh_fiber : value;
  rh_hostInstanceToken : tokenArg;
  rh_hostOwner : value;
  rh_ref : value;
  rh_refHandle : value;
  rh_rootOwner : value;
  rh_sourceToken : value;
  rh_stateNode : value }.

Record refState : Type := mkRefState {
  nextMetadataRecord : N;
  metadataRecordPayloads : gmap N metadataPayload;
  rootCommitMetadataSnapshotPayloads : gmap N (list metadataPayload * list metadataPayload);
  nextCleanupReturnHandleSequence : N;
  cleanupReturnHandlePayloads : gmap N handlePayload;
  cleanupReturnHandlesByRefHandle : list (value * N);
  consumedCleanupReturnHandles : list N }.

Definition noRefs : refState := mkRefState 1 ∅ ∅ 1 ∅ [] [].

(** [Map.prototype.get], [set] and [delete]. *)
Definition mapGet (m : list (value * N)) (k : value) : option N :=
  snd <$> List.find (fun p => sameValueZero (fst p) k) m.
Definition mapDelete (m : list (value * N)) (k : value) : list (value * N) :=
  List.filter (fun p => negb (sameValueZero (fst p) k)) m.
Definition mapSet (m : list (value * N)) (k : value) (h : N) : list (value * N) := (k, h) :: mapDelete m k.

Definition setHandles (payloads : gmap N handlePayload) (byRef : list (value * N)) (consumed : list N)
    (next : N) (s : refState) : refState :=
  mkRefState (nextMetadataRecord s) (metadataRecordPayloads s) (rootCommitMetadataSnapshotPayloads s)
    next payloads byRef consumed.

(** ** Cleanup handles *)

Definition markRefCleanupReturnHandleConsumed (handle : option N) (s : refState) : refState :=
  match handle with
  | None => s
  | Some h =>
      let byRef :=
        match cleanupReturnHandlePayloads s !! h with
        | Some p =>
            if bool_decide (mapGet (cleanupReturnHandlesByRefHandle s) (rh_refHandle p) = Some h)
            then mapDelete (cleanupReturnHandlesByRefHandle s) (rh_refHandle p)
            else cleanupReturnHandlesByRefHandle s
        | None => cleanupReturnHandlesByRefHandle s
        end in
      setHandles (cleanupReturnHandlePayloads s) byRef (h :: consumedCleanupReturnHandles s)
        (nextCleanupReturnHandleSequence s) s
  end.

Definition recordRefCleanupReturnHandle (metadata : metadataPayload) (cleanupReturn : ref) (s : refState)
    : N * refState :=
  let handle := nextCleanupReturnHandleSequence s in
  let payload :=
    mkHandlePayload cleanupReturn (mp_fiber metadata) (mp_hostInstanceToken metadata) (mp_hostOwner metadata)
      (mp_ref metadata) (mp_refHandle metadata) (mp_rootOwner metadata) (mp_sourceToken metadata)
      (mp_stateNode metadata) in
  let s := setHandles (<[handle := payload]> (cleanupReturnHandlePayloads s)) (cleanupReturnHandlesByRefHandle s)
             (consumedCleanupReturnHandles s) (handle + 1) s in
  let s := markRefCleanupReturnHandleConsumed (mapGet (cleanupReturnHandlesByRefHandle s) (mp_refHandle metadata)) s in
  (handle,
   setHandles (cleanupReturnHandlePayloads s) (mapSet (cleanupReturnHandlesByRefHandle s) (mp_refHandle metadata) handle)
     (consumedCleanupReturnHandles s) (nextCleanupReturnHandleSequence s) s).

(** The identity of a ref: what a handle is compared by. *)
Record refIdentity : Type := mkIdentity {
  id_rootOwner : value;
  id_hostOwner : value;
  id_hostInstanceToken : tokenArg;
  id_refHandle : value;
  id_ref : value }.
Definition identityOf (p : metadataPayload) : refIdentity :=
  mkIdentity (mp_rootOwner p) (mp_hostOwner p) (mp_hostInstanceToken p) (mp_refHandle p) (mp_ref p).

Definition handleMatches (p : handlePayload) (i : refIdentity) : bool :=
  strictEq (rh_rootOwner p) (id_rootOwner i) && strictEq (rh_hostOwner p) (id_hostOwner i)
  && sameToken (rh_hostInstanceToken p) (id_hostInstanceToken i)
  && strictEq (rh_refHandle p) (id_refHandle i) && strictEq (rh_ref p) (id_ref i).

(** A handle argument that is no handle is [None]. *)
Definition assertRefCleanupHandleForMetadata (s : refState) (handle : option N) (i : refIdentity) : res handlePayload :=
  match handle with
  | None => refGateError "INVALID_REF_CLEANUP_HANDLE"
  | Some h =>
      match cleanupReturnHandlePayloads s !! h with
      | None => refGateError "INVALID_REF_CLEANUP_HANDLE"
      | Some p =>
          if bool_decide (h ∈ consumedCleanupReturnHandles s) then refGateError "CONSUMED_REF_CLEANUP_HANDLE"
          else if handleMatches p i then Ok p
          else refGateError "REF_CLEANUP_HANDLE_MISMATCH"
      end
  end.

(** ** Metadata records *)

(** The options of a record; a property that is absent reads as undefined. *)
Record refOptions : Type := mkRefOptions {
  ro_detachReason : value;
  ro_rootOwner : value;
  ro_hostOwner : value;
  ro_hostInstanceToken : tokenArg;
  ro_fiber : value;
  ro_stateNode : value;
  ro_refHandle : value;
  ro_ref : value;
  ro_refCleanup : value;
  ro_refCleanupHandle : tokenArg;
  ro_expectedLatestRef : option value;
  ro_sourceToken : value;
  ro_tokenPhase : value;
  ro_tokenTarget : value }.

Definition assertRequiredOption (v : value) : res value :=
  if nullish v then refGateError "MISSING_METADATA_FIELD" else Ok v.
Definition assertRequiredToken (token : tokenArg) : res tokenArg :=
  match token with
  | inl v => let* v := assertRequiredOption v in Ok (inl v)
  | inr k => Ok (inr k)
  end.

Definition normalizeDetachReason (v : value) : res detachReason :=
  if isStr v "deleted" then Ok Deleted
  else if isStr v "ref-changed" then Ok RefChanged
  else refGateError "INVALID_DETACH_REASON".

Definition normalizeRefValue (v : value) : res value :=
  match v with VObj _ | VFun _ => Ok v | _ => refGateError "INVALID_REF" end.

(** The cleanup function or the handle of the options. *)
Definition isPrivateRefCallbackCleanupReturnHandle (s : refState) (handle : tokenArg) : bool :=
  match handle with
  | inr h => match cleanupReturnHandlePayloads s !! h with Some _ => true | None => false end
  | inl _ => false
  end.

Definition normalizeRefCleanupInput (s : refState) (o : refOptions) : res (option ref * option N) :=
  let hasDirectCleanup := negb (nullish (ro_refCleanup o)) in
  let hasCleanupHandle := match ro_refCleanupHandle o with inl v => negb (nullish v) | inr _ => true end in
  if hasDirectCleanup && hasCleanupHandle then refGateError "REF_CLEANUP_CONFLICT"
  else if hasDirectCleanup then
    match ro_refCleanup o with
    | VFun f => Ok (Some f, None)
    | _ => refGateError "INVALID_REF_CLEANUP"
    end
  else if hasCleanupHandle then
    if isPrivateRefCallbackCleanupReturnHandle s (ro_refCleanupHandle o)
    then Ok (None, knownToken (ro_refCleanupHandle o))
    else refGateError "INVALID_REF_CLEANUP_HANDLE"
  else Ok (None, None).

Definition resolveRefCleanupInputForDetachMetadata (s : refState) (input : option ref * option N) (i : refIdentity)
    : res (option ref * option N * cleanupSource) :=
  match input with
  | (Some f, _) => Ok (Some f, None, SourceDirectFunction)
  | (None, Some h) =>
      let* p := assertRefCleanupHandleForMetadata s (Some h) i in
      Ok (Some (rh_cleanupReturn p), Some h, SourceHandle)
  | (None, None) => Ok (None, None, SourceNone)
  end.

Definition noCleanup (input : option ref * option N) : bool :=
  match input with (None, None) => true | _ => false end.
Definition isFunctionValue (v : value) : bool := match v with VFun _ => true | _ => false end.

Definition defaultTo (v d : value) : value := match v with VUndef => d | _ => v end.

(** [createRefCallbackMetadataRecord], with the action and the detach reason of its callers. *)
Definition createRefCallbackMetadata (s : refState) (action : refAction) (o : refOptions) : res metadataPayload :=
  let* reason := match action with
                 | Detach => let* r := normalizeDetachReason (ro_detachReason o) in Ok (Some r)
                 | Attach => Ok None
                 end in
  let* rootOwner := assertRequiredOption (ro_rootOwner o) in
  let* hostOwner := assertRequiredOption (ro_hostOwner o) in
  let* token := assertRequiredToken (ro_hostInstanceToken o) in
  let* fiber := assertRequiredOption (ro_fiber o) in
  let* stateNode := assertRequiredOption (ro_stateNode o) in
  let* refHandle := assertRequiredOption (ro_refHandle o) in
  let* r := normalizeRefValue (ro_ref o) in
  let* input := normalizeRefCleanupInput s o in
  if bool_decide (action = Attach) && negb (noCleanup input) then refGateError "ATTACH_REF_CLEANUP"
  else if negb (noCleanup input) && negb (isFunctionValue r) then refGateError "OBJECT_REF_CLEANUP"
  else
    let* cleanup := match action with
                    | Detach => resolveRefCleanupInputForDetachMetadata s input
                                  (mkIdentity rootOwner hostOwner token refHandle r)
                    | Attach => Ok (None, None, SourceNone)
                    end in
    let* sourceToken := assertRequiredOption (ro_sourceToken o) in
    Ok (mkMetadata action reason rootOwner hostOwner token fiber stateNode refHandle r
          (fst (fst cleanup)) (snd (fst cleanup)) (snd cleanup) (default r (ro_expectedLatestRef o)) sourceToken
          (defaultTo (ro_tokenPhase o) (VStr (tokenPhaseForAction action)))
          (defaultTo (ro_tokenTarget o) (VStr REF_TOKEN_TARGET_INSTANCE))).

Definition createRefCallbackMetadataRecord (action : refAction) (o : option refOptions) (s : refState)
    : effect refState N :=
  match o with
  | None => (refGateError "INVALID_OPTIONS", s)
  | Some o =>
      do* p, s := pureStep (createRefCallbackMetadata s action o) s in
      let id := nextMetadataRecord s in
      (Ok id, mkRefState (id + 1) (<[id := p]> (metadataRecordPayloads s)) (rootCommitMetadataSnapshotPayloads s)
                (nextCleanupReturnHandleSequence s) (cleanupReturnHandlePayloads s)
                (cleanupReturnHandlesByRefHandle s) (consumedCleanupReturnHandles s))
  end.
Definition createRefAttachMetadataRecord := createRefCallbackMetadataRecord Attach.
Definition createRefDetachMetadataRecord := createRefCallbackMetadataRecord Detach.

(** ** Snapshots *)

(** A list argument: absent or null ([None]), no array ([Some None]), or records, of which a
    value that is no record is [None]. *)
Definition metadataList : Type := option (option (list (option N))).

Inductive snapshotInput : Type :=
| NotObject
| PrivateSnapshot (id : N)
| SnapshotObject (detach attach : metadataList)
| WrappingObject (detach attach : metadataList) (rootCommitRefMetadata : snapshotInput).

Definition assertPrivateMetadataPayload (s : refState) (action : refAction) (record : option N) : res metadataPayload :=
  match record ≫= fun id => metadataRecordPayloads s !! id with
  | None => refGateError "INVALID_METADATA_RECORD"
  | Some p => if bool_decide (mp_action p = action) then Ok p else refGateError "ACTION_MISMATCH"
  end.

Definition normalizeMetadataRecordList (s : refState) (records : metadataList) (action : refAction)
    : res (list metadataPayload) :=
  match records with
  | None => Ok []
  | Some None => refGateError "INVALID_METADATA_LIST"
  | Some (Some l) => mapRes (assertPrivateMetadataPayload s action) l
  end.

(** The detach and the attach lists; a private snapshot has neither property. *)
Definition normalizeMetadataSnapshot (s : refState) (snapshot : snapshotInput)
    : res (list metadataPayload * list metadataPayload) :=
  match snapshot with
  | NotObject => refGateError "INVALID_SNAPSHOT"
  | PrivateSnapshot _ => Ok ([], [])
  | SnapshotObject detach attach | WrappingObject detach attach _ =>
      let* d := normalizeMetadataRecordList s detach Detach in
      let* a := normalizeMetadataRecordList s attach Attach in
      Ok (d, a)
  end.

Definition getPrivateRefCallbackRootCommitMetadataSnapshotPayload (s : refState) (snapshot : snapshotInput)
    : option (list metadataPayload * list metadataPayload) :=
  match snapshot with PrivateSnapshot id => rootCommitMetadataSnapshotPayloads s !! id | _ => None end.

Definition getRootCommitRefMetadataSnapshotPayloadFromInput (s : refState) (snapshot : snapshotInput)
    : option (list metadataPayload * list metadataPayload) :=
  match getPrivateRefCallbackRootCommitMetadataSnapshotPayload s snapshot with
  | Some p => Some p
  | None =>
      match snapshot with
      | WrappingObject _ _ inner => getPrivateRefCallbackRootCommitMetadataSnapshotPayload s inner
      | _ => None
      end
  end.

Definition unwrapRootCommitRefMetadataSnapshot (snapshot : snapshotInput) : res snapshotInput :=
  match snapshot with
  | NotObject => refGateError "INVALID_SNAPSHOT"
  | WrappingObject _ _ NotObject => refGateError "INVALID_SNAPSHOT"
  | WrappingObject _ _ inner => Ok inner
  | _ => Ok snapshot
  end.

Definition normalizeRootCommitRefMetadataSnapshot (s : refState) (snapshot : snapshotInput)
    : res (list metadataPayload * list metadataPayload) :=
  match getRootCommitRefMetadataSnapshotPayloadFromInput s snapshot with
  | Some p => Ok p
  | None =>
      let* inner := unwrapRootCommitRefMetadataSnapshot snapshot in
      normalizeMetadataSnapshot s inner
  end.

Definition createRefCallbackRootCommitMetadataSnapshot (snapshot : snapshotInput) (s : refState) : effect refState N :=
  do* p, s := pureStep (normalizeRootCommitRefMetadataSnapshot s snapshot) s in
  let id := nextMetadataRecord s in
  (Ok id, mkRefState (id + 1) (metadataRecordPayloads s) (<[id := p]> (rootCommitMetadataSnapshotPayloads s))
            (nextCleanupReturnHandleSequence s) (cleanupReturnHandlePayloads s)
            (cleanupReturnHandlesByRefHandle s) (consumedCleanupReturnHandles s)).

Section Gate.
Context {Node D U : Type} `{!EqDecision Node} `{!Countable Node} `{!Host Node D} (heap : ref -> jsobject).
(** The host and the component tree of the world. *)
Context (hostIn : U -> D) (treeIn : U -> treeState Node).

Record refWorld : Type := mkRefWorld { rw_user : U; rw_refs : refState }.

(** The calls [ref(node)], [ref(null)] and [cleanup()]. *)
Context (callRef : ref -> option fakeHostNode -> refWorld -> effect refWorld value).
Context (callCleanup : ref -> refWorld -> effect refWorld value).

(** ** Validation against the component tree *)

Definition assertTokenScope (p : metadataPayload) (action : refAction) : res unit :=
  if isStr (mp_tokenPhase p) (tokenPhaseForAction action) && isStr (mp_tokenTarget p) REF_TOKEN_TARGET_INSTANCE then
    match action, mp_detachReason p with
    | Detach, Some _ | Attach, None => Ok tt
    | _, _ => refGateError "DETACH_REASON_MISMATCH"
    end
  else refGateError "TOKEN_SCOPE_MISMATCH".

(** [a === b] for what may be null. *)
Definition isOwner (a : option value) (b : value) : bool :=
  match a with Some v => strictEq v b | None => false end.

Definition mountedRecordError (e : error) : error :=
  match e with
  | HostError c =>
      if bool_decide (c = UNMOUNTED_HOST_INSTANCE_TOKEN \/ c = INVALID_HOST_INSTANCE_TOKEN)
      then HostError "FAST_REACT_DOM_REF_CALLBACK_GATE_UNMOUNTED_HOST_INSTANCE" else e
  | _ => e
  end.

Definition validateMetadataPayloadAgainstComponentTree (u : U) (action : refAction) (p : metadataPayload)
    : res (metadataPayload * hostNodeRecord (Node := Node)) :=
  let* _ := assertTokenScope p action in
  match createMountedHostInstanceNodeRecord heap (hostIn u) (treeIn u) (knownToken (mp_hostInstanceToken p)) with
  | Throw e => Throw (mountedRecordError e)
  | Ok hn =>
      if negb (isOwner (hn_rootOwner hn) (mp_rootOwner p)) then refGateError "ROOT_OWNER_MISMATCH"
      else if negb (isOwner (hn_hostOwner hn) (mp_hostOwner p)) then refGateError "HOST_OWNER_MISMATCH"
      else
        match hn_latestProps hn with
        | Some (VObj _) =>
            match hn_latestRef hn with
            | None => refGateError "MISSING_LATEST_REF"
            | Some latestRef =>
                if strictEq latestRef (mp_expectedLatestRef p) then Ok (p, hn)
                else refGateError "LATEST_REF_MISMATCH"
            end
        | _ => refGateError "MISSING_LATEST_PROPS"
        end
  end.

Definition validateMetadataSnapshotAgainstComponentTree (u : U) (metadata : list metadataPayload * list metadataPayload)
    : res (list (metadataPayload * hostNodeRecord)) :=
  let* d := mapRes (validateMetadataPayloadAgainstComponentTree u Detach) (fst metadata) in
  let* a := mapRes (validateMetadataPayloadAgainstComponentTree u Attach) (snd metadata) in
  Ok (d ++ a).

(** Which changes nothing: the counts of its snapshot. *)
Definition createRefCallbackComponentTreeGateSnapshot (snapshot : snapshotInput) (w : refWorld) : res (nat * nat) :=
  let* metadata := normalizeMetadataSnapshot (rw_refs w) snapshot in
  let* _ := validateMetadataSnapshotAgainstComponentTree (rw_user w) metadata in
  Ok (length (fst metadata), length (snd metadata)).

(** ** Invocation *)

Record refInvocation : Type := mkRefInvocation {
  ri_kind : invocationKind;
  ri_status : refInvocationStatus;
  ri_attempted : bool;
  ri_callbackAttempted : bool;
  ri_cleanupAttempted : bool;
  ri_callbackReturnStatus : returnStatus;
  ri_cleanupReturnStatus : returnStatus;
  ri_cleanupReturnRecorded : bool;
  ri_cleanupReturnHandleRecorded : bool;
  ri_cleanupReturnHandleConsumed : bool;
  ri_returnValue : value;
  ri_cleanupReturn : option ref;
  ri_refCleanup : option ref;
  ri_refCleanupHandle : option N;
  ri_refCleanupSource : cleanupSource;
  ri_error : option error }.

Definition callbackReturnStatusForValue (v : value) : returnStatus :=
  match v with VFun _ => ReturnCleanup | VUndef => ReturnVoid | _ => ReturnValue end.

Definition skippedInvocation : refInvocation :=
  mkRefInvocation SkippedObjectRef InvocationSkipped false false false ReturnNotApplicable ReturnNotApplicable
    false false false VUndef None None None SourceNone None.

Definition runControlledCleanupReturn (refCleanup : ref) (handle : option N) (source : cleanupSource) (w : refWorld)
    : refInvocation * refWorld :=
  let '(r, w) := callCleanup refCleanup w in
  (match r with
   | Ok v =>
       mkRefInvocation CleanupReturn InvocationOk true false true ReturnNotApplicable (callbackReturnStatusForValue v)
         false false (isSome handle) v (Some refCleanup) (Some refCleanup) handle source None
   | Throw e =>
       mkRefInvocation CleanupReturn InvocationThrew true false true ReturnNotApplicable ReturnNotApplicable
         false false (isSome handle) VUndef (Some refCleanup) (Some refCleanup) handle source (Some e)
   end, mkRefWorld (rw_user w) (markRefCleanupReturnHandleConsumed handle (rw_refs w))).

Definition resolveStoredRefCleanupForDetachPayload (s : refState) (p : metadataPayload)
    : res (option (ref * option N * cleanupSource)) :=
  match mp_refCleanup p with
  | Some f => Ok (Some (f, mp_refCleanupHandle p, mp_refCleanupSource p))
  | None =>
      match mapGet (cleanupReturnHandlesByRefHandle s) (mp_refHandle p) with
      | None => Ok None
      | Some h =>
          let* hp := assertRefCleanupHandleForMetadata s (Some h) (identityOf p) in
          Ok (Some (rh_cleanupReturn hp, Some h, SourceHandle))
      end
  end.

(** The cleanup, its handle and its source; [None] without a cleanup. *)
Definition resolveRefCleanupForDetachPayload (s : refState) (p : metadataPayload)
    : res (option (ref * option N * cleanupSource)) :=
  match mp_refCleanup p with
  | Some f =>
      let* _ := match mp_refCleanupHandle p with
                | Some h => let* _ := assertRefCleanupHandleForMetadata s (Some h) (identityOf p) in Ok tt
                | None => Ok tt
                end in
      Ok (Some (f, mp_refCleanupHandle p, mp_refCleanupSource p))
  | None => resolveStoredRefCleanupForDetachPayload s p
  end.

(** [ref(node)] or [ref(null)]; a function that an attached callback returns is kept. *)
Definition invokeCallbackRef (f : ref) (p : metadataPayload) (fake : fakeHostNode) (w : refWorld)
    : refInvocation * refWorld :=
  let kind := match mp_action p with Attach => CallbackAttach | Detach => CallbackNullDetach end in
  let argument := match mp_action p with Attach => Some fake | Detach => None end in
  let '(r, w) := callRef f argument w in
  match r with
  | Throw e =>
      (mkRefInvocation kind InvocationThrew true true false ReturnNotApplicable ReturnNotApplicable
         false false false VUndef None None None SourceNone (Some e), w)
  | Ok v =>
      match mp_action p, v with
      | Attach, VFun c =>
          let '(h, s) := recordRefCleanupReturnHandle p c (rw_refs w) in
          (mkRefInvocation kind InvocationOk true true false (callbackReturnStatusForValue v) ReturnCleanup
             true true false v (Some c) None (Some h) SourceHandle None, mkRefWorld (rw_user w) s)
      | _, _ =>
          (mkRefInvocation kind InvocationOk true true false (callbackReturnStatusForValue v) ReturnNotApplicable
             false false false v None None None SourceNone None, w)
      end
  end.

(** [fake] is only used for a callback ref. *)
Definition runControlledInvocation (p : metadataPayload) (fake : fakeHostNode) (w : refWorld)
    : effect refWorld refInvocation :=
  match mp_ref p with
  | VFun f =>
      do* cleanup, w := pureStep (match mp_action p with
                                  | Detach => resolveRefCleanupForDetachPayload (rw_refs w) p
                                  | Attach => Ok None
                                  end) w in
      match cleanup with
      | Some (c, handle, source) => let '(i, w) := runControlledCleanupReturn c handle source w in (Ok i, w)
      | None => let '(i, w) := invokeCallbackRef f p fake w in (Ok i, w)
      end
  | _ => (Ok skippedInvocation, w)
  end.

Definition refKindForValue (v : value) : refKind := if isFunctionValue v then CallbackRef else ObjectRef.

Definition createControlledInvocationGateRecord (x : metadataPayload * hostNodeRecord (Node := Node)) (w : refWorld)
    : effect refWorld (metadataPayload * refInvocation) :=
  let '(p, hn) := x in
  do* i, w :=
    match refKindForValue (mp_ref p) with
    | CallbackRef =>
        do* fake, w := pureStep (createRefCallbackFakeHostNodeRecord (hostIn (rw_user w)) (Some hn)) w in
        runControlledInvocation p (fst fake) w
    | ObjectRef => (Ok skippedInvocation, w)
    end in
  (Ok (p, i), w).

(** [validatedRecords.map] *)
Fixpoint runInvocations (l : list (metadataPayload * hostNodeRecord (Node := Node))) (w : refWorld)
    : effect refWorld (list (metadataPayload * refInvocation)) :=
  match l with
  | [] => (Ok [], w)
  | x :: l =>
      do* i, w := createControlledInvocationGateRecord x w in
      do* rest, w := runInvocations l w in
      (Ok (i :: rest), w)
  end.

(** ** Metrics *)

Record invocationMetrics : Type := mkInvocationMetrics {
  callbackRefRecordCount : nat;
  objectRefRecordCount : nat;
  callbackInvocationAttemptCount : nat;
  callbackInvocationErrorCount : nat;
  callbackCleanupReturnCount : nat;
  callbackCleanupReturnHandleCount : nat;
  cleanupInvocationAttemptCount : nat;
  cleanupInvocationErrorCount : nat;
  cleanupReturnHandleConsumedCount : nat;
  callbackNullDetachAttemptCount : nat;
  objectRefSkippedCount : nat;
  fakeHostNodeRecordCount : nat }.

Definition threw (i : refInvocation) : bool := match ri_status i with InvocationThrew => true | _ => false end.
Definition countWhere (f : metadataPayload * refInvocation -> bool) (l : list (metadataPayload * refInvocation)) : nat :=
  length (List.filter f l).

(** A fake host node is made for the callback refs. *)
Definition summarizeControlledInvocationResults (l : list (metadataPayload * refInvocation)) : invocationMetrics :=
  let isCallback x := isFunctionValue (mp_ref (fst x)) in
  mkInvocationMetrics (countWhere isCallback l) (countWhere (fun x => negb (isCallback x)) l)
    (countWhere (fun x => ri_callbackAttempted (snd x)) l)
    (countWhere (fun x => ri_callbackAttempted (snd x) && threw (snd x)) l)
    (countWhere (fun x => ri_cleanupReturnRecorded (snd x)) l)
    (countWhere (fun x => ri_cleanupReturnHandleRecorded (snd x)) l)
    (countWhere (fun x => ri_cleanupAttempted (snd x)) l)
    (countWhere (fun x => ri_cleanupAttempted (snd x) && threw (snd x)) l)
    (countWhere (fun x => ri_cleanupReturnHandleConsumed (snd x)) l)
    (countWhere (fun x => match ri_kind (snd x) with CallbackNullDetach => true | _ => false end) l)
    (countWhere (fun x => match ri_kind (snd x) with SkippedObjectRef => true | _ => false end) l)
    (countWhere isCallback l).

Definition createRefCallbackControlledInvocationGateSnapshot (snapshot : snapshotInput) (w : refWorld)
    : effect refWorld (list (metadataPayload * refInvocation) * invocationMetrics) :=
  do* metadata, w := pureStep (normalizeRootCommitRefMetadataSnapshot (rw_refs w) snapshot) w in
  do* validatedRecords, w := pureStep (validateMetadataSnapshotAgainstComponentTree (rw_user w) metadata) w in
  do* results, w := runInvocations validatedRecords w in
  (Ok (results, summarizeControlledInvocationResults results), w).
End Gate.
Arguments refWorld U : clear implicits.
