(* ===== verification/RefCallbacksSpec.v ===== *)
(** * Correctness of callback refs: a cleanup that has ended is not run again, and runs for the ref that returned it *)
From S2P Require Import Prelude JsValue DomHost DomTree ComponentTree TreeTargets HydrationMarkers RefCallbacks.

(** ** Maps by SameValueZero *)

(** Values are the same key when they have the same canonical form. *)
Definition canon (v : value) : value :=
  match v with VNum n => VNum (normal n) | VSym i _ => VSym i "" | _ => v end.

Lemma strictEq_canon v w : v <> VNum NaN -> strictEq v w = bool_decide (canon v = canon w).
Proof.
  intros Hv.
  destruct v as [| |b|m|s|i s|z|r|r], w as [| |c|n|t|j t|z'|r'|r']; cbn -[normal];
    try (apply bool_decide_ext; split; congruence).
  assert (Hm : m <> NaN) by congruence. destruct m; [done|..]; apply bool_decide_ext; split; congruence.
Qed.

Lemma sameValueZero_canon v w : sameValueZero v w = bool_decide (canon v = canon w).
Proof.
  unfold sameValueZero. destruct (decide (v = VNum NaN)) as [->|Hv].
  - assert (strictEq (VNum NaN) w = false) as -> by (by destruct w). simpl. apply bool_decide_ext.
    split; [by intros [_ ->]|]. destruct w as [| | |n| | | | |]; try done. intros [= E].
    symmetry in E. apply normal_NaN in E as ->. done.
  - rewrite strictEq_canon by done. rewrite (bool_decide_eq_false_2 (_ /\ _)) by (by intros [? ?]). apply orb_false_r.
Qed.

Lemma mapGet_cons k0 h0 m k : mapGet ((k0, h0) :: m) k = if decide (canon k0 = canon k) then Some h0 else mapGet m k.
Proof. unfold mapGet. simpl. rewrite sameValueZero_canon. case_bool_decide as E; [by rewrite decide_True|by rewrite decide_False]. Qed.

Lemma mapGet_canon m k k' : canon k = canon k' -> mapGet m k = mapGet m k'.
Proof. intros E. induction m as [|[x h] m IH]; [done|]. by rewrite !mapGet_cons, IH, E. Qed.

Lemma mapDelete_get m k0 k :
  mapGet (mapDelete m k0) k = if decide (canon k0 = canon k) then None else mapGet m k.
Proof.
  induction m as [|[x h] m IH]; [by destruct (decide _)|]. unfold mapDelete in *. simpl. rewrite sameValueZero_canon.
  rewrite mapGet_cons. case_bool_decide as E; simpl.
  - rewrite IH. destruct (decide (canon k0 = canon k)); [done|]. by rewrite decide_False by congruence.
  - rewrite mapGet_cons, IH. destruct (decide (canon x = canon k)), (decide (canon k0 = canon k)); congruence.
Qed.

Lemma mapSet_get m k0 h k : mapGet (mapSet m k0 h) k = if decide (canon k0 = canon k) then Some h else mapGet m k.
Proof. unfold mapSet. rewrite mapGet_cons, mapDelete_get. by destruct (decide _). Qed.

(** ** The state of the handles *)

(** A metadata record with a handle has the handle's cleanup. *)
Definition payloadOk (s : refState) (p : metadataPayload) : Prop :=
  forall h, mp_refCleanupHandle p = Some h ->
    exists hp, cleanupReturnHandlePayloads s !! h = Some hp /\ mp_refCleanup p = Some (rh_cleanupReturn hp).

Record refsOk (s : refState) : Prop := {
  rs_next h hp : cleanupReturnHandlePayloads s !! h = Some hp -> (h < nextCleanupReturnHandleSequence s)%N;
  rs_consumed h : h ∈ consumedCleanupReturnHandles s -> is_Some (cleanupReturnHandlePayloads s !! h);
  rs_stored k h : mapGet (cleanupReturnHandlesByRefHandle s) k = Some h ->
    h ∉ consumedCleanupReturnHandles s
    /\ exists hp, cleanupReturnHandlePayloads s !! h = Some hp /\ canon (rh_refHandle hp) = canon k;
  rs_metadata id p : metadataRecordPayloads s !! id = Some p -> payloadOk s p;
  rs_snapshots id d a : rootCommitMetadataSnapshotPayloads s !! id = Some (d, a) -> forall p, p ∈ d ++ a -> payloadOk s p }.

(** Handles stay what they are, and stay consumed. *)
Record grows (s s' : refState) : Prop := {
  gr_payloads h hp : cleanupReturnHandlePayloads s !! h = Some hp -> cleanupReturnHandlePayloads s' !! h = Some hp;
  gr_consumed h : h ∈ consumedCleanupReturnHandles s -> h ∈ consumedCleanupReturnHandles s' }.

#[export] Instance grows_preorder : PreOrder grows.
Proof. split; [by split|]. intros s1 s2 s3 [A1 A2] [B1 B2]. split; auto. Qed.

Lemma payloadOk_grows s s' p : grows s s' -> payloadOk s p -> payloadOk s' p.
Proof. intros G H h Hh. destruct (H h Hh) as (hp & H1 & H2). exists hp. split; [by apply G|done]. Qed.

Lemma consumed_spec s h hp : refsOk s -> cleanupReturnHandlePayloads s !! h = Some hp ->
  let s' := markRefCleanupReturnHandleConsumed (Some h) s in
  refsOk s' /\ grows s s' /\ consumedCleanupReturnHandles s' = h :: consumedCleanupReturnHandles s
  /\ cleanupReturnHandlePayloads s' = cleanupReturnHandlePayloads s
  /\ forall k, mapGet (cleanupReturnHandlesByRefHandle s') k
       = if decide (mapGet (cleanupReturnHandlesByRefHandle s) k = Some h) then None
         else mapGet (cleanupReturnHandlesByRefHandle s) k.
Proof.
  intros [H1 H2 H3 H4 H5] Hhp s'.
  assert (Hget : forall k, mapGet (cleanupReturnHandlesByRefHandle s') k
       = if decide (mapGet (cleanupReturnHandlesByRefHandle s) k = Some h) then None
         else mapGet (cleanupReturnHandlesByRefHandle s) k).
  { intros k. unfold s', markRefCleanupReturnHandleConsumed. rewrite Hhp. cbn [cleanupReturnHandlesByRefHandle setHandles].
    assert (Hkey : mapGet (cleanupReturnHandlesByRefHandle s) k = Some h -> canon (rh_refHandle hp) = canon k).
    { intros E. destruct (H3 k h E) as [_ (hp' & E' & Hc)]. rewrite Hhp in E'. by injection E' as <-. }
    case_bool_decide as E.
    - rewrite mapDelete_get. destruct (decide (canon (rh_refHandle hp) = canon k)) as [Hc|Hc].
      + destruct (decide _) as [|Hn]; [done|].
        assert (Hsame : mapGet (cleanupReturnHandlesByRefHandle s) k = mapGet (cleanupReturnHandlesByRefHandle s) (rh_refHandle hp)).
        { by apply mapGet_canon. }
        congruence.
      + destruct (decide _) as [Hs|]; [|done]. by apply Hkey in Hs.
    - destruct (decide _) as [Hs|]; [|done]. exfalso. apply E. pose proof (Hkey Hs) as Hc. rewrite <- Hs.
      by apply mapGet_canon. }
  assert (Hfields : cleanupReturnHandlePayloads s' = cleanupReturnHandlePayloads s
    /\ consumedCleanupReturnHandles s' = h :: consumedCleanupReturnHandles s
    /\ nextCleanupReturnHandleSequence s' = nextCleanupReturnHandleSequence s
    /\ metadataRecordPayloads s' = metadataRecordPayloads s
    /\ rootCommitMetadataSnapshotPayloads s' = rootCommitMetadataSnapshotPayloads s) by done.
  clearbody s'. destruct Hfields as (E1 & E2 & E3 & E4 & E5).
  assert (G : grows s s') by (split; [by rewrite E1|rewrite E2; by right]).
  split_and!; [|done..]. split.
  - intros h' hp'. rewrite E1, E3. apply H1.
  - intros h'. rewrite E1, E2. intros [->|Hh]%elem_of_cons; [by exists hp|by apply H2].
  - intros k h' Hk. rewrite Hget in Hk. destruct (decide _) as [|Hn]; [done|]. destruct (H3 k h' Hk) as [Hc Hp].
    rewrite E1, E2. split; [|done]. intros [->|?]%elem_of_cons; [by apply Hn|done].
  - intros id p. rewrite E4. intros Hp. eapply payloadOk_grows; [done|by eapply H4].
  - intros id d a. rewrite E5. intros Hp p Hin. eapply payloadOk_grows; [done|by eapply H5].
Qed.

(** A new handle is stored under its ref, in the place of the one that was there. *)
Lemma record_spec s p c : refsOk s ->
  let '(h, s') := recordRefCleanupReturnHandle p c s in
  refsOk s' /\ grows s s' /\ h = nextCleanupReturnHandleSequence s
  /\ mapGet (cleanupReturnHandlesByRefHandle s') (mp_refHandle p) = Some h
  /\ exists hp, cleanupReturnHandlePayloads s' !! h = Some hp /\ rh_cleanupReturn hp = c
       /\ rh_rootOwner hp = mp_rootOwner p /\ rh_hostOwner hp = mp_hostOwner p
       /\ rh_hostInstanceToken hp = mp_hostInstanceToken p /\ rh_refHandle hp = mp_refHandle p /\ rh_ref hp = mp_ref p.
Proof.
  intros Hs. unfold recordRefCleanupReturnHandle. set (h := nextCleanupReturnHandleSequence s).
  set (hp := mkHandlePayload _ _ _ _ _ _ _ _ _).
  set (s1 := setHandles (<[h:=hp]> _) _ _ _ s).
  assert (Hfresh : cleanupReturnHandlePayloads s !! h = None).
  { destruct (cleanupReturnHandlePayloads s !! h) as [x|] eqn:E; [|done]. apply (rs_next _ Hs) in E. unfold h in E. lia. }
  assert (G1 : grows s s1).
  { split; [|done]. intros h' x Hx. cbn. rewrite lookup_insert_ne; [done|]. intros ->. by rewrite Hfresh in Hx. }
  assert (Hs1 : refsOk s1).
  { destruct Hs as [H1 H2 H3 H4 H5]. split.
    - intros h' x Hx. cbn in *. apply lookup_insert_Some in Hx as [[<- _]|[_ Hx]]; [unfold h; lia|].
      apply H1 in Hx. unfold h. lia.
    - intros h' Hh. destruct (H2 h' Hh) as [x Hx]. exists x. by apply G1.
    - intros k h' Hk. destruct (H3 k h' Hk) as [Hc (x & Hx & Hkey)]. split; [done|]. exists x. split; [by apply G1|done].
    - intros id x Hx. eapply payloadOk_grows; [done|by eapply H4].
    - intros id d a Hx x Hin. eapply payloadOk_grows; [done|by eapply H5]. }
  assert (Hhp1 : cleanupReturnHandlePayloads s1 !! h = Some hp) by (cbn; apply lookup_insert_eq).
  assert (Hprev : exists s2, markRefCleanupReturnHandleConsumed
      (mapGet (cleanupReturnHandlesByRefHandle s1) (mp_refHandle p)) s1 = s2
    /\ refsOk s2 /\ grows s1 s2 /\ cleanupReturnHandlePayloads s2 = cleanupReturnHandlePayloads s1
    /\ h ∉ consumedCleanupReturnHandles s2).
  { assert (Hnc : h ∉ consumedCleanupReturnHandles s1).
    { intros Hc. destruct (rs_consumed _ Hs h Hc) as [x Hx]. by rewrite Hfresh in Hx. }
    destruct (mapGet _ _) as [h0|] eqn:E0; [|by exists s1].
    destruct (rs_stored _ Hs _ _ E0) as [Hc0 (x & Hx & _)]. pose proof (gr_payloads _ _ G1 _ _ Hx) as Hx1.
    destruct (consumed_spec s1 h0 x Hs1 Hx1) as (A1 & A2 & A3 & A4 & A5). eexists. split; [done|]. split_and!; try done.
    rewrite A3. intros [->|?]%elem_of_cons; [by rewrite Hfresh in Hx|done]. }
  destruct Hprev as (s2 & -> & Hs2 & G2 & Ep2 & Hnc2). cbn [cleanupReturnHandlesByRefHandle setHandles].
  set (s3 := setHandles _ _ _ _ s2).
  assert (G3 : grows s2 s3) by done.
  assert (Hget : forall k, mapGet (cleanupReturnHandlesByRefHandle s3) k
    = if decide (canon (mp_refHandle p) = canon k) then Some h else mapGet (cleanupReturnHandlesByRefHandle s2) k)
    by apply mapSet_get.
  split_and!; [|by etrans; [|etrans]|done|by rewrite Hget, decide_True|].
  - destruct Hs2 as [H1 H2 H3 H4 H5]. split; [done|done| |done|done].
    intros k h' Hk. rewrite Hget in Hk. destruct (decide _) as [Hc|Hc].
    + injection Hk as <-. split; [done|]. exists hp. cbn. by rewrite Ep2.
    + by apply H3.
  - exists hp. split; [cbn; by rewrite Ep2|]. done.
Qed.

(** ** Invocations *)

(** A cleanup that an invocation ran under a handle: the handle was live and is consumed, and
    the cleanup is the one that the attach of the same identity returned. *)
Definition cleanupOf (x : metadataPayload * refInvocation) : option N :=
  if ri_cleanupAttempted (snd x) then ri_refCleanupHandle (snd x) else None.
Definition cleanupSound (s s' : refState) (x : metadataPayload * refInvocation) : Prop :=
  forall h, cleanupOf x = Some h ->
    h ∉ consumedCleanupReturnHandles s /\ h ∈ consumedCleanupReturnHandles s'
    /\ exists hp, cleanupReturnHandlePayloads s' !! h = Some hp /\ handleMatches hp (identityOf (fst x)) = true
         /\ ri_cleanupReturn (snd x) = Some (rh_cleanupReturn hp).

(** A function that an attach returned is kept under a live handle of the identity. *)
Definition attachSound (s' : refState) (x : metadataPayload * refInvocation) : Prop :=
  ri_cleanupReturnHandleRecorded (snd x) = true ->
    exists h hp c, ri_refCleanupHandle (snd x) = Some h /\ cleanupReturnHandlePayloads s' !! h = Some hp
      /\ ri_returnValue (snd x) = VFun c /\ rh_cleanupReturn hp = c
      /\ mkIdentity (rh_rootOwner hp) (rh_hostOwner hp) (rh_hostInstanceToken hp) (rh_refHandle hp) (rh_ref hp)
         = identityOf (fst x).

Lemma assertHandle_ok s h i hp : assertRefCleanupHandleForMetadata s (Some h) i = Ok hp ->
  cleanupReturnHandlePayloads s !! h = Some hp /\ h ∉ consumedCleanupReturnHandles s /\ handleMatches hp i = true.
Proof.
  unfold assertRefCleanupHandleForMetadata. destruct (_ !! h) as [x|]; [|done].
  case_bool_decide; [done|]. destruct (handleMatches x i) eqn:E; [|done]. by intros [= ->].
Qed.

(** The cleanup of a detach that has a handle is the handle's, live and of the identity. *)
Lemma resolve_ok s p c h source : payloadOk s p ->
  resolveRefCleanupForDetachPayload s p = Ok (Some (c, Some h, source)) ->
  exists hp, cleanupReturnHandlePayloads s !! h = Some hp /\ h ∉ consumedCleanupReturnHandles s
    /\ handleMatches hp (identityOf p) = true /\ rh_cleanupReturn hp = c.
Proof.
  intros Hp. unfold resolveRefCleanupForDetachPayload, resolveStoredRefCleanupForDetachPayload.
  destruct (mp_refCleanup p) as [f|] eqn:Ef.
  - destruct (mp_refCleanupHandle p) as [h'|] eqn:Eh; [|done].
    destruct (assertRefCleanupHandleForMetadata s (Some h') _) as [hp|] eqn:E; [|done]. simpl.
    intros [= -> -> _]. apply assertHandle_ok in E as (E1 & E2 & E3). exists hp. split_and!; try done.
    destruct (Hp h Eh) as (hp' & E4 & E5). rewrite E1 in E4. injection E4 as <-. congruence.
  - destruct (mapGet _ _) as [h'|]; [|done].
    destruct (assertRefCleanupHandleForMetadata s (Some h') _) as [hp|] eqn:E; [|done]. simpl.
    intros [= <- <- _]. apply assertHandle_ok in E as (E1 & E2 & E3). by exists hp.
Qed.

Section Invocations.
Context {Node D U : Type} `{!EqDecision Node} `{!Countable Node} `{!Host Node D} (heap : ref -> jsobject).
Context (hostIn : U -> D) (treeIn : U -> treeState Node).
Context (callRef : ref -> option fakeHostNode -> refWorld U -> effect (refWorld U) value).
Context (callCleanup : ref -> refWorld U -> effect (refWorld U) value).

(** What a step does to the module's state. *)
Definition refsStep (w w' : refWorld U) : Prop :=
  refsOk (rw_refs w) -> refsOk (rw_refs w') /\ grows (rw_refs w) (rw_refs w').

(** Callbacks change the module's state through its operations alone. *)
Hypothesis callRef_step : forall f a w, refsStep w (snd (callRef f a w)).
Hypothesis callCleanup_step : forall f w, refsStep w (snd (callCleanup f w)).

Lemma cleanup_invocation f handle source w : refsOk (rw_refs w) ->
  (forall h, handle = Some h -> is_Some (cleanupReturnHandlePayloads (rw_refs w) !! h)) ->
  let '(i, w') := runControlledCleanupReturn callCleanup f handle source w in
  refsOk (rw_refs w') /\ grows (rw_refs w) (rw_refs w')
  /\ (forall h, handle = Some h -> h ∈ consumedCleanupReturnHandles (rw_refs w'))
  /\ ri_cleanupAttempted i = true /\ ri_refCleanupHandle i = handle /\ ri_cleanupReturn i = Some f
  /\ ri_cleanupReturnHandleRecorded i = false.
Proof.
  intros Hw Hh. unfold runControlledCleanupReturn. pose proof (callCleanup_step f w Hw) as [H1 H2].
  destruct (callCleanup f w) as [r w1]. simpl in H1, H2.
  assert (Hm : let s' := markRefCleanupReturnHandleConsumed handle (rw_refs w1) in
    refsOk s' /\ grows (rw_refs w) s' /\ forall h, handle = Some h -> h ∈ consumedCleanupReturnHandles s').
  { destruct handle as [h|]; [|done]. destruct (Hh h eq_refl) as [hp Hhp].
    apply (gr_payloads _ _ H2) in Hhp. destruct (consumed_spec _ h hp H1 Hhp) as (A1 & A2 & A3 & _).
    split_and!; [done|by etrans|]. intros h' [= <-]. rewrite A3. by left. }
  cbn zeta in Hm. destruct Hm as (A1 & A2 & A3). by destruct r; split_and!.
Qed.

Lemma callback_invocation f p fake w : refsOk (rw_refs w) ->
  let '(i, w') := invokeCallbackRef callRef f p fake w in
  refsOk (rw_refs w') /\ grows (rw_refs w) (rw_refs w') /\ ri_cleanupAttempted i = false
  /\ attachSound (rw_refs w') (p, i).
Proof.
  intros Hw. unfold invokeCallbackRef.
  pose proof (callRef_step f (match mp_action p with Attach => Some fake | Detach => None end) w Hw) as [H1 H2].
  destruct (callRef _ _ w) as [[v|e] w1]; simpl in H1, H2; [|by destruct (mp_action p); split_and!].
  destruct (mp_action p); [|by destruct v; split_and!].
  destruct v as [| | | | | | |c|]; try by split_and!.
  pose proof (record_spec (rw_refs w1) p c H1) as Hr.
  destruct (recordRefCleanupReturnHandle p c (rw_refs w1)) as [h s].
  destruct Hr as (A1 & A2 & A3 & A4 & hp & B1 & B2 & B3 & B4 & B5 & B6 & B7).
  split_and!; [done|by etrans|done|]. intros _. exists h, hp, c. unfold identityOf. simpl. by split_and!; try congruence.
Qed.

Lemma refInvocation_ok (x : metadataPayload * hostNodeRecord (Node := Node)) w : refsOk (rw_refs w) ->
  payloadOk (rw_refs w) (fst x) ->
  let '(r, w') := createControlledInvocationGateRecord hostIn callRef callCleanup x w in
  refsOk (rw_refs w') /\ grows (rw_refs w) (rw_refs w')
  /\ match r with
     | Ok y => fst y = fst x /\ cleanupSound (rw_refs w) (rw_refs w') y /\ attachSound (rw_refs w') y
     | Throw _ => w' = w
     end.
Proof.
  intros Hw Hp. destruct x as [p hn]. unfold createControlledInvocationGateRecord, refKindForValue. simpl in Hp.
  assert (Hskip : cleanupSound (rw_refs w) (rw_refs w) (p, skippedInvocation)
    /\ attachSound (rw_refs w) (p, skippedInvocation)) by done.
  destruct (isFunctionValue (mp_ref p)) eqn:Ef; [|by simpl; split_and!; try apply Hskip].
  destruct (createRefCallbackFakeHostNodeRecord _ _) as [fake|e]; [|by simpl].
  simpl. unfold runControlledInvocation. destruct (mp_ref p) as [| | | | | | |f|]; try done.
  destruct (match mp_action p with Detach => _ | Attach => _ end) as [cleanup|e] eqn:Ec; [|by simpl].
  simpl. destruct cleanup as [[[c handle] source]|].
  - assert (Hr : forall h, handle = Some h -> exists hp, cleanupReturnHandlePayloads (rw_refs w) !! h = Some hp
      /\ h ∉ consumedCleanupReturnHandles (rw_refs w) /\ handleMatches hp (identityOf p) = true /\ rh_cleanupReturn hp = c).
    { intros h ->. destruct (mp_action p); [done|]. by eapply resolve_ok. }
    pose proof (cleanup_invocation c handle source w Hw) as Hi.
    destruct (runControlledCleanupReturn callCleanup c handle source w) as [i w1].
    destruct Hi as (A1 & A2 & A3 & A4 & A5 & A6 & A7); [intros h Hh; destruct (Hr h Hh) as (hp & ? & _); by exists hp|].
    split_and!; [done..| |intros Hb; simpl in Hb; congruence].
    intros h Hh. unfold cleanupOf in Hh. simpl in Hh. rewrite A4, A5 in Hh. destruct (Hr h Hh) as (hp & B1 & B2 & B3 & B4).
    split_and!; [done|by apply A3|]. exists hp. split_and!; [by apply A2|done|simpl; congruence].
  - pose proof (callback_invocation f p (fst fake) w Hw) as Hi.
    destruct (invokeCallbackRef callRef f p (fst fake) w) as [i w1]. destruct Hi as (A1 & A2 & A3 & A4).
    split_and!; try done. intros h Hh. unfold cleanupOf in Hh. simpl in Hh. by rewrite A3 in Hh.
Qed.

(** ** Histories *)

(** The invocations that a list of records runs, those before an error included. *)
Fixpoint invocationTrace (l : list (metadataPayload * hostNodeRecord (Node := Node))) (w : refWorld U)
    : list (metadataPayload * refInvocation) * refWorld U :=
  match l with
  | [] => ([], w)
  | x :: l =>
      match createControlledInvocationGateRecord hostIn callRef callCleanup x w with
      | (Ok i, w) => let '(t, w) := invocationTrace l w in (i :: t, w)
      | (Throw _, w) => ([], w)
      end
  end.

Lemma invocationTrace_run l w :
  let '(r, w') := runInvocations hostIn callRef callCleanup l w in
  let '(t, w'') := invocationTrace l w in
  w'' = w' /\ forall results, r = Ok results -> results = t.
Proof.
  revert w. induction l as [|x l IH]; intros w; simpl; [by split; [|intros ? [= <-]]|].
  destruct (createControlledInvocationGateRecord _ _ _ x w) as [[i|e] w1]; simpl; [|done].
  specialize (IH w1). destruct (runInvocations _ _ _ l w1) as [[rest|e] w2]; destruct (invocationTrace l w1) as [t w3];
    simpl; destruct IH as [-> IH]; split; try done. intros ? [= <-]. by rewrite (IH rest).
Qed.

(** What a trace from state [s] to state [s'] shows. *)
Definition entrySound (s' : refState) (x : metadataPayload * refInvocation) : Prop :=
  (forall h, cleanupOf x = Some h -> exists hp, cleanupReturnHandlePayloads s' !! h = Some hp
     /\ handleMatches hp (identityOf (fst x)) = true /\ ri_cleanupReturn (snd x) = Some (rh_cleanupReturn hp))
  /\ attachSound s' x.
Definition cleaned (t : list (metadataPayload * refInvocation)) : list N := omap cleanupOf t.
Record traceOk (s : refState) (t : list (metadataPayload * refInvocation)) (s' : refState) : Prop := {
  tr_refs : refsOk s';
  tr_grows : grows s s';
  tr_once : NoDup (cleaned t);
  tr_consumed h : h ∈ cleaned t -> h ∉ consumedCleanupReturnHandles s /\ h ∈ consumedCleanupReturnHandles s';
  tr_sound x : x ∈ t -> entrySound s' x }.

Lemma entrySound_grows s s' x : grows s s' -> entrySound s x -> entrySound s' x.
Proof.
  intros G [H1 H2]. split.
  - intros h Hh. destruct (H1 h Hh) as (hp & ? & ?). exists hp. split; [by apply G|done].
  - intros Hr. destruct (H2 Hr) as (h & hp & c & ? & ? & ?). exists h, hp, c. split_and!; try done; try (by apply G); naive_solver.
Qed.

Lemma traceOk_nil s s' : refsOk s' -> grows s s' -> traceOk s [] s'.
Proof. intros H1 H2. split; [done|done|constructor|..]; by intros ? ?%elem_of_nil. Qed.

Lemma traceOk_app s t s1 t' s2 : traceOk s t s1 -> traceOk s1 t' s2 -> traceOk s (t ++ t') s2.
Proof.
  intros [A1 A2 A3 A4 A5] [B1 B2 B3 B4 B5]. assert (Hc : cleaned (t ++ t') = cleaned t ++ cleaned t') by apply omap_app.
  split; [done|by etrans|..].
  - rewrite Hc. apply NoDup_app. split_and!; try done. intros h Ht Ht'. by apply (B4 h Ht'), (A4 h Ht).
  - intros h. rewrite Hc. intros [Hh|Hh]%elem_of_app.
    + destruct (A4 h Hh). split; [done|]. by apply B2.
    + destruct (B4 h Hh) as [Hn ?]. split; [|done]. intros Hs. by apply Hn, A2.
  - intros x [Hx|Hx]%elem_of_app; [|by apply B5]. by eapply entrySound_grows; [|apply A5].
Qed.

Lemma invocationTrace_ok l : forall w, refsOk (rw_refs w) -> (forall x, x ∈ l -> payloadOk (rw_refs w) (fst x)) ->
  let '(t, w') := invocationTrace l w in traceOk (rw_refs w) t (rw_refs w').
Proof.
  induction l as [|x l IH]; intros w Hw Hl; simpl; [by apply traceOk_nil|].
  pose proof (refInvocation_ok x w Hw (Hl x ltac:(left))) as Hx.
  destruct (createControlledInvocationGateRecord _ _ _ x w) as [[y|e] w1]; [|by apply traceOk_nil; apply Hx].
  destruct Hx as (A1 & A2 & A3 & A4 & A5).
  specialize (IH w1 A1 ltac:(intros x' ?; eapply payloadOk_grows; [done|]; apply Hl; by right)).
  destruct (invocationTrace l w1) as [t w2].
  apply (traceOk_app _ [y] (rw_refs w1)); [|done]. unfold cleanupSound in A4. split; [done|done|..].
  - unfold cleaned. simpl. destruct (cleanupOf y); repeat constructor. by intros ?%elem_of_nil.
  - unfold cleaned. simpl. destruct (cleanupOf y) as [h'|]; [|by intros ? ?%elem_of_nil].
    intros h ->%list_elem_of_singleton. by destruct (A4 h' eq_refl) as (? & ? & _).
  - intros x' ->%list_elem_of_singleton. split; [|done]. intros h Hh. by destruct (A4 h Hh) as (_ & _ & ?).
Qed.

(** ** Records and snapshots *)

Lemma addMetadata_ok s p : refsOk s -> payloadOk s p ->
  let s' := mkRefState (nextMetadataRecord s + 1) (<[nextMetadataRecord s := p]> (metadataRecordPayloads s))
    (rootCommitMetadataSnapshotPayloads s) (nextCleanupReturnHandleSequence s) (cleanupReturnHandlePayloads s)
    (cleanupReturnHandlesByRefHandle s) (consumedCleanupReturnHandles s) in
  refsOk s' /\ grows s s'.
Proof.
  intros [H1 H2 H3 H4 H5] Hp s'. split; [|done]. split; try done.
  intros id q Hq. cbn in Hq. apply lookup_insert_Some in Hq as [[_ <-]|[_ Hq]]; [done|by eapply H4].
Qed.

Lemma resolveInput_ok s input i c h source : resolveRefCleanupInputForDetachMetadata s input i = Ok (c, Some h, source) ->
  exists hp, cleanupReturnHandlePayloads s !! h = Some hp /\ c = Some (rh_cleanupReturn hp).
Proof.
  unfold resolveRefCleanupInputForDetachMetadata. destruct input as [[f|] [h'|]]; try done.
  destruct (assertRefCleanupHandleForMetadata s (Some h') i) as [hp|] eqn:E; [|done]. simpl. intros [= <- <- _].
  apply assertHandle_ok in E as [E _]. by exists hp.
Qed.

Ltac bindCases :=
  repeat match goal with
  | |- bind ?r _ = Ok _ -> _ => destruct r as [?|] eqn:?; cbn [bind]; [|discriminate]
  | |- (if ?b then _ else _) = Ok _ -> _ => destruct b; try discriminate
  end.

Lemma createMetadata_ok s action o p : createRefCallbackMetadata s action o = Ok p ->
  payloadOk s p /\ mp_action p = action.
Proof.
  unfold createRefCallbackMetadata. bindCases. intros [= <-]. split; [|done].
  intros h Hh. simpl in *. destruct action; [by simplify_eq/=|].
  match goal with H : resolveRefCleanupInputForDetachMetadata _ _ _ = Ok ?c |- _ => destruct c as [[c h'] source] end.
  simpl in *. subst h'. by eapply resolveInput_ok.
Qed.

Lemma refRecord_ok action o s : refsOk s ->
  let s' := snd (createRefCallbackMetadataRecord action o s) in refsOk s' /\ grows s s'.
Proof.
  intros Hs. unfold createRefCallbackMetadataRecord. destruct o as [o|]; [|done].
  destruct (createRefCallbackMetadata s action o) as [p|e] eqn:E; [|done]. simpl.
  apply createMetadata_ok in E as [Hp _]. by apply addMetadata_ok.
Qed.

(** Lists of records that all have the handles they name. *)
Definition listsOk (s : refState) (m : list metadataPayload * list metadataPayload) : Prop :=
  forall p, p ∈ fst m ++ snd m -> payloadOk s p.

Lemma recordList_ok s records action l : refsOk s -> normalizeMetadataRecordList s records action = Ok l ->
  forall p, p ∈ l -> payloadOk s p.
Proof.
  intros Hs. unfold normalizeMetadataRecordList. destruct records as [[records|]|]; [|done|].
  - intros H%mapRes_Ok p Hp. apply list_elem_of_lookup in Hp as [i Hi].
    destruct (Forall2_lookup_r _ _ _ _ _ H Hi) as (record & _ & Hr).
    unfold assertPrivateMetadataPayload in Hr. destruct (record ≫= _) as [q|] eqn:Eq; [|done].
    case_bool_decide; [|done]. injection Hr as <-. destruct record as [id|]; [|done]. simpl in Eq. by eapply rs_metadata.
  - intros [= <-] p Hp. by apply elem_of_nil in Hp.
Qed.

Lemma snapshotLists_ok s snapshot m : refsOk s -> normalizeMetadataSnapshot s snapshot = Ok m -> listsOk s m.
Proof.
  intros Hs. unfold normalizeMetadataSnapshot, listsOk.
  assert (Hnil : forall p, p ∈ @nil metadataPayload ++ [] -> payloadOk s p) by (intros p Hp; by apply elem_of_nil in Hp).
  destruct snapshot as [|id|detach attach|detach attach inner]; [done|by intros [= <-]|..]; bindCases; intros [= <-] p;
    simpl; intros [Hp|Hp]%elem_of_app; (eapply recordList_ok; [exact Hs| |exact Hp]; eassumption).
Qed.

Lemma commitLists_ok s snapshot m : refsOk s -> normalizeRootCommitRefMetadataSnapshot s snapshot = Ok m -> listsOk s m.
Proof.
  intros Hs. unfold normalizeRootCommitRefMetadataSnapshot.
  destruct (getRootCommitRefMetadataSnapshotPayloadFromInput s snapshot) as [q|] eqn:E.
  - intros [= <-]. assert (Hq : exists id, rootCommitMetadataSnapshotPayloads s !! id = Some q).
    { unfold getRootCommitRefMetadataSnapshotPayloadFromInput, getPrivateRefCallbackRootCommitMetadataSnapshotPayload in E.
      destruct snapshot as [|id|d a|d a [|id|d' a'|d' a' inner]]; try done; try (by exists id).
      destruct (rootCommitMetadataSnapshotPayloads s !! id) as [q'|] eqn:Eq; [|done]. exists id. congruence. }
    destruct Hq as [id Hq]. destruct q as [d a]. intros p. by eapply rs_snapshots.
  - bindCases. by apply snapshotLists_ok.
Qed.

Lemma createSnapshot_ok snapshot s : refsOk s ->
  let s' := snd (createRefCallbackRootCommitMetadataSnapshot snapshot s) in refsOk s' /\ grows s s'.
Proof.
  intros Hs. unfold createRefCallbackRootCommitMetadataSnapshot.
  destruct (normalizeRootCommitRefMetadataSnapshot s snapshot) as [m|e] eqn:E; [|done].
  apply commitLists_ok in E; [|done]. simpl. split; [|done]. destruct Hs as [H1 H2 H3 H4 H5]. split; try done.
  intros id d a Hq. cbn in Hq. apply lookup_insert_Some in Hq as [[_ ->]|[_ Hq]]; [apply E|by eapply H5].
Qed.

Lemma validatedRecord_payload u action p y :
  validateMetadataPayloadAgainstComponentTree heap hostIn treeIn u action p = Ok y -> fst y = p.
Proof.
  unfold validateMetadataPayloadAgainstComponentTree. destruct (assertTokenScope p action); [|done]. simpl.
  destruct (createMountedHostInstanceNodeRecord _ _ _ _) as [hn|]; [|done].
  destruct (negb _); [done|]. destruct (negb _); [done|]. destruct (hn_latestProps hn) as [[]|]; try done.
  destruct (hn_latestRef hn); [|done]. destruct (strictEq _ _); [|done]. by intros [= <-].
Qed.

(** Validation keeps the records, the detaches first. *)
Lemma validatedRecords_payloads u m l :
  validateMetadataSnapshotAgainstComponentTree heap hostIn treeIn u m = Ok l -> map fst l = fst m ++ snd m.
Proof.
  assert (Hone : forall action ps ys,
    mapRes (validateMetadataPayloadAgainstComponentTree heap hostIn treeIn u action) ps = Ok ys -> map fst ys = ps).
  { intros action ps ys H%mapRes_Ok. induction H as [|p y ps ys Hy _ IH]; [done|]. simpl.
    by rewrite IH, (validatedRecord_payload _ _ _ _ Hy). }
  unfold validateMetadataSnapshotAgainstComponentTree. bindCases. intros [= <-].
  rewrite map_app. f_equal; by eapply Hone.
Qed.

(** ** Histories *)

(** The module's operations, and steps of the rest of the world. *)
Inductive refOperation : Type :=
| CreateRecord (action : refAction) (o : option refOptions)
| CreateSnapshot (snapshot : snapshotInput)
| InvokeGate (snapshot : snapshotInput)
| Elsewhere (f : U -> U).

Definition gateTrace (snapshot : snapshotInput) (w : refWorld U) : list (metadataPayload * refInvocation) * refWorld U :=
  match normalizeRootCommitRefMetadataSnapshot (rw_refs w) snapshot with
  | Throw _ => ([], w)
  | Ok metadata =>
      match validateMetadataSnapshotAgainstComponentTree heap hostIn treeIn (rw_user w) metadata with
      | Throw _ => ([], w)
      | Ok records => invocationTrace records w
      end
  end.

(** The invocations of an operation and the world after it. *)
Definition operate (op : refOperation) (w : refWorld U) : list (metadataPayload * refInvocation) * refWorld U :=
  match op with
  | CreateRecord action o => ([], mkRefWorld (rw_user w) (snd (createRefCallbackMetadataRecord action o (rw_refs w))))
  | CreateSnapshot snapshot =>
      ([], mkRefWorld (rw_user w) (snd (createRefCallbackRootCommitMetadataSnapshot snapshot (rw_refs w))))
  | InvokeGate snapshot => gateTrace snapshot w
  | Elsewhere f => ([], mkRefWorld (f (rw_user w)) (rw_refs w))
  end.
Fixpoint operateAll (ops : list refOperation) (w : refWorld U) : list (metadataPayload * refInvocation) * refWorld U :=
  match ops with
  | [] => ([], w)
  | op :: ops =>
      let '(t, w) := operate op w in
      let '(t', w) := operateAll ops w in
      (t ++ t', w)
  end.

(** A trace is what the gate runs. *)
Lemma gateTrace_run snapshot w :
  let '(r, w') := createRefCallbackControlledInvocationGateSnapshot heap hostIn treeIn callRef callCleanup snapshot w in
  let '(t, w'') := gateTrace snapshot w in
  w'' = w' /\ forall results, r = Ok results -> results = (t, summarizeControlledInvocationResults t).
Proof.
  unfold createRefCallbackControlledInvocationGateSnapshot, gateTrace.
  destruct (normalizeRootCommitRefMetadataSnapshot (rw_refs w) snapshot) as [m|e]; [|done]. simpl.
  destruct (validateMetadataSnapshotAgainstComponentTree _ _ _ _ m) as [l|e]; [|done]. simpl.
  pose proof (invocationTrace_run l w) as H.
  destruct (runInvocations _ _ _ l w) as [[rest|e] w2]; destruct (invocationTrace l w) as [t w3]; simpl;
    destruct H as [-> H]; split; try done. intros ? [= <-]. by rewrite (H rest).
Qed.

Lemma operate_ok op w : refsOk (rw_refs w) ->
  let '(t, w') := operate op w in traceOk (rw_refs w) t (rw_refs w').
Proof.
  intros Hw. destruct op as [action o|snapshot|snapshot|f]; simpl.
  - apply traceOk_nil; by apply refRecord_ok.
  - apply traceOk_nil; by apply createSnapshot_ok.
  - unfold gateTrace. destruct (normalizeRootCommitRefMetadataSnapshot _ _) as [m|e] eqn:E; [|by apply traceOk_nil].
    destruct (validateMetadataSnapshotAgainstComponentTree _ _ _ _ m) as [l|e] eqn:El; [|by apply traceOk_nil].
    apply commitLists_ok in E; [|done]. apply validatedRecords_payloads in El.
    apply invocationTrace_ok; [done|]. intros x Hx. apply E. rewrite <- El. by apply list_elem_of_fmap_2.
  - by apply traceOk_nil.
Qed.

Lemma operateAll_ok ops : forall w, refsOk (rw_refs w) ->
  let '(t, w') := operateAll ops w in traceOk (rw_refs w) t (rw_refs w').
Proof.
  induction ops as [|op ops IH]; intros w Hw; simpl; [by apply traceOk_nil|].
  pose proof (operate_ok op w Hw) as Hop. destruct (operate op w) as [t w1].
  specialize (IH w1 (tr_refs _ _ _ Hop)). destruct (operateAll ops w1) as [t' w2]. by eapply traceOk_app.
Qed.

Lemma noRefs_ok : refsOk noRefs.
Proof. split; cbn; try done. by intros h ?%elem_of_nil. Qed.

(** In a history of the module's operations from its first state, among steps of the rest of
    the world, the invocations of the history that run a cleanup under a handle name pairwise
    different handles, all consumed afterwards; a later run of the gate names none of them
    again. Such a cleanup is the function that the handle was recorded with, under a root
    owner, host owner, token, ref handle and ref that match those of the detach; and an attach
    that returned a function recorded a handle with that function and its own identity. The
    invocations that callbacks make themselves are not among those of the history. *)
Lemma history_cleanups ops u :
  let '(t, w) := operateAll ops (mkRefWorld u noRefs) in
  NoDup (cleaned t)
  /\ (forall h, h ∈ cleaned t -> h ∈ consumedCleanupReturnHandles (rw_refs w))
  /\ (forall x, x ∈ t -> entrySound (rw_refs w) x)
  /\ forall snapshot results metrics w',
       createRefCallbackControlledInvocationGateSnapshot heap hostIn treeIn callRef callCleanup snapshot w
         = (Ok (results, metrics), w') ->
       NoDup (cleaned results) /\ (forall h, h ∈ cleaned results -> h ∉ cleaned t)
       /\ forall x, x ∈ results -> entrySound (rw_refs w') x.
Proof.
  pose proof (operateAll_ok ops (mkRefWorld u noRefs) noRefs_ok) as H.
  destruct (operateAll ops _) as [t w]. split_and!; [apply H|intros h Hh; by apply (tr_consumed _ _ _ H)|apply H|].
  intros snapshot results metrics w' Hrun. pose proof (gateTrace_run snapshot w) as Ht. rewrite Hrun in Ht.
  pose proof (operate_ok (InvokeGate snapshot) w (tr_refs _ _ _ H)) as Ho. simpl in Ho.
  destruct (gateTrace snapshot w) as [t' w'']. destruct Ht as [-> Ht]. specialize (Ht _ eq_refl). injection Ht as -> ->.
  split_and!; [apply Ho| |apply Ho]. intros h Hh Ht. by apply (tr_consumed _ _ _ Ho h Hh), (tr_consumed _ _ _ H h Ht).
Qed.

(** ** A ref that is attached and detached *)

(** Values that are equal to themselves. *)
Definition comparable (i : refIdentity) : Prop :=
  id_rootOwner i <> VNum NaN /\ id_hostOwner i <> VNum NaN /\ id_refHandle i <> VNum NaN
  /\ id_ref i <> VNum NaN /\ id_hostInstanceToken i <> inl (VNum NaN).

Lemma strictEq_refl v : v <> VNum NaN -> strictEq v v = true.
Proof. intros Hv. rewrite strictEq_canon by done. by apply bool_decide_eq_true. Qed.

Lemma handleMatches_refl hp i : comparable i ->
  mkIdentity (rh_rootOwner hp) (rh_hostOwner hp) (rh_hostInstanceToken hp) (rh_refHandle hp) (rh_ref hp) = i ->
  handleMatches hp i = true.
Proof.
  intros (H1 & H2 & H3 & H4 & H5) <-. unfold handleMatches. simpl in *. rewrite !strictEq_refl by done.
  destruct (rh_hostInstanceToken hp) as [v|k]; simpl; [|by rewrite bool_decide_eq_true_2].
  by rewrite strictEq_refl by congruence.
Qed.

(** An attach calls the callback ref with the node; when the call returns a function, a
    detach of the same identity that has no cleanup of its own calls that function, and not
    the ref, and the next detach, if the cleanup left the handles alone, calls the ref with
    null. *)
Theorem attach_detach_cleanup p q f c fake fake' w w1 :
  refsOk (rw_refs w1) -> mp_ref p = VFun f -> mp_action p = Attach -> mp_action q = Detach ->
  identityOf q = identityOf p -> comparable (identityOf p) -> mp_refCleanup q = None ->
  callRef f (Some fake) w = (Ok (VFun c), w1) ->
  exists i w2 h, runControlledInvocation callRef callCleanup p fake w = (Ok i, w2)
    /\ rw_user w2 = rw_user w1 /\ ri_kind i = CallbackAttach /\ ri_refCleanupHandle i = Some h
    /\ forall r w3, callCleanup c w2 = (r, w3) ->
       let w4 := mkRefWorld (rw_user w3) (markRefCleanupReturnHandleConsumed (Some h) (rw_refs w3)) in
       exists j, runControlledInvocation callRef callCleanup q fake' w2 = (Ok j, w4)
         /\ ri_kind j = CleanupReturn /\ ri_cleanupReturn j = Some c
         /\ ri_error j = match r with Ok _ => None | Throw e => Some e end
         /\ (rw_refs w3 = rw_refs w2 ->
             forall r' w5, callRef f None w4 = (r', w5) ->
             exists k, runControlledInvocation callRef callCleanup q fake' w4 = (Ok k, w5)
               /\ ri_kind k = CallbackNullDetach /\ ri_cleanupAttempted k = false).
Proof.
  intros Hw1 Hp Ap Aq Hid Hc Hq Hcall.
  pose proof (record_spec (rw_refs w1) p c Hw1) as Hr.
  destruct (recordRefCleanupReturnHandle p c (rw_refs w1)) as [h s] eqn:Es.
  destruct Hr as (A1 & A2 & A3 & A4 & hp & B1 & B2 & B3 & B4 & B5 & B6 & B7).
  assert (Hqref : mp_ref q = VFun f /\ mp_refHandle q = mp_refHandle p).
  { unfold identityOf in Hid. injection Hid as ? ? ? ? ?. split; congruence. }
  destruct Hqref as [Hqf Hqh].
  assert (Hm : handleMatches hp (identityOf q) = true).
  { rewrite Hid. apply handleMatches_refl; [done|]. unfold identityOf. congruence. }
  destruct (rs_stored _ A1 _ _ A4) as [Hlive _].
  eexists _, (mkRefWorld (rw_user w1) s), h. split.
  { unfold runControlledInvocation. rewrite Hp, Ap. simpl. unfold invokeCallbackRef. rewrite Ap, Hcall, Es. done. }
  split_and!; try done. intros r w3 Hclean w4.
  eexists. split.
  { unfold runControlledInvocation. rewrite Hqf, Aq. unfold resolveRefCleanupForDetachPayload, resolveStoredRefCleanupForDetachPayload.
    cbn [rw_refs]. rewrite Hq, Hqh, A4. unfold assertRefCleanupHandleForMetadata. rewrite B1, bool_decide_eq_false_2, Hm by done.
    simpl. unfold runControlledCleanupReturn. rewrite B2, Hclean. done. }
  destruct r; (split_and!; [done..|]); intros Hsame r' w5 Hnull.
  all: assert (Hgone : mapGet (cleanupReturnHandlesByRefHandle (rw_refs w4)) (mp_refHandle q) = None)
    by (unfold w4; cbn [rw_refs]; rewrite Hsame, Hqh;
        destruct (consumed_spec s h hp A1 B1) as (_ & _ & _ & _ & Hget); rewrite Hget; by rewrite decide_True).
  all: unfold runControlledInvocation; rewrite Hqf, Aq; unfold resolveRefCleanupForDetachPayload, resolveStoredRefCleanupForDetachPayload;
    rewrite Hq, Hgone; simpl; unfold invokeCallbackRef; rewrite Aq, Hnull.
  all: destruct r'; by eexists.
Qed.
End Invocations.

(** ** Cleanups in nested calls *)

Section Nested.
Context {Node D U : Type} `{!EqDecision Node} `{!Countable Node} `{!Host Node D} (heap : ref -> jsobject).
Context (hostIn : U -> D) (treeIn : U -> treeState Node).
Context (callRef : ref -> option fakeHostNode -> refWorld U -> effect (refWorld U) value).
Context (callCleanup : ref -> refWorld U -> effect (refWorld U) value).

(** The single changes of the world, of which every operation and every callback consists:
    also the states in the middle of an invocation, where a callback may invoke again. *)
Inductive refMove (w : refWorld U) : refWorld U -> Prop :=
| move_record action o : refMove w (mkRefWorld (rw_user w) (snd (createRefCallbackMetadataRecord action o (rw_refs w))))
| move_snapshot snapshot :
    refMove w (mkRefWorld (rw_user w) (snd (createRefCallbackRootCommitMetadataSnapshot snapshot (rw_refs w))))
| move_kept p c : refMove w (mkRefWorld (rw_user w) (snd (recordRefCleanupReturnHandle p c (rw_refs w))))
| move_consumed handle :
    (forall h, handle = Some h -> is_Some (cleanupReturnHandlePayloads (rw_refs w) !! h)) ->
    refMove w (mkRefWorld (rw_user w) (markRefCleanupReturnHandleConsumed handle (rw_refs w)))
| move_elsewhere u : refMove w (mkRefWorld u (rw_refs w)).
Abbreviation moves := (rtc refMove).

(** The callbacks change the module's state through its operations alone. *)
Hypothesis callRef_moves : forall f a w, moves w (snd (callRef f a w)).
Hypothesis callCleanup_moves : forall f w, moves w (snd (callCleanup f w)).

Lemma move_ok w w' : refMove w w' -> refsStep w w'.
Proof.
  intros M Hw. destruct M as [action o|snapshot|p c|handle Hh|u]; cbn [rw_refs].
  - by apply refRecord_ok.
  - by apply createSnapshot_ok.
  - pose proof (record_spec (rw_refs w) p c Hw) as H. destruct (recordRefCleanupReturnHandle p c (rw_refs w)) as [h s].
    by destruct H as (? & ? & _).
  - destruct handle as [h|]; [|done]. destruct (Hh h eq_refl) as [hp Hhp].
    by destruct (consumed_spec _ h hp Hw Hhp) as (? & ? & _).
  - done.
Qed.

Lemma moves_ok w w' : moves w w' -> refsStep w w'.
Proof.
  induction 1 as [w|w w1 w2 M _ IH]; intros Hw; [done|]. destruct (move_ok _ _ M Hw) as [H1 G1].
  destruct (IH H1) as [H2 G2]. split; [done|by etrans].
Qed.

Lemma callRef_steps f a w : refsStep w (snd (callRef f a w)).
Proof. by apply moves_ok. Qed.
Lemma callCleanup_steps f w : refsStep w (snd (callCleanup f w)).
Proof. by apply moves_ok. Qed.

(** A record that the module gave out, by itself or in a snapshot. *)
Definition issued (s : refState) (p : metadataPayload) : Prop :=
  (exists id, metadataRecordPayloads s !! id = Some p)
  \/ exists id d a, rootCommitMetadataSnapshotPayloads s !! id = Some (d, a) /\ p ∈ d ++ a.
Lemma issued_ok s p : refsOk s -> issued s p -> payloadOk s p.
Proof. intros Hs [[id H]|(id & d & a & H & Hin)]; [by eapply rs_metadata|by eapply rs_snapshots]. Qed.

Lemma resolved_handle s p c handle source : refsOk s -> payloadOk s p ->
  resolveRefCleanupForDetachPayload s p = Ok (Some (c, handle, source)) ->
  forall h, handle = Some h -> is_Some (cleanupReturnHandlePayloads s !! h).
Proof. intros Hs Hp E h ->. destruct (resolve_ok s p c h source Hp E) as (hp & H & _). by exists hp. Qed.

(** An invocation is made of moves. *)
Lemma invocation_moves p fake w : refsOk (rw_refs w) -> payloadOk (rw_refs w) p ->
  moves w (snd (runControlledInvocation callRef callCleanup p fake w)).
Proof.
  intros Hw Hp. unfold runControlledInvocation. destruct (mp_ref p) as [| | | | | | |f|]; try by simpl.
  destruct (match mp_action p with Detach => _ | Attach => _ end) as [cleanup|e] eqn:Ec; [|by simpl].
  cbn [pureStep andThen]. destruct cleanup as [[[c handle] source]|].
  - assert (Hh : forall h, handle = Some h -> is_Some (cleanupReturnHandlePayloads (rw_refs w) !! h)).
    { destruct (mp_action p); [done|]. by eapply resolved_handle. }
    unfold runControlledCleanupReturn. pose proof (callCleanup_moves c w) as M.
    destruct (callCleanup c w) as [r w1]. simpl in M |- *. eapply rtc_r; [exact M|]. apply move_consumed.
    intros h Hhandle. destruct (Hh h Hhandle) as [hp Hhp]. exists hp. by apply (proj2 (moves_ok _ _ M Hw)).
  - unfold invokeCallbackRef.
    pose proof (callRef_moves f (match mp_action p with Attach => Some fake | Detach => None end) w) as M.
    destruct (callRef f _ w) as [[v|e] w1]; simpl in M; [|by destruct (mp_action p)].
    destruct (mp_action p); [|by destruct v]. destruct v as [| | | | | | |c|]; try done.
    pose proof (move_kept w1 p c) as M2. destruct (recordRefCleanupReturnHandle p c (rw_refs w1)) as [h s].
    simpl in M2 |- *. by eapply rtc_r.
Qed.

(** The handle of a cleanup that ran was live and is consumed. *)
Lemma cleanup_ran p fake w i w' h : refsOk (rw_refs w) -> payloadOk (rw_refs w) p ->
  runControlledInvocation callRef callCleanup p fake w = (Ok i, w') -> cleanupOf (p, i) = Some h ->
  exists hp, cleanupReturnHandlePayloads (rw_refs w) !! h = Some hp /\ h ∉ consumedCleanupReturnHandles (rw_refs w)
    /\ handleMatches hp (identityOf p) = true /\ ri_cleanupReturn i = Some (rh_cleanupReturn hp)
    /\ h ∈ consumedCleanupReturnHandles (rw_refs w').
Proof.
  intros Hw Hp. unfold runControlledInvocation, cleanupOf. destruct (mp_ref p) as [| | | | | | |f|]; try by intros [= <- <-].
  destruct (match mp_action p with Detach => _ | Attach => _ end) as [cleanup|e] eqn:Ec; [|done].
  cbn [pureStep andThen]. destruct cleanup as [[[c handle] source]|].
  - assert (Hr : forall h, handle = Some h -> exists hp, cleanupReturnHandlePayloads (rw_refs w) !! h = Some hp
      /\ h ∉ consumedCleanupReturnHandles (rw_refs w) /\ handleMatches hp (identityOf p) = true /\ rh_cleanupReturn hp = c).
    { intros h' ->. destruct (mp_action p); [done|]. by eapply resolve_ok. }
    pose proof (cleanup_invocation callCleanup callCleanup_steps c handle source w Hw) as Hi.
    destruct (runControlledCleanupReturn callCleanup c handle source w) as [i' w1].
    destruct Hi as (A1 & A2 & A3 & A4 & A5 & A6 & A7); [intros h' Hh; destruct (Hr h' Hh) as (hp & ? & _); by exists hp|].
    intros [= <- <-]. simpl. rewrite A4, A5. intros Hh. destruct (Hr h Hh) as (hp & B1 & B2 & B3 & B4). exists hp.
    split_and!; try done; [congruence|by apply A3].
  - pose proof (callback_invocation callRef callRef_steps f p fake w Hw) as Hi.
    destruct (invokeCallbackRef callRef f p fake w) as [i' w1]. destruct Hi as (_ & _ & A3 & _).
    intros [= <- <-]. simpl. by rewrite A3.
Qed.

(** So is a run of the gate: a callback may run the gate itself. *)
Lemma gate_moves snapshot w : refsOk (rw_refs w) ->
  moves w (snd (createRefCallbackControlledInvocationGateSnapshot heap hostIn treeIn callRef callCleanup snapshot w)).
Proof.
  intros Hw. unfold createRefCallbackControlledInvocationGateSnapshot.
  destruct (normalizeRootCommitRefMetadataSnapshot (rw_refs w) snapshot) as [m|e] eqn:Em; [|by simpl]. cbn [pureStep andThen].
  destruct (validateMetadataSnapshotAgainstComponentTree heap hostIn treeIn (rw_user w) m) as [l|e] eqn:El; [|by simpl].
  cbn [pureStep andThen]. apply commitLists_ok in Em; [|done]. apply validatedRecords_payloads in El.
  assert (Hl : forall x, x ∈ l -> payloadOk (rw_refs w) (fst x)).
  { intros x Hx. apply Em. rewrite <- El. by apply list_elem_of_fmap_2. }
  clear Em El. assert (M : moves w (snd (runInvocations hostIn callRef callCleanup l w))).
  { induction l as [|x l IH] in w, Hw, Hl |- *; [done|]. cbn [runInvocations].
    assert (Mx : moves w (snd (createControlledInvocationGateRecord hostIn callRef callCleanup x w))).
    { destruct x as [p hn]. unfold createControlledInvocationGateRecord. destruct (refKindForValue (mp_ref p)); [|by simpl].
      destruct (createRefCallbackFakeHostNodeRecord _ _) as [fake|e]; [|by simpl]. cbn [pureStep andThen].
      pose proof (invocation_moves p (fst fake) w Hw (Hl _ ltac:(left))) as M.
      by destruct (runControlledInvocation _ _ _ _ _) as [[i|e] w1]. }
    destruct (createControlledInvocationGateRecord _ _ _ x w) as [[i|e] w1]; simpl in Mx |- *; [|done].
    destruct (moves_ok _ _ Mx Hw) as [Hw1 G1].
    specialize (IH w1 Hw1 ltac:(intros y Hy; eapply payloadOk_grows; [done|]; apply Hl; by right)).
    destruct (runInvocations _ _ _ l w1) as [[rest|e] w2]; simpl in IH |- *; by etrans. }
  by destruct (runInvocations _ _ _ l w) as [[results|e] w1].
Qed.

(** C28: A cleanup that has ended is not run again. Take any state that is reached from the
    module's first one, also one in the middle of an invocation, and any invocation there, of
    a record that the module gave out, that runs a cleanup under a handle to its end, by a
    return or a throw. The cleanup was the function that the handle was recorded with, the
    handle was live and of the record's identity. Afterwards the handle is consumed for good:
    in every later state, in nested calls too, no invocation of a record and no run of the
    gate runs a cleanup under it, and the detach of a callback ref by a record that names it
    throws and does nothing. Callback refs and cleanups are arbitrary up to changing the
    module's state through its operations alone. (While it is still running, a cleanup can be
    started again by itself: the handle is consumed when the call has returned.) *)
Theorem ended_cleanup_not_rerun u w p fake i w' h :
  moves (mkRefWorld u noRefs) w -> issued (rw_refs w) p ->
  runControlledInvocation callRef callCleanup p fake w = (Ok i, w') -> cleanupOf (p, i) = Some h ->
  (exists hp, cleanupReturnHandlePayloads (rw_refs w) !! h = Some hp /\ h ∉ consumedCleanupReturnHandles (rw_refs w)
     /\ handleMatches hp (identityOf p) = true /\ ri_cleanupReturn i = Some (rh_cleanupReturn hp))
  /\ moves w w'
  /\ forall w2, moves w' w2 ->
     h ∈ consumedCleanupReturnHandles (rw_refs w2)
     /\ (forall q fake' j w3, issued (rw_refs w2) q ->
          runControlledInvocation callRef callCleanup q fake' w2 = (Ok j, w3) -> cleanupOf (q, j) <> Some h)
     /\ (forall snapshot results metrics w3,
          createRefCallbackControlledInvocationGateSnapshot heap hostIn treeIn callRef callCleanup snapshot w2
            = (Ok (results, metrics), w3) -> h ∉ cleaned results)
     /\ (forall q f fake', issued (rw_refs w2) q -> mp_action q = Detach -> mp_ref q = VFun f -> mp_refCleanupHandle q = Some h ->
          runControlledInvocation callRef callCleanup q fake' w2 = (refGateError "CONSUMED_REF_CLEANUP_HANDLE", w2)).
Proof.
  intros R Hp Hrun Hh. destruct (moves_ok _ _ R noRefs_ok) as [Hw _]. pose proof (issued_ok _ _ Hw Hp) as Hpok.
  pose proof (invocation_moves p fake w Hw Hpok) as M. rewrite Hrun in M. cbn [snd] in M.
  destruct (cleanup_ran p fake w i w' h Hw Hpok Hrun Hh) as (hp & H1 & H2 & H3 & H4 & H5).
  split; [by exists hp|]. split; [exact M|]. intros w2 M2. destruct (moves_ok _ _ M Hw) as [Hw' _].
  destruct (moves_ok _ _ M2 Hw') as [Hw2 G2]. pose proof (gr_consumed _ _ G2 _ H5) as Hc. split; [exact Hc|]. split_and!.
  - intros q fake' j w3 Hq Hrun' Hh'.
    by destruct (cleanup_ran q fake' w2 j w3 h Hw2 (issued_ok _ _ Hw2 Hq) Hrun' Hh') as (_ & _ & ? & _).
  - intros snapshot results metrics w3 Hgate Hin.
    pose proof (gateTrace_run heap hostIn treeIn callRef callCleanup snapshot w2) as Ht. rewrite Hgate in Ht.
    pose proof (operate_ok heap hostIn treeIn callRef callCleanup callRef_steps callCleanup_steps (InvokeGate snapshot) w2 Hw2) as Ho.
    simpl in Ho. destruct (gateTrace _ _ _ _ _ snapshot w2) as [t w3']. destruct Ht as [-> Ht]. specialize (Ht _ eq_refl).
    injection Ht as -> _. by destruct (tr_consumed _ _ _ Ho h Hin).
  - intros q f fake' Hq Aq Hf Hqh. destruct (issued_ok _ _ Hw2 Hq h Hqh) as (hp2 & E1 & E2).
    unfold runControlledInvocation, resolveRefCleanupForDetachPayload, assertRefCleanupHandleForMetadata.
    by rewrite Hf, Aq, E2, Hqh, E1, bool_decide_eq_true_2.
Qed.
End Nested.
