(* ===== verification/RefCallbacksDemo.v ===== *)
(** * Callback refs at concrete inputs

    The ref of the element 0 of [TreeDemo] is attached once and detached twice. *)
From S2P Require Import Prelude JsValue PropertyPayload DomHost DomTree DomPayload DomCommit DomDemo RootMarkers ComponentTree TreeTargets TreeDemo HydrationMarkers RefCallbacks RefCallbacksSpec.

Definition refHeap (r : ref) : jsobject :=
  match r with User 3 => literal [("ref", VFun (User 7))] | _ => literal [] end.

(** The calls so far: the ref with a node or null, and the cleanup. *)
Inductive refCall : Type := WithNode | WithNull | Cleanup (f : ref).

Definition loggedRef (f : ref) (a : option fakeHostNode) (w : refWorld (list refCall)) : effect (refWorld (list refCall)) value :=
  match a with
  | Some _ => (Ok (VFun (User 8)), mkRefWorld (rw_user w ++ [WithNode]) (rw_refs w))
  | None => (Ok VUndef, mkRefWorld (rw_user w ++ [WithNull]) (rw_refs w))
  end.
Definition loggedCleanup (f : ref) (w : refWorld (list refCall)) : effect (refWorld (list refCall)) value :=
  (Throw (TypeError "cleanup failed"), mkRefWorld (rw_user w ++ [Cleanup f]) (rw_refs w)).

Definition demoRefOptions : refOptions :=
  mkRefOptions (VStr "deleted") rootOwner hostOwner (inr 0%N) (VStr "fiber") (VStr "state node") (VStr "handle")
    (VFun (User 7)) VUndef (inl VUndef) None (VStr "source") VUndef VUndef.
Definition demoSnapshot (detach attach : list (option N)) : snapshotInput :=
  SnapshotObject (Some (Some detach)) (Some (Some attach)).
Definition demoRefOperations : list (refOperation (U := list refCall)) :=
  [CreateRecord Attach (Some demoRefOptions); CreateRecord Detach (Some demoRefOptions);
   InvokeGate (demoSnapshot [] [Some 1%N]); InvokeGate (demoSnapshot [Some 2%N] []); InvokeGate (demoSnapshot [Some 2%N] [])].

Definition demoOperate :=
  operateAll refHeap (fun _ : list refCall => demoDom) (fun _ => demoInstances) loggedRef loggedCleanup demoRefOperations.

Example demo_history :
  rw_user (snd (demoOperate (mkRefWorld [] noRefs))) = [WithNode; Cleanup (User 8); WithNull]
  /\ cleaned (fst (demoOperate (mkRefWorld [] noRefs))) = [1%N].
Proof. by vm_compute. Qed.

Abbreviation demoMoves := (rtc (refMove (U := list refCall))).

Lemma logged_moves f a w : demoMoves w (snd (loggedRef f a w)).
Proof. destruct a; apply rtc_once, (move_elsewhere w). Qed.
Lemma logged_cleanup_moves f w : demoMoves w (snd (loggedCleanup f w)).
Proof. apply rtc_once, (move_elsewhere w). Qed.

(** The world in which the ref is attached and its detach is recorded. *)
Abbreviation demoGate := (createRefCallbackControlledInvocationGateSnapshot refHeap (fun _ : list refCall => demoDom)
  (fun _ => demoInstances) loggedRef loggedCleanup).
Definition recordedWorld : refWorld (list refCall) :=
  let w := mkRefWorld [] noRefs in
  let w := mkRefWorld (rw_user w) (snd (createRefCallbackMetadataRecord Attach (Some demoRefOptions) (rw_refs w))) in
  mkRefWorld (rw_user w) (snd (createRefCallbackMetadataRecord Detach (Some demoRefOptions) (rw_refs w))).
Definition attachedWorld : refWorld (list refCall) := snd (demoGate (demoSnapshot [] [Some 1%N]) recordedWorld).

Lemma recorded_moves : demoMoves (mkRefWorld [] noRefs) recordedWorld.
Proof. eapply rtc_l; [apply (move_record _ Attach (Some demoRefOptions))|]. apply rtc_once, (move_record _ Detach (Some demoRefOptions)). Qed.

Lemma attached_moves : demoMoves (mkRefWorld [] noRefs) attachedWorld.
Proof.
  transitivity recordedWorld; [exact recorded_moves|].
  apply (gate_moves refHeap (fun _ : list refCall => demoDom) (fun _ => demoInstances) loggedRef loggedCleanup logged_moves logged_cleanup_moves).
  exact (proj1 (moves_ok _ _ recorded_moves noRefs_ok)).
Qed.

Lemma ended_cleanup_not_rerun_witness :
  exists p i w', runControlledInvocation loggedRef loggedCleanup p (FakeText "text") attachedWorld = (Ok i, w')
  /\ rw_user w' = [WithNode; Cleanup (User 8)]
  /\ (forall snapshot results metrics w3, demoGate snapshot w' = (Ok (results, metrics), w3) -> 1%N ∉ cleaned results)
  /\ 1%N ∈ consumedCleanupReturnHandles (rw_refs w').
Proof.
  assert (Hrun : match metadataRecordPayloads (rw_refs attachedWorld) !! 2%N with
    | Some p => match runControlledInvocation loggedRef loggedCleanup p (FakeText "text") attachedWorld with
                | (Ok i, w') => (cleanupOf (p, i), rw_user w') | _ => (None, []) end
    | None => (None, []) end = (Some 1%N, [WithNode; Cleanup (User 8)])) by (vm_compute; reflexivity).
  destruct (metadataRecordPayloads (rw_refs attachedWorld) !! 2%N) as [p|] eqn:Ep; [|discriminate].
  destruct (runControlledInvocation loggedRef loggedCleanup p (FakeText "text") attachedWorld) as [[i|e] w'] eqn:Er; [|discriminate].
  injection Hrun as Hc Hu. exists p, i, w'.
  destruct (ended_cleanup_not_rerun refHeap (fun _ : list refCall => demoDom) (fun _ => demoInstances) loggedRef loggedCleanup
    logged_moves logged_cleanup_moves [] attachedWorld p (FakeText "text") i w' 1%N attached_moves
    (or_introl (ex_intro _ 2%N Ep)) Er Hc) as (_ & _ & H).
  destruct (H w' (rtc_refl _ _)) as (H1 & _ & H2 & _). split; [exact Er|]. split; [exact Hu|]. split; [exact H2|exact H1].
Defined.

(** A cleanup that detaches its own ref again. *)
Definition reentrantCleanup (f : ref) (w : refWorld (list refCall)) : effect (refWorld (list refCall)) value :=
  let '(_, w) := createRefCallbackControlledInvocationGateSnapshot refHeap (fun _ : list refCall => demoDom)
                   (fun _ => demoInstances) loggedRef loggedCleanup (demoSnapshot [Some 2%N] []) w in
  loggedCleanup f w.

(** The handle is marked as consumed when the cleanup has returned: the cleanup runs twice. *)
Theorem reentrant_cleanup_runs_twice :
  let '(t, w) := operateAll refHeap (fun _ : list refCall => demoDom) (fun _ => demoInstances) loggedRef reentrantCleanup
                   (take 4 demoRefOperations) (mkRefWorld [] noRefs) in
  rw_user w = [WithNode; Cleanup (User 8); Cleanup (User 8)] /\ cleaned t = [1%N]
  /\ count_occ N.eq_dec (consumedCleanupReturnHandles (rw_refs w)) 1%N = 2.
Proof. by vm_compute. Qed.
