(* ===== verification/HydrationDemo.v ===== *)
(** * Hydration markers at concrete inputs

    A page that is only read: the container 0 has the children 1 (a pending boundary's
    comment), 2 (its template) and 3 (the boundary's end), and the template the text 4. *)
From S2P Require Import Prelude JsValue PropertyPayload DomHost DomPayload DomTree ComponentTree HydrationMarkers HydrationMarkersSpec.

(** A host whose nodes are only read. *)
Definition readingHost {Node D : Type} (read : D -> Node -> string -> value) (attribute : D -> Node -> string -> value)
    (owner : D -> Node -> option Node) : Host Node D := {|
  hasMethod _ _ name := bool_decide (name = "getAttribute");
  hasProperty _ _ _ := false;
  readProperty d n name := Ok (read d n name);
  writeProperty _ _ _ d := (Ok tt, d);
  callSetAttribute _ _ _ d := (Ok tt, d);
  callRemoveAttribute _ _ d := (Ok tt, d);
  callHasAttribute _ _ _ := Ok VUndef;
  callGetAttribute d n name := Ok (attribute d n name);
  attributesMap _ _ := None;
  styleIsObject _ _ := false;
  styleHasMethod _ _ _ := false;
  callSetStyleProperty _ _ _ d := (Ok tt, d);
  callGetPropertyValue _ _ _ := Ok VUndef;
  stylePropertiesMap _ _ := None;
  readStyle _ _ _ := Ok VUndef;
  writeStyle _ _ _ d := (Ok tt, d);
  parentNode _ _ := None;
  firstChild _ _ := None;
  lastChild _ _ := None;
  childNodes _ _ := None;
  ownerDocument := owner;
  writeParentNode _ _ d := (Ok tt, d);
  writeChildNodes _ _ d := (Ok tt, d);
  callAppendChild _ c d := (Ok c, d);
  callInsertBefore _ c _ d := (Ok c, d);
  callRemoveChild _ c d := (Ok c, d);
  callCreateElement _ _ d := (Ok (inl VNull), d);
  callCreateTextNode _ _ d := (Ok (inl VNull), d) |}.

Definition nodeTypeValue (t : Z) : value := VNum (Finite t 0).

(** A page: the data of comments, by node, and the children of nodes. *)
Record page : Type := mkPage {
  comments : list (nat * string);
  templates : list (nat * string);
  below : list (nat * list nat) }.

Definition find {A} (n : nat) (l : list (nat * A)) : option A :=
  snd <$> List.find (fun p => (fst p =? n)%nat) l.

Definition readPage (p : page) (n : nat) (name : string) : value :=
  match find n (comments p), find n (templates p) with
  | Some data, _ => if bool_decide (name = "nodeType") then nodeTypeValue 8
                    else if bool_decide (name = "data") then VStr data else VUndef
  | None, Some _ => if bool_decide (name = "nodeType") then nodeTypeValue 1
                    else if bool_decide (name = "nodeName") then VStr "TEMPLATE" else VUndef
  | None, None => if bool_decide (name = "nodeType") then nodeTypeValue (if decide (n = 0) then 1 else 3) else VUndef
  end.
Definition pageAttribute (p : page) (n : nat) (name : string) : value :=
  match find n (templates p) with
  | Some id => if bool_decide (name = "id") then VStr id else VNull
  | None => VNull
  end.
#[export] Instance pageHost : Host nat page := readingHost readPage pageAttribute (fun _ _ => None).

Definition pageItems (p : page) (n : nat) : option (list (domArg nat)) := map inr <$> find n (below p).
Definition noAttributes (p : page) (n : nat) : option attributesObject := None.
Definition noOwn (p : page) (n : nat) (name : string) : option value := None.

(** Contracts for the start and the end of a pending boundary. *)
Definition markerHeap (r : ref) : jsobject :=
  match r with
  | User 1 => literal [("id", VStr "suspense-pending-start"); ("commentData", VStr "$?");
                       ("companionNode", VStr "template placeholder with boundary id")]
  | _ => literal [("id", VStr "suspense-end"); ("commentData", VStr "/$"); ("companionNode", VNull)]
  end.
Definition demoContracts : option (list value) := Some [VObj (User 1); VObj (User 2)].

Definition demoPage : page := mkPage [(1, "$?"); (3, "/$")] [(2, "app:B:1f")] [(0, [1; 2; 3]); (2, [4])].
(** The same page without the template. *)
Definition brokenPage : page := mkPage [(1, "$?"); (3, "/$")] [] [(0, [1; 3])].

Abbreviation inspectPage := (inspectHydrationContainerMarkers markerHeap pageItems noAttributes noOwn).

Definition diagnosticsOf (o : option (res diagnostics)) : diagnostics :=
  match o with Some (Ok dg) => dg | _ => mkDiagnostics (mkDescription "" VNull VNull) 0 0 0 0 0 0 [] [] [] end.
Definition demoDiagnostics : diagnostics := diagnosticsOf (inspectPage 5 demoPage (inr 0) demoContracts).

Example demo_rows :
  map row_path (dg_markers demoDiagnostics) = ["container.childNodes[0]"; "container.childNodes[2]"]
  /\ dg_nodeCount demoDiagnostics = 4.
Proof. by vm_compute. Qed.

Lemma marker_paths_resolve_witness :
  length (dg_markers demoDiagnostics) = 2
  /\ NoDup (map row_path (dg_markers demoDiagnostics) ++ map unrecognizedPath (dg_unrecognizedMarkers demoDiagnostics)).
Proof.
  split; [by vm_compute|].
  apply (marker_paths_resolve markerHeap pageItems noAttributes noOwn 5 demoPage 0 demoContracts demoDiagnostics).
  by vm_compute.
Defined.

Lemma demo_kid x y : kid pageItems demoPage x y <-> x = 0 /\ y ∈ [1; 2; 3] \/ x = 2 /\ y ∈ [4].
Proof.
  assert (Hinr : forall l : list nat, @inr value nat y ∈ map inr l <-> y ∈ l).
  { intros l. rewrite list_elem_of_fmap. split; [by intros (z & [= ->] & ?)|by exists y]. }
  unfold kid. destruct x as [|[|[|x]]].
  - change (readChildNodes pageItems demoPage 0) with (@inr value nat <$> [1; 2; 3]). rewrite Hinr. intuition lia.
  - change (readChildNodes pageItems demoPage 1) with (@nil (domArg nat)). split; [by intros ?%not_elem_of_nil|lia].
  - change (readChildNodes pageItems demoPage 2) with (@inr value nat <$> [4]). rewrite Hinr. intuition lia.
  - change (readChildNodes pageItems demoPage (S (S (S x)))) with (@nil (domArg nat)).
    split; [by intros ?%not_elem_of_nil|lia].
Qed.

Definition demoNodes : gset nat := {[1; 2; 3; 4]}.
Lemma demo_nodes y : y ∈ demoNodes <-> y = 1 \/ y = 2 \/ y = 3 \/ y = 4.
Proof. unfold demoNodes. rewrite !elem_of_union, !elem_of_singleton. tauto. Qed.

Lemma demo_below y : y ∈ demoNodes <-> tc (kid pageItems demoPage) 0 y.
Proof.
  rewrite demo_nodes. split.
  - intros H. destruct (decide (y = 4)) as [->|Hy].
    + apply (tc_l _ _ 2); [|apply tc_once]; apply demo_kid; rewrite !elem_of_cons; auto.
    + apply tc_once, demo_kid. left. split; [done|]. rewrite !elem_of_cons. intuition.
  - generalize 0 at 1 as root. intros root H. induction H as [x z H|x z w _ _ IH]; [|exact IH].
    apply demo_kid in H. rewrite !elem_of_cons in H.
    destruct H as [[_ [H|[H|[H|H]]]]|[_ [H|H]]]; try lia; by apply not_elem_of_nil in H.
Qed.

Lemma hydration_scan_counts_witness :
  exists o, inspectPage 5 demoPage (inr 0) demoContracts = Some o
    /\ match o with Ok dg => dg_nodeCount dg = 4 /\ dg_acceptedMarkerCount dg = length (dg_markers dg)
       | Throw _ => True end.
Proof.
  destruct (hydration_scan_counts markerHeap pageItems noAttributes noOwn 5 demoPage 0 demoContracts
    demoNodes demo_below ltac:(vm_compute; lia)) as (o & H & Hc).
  exists o. split; [exact H|]. destruct o; [|done]. destruct Hc as (H1 & H2 & _). split; [rewrite H1; by vm_compute|exact H2].
Defined.

(** The path of a companion is remembered even when there is no companion: the marker after
    a pending start without its template is neither accepted nor reported. *)
Theorem missing_companion_hides_marker :
  let dg := diagnosticsOf (inspectPage 5 brokenPage (inr 0) demoContracts) in
  dg_nodeCount dg = 2 /\ map row_path (dg_markers dg) = ["container.childNodes[0]"]
  /\ dg_unrecognizedMarkers dg = []
  /\ exists contracts, normalizeAcceptedMarkerContracts markerHeap demoContracts = Ok contracts
       /\ isSome (findCommentContract contracts (Some "/$")) = true.
Proof. split; [by vm_compute|]. split; [by vm_compute|]. split; [by vm_compute|]. eexists. by split; [reflexivity|vm_compute]. Qed.
