(* ===== verification/Events.v ===== *)
(** * Event names, flags and priorities

    The tables of react-dom's event system: client-visible native events
    (events/event-names.js), the flags of a listener (events/event-system-flags.js), the
    priority of an event and the record of a listener wrapper (events/event-priorities.js,
    events/react-dom-event-listener.js). *)
From S2P Require Import Prelude JsValue.

(** ** Names (event-names.js) *)

Definition allNativeEvents : list string :=
  ["abort"; "animationend"; "animationiteration"; "animationstart"; "auxclick"; "beforetoggle";
   "cancel"; "canplay"; "canplaythrough"; "change"; "click"; "close"; "compositionend";
   "compositionstart"; "compositionupdate"; "contextmenu"; "copy"; "cut"; "dblclick"; "drag";
   "dragend"; "dragenter"; "dragexit"; "dragleave"; "dragover"; "dragstart"; "drop";
   "durationchange"; "emptied"; "encrypted"; "ended"; "error"; "focusin"; "focusout";
   "gotpointercapture"; "input"; "invalid"; "keydown"; "keypress"; "keyup"; "load"; "loadeddata";
   "loadedmetadata"; "loadstart"; "lostpointercapture"; "mousedown"; "mousemove"; "mouseout";
   "mouseover"; "mouseup"; "paste"; "pause"; "play"; "playing"; "pointercancel"; "pointerdown";
   "pointermove"; "pointerout"; "pointerover"; "pointerup"; "progress"; "ratechange"; "reset";
   "resize"; "scroll"; "scrollend"; "seeked"; "seeking"; "selectionchange"; "stalled"; "submit";
   "suspend"; "textInput"; "timeupdate"; "toggle"; "touchcancel"; "touchend"; "touchmove";
   "touchstart"; "transitioncancel"; "transitionend"; "transitionrun"; "transitionstart";
   "volumechange"; "waiting"; "wheel"].

Definition mediaEventTypes : list string :=
  ["abort"; "canplay"; "canplaythrough"; "durationchange"; "emptied"; "encrypted"; "ended"; "error";
   "loadeddata"; "loadedmetadata"; "loadstart"; "pause"; "play"; "playing"; "progress"; "ratechange";
   "resize"; "seeked"; "seeking"; "stalled"; "suspend"; "timeupdate"; "volumechange"; "waiting"].

Definition nonDelegatedEvents : list string :=
  ["beforetoggle"; "cancel"; "close"; "invalid"; "load"; "scroll"; "scrollend"; "toggle"]
    ++ mediaEventTypes.

Definition passiveBrowserEvents : list string := ["touchstart"; "touchmove"; "wheel"].

Definition isKnownNativeEvent (domEventName : string) : bool := bool_decide (domEventName ∈ allNativeEvents).
Definition isNonDelegatedEvent (domEventName : string) : bool :=
  bool_decide (domEventName ∈ nonDelegatedEvents).
Definition isPassiveBrowserEvent (domEventName : string) : bool :=
  bool_decide (domEventName ∈ passiveBrowserEvents).

(** ** Flags (event-system-flags.js) *)

Definition IS_EVENT_HANDLE_NON_MANAGED_NODE : N := 1.
Definition IS_NON_DELEGATED : N := N.shiftl 1 1.
Definition IS_CAPTURE_PHASE : N := N.shiftl 1 2.
Definition IS_PASSIVE : N := N.shiftl 1 3.
Definition IS_LEGACY_FB_SUPPORT_MODE : N := N.shiftl 1 4.

Definition SHOULD_NOT_DEFER_CLICK_FOR_FB_SUPPORT_MODE : N := N.lor IS_LEGACY_FB_SUPPORT_MODE IS_CAPTURE_PHASE.
Definition SHOULD_NOT_PROCESS_POLYFILL_EVENT_PLUGINS : N :=
  N.lor (N.lor IS_EVENT_HANDLE_NON_MANAGED_NODE IS_NON_DELEGATED) IS_CAPTURE_PHASE.

Definition hasEventSystemFlag (eventSystemFlags flag : N) : bool := negb (N.land eventSystemFlags flag =? 0)%N.
Definition isCapturePhase (eventSystemFlags : N) : bool := hasEventSystemFlag eventSystemFlags IS_CAPTURE_PHASE.
Definition isNonDelegatedEventSystem (eventSystemFlags : N) : bool :=
  hasEventSystemFlag eventSystemFlags IS_NON_DELEGATED.
Definition isEventHandleNonManagedNode (eventSystemFlags : N) : bool :=
  hasEventSystemFlag eventSystemFlags IS_EVENT_HANDLE_NON_MANAGED_NODE.
Definition shouldProcessPolyfillEventPlugins (eventSystemFlags : N) : bool :=
  (N.land eventSystemFlags SHOULD_NOT_PROCESS_POLYFILL_EVENT_PLUGINS =? 0)%N.

(** ** Priorities (event-priorities.js) *)

Definition NoEventPriority : N := 0.
Definition DiscreteEventPriority : N := 2.
Definition ContinuousEventPriority : N := 8.
Definition DefaultEventPriority : N := 32.
Definition IdleEventPriority : N := 268435456.

Definition ImmediateSchedulerPriority : Z := 1.
Definition UserBlockingSchedulerPriority : Z := 2.
Definition NormalSchedulerPriority : Z := 3.
Definition LowSchedulerPriority : Z := 4.
Definition IdleSchedulerPriority : Z := 5.

Definition discreteEventNames : list string :=
  ["beforetoggle"; "cancel"; "click"; "close"; "contextmenu"; "copy"; "cut"; "auxclick"; "dblclick";
   "dragend"; "dragstart"; "drop"; "focusin"; "focusout"; "input"; "invalid"; "keydown"; "keypress";
   "keyup"; "mousedown"; "mouseup"; "paste"; "pause"; "play"; "pointercancel"; "pointerdown";
   "pointerup"; "ratechange"; "reset"; "resize"; "seeked"; "submit"; "toggle"; "touchcancel";
   "touchend"; "touchstart"; "volumechange"; "change"; "selectionchange"; "textInput";
   "compositionstart"; "compositionend"; "compositionupdate"; "beforeblur"; "afterblur";
   "beforeinput"; "blur"; "fullscreenchange"; "focus"; "hashchange"; "popstate"; "select";
   "selectstart"].

Definition continuousEventNames : list string :=
  ["drag"; "dragenter"; "dragexit"; "dragleave"; "dragover"; "mousemove"; "mouseout"; "mouseover";
   "pointermove"; "pointerout"; "pointerover"; "scroll"; "touchmove"; "wheel"; "mouseenter";
   "mouseleave"; "pointerenter"; "pointerleave"].

Definition schedulerPriorityToEventPriority (schedulerPriority : value) : N :=
  let equals z := strictEq schedulerPriority (VNum (Finite z 0)) in
  if equals ImmediateSchedulerPriority then DiscreteEventPriority
  else if equals UserBlockingSchedulerPriority then ContinuousEventPriority
  else if equals NormalSchedulerPriority || equals LowSchedulerPriority then DefaultEventPriority
  else if equals IdleSchedulerPriority then IdleEventPriority
  else DefaultEventPriority.

(** The options of an event: its own [schedulerPriority], and what calling its
    [getCurrentSchedulerPriorityLevel] gives when that is a function. *)
Record priorityOptions : Type := mkPriorityOptions {
  po_schedulerPriority : option value;
  po_getCurrentSchedulerPriorityLevel : option (res value) }.

Definition resolveCurrentSchedulerPriority (options : option priorityOptions) : res value :=
  match options with
  | Some (mkPriorityOptions (Some p) _) => Ok p
  | Some (mkPriorityOptions None (Some r)) => r
  | _ => Ok (VNum (Finite NormalSchedulerPriority 0))
  end.

Definition getEventPriority (domEventName : string) (options : option priorityOptions) : res N :=
  if bool_decide (domEventName ∈ discreteEventNames) then Ok DiscreteEventPriority
  else if bool_decide (domEventName ∈ continuousEventNames) then Ok ContinuousEventPriority
  else if bool_decide (domEventName = "message") then
    let* p := resolveCurrentSchedulerPriority options in Ok (schedulerPriorityToEventPriority p)
  else Ok DefaultEventPriority.

Definition eventPriorityNames : list (N * string) :=
  [(NoEventPriority, "NoEventPriority"); (DiscreteEventPriority, "DiscreteEventPriority");
   (ContinuousEventPriority, "ContinuousEventPriority"); (DefaultEventPriority, "DefaultEventPriority");
   (IdleEventPriority, "IdleEventPriority")].
Definition eventPriorityLabels : list (N * string) :=
  [(NoEventPriority, "none"); (DiscreteEventPriority, "discrete"); (ContinuousEventPriority, "continuous");
   (DefaultEventPriority, "default"); (IdleEventPriority, "idle")].
Definition labelOf (table : list (N * string)) (priority : N) (otherwise : string) : string :=
  match List.find (fun p => (fst p =? priority)%N) table with Some (_, s) => s | None => otherwise end.

Definition getEventPriorityName (priority : N) : string := labelOf eventPriorityNames priority "DefaultEventPriority".
Definition getEventPriorityLabel (priority : N) : string := labelOf eventPriorityLabels priority "default".
Definition eventPriorityToLane (updatePriority : N) : N := updatePriority.

Record priorityRecord : Type := mkPriorityRecord {
  pr_domEventName : string;
  pr_eventPriority : N;
  pr_eventPriorityLabel : string;
  pr_eventPriorityLane : N;
  pr_eventPriorityName : string }.
Definition createEventPriorityRecordFromPriority (domEventName : string) (eventPriority : N) : priorityRecord :=
  mkPriorityRecord domEventName eventPriority (getEventPriorityLabel eventPriority)
    (eventPriorityToLane eventPriority) (getEventPriorityName eventPriority).
Definition createEventPriorityRecord (domEventName : string) (options : option priorityOptions) : res priorityRecord :=
  let* p := getEventPriority domEventName options in Ok (createEventPriorityRecordFromPriority domEventName p).

(** ** Listener wrappers (react-dom-event-listener.js) *)

(** The listener function of a wrapper is its identity, which the registry keeps. *)
Record wrapperRecord {Node : Type} : Type := mkWrapper {
  wr_dispatcherName : string;
  wr_domEventName : string;
  wr_eventPriority : N;
  wr_eventPriorityLabel : string;
  wr_eventPriorityLane : N;
  wr_eventPriorityName : string;
  wr_eventSystemFlags : N;
  wr_priorityRecord : priorityRecord;
  wr_targetContainer : Node;
  wr_wrapperKind : string }.
Arguments wrapperRecord Node : clear implicits.
Arguments mkWrapper {Node}.

Definition createInertEventListenerWrapperRecord {Node : Type} (dispatcherName wrapperKind : string)
    (eventPriority : N) (targetContainer : Node) (domEventName : string) (eventSystemFlags : N) :
    wrapperRecord Node :=
  mkWrapper dispatcherName domEventName eventPriority (getEventPriorityLabel eventPriority)
    (eventPriorityToLane eventPriority) (getEventPriorityName eventPriority) eventSystemFlags
    (createEventPriorityRecordFromPriority domEventName eventPriority) targetContainer wrapperKind.

Definition createEventListenerWrapperRecord {Node : Type} (targetContainer : Node) (domEventName : string)
    (eventSystemFlags : N) : wrapperRecord Node :=
  createInertEventListenerWrapperRecord "dispatchEvent" "default" DefaultEventPriority
    targetContainer domEventName eventSystemFlags.

Definition createEventListenerWrapperRecordWithPriority {Node : Type} (targetContainer : Node)
    (domEventName : string) (eventSystemFlags : N) (options : option priorityOptions) : res (wrapperRecord Node) :=
  let* eventPriority := getEventPriority domEventName options in
  Ok (if (eventPriority =? DiscreteEventPriority)%N then
        createInertEventListenerWrapperRecord "dispatchDiscreteEvent" "discrete" eventPriority
          targetContainer domEventName eventSystemFlags
      else if (eventPriority =? ContinuousEventPriority)%N then
        createInertEventListenerWrapperRecord "dispatchContinuousEvent" "continuous" eventPriority
          targetContainer domEventName eventSystemFlags
      else
        createInertEventListenerWrapperRecord "dispatchEvent" "default" eventPriority
          targetContainer domEventName eventSystemFlags).
