(* ===== verification/ListenerRegistry.v ===== *)
(** * The listener registry (events/listener-registry.js)

    The two private properties of an event target (the set of the listener keys that are
    installed on it, and the marker of a target that listens), and the queues of private
    listener entries. The properties are finite maps by target; a record is known by its
    identity. *)
From S2P Require Import Prelude JsValue DomHost Events.

(** An event target of the browser or of a test: its listener methods, and the length of
    its array [__registrations] when it has one. *)
Inductive listenerOptions : Type :=
| CaptureOption (capture : bool)
| ObjectOptions (capture passive : bool).

Class EventHost (Node D : Type) : Type := {
  hasAddEventListener : D -> Node -> bool;
  hasRemoveEventListener : D -> Node -> bool;
  callAddEventListener : Node -> string -> N -> listenerOptions -> D -> effect D unit;
  callRemoveEventListener : Node -> string -> N -> listenerOptions -> D -> effect D unit;
  registrationsLength : D -> Node -> option nat }.

(** [`${domEventName}__${capture ? 'capture' : 'bubble'}`] *)
Definition getListenerSetKey (domEventName : string) (capture : bool) : string :=
  domEventName +:+ "__" +:+ (if capture then "capture" else "bubble").

Section Registry.
Context {Node D : Type} `{!EqDecision Node} `{!Countable Node} `{!EventHost Node D}.
Implicit Types (d : D) (n : Node).

(** [eventHandlers] holds [target[internalEventHandlersKey]], [listeningMarkers] holds
    [target[internalListeningMarker]]. *)
Record targetState : Type := mkTargets {
  eventHandlers : gmap Node (gset string);
  listeningMarkers : gmap Node value }.

Definition assertEventTarget d (target : domArg Node) : res Node :=
  match target with
  | inr n => if hasAddEventListener d n then Ok n else hostError "FAST_REACT_DOM_INVALID_EVENT_TARGET"
  | inl _ => hostError "FAST_REACT_DOM_INVALID_EVENT_TARGET"
  end.

(** The set is made when it is missing. *)
Definition getEventListenerSet d n (t : targetState) : effect targetState (gset string) :=
  do* _, t := pureStep (assertEventTarget d (inr n)) t in
  match eventHandlers t !! n with
  | Some listenerSet => (Ok listenerSet, t)
  | None => (Ok ∅, mkTargets (<[n := ∅]> (eventHandlers t)) (listeningMarkers t))
  end.

Definition addListenerKey n (key : string) (t : targetState) : targetState :=
  mkTargets (<[n := {[key]} ∪ default ∅ (eventHandlers t !! n)]> (eventHandlers t)) (listeningMarkers t).

Definition markTargetAsListening d n (t : targetState) : effect targetState unit :=
  do* _, t := pureStep (assertEventTarget d (inr n)) t in
  (Ok tt, mkTargets (eventHandlers t) (<[n := VBool true]> (listeningMarkers t))).

Definition hasListeningMarker (t : targetState) (target : option Node) : bool :=
  match target with
  | Some n => truthy (default VUndef (listeningMarkers t !! n))
  | None => false
  end.

Record listeningMarkerInfo : Type := mkMarkerInfo {
  li_inspectable : bool;
  li_propertyCount : nat;
  li_trueValueCount : nat }.
Definition inspectListeningMarker (t : targetState) n : listeningMarkerInfo :=
  match listeningMarkers t !! n with
  | None => mkMarkerInfo true 0 0
  | Some v => mkMarkerInfo true 1 (if bool_decide (v = VBool true) then 1 else 0)
  end.

(** ** Private listener queues *)

Record queueEntryPayload : Type := mkQueuePayload {
  qp_active : bool;
  qp_capture : bool;
  qp_domEventName : string;
  qp_listener : ref;
  qp_listenerSetKey : string;
  qp_target : Node }.
Record queueEntryRecord : Type := mkQueueRecord {
  qr_capture : bool;
  qr_domEventName : string;
  qr_listenerQueueIndex : nat;
  qr_listenerQueueKey : string;
  qr_listenerType : string }.

Record queueState : Type := mkQueues {
  nextEntry : N;
  privateEventListenerQueuesByTarget : gmap Node (list N);
  privateEventListenerQueueEntryPayloads : gmap N (queueEntryPayload * queueEntryRecord) }.

Definition emptyQueues : queueState := mkQueues 0 ∅ ∅.

Definition INVALID_PRIVATE_EVENT_LISTENER_QUEUE_ENTRY_CODE : string :=
  "FAST_REACT_DOM_INVALID_PRIVATE_EVENT_LISTENER_QUEUE_ENTRY".

(** An argument that is no record is [None]. *)
Definition getPrivateEventListenerQueueEntryPayload (q : queueState) (record : option N) :
    option (queueEntryPayload * queueEntryRecord) :=
  r ← record; privateEventListenerQueueEntryPayloads q !! r.
Definition isPrivateEventListenerQueueEntryRecord (q : queueState) (record : option N) : bool :=
  isSome (getPrivateEventListenerQueueEntryPayload q record).

(** The entries of a queue that are active for an event and phase. *)
Definition entryMatches (q : queueState) (domEventName : value) (capture : bool) (entry : N) : bool :=
  match privateEventListenerQueueEntryPayloads q !! entry with
  | Some (p, _) => qp_active p && isStr domEventName (qp_domEventName p) && Bool.eqb (qp_capture p) capture
  | None => false
  end.
Definition activeEntries (q : queueState) n (domEventName : value) (capture : bool) : list N :=
  List.filter (entryMatches q domEventName capture) (default [] (privateEventListenerQueuesByTarget q !! n)).

(** [listenerType] is the option's value when the options are an object. *)
Definition registerPrivateEventListenerQueueEntry (target : domArg Node) (domEventName : value)
    (capture : value) (listener : value) (listenerType : option value) (q : queueState) :
    effect queueState N :=
  let fail := (hostError INVALID_PRIVATE_EVENT_LISTENER_QUEUE_ENTRY_CODE, q) in
  match target, domEventName, listener with
  | inr n, VStr name, VFun f =>
      if bool_decide (name = "") then fail
      else
        let inCapturePhase := bool_decide (capture = VBool true) in
        let key := getListenerSetKey name inCapturePhase in
        let targetQueue := default [] (privateEventListenerQueuesByTarget q !! n) in
        let record := mkQueueRecord inCapturePhase name
                        (length (activeEntries q n domEventName inCapturePhase)) key
                        (match listenerType with Some (VStr s) => s | _ => "private-event-listener-queue" end) in
        let id := nextEntry q in
        (Ok id,
         mkQueues (id + 1) (<[n := targetQueue ++ [id]]> (privateEventListenerQueuesByTarget q))
           (<[id := (mkQueuePayload true inCapturePhase name f key n, record)]>
              (privateEventListenerQueueEntryPayloads q)))
  | _, _, _ => fail
  end.

Definition assertPrivateEventListenerQueueEntryRecord (q : queueState) (record : option N) :
    res (N * (queueEntryPayload * queueEntryRecord)) :=
  match (r ← record; p ← privateEventListenerQueueEntryPayloads q !! r; Some (r, p)) with
  | Some x => Ok x
  | None => hostError INVALID_PRIVATE_EVENT_LISTENER_QUEUE_ENTRY_CODE
  end.

Definition removePrivateEventListenerQueueEntry (record : option N) (q : queueState) :
    effect queueState bool :=
  do* x, q := pureStep (assertPrivateEventListenerQueueEntryRecord q record) q in
  let '(r, (p, visible)) := x in
  if qp_active p then
    (Ok true,
     mkQueues (nextEntry q) (privateEventListenerQueuesByTarget q)
       (<[r := (mkQueuePayload false (qp_capture p) (qp_domEventName p) (qp_listener p)
                  (qp_listenerSetKey p) (qp_target p), visible)]> (privateEventListenerQueueEntryPayloads q)))
  else (Ok false, q).

Definition getPrivateEventListenerQueueEntries (q : queueState) (target : domArg Node)
    (domEventName : value) (capture : value) : list N :=
  match target with
  | inl _ => []
  | inr n => activeEntries q n domEventName (bool_decide (capture = VBool true))
  end.
End Registry.
Arguments targetState Node {EqDecision0 Countable0}.
Arguments queueState Node {EqDecision0 Countable0}.
