(* ===== verification/RootListeners.v ===== *)
(** * Root listeners (events/root-listeners.js)

    Installing the listeners of a root on its container and on the container's document,
    with a record by which the installation can be undone, the undoing, and what a portal
    would install. The state is the host with its event targets, the registry's target
    properties, and the records. The private dispatch and currentness gates of the file are
    not part of it. *)
From S2P Require Import Prelude JsValue DomHost DomTree Events ListenerRegistry.

(** The native events of a root, with the phases in which it listens. *)
Definition supportedListeners : list (string * bool) :=
  flat_map (fun domEventName =>
    if bool_decide (domEventName = "selectionchange") then []
    else (if isNonDelegatedEvent domEventName then [] else [(domEventName, false)])
           ++ [(domEventName, true)]) allNativeEvents.

(** [options.passiveBrowserEventsSupported]; [None] are no options. *)
Definition passiveSupported (options : option value) : bool :=
  match options with Some v => negb (bool_decide (v = VBool false)) | None => true end.

Definition getAddEventListenerOptions (domEventName : string) (isCapturePhaseListener : bool)
    (options : option value) : listenerOptions :=
  if passiveSupported options && isPassiveBrowserEvent domEventName
  then ObjectOptions isCapturePhaseListener true
  else CaptureOption isCapturePhaseListener.

Record optionsInfo : Type := mkOptionsInfo {
  oi_capture : bool;
  oi_passive : bool;
  oi_type : string }.
Definition describeListenerOptions (options : listenerOptions) : optionsInfo :=
  match options with
  | CaptureOption c => mkOptionsInfo c false "boolean"
  | ObjectOptions c p => mkOptionsInfo c p "object"
  end.

(** [eventSystemFlags |= IS_CAPTURE_PHASE] in the capture phase *)
Definition phaseFlags (isCapturePhaseListener : bool) : N :=
  if isCapturePhaseListener then N.lor 0 IS_CAPTURE_PHASE else 0.

Section RootListeners.
Context {Node D : Type} `{!EqDecision Node} `{!Countable Node} `{!Host Node D} `{!EventHost Node D}.
Implicit Types (d : D) (n : Node).

(** ** Records *)

Record listenerRecord : Type := mkListener {
  lr_domEventName : string;
  lr_eventSystemFlags : N;
  lr_isCapturePhaseListener : bool;
  lr_listener : N;
  lr_listenerOptions : listenerOptions;
  lr_listenerSetKey : string;
  lr_target : Node }.

Record targetInfo : Type := mkTargetInfo {
  tn_browserRegistrationCount : nat;
  tn_browserRegistrationInspectable : bool;
  tn_canInstallListeners : bool;
  tn_eventListenerSetSize : nat;
  tn_listeningMarker : listeningMarkerInfo }.

Record targetSnapshot : Type := mkSnapshot {
  ts_target : Node;
  ts_hadEventHandlersKey : bool;
  ts_hadListeningMarker : bool;
  ts_listeningMarkerValue : value;
  ts_beforeInfo : targetInfo }.

Record listenerSummary : Type := mkSummary {
  lu_domEventName : string;
  lu_eventSystemFlags : N;
  lu_isCapturePhaseListener : bool;
  lu_listenerOptions : optionsInfo;
  lu_listenerSetKey : string;
  lu_targetInfo : containerDescription }.

Record registrationRecord : Type := mkRegistration {
  rg_rootEventTargetInfo : containerDescription;
  rg_ownerDocumentInfo : option containerDescription;
  rg_targetCount : nat;
  rg_registrationCount : nat;
  rg_rootRegistrationCount : nat;
  rg_ownerDocumentRegistrationCount : nat;
  rg_targetSnapshotsBefore : list targetInfo;
  rg_targetSnapshotsAfter : list targetInfo;
  rg_listenerRecords : list listenerSummary }.

Record registrationPayload : Type := mkPayload {
  rp_active : bool;
  rp_installedListeners : list listenerRecord;
  rp_ownerDocument : option Node;
  rp_record : registrationRecord;
  rp_rootContainerElement : Node;
  rp_targetSnapshots : list targetSnapshot }.

Record cleanupSummary : Type := mkCleanupSummary {
  cs_listenerRemovalCount : nat;
  cs_listenerSetKeyRemovalCount : nat;
  cs_restoredTargetCount : nat }.
Record listenerCleanupRecord : Type := mkListenerCleanup {
  lc_summary : cleanupSummary;
  lc_targetSnapshotsAfter : list targetInfo }.

(** [nextListener] numbers the listener functions that were made, [nextRegistration] the
    registration records; both are the keys of their private payloads. *)
Record eventWorld : Type := mkEventWorld {
  ew_host : D;
  ew_targets : targetState Node;
  nextListener : N;
  listenerShells : gmap N (wrapperRecord Node);
  nextRegistration : N;
  rootListenerRegistrationPayloads : gmap N registrationPayload;
  rootListenerCleanupRecords : gmap N listenerCleanupRecord }.

Definition setHost d (w : eventWorld) : eventWorld :=
  mkEventWorld d (ew_targets w) (nextListener w) (listenerShells w) (nextRegistration w)
    (rootListenerRegistrationPayloads w) (rootListenerCleanupRecords w).
Definition setTargets (t : targetState Node) (w : eventWorld) : eventWorld :=
  mkEventWorld (ew_host w) t (nextListener w) (listenerShells w) (nextRegistration w)
    (rootListenerRegistrationPayloads w) (rootListenerCleanupRecords w).

Definition onTargets {A : Type} (f : targetState Node -> effect (targetState Node) A) (w : eventWorld) :
    effect eventWorld A :=
  let '(r, t) := f (ew_targets w) in (r, setTargets t w).
Definition onEventHost {A : Type} (f : D -> effect D A) (w : eventWorld) : effect eventWorld A :=
  let '(r, d) := f (ew_host w) in (r, setHost d w).

(** ** Installing one listener *)

(** The listener of a shell, whose wrapper record is made without options. *)
Definition createEventListenerShell n (domEventName : string) (eventSystemFlags : N) (w : eventWorld) :
    effect eventWorld N :=
  do* wrapper, w := pureStep (createEventListenerWrapperRecordWithPriority n domEventName eventSystemFlags None) w in
  let id := nextListener w in
  (Ok id,
   mkEventWorld (ew_host w) (ew_targets w) (id + 1) (<[id := wrapper]> (listenerShells w))
     (nextRegistration w) (rootListenerRegistrationPayloads w) (rootListenerCleanupRecords w)).

Definition addTrappedEventListenerRecord n (domEventName : string) (eventSystemFlags : N)
    (isCapturePhaseListener : bool) (options : option value) (w : eventWorld) : effect eventWorld listenerRecord :=
  do* listener, w := createEventListenerShell n domEventName eventSystemFlags w in
  let listenerOptions := getAddEventListenerOptions domEventName isCapturePhaseListener options in
  do* _, w := onEventHost (callAddEventListener n domEventName listener listenerOptions) w in
  (Ok (mkListener domEventName eventSystemFlags isCapturePhaseListener listener listenerOptions
         (getListenerSetKey domEventName isCapturePhaseListener) n), w).

(** [Ok None] is null: the listener was there. *)
Definition installOnce n (domEventName : string) (eventSystemFlags : N) (isCapturePhaseListener : bool)
    (options : option value) (w : eventWorld) : effect eventWorld (option listenerRecord) :=
  do* listenerSet, w := onTargets (getEventListenerSet (ew_host w) n) w in
  let key := getListenerSetKey domEventName isCapturePhaseListener in
  if decide (key ∈ listenerSet) then (Ok None, w)
  else
    do* record, w := addTrappedEventListenerRecord n domEventName eventSystemFlags isCapturePhaseListener options w in
    (Ok (Some record), setTargets (addListenerKey n key (ew_targets w)) w).

Definition listenToNativeEventRecord (domEventName : string) (isCapturePhaseListener : bool) n
    (options : option value) (w : eventWorld) : effect eventWorld (option listenerRecord) :=
  do* _, w := pureStep (require (isKnownNativeEvent domEventName) "FAST_REACT_DOM_UNKNOWN_NATIVE_EVENT") w in
  do* _, w := pureStep (require (negb (isNonDelegatedEvent domEventName && negb isCapturePhaseListener))
                          "FAST_REACT_DOM_NON_DELEGATED_BUBBLE_LISTENER") w in
  installOnce n domEventName (phaseFlags isCapturePhaseListener) isCapturePhaseListener options w.

Definition listenToNonDelegatedEventRecord (domEventName : string) n (options : option value)
    (w : eventWorld) : effect eventWorld (option listenerRecord) :=
  do* _, w := pureStep (require (isNonDelegatedEvent domEventName)
                          "FAST_REACT_DOM_EXPECTED_NON_DELEGATED_EVENT") w in
  installOnce n domEventName IS_NON_DELEGATED false options w.

(** ** Snapshots *)

Definition describeListenerTargetSnapshot d (t : targetState Node) n : targetInfo :=
  mkTargetInfo (default 0 (registrationsLength d n)) (isSome (registrationsLength d n))
    (hasAddEventListener d n) (size (default ∅ (eventHandlers t !! n))) (inspectListeningMarker t n).

Definition snapshotListenerTarget (w : eventWorld) n : targetSnapshot :=
  mkSnapshot n (isSome (eventHandlers (ew_targets w) !! n)) (isSome (listeningMarkers (ew_targets w) !! n))
    (default VUndef (listeningMarkers (ew_targets w) !! n))
    (describeListenerTargetSnapshot (ew_host w) (ew_targets w) n).

Definition describeAfter (w : eventWorld) (snapshots : list targetSnapshot) : list targetInfo :=
  map (fun s => describeListenerTargetSnapshot (ew_host w) (ew_targets w) (ts_target s)) snapshots.

Fixpoint uniqueTargets (targets : list (option Node)) (unique : list Node) : list Node :=
  match targets with
  | [] => unique
  | None :: targets => uniqueTargets targets unique
  | Some n :: targets => uniqueTargets targets (if decide (n ∈ unique) then unique else unique ++ [n])
  end.

Definition assertReversibleEventTarget d n : res unit :=
  let* _ := assertEventTarget d (inr n) in
  require (hasRemoveEventListener d n) "FAST_REACT_DOM_LISTENER_REVERT_UNSUPPORTED".

Definition summarizeInstalledListenerRecord d (r : listenerRecord) : res listenerSummary :=
  let* info := describeContainer d (inr (lr_target r)) in
  Ok (mkSummary (lr_domEventName r) (lr_eventSystemFlags r) (lr_isCapturePhaseListener r)
        (describeListenerOptions (lr_listenerOptions r)) (lr_listenerSetKey r) info).

(** ** Undoing *)

Definition removeInstalled (r : listenerRecord) (w : eventWorld) : effect eventWorld bool :=
  let n := lr_target r in
  do* _, w := onEventHost (callRemoveEventListener n (lr_domEventName r) (lr_listener r) (lr_listenerOptions r)) w in
  match eventHandlers (ew_targets w) !! n with
  | Some listenerSet =>
      (Ok true, setTargets (mkTargets (<[n := listenerSet ∖ {[lr_listenerSetKey r]}]> (eventHandlers (ew_targets w)))
                              (listeningMarkers (ew_targets w))) w)
  | None => (Ok false, w)
  end.

(** The removals, last first, and the number of keys removed. *)
Fixpoint removeAll (reversed : list listenerRecord) (keys : nat) (w : eventWorld) : effect eventWorld nat :=
  match reversed with
  | [] => (Ok keys, w)
  | r :: reversed =>
      do* removed, w := removeInstalled r w in removeAll reversed (if removed : bool then S keys else keys) w
  end.

Definition restoreTarget (s : targetSnapshot) (t : targetState Node) : targetState Node :=
  let n := ts_target s in
  let marks := if ts_hadListeningMarker s then <[n := ts_listeningMarkerValue s]> (listeningMarkers t)
               else delete n (listeningMarkers t) in
  let handlers := match eventHandlers t !! n with
    | Some listenerSet =>
        if negb (ts_hadEventHandlersKey s) && bool_decide (size listenerSet = 0)
        then delete n (eventHandlers t) else eventHandlers t
    | None => eventHandlers t
    end in
  mkTargets handlers marks.

Definition cleanupInstalledRootListeners (installed : list listenerRecord) (snapshots : list targetSnapshot)
    (w : eventWorld) : effect eventWorld cleanupSummary :=
  do* keys, w := removeAll (rev installed) 0 w in
  (Ok (mkCleanupSummary (length installed) keys (length snapshots)),
   setTargets (foldl (fun t s => restoreTarget s t) (ew_targets w) snapshots) w).

(** ** Installing the listeners of a root *)

(** The listeners that were installed, with the exception that ended the loop. *)
Fixpoint installPlan (plan : list (string * bool)) n (options : option value)
    (installed : list listenerRecord) (w : eventWorld) : res unit * list listenerRecord * eventWorld :=
  match plan with
  | [] => (Ok tt, installed, w)
  | (domEventName, capture) :: plan =>
      match listenToNativeEventRecord domEventName capture n options w with
      | (Ok r, w) => installPlan plan n options (installed ++ option_list r) w
      | (Throw e, w) => (Throw e, installed, w)
      end
  end.

Definition installRootListeners n (ownerDocument : option Node) (options : option value) (w : eventWorld) :
    res unit * list listenerRecord * eventWorld :=
  match installPlan supportedListeners n options [] w with
  | (Throw e, installed, w) => (Throw e, installed, w)
  | (Ok _, installed, w) =>
      match ownerDocument with
      | None => (Ok tt, installed, w)
      | Some doc =>
          match (do* _, w := onTargets (markTargetAsListening (ew_host w) doc) w in
                 listenToNativeEventRecord "selectionchange" false doc options w) with
          | (Ok r, w) => (Ok tt, installed ++ option_list r, w)
          | (Throw e, w) => (Throw e, installed, w)
          end
      end
  end.

Definition countFor n (installed : list listenerRecord) : nat :=
  length (List.filter (fun r => bool_decide (lr_target r = n)) installed).

(** [Ok None] is the undefined of an installation that cannot be undone. *)
Definition registerSupportedRootListeners n (options : option value) (reversible : bool) (w : eventWorld) :
    effect eventWorld (option N) :=
  do* ownerDocument, w := pureStep (getOwnerDocument (ew_host w) (inr n)) w in
  let targets := uniqueTargets [Some n; ownerDocument] [] in
  do* _, w := pureStep (if reversible then mapRes (assertReversibleEventTarget (ew_host w)) targets else Ok []) w in
  let targetSnapshots := map (snapshotListenerTarget w) targets in
  do* _, w := onTargets (markTargetAsListening (ew_host w) n) w in
  let '(outcome, installedListeners, w) := installRootListeners n ownerDocument options w in
  match outcome with
  | Throw e =>
      if reversible then
        do* _, w := cleanupInstalledRootListeners installedListeners targetSnapshots w in (Throw e, w)
      else (Throw e, w)
  | Ok _ =>
      if negb reversible then (Ok None, w)
      else
        let after := describeAfter w targetSnapshots in
        do* rootInfo, w := pureStep (describeContainer (ew_host w) (inr n)) w in
        do* documentInfo, w := pureStep (match ownerDocument with
                                 | None => Ok None
                                 | Some doc => let* i := describeContainer (ew_host w) (inr doc) in Ok (Some i)
                                 end) w in
        do* summaries, w := pureStep (mapRes (summarizeInstalledListenerRecord (ew_host w)) installedListeners) w in
        let record := mkRegistration rootInfo documentInfo (length targets) (length installedListeners)
          (countFor n installedListeners)
          (match ownerDocument with None => 0 | Some doc => countFor doc installedListeners end)
          (map ts_beforeInfo targetSnapshots) after summaries in
        let id := nextRegistration w in
        (Ok (Some id),
         mkEventWorld (ew_host w) (ew_targets w) (nextListener w) (listenerShells w) (id + 1)
           (<[id := mkPayload true installedListeners ownerDocument record n targetSnapshots]>
              (rootListenerRegistrationPayloads w))
           (rootListenerCleanupRecords w))
  end.

Definition listenToAllSupportedEvents (target : domArg Node) (options : option value) (w : eventWorld) :
    effect eventWorld unit :=
  do* n, w := pureStep (assertEventTarget (ew_host w) target) w in
  do* _, w := registerSupportedRootListeners n options false w in (Ok tt, w).
Definition listenToPortalContainerEvents := listenToAllSupportedEvents.

Definition registerRootListenersForPrivateRoot (target : domArg Node) (options : option value) (w : eventWorld) :
    effect eventWorld (option N) :=
  do* n, w := pureStep (assertEventTarget (ew_host w) target) w in
  registerSupportedRootListeners n options true w.

Definition revertRootListenersForPrivateRoot (record : option N) (w : eventWorld) :
    effect eventWorld listenerCleanupRecord :=
  match (r ← record; p ← rootListenerRegistrationPayloads w !! r; Some (r, p)) with
  | None => (hostError "FAST_REACT_DOM_INVALID_ROOT_LISTENER_RECORD", w)
  | Some (id, p) =>
      match (if rp_active p then None else rootListenerCleanupRecords w !! id) with
      | Some existingCleanup => (Ok existingCleanup, w)
      | None =>
          do* summary, w := cleanupInstalledRootListeners (rp_installedListeners p) (rp_targetSnapshots p) w in
          let cleanup := mkListenerCleanup summary (describeAfter w (rp_targetSnapshots p)) in
          (Ok cleanup,
           mkEventWorld (ew_host w) (ew_targets w) (nextListener w) (listenerShells w) (nextRegistration w)
             (<[id := mkPayload false (rp_installedListeners p) (rp_ownerDocument p) (rp_record p)
                        (rp_rootContainerElement p) (rp_targetSnapshots p)]> (rootListenerRegistrationPayloads w))
             (<[id := cleanup]> (rootListenerCleanupRecords w)))
      end
  end.

(** ** What a portal would install *)

Record listenerIntent : Type := mkIntent {
  in_domEventName : string;
  in_eventSystemFlags : N;
  in_isCapturePhaseListener : bool;
  in_isNonDelegatedEvent : bool;
  in_listenerOptions : optionsInfo;
  in_listenerSetKey : string;
  in_targetInfo : containerDescription;
  in_targetRole : string }.

Definition createListenerIntentRecord d n (domEventName : string) (isCapturePhaseListener : bool)
    (targetRole : string) (options : option value) : res listenerIntent :=
  let* info := describeContainer d (inr n) in
  Ok (mkIntent domEventName (phaseFlags isCapturePhaseListener) isCapturePhaseListener
        (isNonDelegatedEvent domEventName)
        (describeListenerOptions (getAddEventListenerOptions domEventName isCapturePhaseListener options))
        (getListenerSetKey domEventName isCapturePhaseListener) info targetRole).

Definition createAllSupportedListenerIntentRecords d n (targetRole : string) (options : option value) :
    res (list listenerIntent) :=
  mapRes (fun p => createListenerIntentRecord d n (fst p) (snd p) targetRole options) supportedListeners.

Record intentCounts : Type := mkIntentCounts {
  ic_bubble : nat;
  ic_capture : nat;
  ic_nonDelegated : nat;
  ic_passive : nat }.
Definition summarizeListenerIntentCounts (intents : list listenerIntent) : intentCounts :=
  let count f := length (List.filter f intents) in
  mkIntentCounts (count (fun i => negb (in_isCapturePhaseListener i))) (count in_isCapturePhaseListener)
    (count in_isNonDelegatedEvent) (count (fun i => oi_passive (in_listenerOptions i))).

Record portalIntentRecord : Type := mkPortalIntent {
  pi_listenToAllSupportedEventsIntent : bool;
  pi_portalAlreadyListening : bool;
  pi_ownerDocumentAlreadyListening : bool;
  pi_portalListenerIntentCount : nat;
  pi_ownerDocumentListenerIntentCount : nat;
  pi_counts : intentCounts;
  pi_listenerIntents : list listenerIntent;
  pi_targetSnapshotsBefore : list targetInfo }.

Definition createPortalPrepareMountListenerIntentRecord (w : eventWorld) (target : domArg Node)
    (options : option value) : res portalIntentRecord :=
  let d := ew_host w in
  let t := ew_targets w in
  let* n := assertEventTarget d target in
  let* ownerDocument := getOwnerDocument d target in
  let portalAlreadyListening := hasListeningMarker t (Some n) in
  let ownerDocumentAlreadyListening := hasListeningMarker t ownerDocument in
  let* portalIntents := (if portalAlreadyListening then Ok []
                         else createAllSupportedListenerIntentRecords d n "portal-container" options) in
  let needed := match ownerDocument with
    | Some doc => negb portalAlreadyListening && negb (bool_decide (doc = n)) && negb ownerDocumentAlreadyListening
    | None => false
    end in
  let* documentIntents := (match ownerDocument with
    | Some doc => if needed then
                    let* i := createListenerIntentRecord d doc "selectionchange" false "owner-document" options in Ok [i]
                  else Ok []
    | None => Ok []
    end) in
  let* _ := (match ownerDocument with
             | Some doc => if needed then let* _ := assertEventTarget d (inr doc) in Ok tt else Ok tt
             | None => Ok tt end) in
  let listenerIntents := portalIntents ++ documentIntents in
  Ok (mkPortalIntent (negb portalAlreadyListening) portalAlreadyListening ownerDocumentAlreadyListening
        (length portalIntents) (length documentIntents) (summarizeListenerIntentCounts listenerIntents)
        listenerIntents
        (map (describeListenerTargetSnapshot d t) (n :: option_list ownerDocument))).

(** ** Guards *)

Definition canInstallListener d (target : domArg Node) : bool :=
  match target with inr n => hasAddEventListener d n | inl _ => false end.

Record listenerGuard : Type := mkGuard {
  lg_action : string;
  lg_canInstallListeners : bool;
  lg_hasListeningMarker : bool;
  lg_ownerDocumentCanInstallSelectionChange : bool;
  lg_ownerDocumentHasSelectionChangeMarker : bool;
  lg_ownerDocumentInfo : option containerDescription;
  lg_eventTargetInfo : containerDescription }.

(** [options.action], when there are options. *)
Definition describeListenerGuard (otherwise : string) (w : eventWorld) (target : domArg Node) (action : option value) :
    res listenerGuard :=
  let d := ew_host w in
  let* ownerDocument := getOwnerDocument d target in
  let* documentInfo := (match ownerDocument with
                        | Some doc => let* i := describeContainer d (inr doc) in Ok (Some i)
                        | None => Ok None end) in
  let* info := describeContainer d target in
  Ok (mkGuard (match action with Some (VStr a) => a | _ => otherwise end)
        (canInstallListener d target)
        (hasListeningMarker (ew_targets w) (match target with inr n => Some n | inl _ => None end))
        (match ownerDocument with Some doc => hasAddEventListener d doc | None => false end)
        (hasListeningMarker (ew_targets w) ownerDocument) documentInfo info).
Definition describeRootListenerGuard := describeListenerGuard "defer-listen-to-all-supported-events".
Definition describePortalContainerListenerGuard := describeListenerGuard "defer-listen-to-portal-container-events".
End RootListeners.
