(* ===== verification/RootListenersSpec.v ===== *)
(** * Theorems about root listeners

    Registration installs each listener once and can be undone; a registration that fails
    undoes itself; in every reachable state a target has at most one listener of the module
    for an event and phase; and the flags and priorities of listeners are in range. *)
From S2P Require Import Prelude JsValue DomHost DomTree DomTreeSpec Events ListenerRegistry RootListeners.

Definition captureOf (o : listenerOptions) : bool :=
  match o with CaptureOption c | ObjectOptions c _ => c end.

(** The documented behaviour of event targets: the methods of a node do not change and its
    properties can be read; [registered] are the module's listeners on a node, with type and
    phase. Adding a new listener appends it or throws without effect; removing takes out the
    listener of the type and phase; other nodes are left alone. *)
Class EventTargetLaws {Node D : Type} `{!Host Node D} `{!EventHost Node D}
    (registered : D -> Node -> list (string * N * bool)) : Prop := {
  el_add_method d d' n : hasAddEventListener d n = hasAddEventListener d' n;
  el_remove_method d d' n : hasRemoveEventListener d n = hasRemoveEventListener d' n;
  el_reads d n p : exists v, readProperty d n p = Ok v;
  el_add n e l o d : (e, l, captureOf o) ∉ registered d n ->
    let '(r, d') := callAddEventListener n e l o d in
    registered d' n = registered d n ++ (match r with Ok _ => [(e, l, captureOf o)] | Throw _ => [] end)
    /\ forall m, m <> n -> registered d' m = registered d m;
  el_remove n e l o d : exists d', callRemoveEventListener n e l o d = (Ok tt, d')
    /\ registered d' n = List.filter (fun x => negb (bool_decide (x = (e, l, captureOf o)))) (registered d n)
    /\ forall m, m <> n -> registered d' m = registered d m }.

(** ** Keys *)

Lemma string_app_inj_r (a b s : string) : a +:+ s = b +:+ s -> a = b.
Proof.
  intros H. assert (Hl : String.length a = String.length b).
  { apply (f_equal String.length) in H. rewrite !string_app_length in H. lia. }
  revert b H Hl. induction a as [|x a IH]; intros [|y b] H Hl; try done.
  injection H as -> H. f_equal. apply IH; [exact H|]. simpl in Hl. lia.
Qed.

(** The last two characters of a key tell its phase. *)
Lemma listenerSetKey_phase e e' : getListenerSetKey e true <> getListenerSetKey e' false.
Proof.
  intros H. apply (f_equal String.list_ascii_of_string) in H. unfold getListenerSetKey in H.
  rewrite !list_ascii_app in H.
  change (String.list_ascii_of_string "__" ++ String.list_ascii_of_string "capture")
    with (String.list_ascii_of_string "__captu" ++ String.list_ascii_of_string "re") in H.
  change (String.list_ascii_of_string "__" ++ String.list_ascii_of_string "bubble")
    with (String.list_ascii_of_string "__bubb" ++ String.list_ascii_of_string "le") in H.
  rewrite !app_assoc in H. by apply app_inj_2 in H as [_ H].
Qed.

Lemma listenerSetKey_inj e c e' c' : getListenerSetKey e c = getListenerSetKey e' c' -> e = e' /\ c = c'.
Proof.
  destruct c, c'; intros H; try (by apply listenerSetKey_phase in H);
    try (by symmetry in H; apply listenerSetKey_phase in H); (split; [|done]); by apply string_app_inj_r in H.
Qed.

(** ** What an installation adds *)

Section Laws.
Context {Node D : Type} `{!EqDecision Node} `{!Countable Node} `{!Host Node D} `{!EventHost Node D}.
Context (registered : D -> Node -> list (string * N * bool)) {laws : EventTargetLaws registered}.
Implicit Types (n m : Node) (rs : list (listenerRecord (Node := Node))) (T : list Node).

Abbreviation World := (eventWorld (Node := Node) (D := D)).
Implicit Types (w : World).

Definition reg w n : list (string * N * bool) := registered (ew_host w) n.
Definition keysOf w n : gset string := default ∅ (eventHandlers (ew_targets w) !! n).
Definition marksOf w n : option value := listeningMarkers (ew_targets w) !! n.

Definition entryOf (r : listenerRecord (Node := Node)) : string * N * bool :=
  (lr_domEventName r, lr_listener r, lr_isCapturePhaseListener r).
Definition onTarget n rs := List.filter (fun r => bool_decide (lr_target r = n)) rs.
Definition entriesAt rs n : list (string * N * bool) := map entryOf (onTarget n rs).
Definition keysAt rs n : gset string := list_to_set (map lr_listenerSetKey (onTarget n rs)).

(** A record says the truth about its listener, whose wrapper is kept. *)
Record recordOk (shells : gmap N (wrapperRecord Node)) (r : listenerRecord (Node := Node)) : Prop := {
  rk_key : lr_listenerSetKey r = getListenerSetKey (lr_domEventName r) (lr_isCapturePhaseListener r);
  rk_capture : captureOf (lr_listenerOptions r) = lr_isCapturePhaseListener r;
  rk_flags : lr_eventSystemFlags r = phaseFlags (lr_isCapturePhaseListener r)
             \/ lr_eventSystemFlags r = IS_NON_DELEGATED /\ lr_isCapturePhaseListener r = false;
  rk_shell : exists wr, shells !! lr_listener r = Some wr
    /\ createEventListenerWrapperRecordWithPriority (lr_target r) (lr_domEventName r) (lr_eventSystemFlags r) None = Ok wr }.

(** [w'] is [w] with the listeners [rs] added, on the targets [T] only. *)
Record extends T w rs w' : Prop := {
  ex_registered n : reg w' n = reg w n ++ entriesAt rs n;
  ex_keys n : keysOf w' n = keysOf w n ∪ keysAt rs n;
  ex_new n : keysAt rs n ## keysOf w n;
  ex_had n : is_Some (eventHandlers (ew_targets w) !! n) -> is_Some (eventHandlers (ew_targets w') !! n);
  ex_outside n : n ∉ T -> eventHandlers (ew_targets w') !! n = eventHandlers (ew_targets w) !! n
                          /\ marksOf w' n = marksOf w n;
  ex_records : nextRegistration w' = nextRegistration w
    /\ rootListenerRegistrationPayloads w' = rootListenerRegistrationPayloads w
    /\ rootListenerCleanupRecords w' = rootListenerCleanupRecords w;
  ex_next : (nextListener w <= nextListener w')%N;
  ex_fresh : Forall (fun r => (nextListener w <= lr_listener r < nextListener w')%N /\ lr_target r ∈ T) rs;
  ex_nodup : NoDup (map lr_listener rs);
  ex_keys_nodup : NoDup (map (fun r => (lr_target r, lr_listenerSetKey r)) rs);
  ex_ok : Forall (recordOk (listenerShells w')) rs;
  ex_shells i wr : listenerShells w !! i = Some wr -> (i < nextListener w)%N -> listenerShells w' !! i = Some wr }.

Lemma onTarget_app n rs1 rs2 : onTarget n (rs1 ++ rs2) = onTarget n rs1 ++ onTarget n rs2.
Proof. apply List.filter_app. Qed.
Lemma entriesAt_app rs1 rs2 n : entriesAt (rs1 ++ rs2) n = entriesAt rs1 n ++ entriesAt rs2 n.
Proof. unfold entriesAt. by rewrite onTarget_app, map_app. Qed.
Lemma keysAt_app rs1 rs2 n : keysAt (rs1 ++ rs2) n = keysAt rs1 n ∪ keysAt rs2 n.
Proof. unfold keysAt. by rewrite onTarget_app, map_app, list_to_set_app_L. Qed.

Lemma elem_onTarget n r rs : r ∈ onTarget n rs <-> r ∈ rs /\ lr_target r = n.
Proof. unfold onTarget. rewrite !list_elem_of_In, List.filter_In, bool_decide_eq_true. done. Qed.
Lemma elem_keysAt k n rs : k ∈ keysAt rs n <-> exists r, r ∈ rs /\ lr_target r = n /\ lr_listenerSetKey r = k.
Proof.
  unfold keysAt. rewrite elem_of_list_to_set, list_elem_of_fmap. split.
  - intros (r & -> & [H1 H2]%elem_onTarget). by exists r.
  - intros (r & H1 & H2 & <-). exists r. split; [done|]. by apply elem_onTarget.
Qed.

Lemma recordOk_mono w w' r :
  (forall i wr, listenerShells w !! i = Some wr -> (i < nextListener w)%N -> listenerShells w' !! i = Some wr) ->
  (lr_listener r < nextListener w)%N -> recordOk (listenerShells w) r -> recordOk (listenerShells w') r.
Proof. intros H Hl [H1 H2 H3 (wr & H4 & H5)]. split; try done. exists wr. split; [by apply H|done]. Qed.

Lemma extends_refl T w : extends T w [] w.
Proof.
  split; try done; try constructor; try lia.
  - intros n. by rewrite app_nil_r.
  - intros n. unfold keysAt. simpl. set_solver.
Qed.

Lemma extends_trans T w rs1 w1 rs2 w2 : extends T w rs1 w1 -> extends T w1 rs2 w2 -> extends T w (rs1 ++ rs2) w2.
Proof.
  intros A B. split.
  - intros n. by rewrite (ex_registered _ _ _ _ B), (ex_registered _ _ _ _ A), entriesAt_app, app_assoc.
  - intros n. rewrite (ex_keys _ _ _ _ B), (ex_keys _ _ _ _ A), keysAt_app. set_solver.
  - intros n. pose proof (ex_new _ _ _ _ A n). pose proof (ex_new _ _ _ _ B n) as H2.
    rewrite (ex_keys _ _ _ _ A) in H2. rewrite keysAt_app. set_solver.
  - intros n H. by apply (ex_had _ _ _ _ B), (ex_had _ _ _ _ A).
  - intros n Hn. destruct (ex_outside _ _ _ _ A n Hn) as [<- <-]. by apply (ex_outside _ _ _ _ B).
  - destruct (ex_records _ _ _ _ A) as (<- & <- & <-). apply (ex_records _ _ _ _ B).
  - pose proof (ex_next _ _ _ _ A). pose proof (ex_next _ _ _ _ B). lia.
  - pose proof (ex_next _ _ _ _ A). pose proof (ex_next _ _ _ _ B). apply Forall_app. split.
    + eapply Forall_impl; [apply (ex_fresh _ _ _ _ A)|]. simpl. intros r [? ?]. split; [lia|done].
    + eapply Forall_impl; [apply (ex_fresh _ _ _ _ B)|]. simpl. intros r [? ?]. split; [lia|done].
  - rewrite map_app. apply NoDup_app. split; [apply A|]. split; [|apply B].
    intros l Hl1 Hl2. apply list_elem_of_fmap in Hl1 as (r1 & -> & H1). apply list_elem_of_fmap in Hl2 as (r2 & E & H2).
    pose proof (proj1 (Forall_forall _ _) (ex_fresh _ _ _ _ A) r1 H1) as [? _].
    pose proof (proj1 (Forall_forall _ _) (ex_fresh _ _ _ _ B) r2 H2) as [? _]. lia.
  - rewrite map_app. apply NoDup_app. split; [apply A|]. split; [|apply B].
    intros x Hl1 Hl2. apply list_elem_of_fmap in Hl1 as (r1 & -> & H1). apply list_elem_of_fmap in Hl2 as (r2 & E & H2).
    injection E as Et Ek. pose proof (ex_new _ _ _ _ B (lr_target r1)) as Hd. rewrite (ex_keys _ _ _ _ A) in Hd.
    apply (Hd (lr_listenerSetKey r1)).
    + apply elem_keysAt. by exists r2.
    + apply elem_of_union_r, elem_keysAt. by exists r1.
  - apply Forall_app. split; [|apply B]. apply Forall_forall. intros r Hr.
    pose proof (proj1 (Forall_forall _ _) (ex_fresh _ _ _ _ A) r Hr) as [? _].
    pose proof (proj1 (Forall_forall _ _) (ex_ok _ _ _ _ A) r Hr) as Hok.
    eapply recordOk_mono; [apply (ex_shells _ _ _ _ B)|lia|exact Hok].
  - intros i wr Hi Hlt. pose proof (ex_next _ _ _ _ A). apply (ex_shells _ _ _ _ B); [by apply (ex_shells _ _ _ _ A)|lia].
Qed.

Lemma extends_trans_nil T w rs w1 w2 : extends T w rs w1 -> extends T w1 [] w2 -> extends T w rs w2.
Proof. intros A B. rewrite <- (app_nil_r rs). by eapply extends_trans. Qed.

Lemma onTarget_one m r : onTarget m [r] = if decide (lr_target r = m) then [r] else [].
Proof. unfold onTarget. simpl. case_decide; [by rewrite bool_decide_eq_true_2|by rewrite bool_decide_eq_false_2]. Qed.
Lemma entriesAt_one m r : entriesAt [r] m = if decide (lr_target r = m) then [entryOf r] else [].
Proof. unfold entriesAt. rewrite onTarget_one. by case_decide. Qed.
Lemma keysAt_one m r : keysAt [r] m = if decide (lr_target r = m) then {[lr_listenerSetKey r]} else ∅.
Proof. unfold keysAt. rewrite onTarget_one. case_decide; simpl; set_solver. Qed.

(** Listeners on the host are those that were made. *)
Definition madeOk w : Prop := forall n x, x ∈ reg w n -> (snd (fst x) < nextListener w)%N.

Lemma extends_made T w rs w' : madeOk w -> extends T w rs w' -> madeOk w'.
Proof.
  intros Hw A n x. rewrite (ex_registered _ _ _ _ A), elem_of_app. pose proof (ex_next _ _ _ _ A) as Hle. intros [H|H].
  - apply Hw in H. lia.
  - unfold entriesAt in H. apply list_elem_of_fmap in H as (r & -> & [Hr _]%elem_onTarget).
    apply (proj1 (Forall_forall _ _) (ex_fresh _ _ _ _ A)) in Hr as [? _]. simpl. lia.
Qed.

Lemma wrapper_total n e flags :
  exists wr : wrapperRecord Node, createEventListenerWrapperRecordWithPriority n e flags None = Ok wr.
Proof.
  unfold createEventListenerWrapperRecordWithPriority, getEventPriority.
  repeat case_bool; simpl; eauto.
Qed.

Lemma extends_targets T w w' : 
  reg w' = reg w -> nextListener w' = nextListener w -> listenerShells w' = listenerShells w ->
  nextRegistration w' = nextRegistration w ->
  rootListenerRegistrationPayloads w' = rootListenerRegistrationPayloads w ->
  rootListenerCleanupRecords w' = rootListenerCleanupRecords w ->
  (forall n, keysOf w' n = keysOf w n) ->
  (forall n, is_Some (eventHandlers (ew_targets w) !! n) -> is_Some (eventHandlers (ew_targets w') !! n)) ->
  (forall n, n ∉ T -> eventHandlers (ew_targets w') !! n = eventHandlers (ew_targets w) !! n /\ marksOf w' n = marksOf w n) ->
  extends T w [] w'.
Proof.
  intros Hr Hn Hs H1 H2 H3 Hk Hh Ho. split; try done; try constructor.
  - intros n. by rewrite Hr, app_nil_r.
  - intros n. rewrite Hk. unfold keysAt. simpl. set_solver.
  - rewrite Hn. lia.
  - intros i wr Hi _. by rewrite Hs.
Qed.

Lemma installOnce_spec n e flags c options w :
  madeOk w -> flags = phaseFlags c \/ flags = IS_NON_DELEGATED /\ c = false ->
  let '(r, w') := installOnce n e flags c options w in
  extends [n] w (match r with Ok (Some rec) => [rec] | _ => [] end) w'
  /\ match r with
     | Ok None => w' = w /\ getListenerSetKey e c ∈ keysOf w n
     | Ok (Some rec) => lr_domEventName rec = e /\ lr_isCapturePhaseListener rec = c /\ lr_target rec = n
                        /\ marksOf w' = marksOf w
     | Throw _ => marksOf w' = marksOf w
     end.
Proof.
  intros Hmade Hflags. unfold installOnce, onTargets, getEventListenerSet, assertEventTarget.
  destruct (hasAddEventListener (ew_host w) n) eqn:Em; simpl.
  2: { split; [|done]. by apply extends_targets. }
  assert (Hset : forall r t, (match eventHandlers (ew_targets w) !! n with
      | Some listenerSet => (Ok listenerSet, ew_targets w)
      | None => (Ok ∅, mkTargets (<[n := ∅]> (eventHandlers (ew_targets w))) (listeningMarkers (ew_targets w))) end) = (r, t) ->
    r = Ok (keysOf w n) /\ (t = ew_targets w \/ eventHandlers (ew_targets w) !! n = None)
    /\ eventHandlers t !! n = Some (keysOf w n)
    /\ (forall m, m <> n -> eventHandlers t !! m = eventHandlers (ew_targets w) !! m)
    /\ listeningMarkers t = listeningMarkers (ew_targets w)).
  { intros r t. unfold keysOf. destruct (eventHandlers (ew_targets w) !! n) as [S|] eqn:E; intros [= <- <-]; simpl.
    - split_and!; auto.
    - rewrite lookup_insert_eq. split_and!; auto. intros m Hm. by rewrite lookup_insert_ne. }
  destruct (match eventHandlers (ew_targets w) !! n with Some _ => _ | None => _ end) as [r t] eqn:Et.
  destruct (Hset r t eq_refl) as (-> & Ht & Hn & Hm & Hmarks). clear Hset Et. simpl.
  destruct (decide _) as [Hin|Hnew].
  { destruct Ht as [-> | Hnone]; [|unfold keysOf in Hin; rewrite Hnone in Hin; set_solver].
    destruct w. simpl. split; [apply extends_refl|done]. }
  unfold addTrappedEventListenerRecord, createEventListenerShell.
  destruct (wrapper_total n e flags) as [wr Hwr]. rewrite Hwr. cbn [pureStep andThen].
  unfold onEventHost. cbn [ew_host setTargets nextListener].
  set (o := getAddEventListenerOptions e c options).
  assert (Ho : captureOf o = c) by (unfold o, getAddEventListenerOptions; by case_bool).
  pose proof (el_add n e (nextListener w) o (ew_host w)) as Hadd.
  assert (Hfresh : (e, nextListener w, captureOf o) ∉ registered (ew_host w) n).
  { intros H. apply Hmade in H. simpl in H. lia. }
  specialize (Hadd Hfresh). destruct (callAddEventListener n e (nextListener w) o (ew_host w)) as [[[]|err] d'];
    destruct Hadd as [Hadd Hother]; cbn [andThen setHost].
  - set (rec := mkListener _ _ _ _ _ _ _). split; [|split_and!; try done; unfold marksOf; simpl; by rewrite Hmarks]. split.
    + intros m. rewrite entriesAt_one. unfold reg. simpl. case_decide as Em'; [subst m|].
      * by rewrite Hadd, Ho.
      * rewrite Hother, app_nil_r by done. done.
    + intros m. rewrite keysAt_one. unfold keysOf at 1. simpl. case_decide as Em'; [subst m|].
      * rewrite lookup_insert_eq, Hn. simpl. set_solver.
      * rewrite lookup_insert_ne, Hm by done. unfold keysOf. set_solver.
    + intros m. rewrite keysAt_one. simpl. case_decide; [subst m|]; set_solver.
    + intros m H. simpl. destruct (decide (m = n)) as [->|Hne]; [by rewrite lookup_insert_eq|].
      by rewrite lookup_insert_ne, Hm.
    + intros m H. apply not_elem_of_cons in H as [H _]. unfold marksOf. simpl. by rewrite lookup_insert_ne, Hm, Hmarks.
    + done.
    + simpl. lia.
    + repeat constructor; simpl; try lia.
    + apply NoDup_singleton.
    + apply NoDup_singleton.
    + constructor; [|constructor]. split; simpl; try done. exists wr. split; [apply lookup_insert_eq|done].
    + intros i wr' H Hlt. simpl. rewrite lookup_insert_ne; [done|]. lia.
  - split; [|unfold marksOf; simpl; by rewrite Hmarks]. split; simpl.
    + intros m. rewrite app_nil_r. unfold reg. simpl. destruct (decide (m = n)) as [->|Hne]; [by rewrite Hadd, app_nil_r|].
      by apply Hother.
    + intros m. unfold keysAt, keysOf at 1. simpl. destruct (decide (m = n)) as [->|Hne]; [rewrite Hn; simpl; set_solver|].
      rewrite Hm by done. unfold keysOf. set_solver.
    + intros m. unfold keysAt. simpl. set_solver.
    + intros m H. destruct (decide (m = n)) as [->|Hne]; [by rewrite Hn|]. by rewrite Hm.
    + intros m H. apply not_elem_of_cons in H as [H _]. unfold marksOf. simpl. by rewrite Hm, Hmarks.
    + done.
    + lia.
    + constructor.
    + constructor.
    + constructor.
    + constructor.
    + intros i wr' H Hlt. rewrite lookup_insert_ne; [done|]. lia.
Qed.

Lemma listenToNativeEvent_spec e c n options w :
  madeOk w ->
  let '(r, w') := listenToNativeEventRecord e c n options w in
  extends [n] w (match r with Ok (Some rec) => [rec] | _ => [] end) w' /\ marksOf w' = marksOf w
  /\ match r with
     | Ok None => w' = w /\ getListenerSetKey e c ∈ keysOf w n
     | Ok (Some rec) => lr_domEventName rec = e /\ lr_isCapturePhaseListener rec = c /\ lr_target rec = n
     | Throw _ => True
     end.
Proof.
  intros Hmade. unfold listenToNativeEventRecord.
  unfold require, hostError. destruct (isKnownNativeEvent e); [|split; [apply extends_refl|done]]. cbn [pureStep andThen].
  destruct (negb _); [|split; [apply extends_refl|done]]. cbn [pureStep andThen].
  pose proof (installOnce_spec n e (phaseFlags c) c options w Hmade (or_introl eq_refl)) as H.
  destruct (installOnce n e (phaseFlags c) c options w) as [[[rec|]|err] w'].
  - destruct H as (H1 & H2 & H3 & H4 & H5). done.
  - by destruct H as (H1 & -> & H3).
  - by destruct H as (H1 & H2).
Qed.

Abbreviation phases := (map (fun r : listenerRecord (Node := Node) => (lr_domEventName r, lr_isCapturePhaseListener r))).

Lemma keysAt_record T w rs w' r : extends T w rs w' -> r ∈ rs ->
  getListenerSetKey (lr_domEventName r) (lr_isCapturePhaseListener r) ∈ keysAt rs (lr_target r).
Proof.
  intros A Hr. apply elem_keysAt. exists r. split; [done|]. split; [done|].
  apply (proj1 (Forall_forall _ _) (ex_ok _ _ _ _ A)), rk_key in Hr. done.
Qed.

(** A loop that ends has every listener of the plan on the target, and installed those that
    were not there, in the order of the plan. *)
Lemma installPlan_spec plan n options installed w :
  madeOk w ->
  let '(r, installed', w') := installPlan plan n options installed w in
  exists rs, installed' = installed ++ rs /\ extends [n] w rs w' /\ marksOf w' = marksOf w
  /\ Forall (fun r => lr_target r = n) rs
  /\ (r = Ok tt -> forall e c, (e, c) ∈ plan -> getListenerSetKey e c ∈ keysOf w' n)
  /\ (r = Ok tt -> NoDup plan -> (forall e c, (e, c) ∈ plan -> getListenerSetKey e c ∉ keysOf w n) -> phases rs = plan).
Proof.
  revert installed w. induction plan as [|[e c] plan IH]; intros installed w Hmade; cbn [installPlan].
  { exists []. rewrite app_nil_r. split; [done|]. split; [apply extends_refl|]. split; [done|]. split; [constructor|].
    split; [|done]. intros _ e c H. by apply not_elem_of_nil in H. }
  pose proof (listenToNativeEvent_spec e c n options w Hmade) as H1.
  destruct (listenToNativeEventRecord e c n options w) as [[o|err] w1].
  2: { destruct H1 as (H1 & H2 & _). exists []. rewrite app_nil_r. by split_and!; try done; constructor. }
  destruct H1 as (A & Hmarks & Ho).
  assert (Hmade1 : madeOk w1) by by eapply extends_made.
  specialize (IH (installed ++ option_list o) w1 Hmade1).
  destruct (installPlan plan n options (installed ++ option_list o) w1) as [[r installed'] w2].
  destruct IH as (rs & -> & B & Hm2 & Htarget & Hkeys & Hphases). exists (option_list o ++ rs).
  assert (A' : extends [n] w (option_list o) w1) by by destruct o.
  assert (Hkey1 : getListenerSetKey e c ∈ keysOf w1 n).
  { destruct o as [rec|]; [|destruct Ho as [-> ?]; done]. destruct Ho as (<- & <- & <-).
    rewrite (ex_keys _ _ _ _ A'). apply elem_of_union_r, (keysAt_record _ _ _ _ rec A'). simpl. left. }
  split; [by rewrite app_assoc|]. split; [by eapply extends_trans|]. split; [by rewrite Hm2|]. split; [|split].
  - apply Forall_app. split; [|done]. destruct o as [rec|]; [|constructor].
    constructor; [|constructor]. by destruct Ho as (_ & _ & ?).
  - intros Hr e' c' [[= -> ->]|Hin]%elem_of_cons; [|by apply Hkeys].
    rewrite (ex_keys _ _ _ _ B). by apply elem_of_union_l.
  - intros Hr [Hnew Hnd]%NoDup_cons Hfresh. destruct o as [rec|].
    2: { exfalso. destruct Ho as [_ Hin]. apply (Hfresh e c); [left|done]. }
    destruct Ho as (He & Hc & Htg). simpl. rewrite He, Hc. f_equal. apply Hphases; [done|done|].
    intros e' c' Hin Hk. rewrite (ex_keys _ _ _ _ A') in Hk. apply elem_of_union in Hk as [Hk|Hk].
    + apply (Hfresh e' c'); [by right|done].
    + simpl in Hk. rewrite keysAt_one in Hk. rewrite decide_True in Hk by done. apply elem_of_singleton in Hk.
      pose proof (proj1 (Forall_forall _ _) (ex_ok _ _ _ _ A') rec ltac:(left)) as Hok.
      rewrite (rk_key _ _ Hok), He, Hc in Hk. apply listenerSetKey_inj in Hk as [-> ->]. done.
Qed.

(** ** Undoing *)

Lemma removeInstalled_spec r w : exists b w',
  removeInstalled r w = (Ok b, w')
  /\ (forall n, reg w' n = List.filter (fun x => negb (bool_decide
        (lr_target r = n /\ x = (lr_domEventName r, lr_listener r, captureOf (lr_listenerOptions r))))) (reg w n))
  /\ (forall n, eventHandlers (ew_targets w') !! n = (fun S => S ∖ keysAt [r] n) <$> eventHandlers (ew_targets w) !! n)
  /\ listeningMarkers (ew_targets w') = listeningMarkers (ew_targets w)
  /\ w' = setTargets (ew_targets w') (setHost (ew_host w') w)
  /\ (is_Some (eventHandlers (ew_targets w) !! lr_target r) -> b = true).
Proof.
  unfold removeInstalled, onEventHost.
  destruct (el_remove (lr_target r) (lr_domEventName r) (lr_listener r) (lr_listenerOptions r) (ew_host w))
    as (d' & -> & Hreg & Hother). cbn [andThen].
  assert (Hr : forall n, registered d' n = List.filter (fun x => negb (bool_decide
        (lr_target r = n /\ x = (lr_domEventName r, lr_listener r, captureOf (lr_listenerOptions r))))) (reg w n)).
  { intros n. destruct (decide (lr_target r = n)) as [<-|Hn].
    - rewrite Hreg. apply filter_ext_dec. intros x _. f_equal. apply bool_decide_ext. tauto.
    - rewrite Hother by done. rewrite filter_all; [done|]. intros x _. by rewrite bool_decide_eq_false_2 by tauto. }
  simpl. destruct (eventHandlers (ew_targets w) !! lr_target r) as [S|] eqn:E; do 2 eexists; (split; [reflexivity|]); simpl.
  - split_and!; try done. intros n. rewrite keysAt_one. case_decide as Hn.
    + by rewrite <- Hn, lookup_insert_eq, E.
    + rewrite lookup_insert_ne by done. destruct (eventHandlers (ew_targets w) !! n); simpl; [f_equal; set_solver|done].
  - split_and!; try done.
    intros n. rewrite keysAt_one. case_decide as Hn; [by rewrite <- Hn, E|].
    destruct (eventHandlers (ew_targets w) !! n); simpl; [f_equal; set_solver|done].
Qed.

Lemma removeAll_spec rs k w :
  Forall (fun r => captureOf (lr_listenerOptions r) = lr_isCapturePhaseListener r) rs ->
  exists k' w', removeAll rs k w = (Ok k', w')
  /\ (forall n, reg w' n = List.filter (fun x => negb (bool_decide (x ∈ entriesAt rs n))) (reg w n))
  /\ (forall n, eventHandlers (ew_targets w') !! n = (fun S => S ∖ keysAt rs n) <$> eventHandlers (ew_targets w) !! n)
  /\ listeningMarkers (ew_targets w') = listeningMarkers (ew_targets w)
  /\ w' = setTargets (ew_targets w') (setHost (ew_host w') w)
  /\ (Forall (fun r => is_Some (eventHandlers (ew_targets w) !! lr_target r)) rs -> k' = k + length rs).
Proof.
  revert k w. induction rs as [|r rs IH]; intros k w Hc.
  { exists k, w. split; [done|]. split_and!; try done.
    - intros n. rewrite filter_all; [done|]. intros x _. by rewrite bool_decide_eq_false_2 by apply not_elem_of_nil.
    - intros n. unfold keysAt. simpl. destruct (eventHandlers (ew_targets w) !! n); simpl; [f_equal; set_solver|done].
    - by destruct w. }
  apply Forall_cons in Hc as [Hc Hcs]. cbn [removeAll].
  destruct (removeInstalled_spec r w) as (b & w2 & -> & Hreg & Hh & Hm & Heq & Hb). cbn [andThen].
  destruct (IH (if b then S k else k) w2 Hcs) as (k' & w' & -> & Hr & Hh' & Hm' & Heq' & Hk).
  exists k', w'. split; [done|]. split_and!.
  - intros n. rewrite Hr, Hreg, filter_filter, Hc. apply filter_ext_dec. intros x _.
    change (r :: rs) with ([r] ++ rs). rewrite entriesAt_app, entriesAt_one, <- negb_orb. f_equal.
    rewrite <- bool_decide_or. apply bool_decide_ext. rewrite elem_of_app. unfold entryOf.
    case_decide; [rewrite list_elem_of_singleton|]; set_solver.
  - intros n. rewrite Hh', Hh. change (r :: rs) with ([r] ++ rs). rewrite keysAt_app.
    destruct (eventHandlers (ew_targets w) !! n); simpl; [f_equal; set_solver|done].
  - by rewrite Hm', Hm.
  - rewrite Heq', Heq. by destruct w.
  - intros [H1 H2]%Forall_cons. rewrite Hk, (Hb H1); [simpl; lia|].
    eapply Forall_impl; [exact H2|]. intros r' [S' E]. rewrite Hh, E. simpl. eauto.
Qed.
Lemma restoreTarget_handlers w m t n :
  eventHandlers (restoreTarget (snapshotListenerTarget w m) t) !! n
  = if decide (n = m /\ eventHandlers (ew_targets w) !! n = None /\ eventHandlers t !! n = Some ∅)
    then None else eventHandlers t !! n.
Proof.
  unfold restoreTarget. simpl. destruct (eventHandlers t !! m) as [S|] eqn:E.
  2: { rewrite decide_False; [done|]. intros (-> & _ & H). congruence. }
  destruct (decide (m = n)) as [->|Hne].
  2: { rewrite decide_False by (intros [? _]; done). case_bool; [by rewrite lookup_delete_ne|done]. }
  rewrite E. destruct (eventHandlers (ew_targets w) !! n) as [S0|]; simpl.
  { rewrite decide_False by (intros (_ & ? & _); done). by rewrite E. }
  case_bool_decide as Hs.
  - apply size_empty_iff in Hs. rewrite lookup_delete_eq, decide_True; [done|].
    split_and!; try done. f_equal. set_solver.
  - rewrite decide_False; [done|]. intros (_ & _ & [= ->]). by rewrite size_empty in Hs.
Qed.

Lemma restoreTarget_marks w m t n :
  listeningMarkers (restoreTarget (snapshotListenerTarget w m) t) !! n
  = if decide (n = m) then listeningMarkers (ew_targets w) !! n else listeningMarkers t !! n.
Proof.
  unfold restoreTarget. simpl. case_decide as Hn; [subst m|].
  - destruct (listeningMarkers (ew_targets w) !! n); simpl; [by rewrite lookup_insert_eq|by rewrite lookup_delete_eq].
  - case_bool; [by rewrite lookup_insert_ne|by rewrite lookup_delete_ne].
Qed.

Lemma restore_snapshots w T t n :
  let t' := foldl (fun t s => restoreTarget s t) t (map (snapshotListenerTarget w) T) in
  eventHandlers t' !! n
  = (if decide (n ∈ T /\ eventHandlers (ew_targets w) !! n = None /\ eventHandlers t !! n = Some ∅)
     then None else eventHandlers t !! n)
  /\ listeningMarkers t' !! n = if decide (n ∈ T) then listeningMarkers (ew_targets w) !! n else listeningMarkers t !! n.
Proof.
  revert t. induction T as [|m T IH]; intros t; cbn [map foldl].
  { rewrite !decide_False; [done|apply not_elem_of_nil|intros [H _]; by apply not_elem_of_nil in H]. }
  destruct (IH (restoreTarget (snapshotListenerTarget w m) t)) as [-> ->].
  rewrite restoreTarget_handlers, restoreTarget_marks. split.
  - repeat case_decide; try done; set_solver.
  - repeat case_decide; try done; set_solver.
Qed.

Lemma targets_eq (t t' : targetState Node) :
  (forall n, eventHandlers t !! n = eventHandlers t' !! n) ->
  (forall n, listeningMarkers t !! n = listeningMarkers t' !! n) -> t = t'.
Proof. intros H1 H2. destruct t, t'. f_equal; by apply map_eq. Qed.

(** The cleanup of an installation gives back the host and the targets of the start, when the
    marks of the targets are all that was done besides. *)
Lemma cleanup_undoes T w w1 rs w0 w2 :
  madeOk w -> reg w1 = reg w -> eventHandlers (ew_targets w1) = eventHandlers (ew_targets w) ->
  nextListener w1 = nextListener w ->
  (forall n, n ∉ T -> marksOf w1 n = marksOf w n) ->
  extends T w1 rs w0 -> ew_host w2 = ew_host w0 -> ew_targets w2 = ew_targets w0 ->
  exists w3, cleanupInstalledRootListeners rs (map (snapshotListenerTarget w) T) w2
             = (Ok (mkCleanupSummary (length rs) (length rs) (length T)), w3)
  /\ (forall n, reg w3 n = reg w n) /\ ew_targets w3 = ew_targets w
  /\ w3 = setTargets (ew_targets w3) (setHost (ew_host w3) w2).
Proof.
  intros Hmade Hreg Hh Hnext Hmarks A Ehost Etargets.
  assert (Hreg2 : forall n, reg w2 n = reg w0 n) by (intros n; unfold reg; by rewrite Ehost).
  unfold cleanupInstalledRootListeners.
  assert (Hrev : forall r, r ∈ rev rs <-> r ∈ rs) by (intros r; by rewrite !list_elem_of_In, <- in_rev).
  destruct (removeAll_spec (rev rs) 0 w2) as (k & w3 & -> & Hr & Hh3 & Hm3 & Heq & Hk).
  { apply Forall_forall. intros r Hr%Hrev. by apply (proj1 (Forall_forall _ _) (ex_ok _ _ _ _ A)), rk_capture in Hr. }
  rewrite Etargets in Hh3, Hm3, Hk. cbn [andThen]. rewrite length_map.
  assert (Hkeys : forall n, keysAt (rev rs) n = keysAt rs n).
  { intros n. apply leibniz_equiv. intros key. rewrite !elem_keysAt. by setoid_rewrite Hrev. }
  assert (Hkeys0 : forall n, keysOf w1 n = keysOf w n) by (intros n; unfold keysOf; by rewrite Hh).
  assert (Hhad : forall n, n ∈ T \/ eventHandlers (ew_targets w0) !! n = eventHandlers (ew_targets w) !! n).
  { intros n. destruct (decide (n ∈ T)); [by left|right]. rewrite <- Hh. by apply (ex_outside _ _ _ _ A). }
  eexists. split; [do 2 f_equal|split_and!].
  - rewrite Hk, length_rev; [done|]. apply Forall_forall. intros r Hin0%Hrev.
    pose proof (keysAt_record _ _ _ _ r A Hin0) as Hin.
    assert (Hin2 : getListenerSetKey (lr_domEventName r) (lr_isCapturePhaseListener r) ∈ keysOf w0 (lr_target r)).
    { rewrite (ex_keys _ _ _ _ A). by apply elem_of_union_r. }
    unfold keysOf in Hin2. destruct (eventHandlers (ew_targets w0) !! lr_target r); [eauto|]. set_solver.
  - intros n. change (reg w3 n = reg w n).
    rewrite Hr, Hreg2, (ex_registered _ _ _ _ A), Hreg, List.filter_app, filter_all, filter_none, app_nil_r; [done| |].
    + intros x Hx. rewrite bool_decide_eq_true_2; [done|]. apply list_elem_of_fmap in Hx as (r & -> & [H1 H2]%elem_onTarget).
      apply list_elem_of_fmap. exists r. split; [done|]. apply elem_onTarget. by rewrite Hrev.
    + intros x Hx. rewrite bool_decide_eq_false_2; [done|].
      intros (r & -> & [Hin%Hrev _]%elem_onTarget)%list_elem_of_fmap.
      apply Hmade in Hx. apply (proj1 (Forall_forall _ _) (ex_fresh _ _ _ _ A)) in Hin as [Hlt _]. simpl in Hx. lia.
  - apply targets_eq; intros n; simpl; destruct (restore_snapshots w T (ew_targets w3) n) as [Eh Em].
    + rewrite Eh, Hh3, Hkeys. clear Eh Em. pose proof (ex_keys _ _ _ _ A n) as Hk2. pose proof (ex_new _ _ _ _ A n) as Hd.
      rewrite Hkeys0 in Hk2, Hd. unfold keysOf in Hk2, Hd.
      destruct (eventHandlers (ew_targets w) !! n) as [S|] eqn:E.
      * rewrite decide_False by (intros (_ & ? & _); done).
        destruct (ex_had _ _ _ _ A n) as [S2 E2]; [rewrite Hh; eauto|]. rewrite E2 in *. simpl in *. f_equal. set_solver.
      * case_decide as Hc; [done|]. destruct (eventHandlers (ew_targets w0) !! n) as [S2|] eqn:E2; [|done]. simpl in *.
        destruct (Hhad n) as [HT|]; [|congruence]. destruct Hc. split_and!; try done. f_equal. set_solver.
    + rewrite Em, Hm3. clear Eh Em. case_decide as HT; [done|]. unfold marksOf in Hmarks. rewrite <- (Hmarks n HT).
      apply (ex_outside _ _ _ _ A n HT).
  - rewrite Heq. done.
Qed.
(** ** Installing the listeners of a root *)

Lemma extends_weaken T T' w rs w' : (forall n, n ∈ T -> n ∈ T') -> extends T w rs w' -> extends T' w rs w'.
Proof.
  intros HT A. split; try apply A.
  - intros n Hn. apply (ex_outside _ _ _ _ A). naive_solver.
  - eapply Forall_impl; [apply (ex_fresh _ _ _ _ A)|]. simpl. naive_solver.
Qed.

(** [w] with the mark of [n]. *)
Definition marked n w : World :=
  setTargets (mkTargets (eventHandlers (ew_targets w)) (<[n := VBool true]> (listeningMarkers (ew_targets w)))) w.

Lemma mark_spec n w :
  onTargets (markTargetAsListening (ew_host w) n) w
  = (if hasAddEventListener (ew_host w) n then (Ok tt, marked n w)
     else (hostError "FAST_REACT_DOM_INVALID_EVENT_TARGET", w)).
Proof. unfold onTargets, markTargetAsListening, assertEventTarget. case_bool; [done|]. by destruct w. Qed.

Lemma marked_extends T n w : n ∈ T -> extends T w [] (marked n w).
Proof.
  intros Hn. apply extends_targets; try done. intros m Hm. unfold marksOf. simpl.
  rewrite lookup_insert_ne; [done|]. naive_solver.
Qed.

Definition docPlan (doc : option Node) w : list (string * bool) :=
  match doc with
  | Some d => if decide (getListenerSetKey "selectionchange" false ∈ keysOf w d) then [] else [("selectionchange", false)]
  | None => []
  end.

Lemma supported_nodup : NoDup supportedListeners.
Proof. apply (bool_decide_unpack _). vm_compute. exact I. Qed.
Lemma supported_no_selectionchange c : ("selectionchange", c) ∉ supportedListeners.
Proof. destruct c; apply (bool_decide_unpack _); vm_compute; exact I. Qed.

#[local] Opaque supportedListeners.

Lemma installRootListeners_spec n doc options w :
  madeOk w ->
  let '(r, rs, w') := installRootListeners n doc options w in
  extends (n :: option_list doc) w rs w'
  /\ (forall m, doc <> Some m -> marksOf w' m = marksOf w m)
  /\ (r = Ok tt ->
        (forall e c, (e, c) ∈ supportedListeners -> getListenerSetKey e c ∈ keysOf w' n)
        /\ (forall d, doc = Some d -> getListenerSetKey "selectionchange" false ∈ keysOf w' d
                       /\ marksOf w' d = Some (VBool true))
        /\ (keysOf w n = ∅ -> phases rs = supportedListeners ++ docPlan doc w)).
Proof.
  intros Hmade. unfold installRootListeners.
  pose proof (installPlan_spec supportedListeners n options [] w Hmade) as H.
  destruct (installPlan supportedListeners n options [] w) as [[r rs] w1].
  destruct H as (rs' & -> & A & Hmarks & Htarget & Hkeys & Hphases). simpl app.
  assert (A1 : extends (n :: option_list doc) w rs' w1).
  { eapply extends_weaken; [|exact A]. intros m ->%list_elem_of_singleton. left. }
  destruct r as [[]|err]; [|by split_and!; [| by rewrite Hmarks |]].
  destruct doc as [d|]; simpl.
  2: { split_and!; [done|by rewrite Hmarks|]. intros _. split; [by apply Hkeys|]. split; [done|].
       intros Hn. unfold docPlan. rewrite app_nil_r. apply Hphases; [done|apply supported_nodup|]. rewrite Hn. set_solver. }
  rewrite mark_spec. destruct (hasAddEventListener (ew_host w1) d); cbn [andThen pureStep].
  2: { by split_and!; [|by rewrite Hmarks|]. }
  assert (Hmade1 : madeOk w1) by by eapply extends_made.
  assert (A2 : extends (n :: option_list (Some d)) w1 [] (marked d w1)) by (apply marked_extends; right; left).
  assert (Hmade2 : madeOk (marked d w1)) by by eapply extends_made.
  pose proof (listenToNativeEvent_spec "selectionchange" false d options (marked d w1) Hmade2) as H2.
  destruct (listenToNativeEventRecord "selectionchange" false d options (marked d w1)) as [[o|err] w2]; destruct H2 as (B & Hm2 & Ho).
  2: { split_and!; [eapply extends_trans_nil; [exact A1|]; eapply extends_trans_nil; [exact A2|]| |done].
       - eapply extends_weaken; [|exact B]. intros m ->%list_elem_of_singleton. right. left.
       - intros m Hm. rewrite Hm2. unfold marksOf. simpl. rewrite lookup_insert_ne by naive_solver.
         apply (f_equal (fun f => f m)) in Hmarks. done. }
  assert (B' : extends [d] (marked d w1) (option_list o) w2) by by destruct o.
  assert (B2 : extends (n :: option_list (Some d)) (marked d w1) (option_list o) w2).
  { eapply extends_weaken; [|exact B']. intros m ->%list_elem_of_singleton. right. left. }
  split_and!.
  - apply (extends_trans _ _ _ w1); [done|]. by apply (extends_trans _ _ [] (marked d w1)).
  - intros m Hm. rewrite Hm2. unfold marksOf. simpl. rewrite lookup_insert_ne by naive_solver.
    apply (f_equal (fun f => f m)) in Hmarks. done.
  - intros _. split_and!.
    + intros e c He. rewrite (ex_keys _ _ _ _ B'). apply elem_of_union_l. by apply Hkeys.
    + intros d' [= <-]. split; [|rewrite Hm2; apply lookup_insert_eq].
      destruct o as [rec|]; [|destruct Ho as [-> ?]; done]. destruct Ho as (Ee & Ec & Et).
      rewrite <- Ee, <- Ec, <- Et, (ex_keys _ _ _ _ B'). apply elem_of_union_r, (keysAt_record _ _ _ _ rec B'). left.
    + intros Hn. assert (Hph : phases rs' = supportedListeners).
      { apply Hphases; [done|apply supported_nodup|rewrite Hn; set_solver]. }
      rewrite map_app, Hph. f_equal. unfold docPlan.
      assert (Hk : getListenerSetKey "selectionchange" false ∈ keysOf (marked d w1) d
                   <-> getListenerSetKey "selectionchange" false ∈ keysOf w d).
      { change (keysOf (marked d w1) d) with (keysOf w1 d). rewrite (ex_keys _ _ _ _ A1), elem_of_union, elem_keysAt.
        split; [|by left]. intros [?|(r & Hr & _ & Hkey)]; [done|exfalso].
        rewrite (rk_key _ _ (proj1 (Forall_forall _ _) (ex_ok _ _ _ _ A1) r Hr)) in Hkey.
        apply listenerSetKey_inj in Hkey as [E1 E2]. apply (supported_no_selectionchange false).
        rewrite <- Hph, <- E1, <- E2. apply list_elem_of_fmap. by exists r. }
      destruct o as [rec|]; simpl.
      * destruct Ho as (Ee & Ec & Et). rewrite decide_False; [by rewrite Ee, Ec|]. rewrite <- Hk, <- Ee, <- Ec, <- Et.
        intros Hin. pose proof (ex_new _ _ _ _ B' (lr_target rec)) as Hd.
        apply (Hd _ (keysAt_record _ _ _ _ rec B' ltac:(left)) Hin).
      * rewrite decide_True; [done|]. apply Hk, Ho.
Qed.
(** ** Registering *)

(** The record of the registration is added to [w]. *)
Definition withPayload (p : registrationPayload (Node := Node)) w : World :=
  mkEventWorld (ew_host w) (ew_targets w) (nextListener w) (listenerShells w) (nextRegistration w + 1)
    (<[nextRegistration w := p]> (rootListenerRegistrationPayloads w)) (rootListenerCleanupRecords w).

(** Nothing that can be seen of a registration is left: the listeners, the properties of the
    targets and the records are those of [w]. *)
Record restored w w' : Prop := {
  rs_registered n : reg w' n = reg w n;
  rs_targets : ew_targets w' = ew_targets w;
  rs_made : (nextListener w <= nextListener w')%N;
  rs_next : nextRegistration w' = nextRegistration w;
  rs_payloads : rootListenerRegistrationPayloads w' = rootListenerRegistrationPayloads w;
  rs_cleanups : rootListenerCleanupRecords w' = rootListenerCleanupRecords w }.

Lemma registration_restored_refl w : restored w w.
Proof. split; done || lia. Qed.

Definition rootTargets n (doc : option Node) : list Node := uniqueTargets [Some n; doc] [].

Lemma elem_rootTargets n doc m : m ∈ rootTargets n doc <-> m = n \/ doc = Some m.
Proof.
  unfold rootTargets. destruct doc as [d|]; simpl; repeat case_decide; set_solver.
Qed.

Lemma describeContainer_ok d n : exists i, describeContainer d (inr n) = Ok i.
Proof.
  unfold describeContainer, readNodeType. destruct (el_reads d n "nodeName") as [v ->]. simpl.
  destruct (el_reads d n "nodeType") as [v' ->]. simpl. eauto.
Qed.

Lemma mapRes_ok {A B} (f : A -> res B) l : (forall x, exists y, f x = Ok y) -> exists ys, mapRes f l = Ok ys.
Proof.
  intros H. induction l as [|x l [ys IH]]; simpl; [eauto|]. destruct (H x) as [y ->]. simpl. rewrite IH. simpl. eauto.
Qed.

Lemma summarize_ok d (r : listenerRecord (Node := Node)) : exists s, summarizeInstalledListenerRecord d r = Ok s.
Proof. unfold summarizeInstalledListenerRecord. destruct (describeContainer_ok d (lr_target r)) as [i ->]. simpl. eauto. Qed.

Lemma register_spec n options w :
  madeOk w ->
  let '(r, w') := registerSupportedRootListeners n options true w in
  match r with
  | Throw _ => restored w w'
  | Ok None => False
  | Ok (Some id) => exists doc p w1,
      getOwnerDocument (ew_host w) (inr n) = Ok doc /\ id = nextRegistration w /\ w' = withPayload p w1
      /\ rp_active p = true /\ rp_targetSnapshots p = map (snapshotListenerTarget w) (rootTargets n doc)
      /\ extends (rootTargets n doc) (marked n w) (rp_installedListeners p) w1
      /\ (forall e c, (e, c) ∈ supportedListeners -> getListenerSetKey e c ∈ keysOf w' n)
      /\ (forall d, doc = Some d -> getListenerSetKey "selectionchange" false ∈ keysOf w' d)
      /\ (forall m, m ∈ rootTargets n doc -> marksOf w' m = Some (VBool true))
      /\ (keysOf w n = ∅ -> phases (rp_installedListeners p) = supportedListeners ++ docPlan doc w)
  end.
Proof.
  intros Hmade. unfold registerSupportedRootListeners.
  destruct (getOwnerDocument (ew_host w) (inr n)) as [doc|err]; cbn [pureStep andThen]; [|apply registration_restored_refl].
  fold (rootTargets n doc).
  destruct (mapRes (assertReversibleEventTarget (ew_host w)) (rootTargets n doc)) as [us|err]; cbn [pureStep andThen]; [|apply registration_restored_refl].
  rewrite mark_spec. destruct (hasAddEventListener (ew_host w) n); cbn [pureStep andThen]; [|apply registration_restored_refl].
  assert (Hn : n ∈ rootTargets n doc) by (apply elem_rootTargets; by left).
  assert (Hmade1 : madeOk (marked n w)) by (eapply extends_made; [done|by apply marked_extends]).
  pose proof (installRootListeners_spec n doc options (marked n w) Hmade1) as H.
  destruct (installRootListeners n doc options (marked n w)) as [[[[]|err] rs] w1]; destruct H as (A & Hmarks & Hok).
  2: { assert (A' : extends (rootTargets n doc) (marked n w) rs w1).
       { eapply extends_weaken; [|exact A]. intros m Hm. apply elem_rootTargets. destruct doc; simpl in Hm; set_solver. }
       destruct (cleanup_undoes (rootTargets n doc) w (marked n w) rs w1 w1) as (w3 & -> & Hreg & Ht & Heq); try done.
       { intros m Hm. unfold marksOf. apply lookup_insert_ne. intros ->. by apply Hm. }
       cbn [andThen]. destruct (ex_records _ _ _ _ A) as (E1 & E2 & E3). pose proof (ex_next _ _ _ _ A) as Hnext.
       split; [done|done|by rewrite Heq|by rewrite Heq|by rewrite Heq|by rewrite Heq]. }
  destruct (Hok eq_refl) as (Hkeys & Hdoc & Hphases). cbn [negb].
  destruct (describeContainer_ok (ew_host w1) n) as [i1 ->]. cbn [pureStep andThen].
  assert (Hi : exists i, match doc with None => Ok None | Some d => let* i := describeContainer (ew_host w1) (inr d) in Ok (Some i) end = Ok i).
  { destruct doc as [d|]; [|eauto]. destruct (describeContainer_ok (ew_host w1) d) as [i ->]. simpl. eauto. }
  destruct Hi as [i ->]. cbn [pureStep andThen].
  destruct (mapRes_ok (summarizeInstalledListenerRecord (ew_host w1)) rs (summarize_ok _)) as [l ->]. cbn [pureStep andThen].
  exists doc. eexists. exists w1. destruct (ex_records _ _ _ _ A) as (E1 & E2 & E3).
  split; [done|]. split; [by rewrite E1|]. split; [reflexivity|]. simpl. split; [done|]. split; [done|]. split; [|split_and!].
  - eapply extends_weaken; [|exact A]. intros m Hm. apply elem_rootTargets. destruct doc; simpl in Hm; set_solver.
  - apply Hkeys.
  - intros d Hd. by apply Hdoc.
  - intros m [->|Hm]%elem_rootTargets; [|by apply Hdoc].
    change (marksOf w1 n = Some (VBool true)). destruct (decide (doc = Some n)) as [Hd|Hd]; [by apply Hdoc|].
    rewrite Hmarks by done. apply lookup_insert_eq.
  - apply Hphases.
Qed.
(** ** When registering succeeds *)

(** Adding a listener does not throw. *)
Definition addsListeners : Prop := forall n e l o (d : D), fst (callAddEventListener n e l o d) = Ok tt.

(** A target with both methods; they do not depend on the state of the host. *)
Definition reversible n (d : D) : Prop := hasAddEventListener d n = true /\ hasRemoveEventListener d n = true.

Definition installable (p : string * bool) : bool :=
  isKnownNativeEvent (fst p) && negb (isNonDelegatedEvent (fst p) && negb (snd p)).

Lemma supported_installable : forallb installable (("selectionchange", false) :: supportedListeners) = true.
Proof. vm_compute. reflexivity. Qed.

Lemma listenToNativeEvent_ok e c n options w :
  addsListeners -> installable (e, c) = true -> hasAddEventListener (ew_host w) n = true ->
  exists o w', listenToNativeEventRecord e c n options w = (Ok o, w').
Proof.
  intros Hadds [H1 H2]%andb_true_iff Hadd. simpl in H1, H2. unfold listenToNativeEventRecord. rewrite H1, H2.
  cbn [require pureStep andThen]. unfold installOnce, onTargets, getEventListenerSet, assertEventTarget.
  rewrite Hadd. cbn [pureStep andThen].
  destruct (match eventHandlers (ew_targets w) !! n with Some _ => _ | None => _ end) as [[S|err] t] eqn:Et.
  2: { destruct (eventHandlers (ew_targets w) !! n); congruence. }
  cbn [andThen]. destruct (decide _); [eauto|].
  unfold addTrappedEventListenerRecord, createEventListenerShell.
  destruct (wrapper_total n e (phaseFlags c)) as [wr ->]. cbn [pureStep andThen].
  unfold onEventHost. cbn [ew_host setTargets nextListener].
  match goal with |- context [callAddEventListener ?a ?b ?l ?o ?d] => pose proof (Hadds a b l o d) as Hr;
    destruct (callAddEventListener a b l o d) as [[[]|err] d'] end; [|done].
  cbn [andThen]. eauto.
Qed.

Lemma installPlan_ok plan n options installed w :
  addsListeners -> forallb installable plan = true -> hasAddEventListener (ew_host w) n = true ->
  exists rs w', installPlan plan n options installed w = (Ok tt, rs, w').
Proof.
  intros Hadds. revert installed w. induction plan as [|[e c] plan IH]; intros installed w Hp Hadd; cbn [installPlan]; [eauto|].
  apply andb_true_iff in Hp as [H1 H2].
  destruct (listenToNativeEvent_ok e c n options w Hadds H1 Hadd) as (o & w' & ->). apply IH; [done|].
  by rewrite (el_add_method (ew_host w') (ew_host w)).
Qed.

Lemma register_ok n doc options w :
  addsListeners -> getOwnerDocument (ew_host w) (inr n) = Ok doc ->
  (forall m, m ∈ rootTargets n doc -> reversible m (ew_host w)) ->
  exists id w', registerSupportedRootListeners n options true w = (Ok id, w').
Proof.
  intros Hadds Hdoc Hrev. unfold registerSupportedRootListeners. rewrite Hdoc. cbn [pureStep andThen]. fold (rootTargets n doc).
  assert (Hadd : forall m d, m ∈ rootTargets n doc -> hasAddEventListener d m = true).
  { intros m d Hm. rewrite (el_add_method d (ew_host w)). by apply Hrev. }
  assert (Hall : exists us, mapRes (assertReversibleEventTarget (ew_host w)) (rootTargets n doc) = Ok us).
  { clear Hadd. induction (rootTargets n doc) as [|m T IH]; [by exists []|]. cbn [mapRes].
    unfold assertReversibleEventTarget at 1, assertEventTarget. destruct (Hrev m) as [-> ->]; [left|].
    destruct IH as [us ->]; [intros; apply Hrev; by right|]. by eexists. }
  destruct Hall as [us ->]. cbn [pureStep andThen].
  assert (Hn : n ∈ rootTargets n doc) by (apply elem_rootTargets; by left).
  rewrite mark_spec, Hadd by done. cbn [pureStep andThen].
  unfold installRootListeners. pose proof supported_installable as [Hs Hp]%andb_true_iff.
  destruct (installPlan_ok supportedListeners n options [] (marked n w) Hadds Hp) as (rs & w1 & ->); [by apply Hadd|].
  assert (Hout : exists rs' w2, (match doc with
      | None => (Ok tt, rs, w1)
      | Some d => match (do* _, w := onTargets (markTargetAsListening (ew_host w1) d) w1 in
                         listenToNativeEventRecord "selectionchange" false d options w) with
                  | (Ok r, w) => (Ok tt, rs ++ option_list r, w)
                  | (Throw e, w) => (Throw e, rs, w) end end) = (Ok tt, rs', w2)).
  { destruct doc as [d|]; [|eauto]. assert (Hd : d ∈ rootTargets n (Some d)) by (apply elem_rootTargets; by right).
    rewrite mark_spec, Hadd by done. cbn [pureStep andThen].
    destruct (listenToNativeEvent_ok "selectionchange" false d options (marked d w1) Hadds) as (o & w2 & ->); [|by apply Hadd|eauto].
    done. }
  destruct Hout as (rs' & w2 & ->). cbn [negb].
  destruct (describeContainer_ok (ew_host w2) n) as [i1 ->]. cbn [pureStep andThen].
  assert (Hi : exists i, match doc with None => Ok None | Some d => let* i := describeContainer (ew_host w2) (inr d) in Ok (Some i) end = Ok i).
  { destruct doc as [d|]; [|eauto]. destruct (describeContainer_ok (ew_host w2) d) as [i ->]. simpl. eauto. }
  destruct Hi as [i ->]. cbn [pureStep andThen].
  destruct (mapRes_ok (summarizeInstalledListenerRecord (ew_host w2)) rs' (summarize_ok _)) as [l ->]. cbn [pureStep andThen].
  eauto.
Qed.
(** ** Registering and reverting *)

Lemma failed_restores options w target e w' :
  madeOk w -> registerRootListenersForPrivateRoot target options w = (Throw e, w') -> restored w w'.
Proof.
  intros Hmade. unfold registerRootListenersForPrivateRoot.
  destruct target as [v|n]; simpl; [intros [= <- <-]; apply registration_restored_refl|].
  destruct (hasAddEventListener (ew_host w) n); simpl; [|intros [= <- <-]; apply registration_restored_refl].
  intros H. pose proof (register_spec n options w Hmade) as Hs. by rewrite H in Hs.
Qed.

(** A registration that succeeded has a record, by which it can be undone, once. *)
Lemma registered_reverts n options w id w1 :
  madeOk w -> registerRootListenersForPrivateRoot (inr n) options w = (Ok (Some id), w1) ->
  exists doc p, getOwnerDocument (ew_host w) (inr n) = Ok doc /\ rootListenerRegistrationPayloads w1 !! id = Some p
  /\ let rs := rp_installedListeners p in
     (forall m, reg w1 m = reg w m ++ entriesAt rs m)
     /\ (forall e c, (e, c) ∈ supportedListeners -> getListenerSetKey e c ∈ keysOf w1 n)
     /\ (forall d, doc = Some d -> getListenerSetKey "selectionchange" false ∈ keysOf w1 d)
     /\ (forall m, m ∈ rootTargets n doc -> marksOf w1 m = Some (VBool true))
     /\ (keysOf w n = ∅ -> phases rs = supportedListeners ++ docPlan doc w)
     /\ exists cleanup w2, revertRootListenersForPrivateRoot (Some id) w1 = (Ok cleanup, w2)
          /\ (forall m, reg w2 m = reg w m) /\ ew_targets w2 = ew_targets w
          /\ lc_summary cleanup = mkCleanupSummary (length rs) (length rs) (length (rootTargets n doc))
          /\ revertRootListenersForPrivateRoot (Some id) w2 = (Ok cleanup, w2).
Proof.
  intros Hmade. unfold registerRootListenersForPrivateRoot. simpl.
  destruct (hasAddEventListener (ew_host w) n); simpl; [|congruence]. intros E.
  pose proof (register_spec n options w Hmade) as H. rewrite E in H.
  destruct H as (doc & p & w0 & Hdoc & Hid & -> & Hact & Hsnap & A & Hk & Hd & Hm & Hph).
  assert (Hp : rootListenerRegistrationPayloads (withPayload p w0) !! id = Some p).
  { simpl. destruct (ex_records _ _ _ _ A) as (-> & _). simpl. rewrite Hid. apply lookup_insert_eq. }
  exists doc, p. split; [done|]. split; [done|]. simpl. split_and!; try done.
  - intros m. exact (ex_registered _ _ _ _ A m).
  - unfold revertRootListenersForPrivateRoot. cbn [mbind option_bind]. rewrite Hp. cbn [mbind option_bind]. rewrite Hact.
    rewrite Hsnap.
    destruct (cleanup_undoes (rootTargets n doc) w (marked n w) (rp_installedListeners p) w0 (withPayload p w0))
      as (w3 & -> & Hreg & Ht & Heq); try done.
    { intros m Hin. unfold marksOf. apply lookup_insert_ne. intros ->. apply Hin, elem_rootTargets. by left. }
    cbn [andThen]. do 2 eexists. split; [reflexivity|]. simpl. split_and!; try done.
    rewrite lookup_insert_eq. simpl. by rewrite lookup_insert_eq.
Qed.

(** A registration is all or nothing: when it throws, whether the target is no event
    target or the host fails while listeners are added, every listener that it had added is
    gone, and the targets and records are as before. It does not throw when the container and
    its document have both listener methods and adding listeners succeeds. *)
Theorem failed_registration_restores options w :
  madeOk w ->
  (forall target e w', registerRootListenersForPrivateRoot target options w = (Throw e, w') -> restored w w')
  /\ forall n doc, addsListeners -> getOwnerDocument (ew_host w) (inr n) = Ok doc ->
       (forall m, m ∈ rootTargets n doc -> reversible m (ew_host w)) ->
       exists id w', registerRootListenersForPrivateRoot (inr n) options w = (Ok (Some id), w').
Proof.
  intros Hmade. split; [intros target e w'; by apply failed_restores|]. unfold registerRootListenersForPrivateRoot.
  intros n doc Hadds Hdoc Hrev. simpl.
  assert (Hn : n ∈ rootTargets n doc) by (apply elem_rootTargets; by left).
  destruct (Hrev n Hn) as [-> _]. cbn [pureStep andThen].
  destruct (register_ok n doc options w Hadds Hdoc Hrev) as (id & w' & E). rewrite E.
  pose proof (register_spec n options w Hmade) as Hs. rewrite E in Hs. destruct id as [id|]; [eauto|done].
Qed.

(** A target that listens: some listener is there for the event and the phase. *)
Definition listens w n (e : string) (c : bool) : Prop := exists l, (e, l, c) ∈ reg w n.
Definition keysAgree w n : Prop := forall e c, listens w n e c <-> getListenerSetKey e c ∈ keysOf w n.

Lemma extends_agree T w rs w' n : extends T w rs w' -> keysAgree w n -> keysAgree w' n.
Proof.
  intros A H e c. unfold listens. rewrite (ex_registered _ _ _ _ A), (ex_keys _ _ _ _ A), elem_of_union, <- (H e c).
  unfold entriesAt, keysAt. split.
  - intros [l [Hl|(r & E & Hr)%list_elem_of_fmap]%elem_of_app]; [left; by exists l|right].
    apply elem_of_list_to_set, list_elem_of_fmap. exists r. split; [|done]. apply elem_onTarget in Hr as [Hr _].
    pose proof (proj1 (Forall_forall _ _) (ex_ok _ _ _ _ A) _ Hr) as Hok. rewrite (rk_key _ _ Hok).
    unfold entryOf in E. by injection E as -> _ ->.
  - intros [[l Hl]|(r & E & Hr)%elem_of_list_to_set%list_elem_of_fmap]; [exists l; apply elem_of_app; by left|].
    exists (lr_listener r). apply elem_of_app. right. apply list_elem_of_fmap. exists r. split; [|done].
    apply elem_onTarget in Hr as [Hr _]. pose proof (proj1 (Forall_forall _ _) (ex_ok _ _ _ _ A) _ Hr) as Hok.
    rewrite (rk_key _ _ Hok) in E. apply listenerSetKey_inj in E as [-> ->]. done.
Qed.

(** A registered container listens to everything that is supported, where the keys are those
    of the listeners, and its document to selection changes. *)
Lemma registered_listens n options w id w1 :
  madeOk w -> (forall m, keysAgree w m) -> registerRootListenersForPrivateRoot (inr n) options w = (Ok (Some id), w1) ->
  (forall e c, (e, c) ∈ supportedListeners -> listens w1 n e c)
  /\ forall d, getOwnerDocument (ew_host w) (inr n) = Ok (Some d) -> listens w1 d "selectionchange" false.
Proof.
  intros Hmade Hagree. unfold registerRootListenersForPrivateRoot. simpl.
  destruct (hasAddEventListener (ew_host w) n); simpl; [|congruence]. intros E.
  pose proof (register_spec n options w Hmade) as H. rewrite E in H.
  destruct H as (doc & p & w0 & Hdoc & Hid & -> & _ & _ & A & Hk & Hd & _).
  assert (H1 : forall m, keysAgree (withPayload p w0) m).
  { intros m. apply (extends_agree _ _ _ _ m A). exact (Hagree m). }
  split; [intros e c Hin; by apply H1, Hk|]. intros d Hd'.
  assert (E' : Ok doc = Ok (Some d)) by (rewrite <- Hdoc; exact Hd'). injection E' as ->. by apply H1, Hd.
Qed.

(** C15: Registering and reverting: a registered root and its document listen to every
    supported event in its phases, through the listeners of the record, which on a fresh
    container are exactly those, in order; reverting the record gives back the listeners,
    the keys and the marks of before and counts what it removed; reverting again returns the
    same cleanup and changes nothing. *)
Theorem register_revert_roundtrip n options w id w1 :
  madeOk w -> registerRootListenersForPrivateRoot (inr n) options w = (Ok (Some id), w1) ->
  exists doc p, getOwnerDocument (ew_host w) (inr n) = Ok doc /\ rootListenerRegistrationPayloads w1 !! id = Some p
  /\ let rs := rp_installedListeners p in
     (forall m, reg w1 m = reg w m ++ entriesAt rs m)
     /\ (forall e c, (e, c) ∈ supportedListeners -> getListenerSetKey e c ∈ keysOf w1 n)
     /\ (forall d, doc = Some d -> getListenerSetKey "selectionchange" false ∈ keysOf w1 d)
     /\ (forall m, m ∈ rootTargets n doc -> hasListeningMarker (ew_targets w1) (Some m) = true)
     /\ (keysOf w n = ∅ -> phases rs = supportedListeners ++ docPlan doc w)
     /\ exists cleanup w2, revertRootListenersForPrivateRoot (Some id) w1 = (Ok cleanup, w2)
          /\ (forall m, reg w2 m = reg w m) /\ ew_targets w2 = ew_targets w
          /\ lc_summary cleanup = mkCleanupSummary (length rs) (length rs) (length (rootTargets n doc))
          /\ revertRootListenersForPrivateRoot (Some id) w2 = (Ok cleanup, w2).
Proof.
  intros Hmade E. destruct (registered_reverts _ _ _ _ _ Hmade E) as (doc & p & Hdoc & Hp & Hreg & Hk & Hd & Hm & Hph & Hrevert).
  exists doc, p. split; [done|]. split; [done|]. simpl. split_and!; try done.
  intros m Hin. apply Hm in Hin. unfold marksOf in Hin. simpl in Hin. by rewrite Hin.
Qed.
(** ** Flags and lanes *)

Lemma priority_lane e options p :
  getEventPriority e options = Ok p -> p ∈ [DiscreteEventPriority; ContinuousEventPriority; DefaultEventPriority; IdleEventPriority].
Proof.
  unfold getEventPriority, schedulerPriorityToEventPriority. destruct (bool_decide _); [intros [= <-]; by left|].
  destruct (bool_decide _); [intros [= <-]; set_solver|]. destruct (bool_decide _); [|intros [= <-]; set_solver].
  destruct (resolveCurrentSchedulerPriority options) as [v|]; simpl; [|done]. intros [= <-].
  repeat case_bool; set_solver.
Qed.

(** [p] is one of the 31 lanes, below the sign bit. *)
Definition isLane (p : N) : Prop := exists k, (k < 31)%N /\ p = (2 ^ k)%N.

Lemma installed_record n e flags c options w rec w' :
  installOnce n e flags c options w = (Ok (Some rec), w') -> madeOk w ->
  flags = phaseFlags c \/ flags = IS_NON_DELEGATED /\ c = false ->
  recordOk (listenerShells w') rec /\ lr_domEventName rec = e /\ lr_isCapturePhaseListener rec = c
  /\ lr_eventSystemFlags rec = flags.
Proof.
  intros E Hmade Hflags. pose proof (installOnce_spec n e flags c options w Hmade Hflags) as H. rewrite E in H.
  destruct H as (A & He & Hc & _). split_and!; [|done|done|].
  - apply (proj1 (Forall_forall _ _) (ex_ok _ _ _ _ A)). left.
  - unfold installOnce in E. destruct (onTargets _ w) as [[S|] w0]; simpl in E; [|done].
    destruct (decide _); [done|]. unfold addTrappedEventListenerRecord, createEventListenerShell in E.
    destruct (wrapper_total n e flags) as [wr Hwr]. rewrite Hwr in E. simpl in E.
    destruct (onEventHost _ _) as [[[]|] w2]; simpl in E; [|done]. by injection E as <- _.
Qed.

(** C40: Widths: whatever the event and the options, an event priority is a single one of the
    31 lanes; two priorities with one name, or with one label, are the same; and a listener
    that is installed has flags below 32 that tell its phase and delegation, a wrapper with
    those flags and the priority of its event, and the dispatcher of that priority. *)
Theorem listener_flags_bounds :
  (forall e options p, getEventPriority e options = Ok p ->
     isLane (eventPriorityToLane p)
     /\ forall e' options' p', getEventPriority e' options' = Ok p' ->
        getEventPriorityName p = getEventPriorityName p' \/ getEventPriorityLabel p = getEventPriorityLabel p' -> p = p')
  /\ forall w e c n options rec w', madeOk w ->
       listenToNativeEventRecord e c n options w = (Ok (Some rec), w') \/
       c = false /\ listenToNonDelegatedEventRecord e n options w = (Ok (Some rec), w') ->
       let flags := lr_eventSystemFlags rec in
       (flags < 32)%N /\ isCapturePhase flags = c /\ shouldProcessPolyfillEventPlugins flags = (flags =? 0)%N
       /\ isNonDelegatedEventSystem flags = negb c && isNonDelegatedEvent e
       /\ exists wr, listenerShells w' !! lr_listener rec = Some wr /\ wr_eventSystemFlags wr = flags
            /\ getEventPriority e None = Ok (wr_eventPriority wr)
            /\ wr_dispatcherName wr = (if (wr_eventPriority wr =? DiscreteEventPriority)%N then "dispatchDiscreteEvent"
                 else if (wr_eventPriority wr =? ContinuousEventPriority)%N then "dispatchContinuousEvent" else "dispatchEvent").
Proof.
  split.
  - intros e options p Hp%priority_lane. split.
    + rewrite !elem_of_cons in Hp. destruct Hp as [->|[->|[->|[->|[]%not_elem_of_nil]]]];
        [exists 1%N|exists 3%N|exists 5%N|exists 28%N]; split; done || lia.
    + intros e' options' p' Hp'%priority_lane. rewrite !elem_of_cons in Hp, Hp'.
      destruct Hp as [->|[->|[->|[->|[]%not_elem_of_nil]]]], Hp' as [->|[->|[->|[->|[]%not_elem_of_nil]]]];
        intros [E|E]; done.
  - intros w e c n options rec w' Hmade H.
    assert (Hrec : recordOk (listenerShells w') rec /\ lr_domEventName rec = e /\ lr_isCapturePhaseListener rec = c
                   /\ lr_eventSystemFlags rec = if isNonDelegatedEvent e && negb c then IS_NON_DELEGATED else phaseFlags c).
    { unfold listenToNativeEventRecord, listenToNonDelegatedEventRecord, require in H.
      destruct H as [H | [-> H]].
      - destruct (isKnownNativeEvent e); simpl in H; [|done]. destruct (isNonDelegatedEvent e && negb c); simpl in H; [done|].
        by apply installed_record in H; [|done|left].
      - destruct (isNonDelegatedEvent e); simpl in H; [|done]. by apply installed_record in H; [|done|right]. }
    destruct Hrec as ([Hkey Hcap Hflags (wr & Hs & Hwr)] & <- & <- & Hf). simpl. rewrite Hf.
    split; [by destruct (isNonDelegatedEvent _), (lr_isCapturePhaseListener rec)|]. split; [by destruct (isNonDelegatedEvent _), (lr_isCapturePhaseListener rec)|].
    split; [by destruct (isNonDelegatedEvent _), (lr_isCapturePhaseListener rec)|].
    split; [by destruct (isNonDelegatedEvent _), (lr_isCapturePhaseListener rec)|].
    exists wr. split; [done|]. unfold createEventListenerWrapperRecordWithPriority in Hwr.
    destruct (getEventPriority (lr_domEventName rec) None) as [p|]; simpl in Hwr; [|done]. injection Hwr as <-.
    rewrite <- Hf. clear. destruct (p =? DiscreteEventPriority)%N eqn:E1; simpl; [by rewrite E1|]. destruct (p =? ContinuousEventPriority)%N eqn:E2; simpl; by rewrite E1, E2.
Qed.
End Laws.
