(* ===== verification/ListenersInvariant.v ===== *)
(** * The invariant of root listeners

    In every state that the operations of [RootListeners] reach, the keys of a target say
    which listeners of the module it has, each once, and the listeners of the registrations
    that were not reverted are there. *)
From S2P Require Import Prelude JsValue DomHost DomTree DomTreeSpec Events ListenerRegistry RootListeners RootListenersSpec.

Lemma NoDup_map_inj {A B} (f : A -> B) l x y : NoDup (map f l) -> x ∈ l -> y ∈ l -> f x = f y -> x = y.
Proof.
  induction l as [|z l IH]; [by intros _ ?%not_elem_of_nil|]. intros [Hz Hl]%NoDup_cons.
  intros [->|Hx]%elem_of_cons [->|Hy]%elem_of_cons E; [done| | |by apply IH].
  - destruct Hz. rewrite E. apply list_elem_of_fmap. by exists y.
  - destruct Hz. rewrite <- E. apply list_elem_of_fmap. by exists x.
Qed.

Lemma NoDup_map_filter {A B} (f : A -> B) (g : A -> bool) l : NoDup (map f l) -> NoDup (map f (List.filter g l)).
Proof.
  induction l as [|x l IH]; [intros _; constructor|]. intros [Hx Hl]%NoDup_cons. simpl. destruct (g x); [|by apply IH].
  apply NoDup_cons. split; [|by apply IH]. intros (y & E & Hy)%list_elem_of_fmap. apply Hx.
  rewrite E. apply list_elem_of_fmap. exists y. split; [done|]. rewrite list_elem_of_In in Hy |- *.
  by apply List.filter_In in Hy as [Hy _].
Qed.

Definition entryKey (x : string * N * bool) : string := let '(e, _, c) := x in getListenerSetKey e c.

Section Invariant.
Context {Node D : Type} `{!EqDecision Node} `{!Countable Node} `{!Host Node D} `{!EventHost Node D}.
Context (registered : D -> Node -> list (string * N * bool)) {laws : EventTargetLaws registered}.
Implicit Types (n m : Node) (rs : list (listenerRecord (Node := Node))) (T : list Node).
Implicit Types (w : eventWorld (Node := Node) (D := D)).
Abbreviation reg := (reg registered).
Abbreviation extends := (extends registered).
Abbreviation madeOk := (madeOk registered).

(** ** The invariant *)

Definition keysTrue w n : Prop :=
  NoDup (map entryKey (reg w n)) /\ keysOf w n = list_to_set (map entryKey (reg w n)).

Record payloadTrue w (p : registrationPayload (Node := Node)) : Prop := {
  pt_there r : r ∈ rp_installedListeners p -> entryOf r ∈ reg w (lr_target r);
  pt_key r : r ∈ rp_installedListeners p ->
    lr_listenerSetKey r = entryKey (entryOf r) /\ captureOf (lr_listenerOptions r) = lr_isCapturePhaseListener r }.

Record listenersOk w : Prop := {
  lo_made : madeOk w;
  lo_keys n : keysTrue w n;
  lo_old id p : rootListenerRegistrationPayloads w !! id = Some p -> (id < nextRegistration w)%N;
  lo_active id p : rootListenerRegistrationPayloads w !! id = Some p -> rp_active p = true -> payloadTrue w p;
  lo_reverted id p : rootListenerRegistrationPayloads w !! id = Some p -> rp_active p = false ->
    is_Some (rootListenerCleanupRecords w !! id);
  lo_apart id1 id2 p1 p2 r1 r2 :
    rootListenerRegistrationPayloads w !! id1 = Some p1 -> rp_active p1 = true ->
    rootListenerRegistrationPayloads w !! id2 = Some p2 -> rp_active p2 = true -> id1 <> id2 ->
    r1 ∈ rp_installedListeners p1 -> r2 ∈ rp_installedListeners p2 -> lr_listener r1 <> lr_listener r2 }.

(** ** The steps *)

Inductive listenerStep w : eventWorld (Node := Node) (D := D) -> Prop :=
| listen_native e c n options : listenerStep w (snd (listenToNativeEventRecord e c n options w))
| listen_nonDelegated e n options : listenerStep w (snd (listenToNonDelegatedEventRecord e n options w))
| listen_all target options : listenerStep w (snd (listenToAllSupportedEvents target options w))
| listen_register target options : listenerStep w (snd (registerRootListenersForPrivateRoot target options w))
| listen_revert record : listenerStep w (snd (revertRootListenersForPrivateRoot record w)).

(** ** Installing keeps the invariant *)

Lemma entriesAt_keys T w rs w' n : extends T w rs w' ->
  map entryKey (entriesAt rs n) = map lr_listenerSetKey (onTarget n rs).
Proof.
  intros A. unfold entriesAt. rewrite map_map. apply map_ext_in. intros r Hr.
  apply list_elem_of_In, elem_onTarget in Hr as [Hr _].
  by rewrite (rk_key _ _ (proj1 (Forall_forall _ _) (ex_ok _ _ _ _ _ A) r Hr)).
Qed.

Lemma onTarget_nodup n rs :
  NoDup (map (fun r => (lr_target r, lr_listenerSetKey r)) rs) -> NoDup (map lr_listenerSetKey (onTarget n rs)).
Proof.
  induction rs as [|r rs IH]; [intros _; constructor|]. intros [Hr Hl]%NoDup_cons. unfold onTarget. simpl.
  case_bool_decide as E; [|by apply IH]. simpl. apply NoDup_cons. split; [|by apply IH].
  intros (r' & E' & Hr')%list_elem_of_fmap. apply elem_onTarget in Hr' as [Hin Ht]. apply Hr.
  apply list_elem_of_fmap. exists r'. split; [|done]. by rewrite E, E', Ht.
Qed.

Lemma keysTrue_extends T w rs w' n : keysTrue w n -> extends T w rs w' -> keysTrue w' n.
Proof.
  intros [Hn Hk] A. unfold keysTrue.
  rewrite (ex_registered _ _ _ _ _ A), map_app, (entriesAt_keys T w rs w' n A), (ex_keys _ _ _ _ _ A), list_to_set_app_L, Hk.
  split; [|done]. apply NoDup_app. split; [done|]. split; [|apply onTarget_nodup, A].
  intros k H1 H2. apply (ex_new _ _ _ _ _ A n k).
  - unfold keysAt. by apply elem_of_list_to_set.
  - rewrite Hk. by apply elem_of_list_to_set.
Qed.

Lemma payloadTrue_extends T w rs w' p : payloadTrue w p -> extends T w rs w' -> payloadTrue w' p.
Proof.
  intros [H1 H2] A. split; [|done]. intros r Hr. rewrite (ex_registered _ _ _ _ _ A). apply elem_of_app. left. by apply H1.
Qed.

Lemma listenersOk_extends T w rs w' : listenersOk w -> extends T w rs w' -> listenersOk w'.
Proof.
  intros Hw A. destruct (ex_records _ _ _ _ _ A) as (E1 & E2 & E3). split; rewrite ?E1, ?E2, ?E3.
  - by eapply extends_made; [apply Hw|].
  - intros n. by eapply keysTrue_extends; [apply Hw|].
  - apply Hw.
  - intros id p H1 H2. by eapply payloadTrue_extends; [eapply lo_active|].
  - apply Hw.
  - apply Hw.
Qed.

Lemma registering_keeps T w w1 rs w2 p :
  listenersOk w -> extends T w [] w1 -> extends T w1 rs w2 -> rp_installedListeners p = rs -> rp_active p = true ->
  listenersOk (withPayload p w2).
Proof.
  intros Hw A0 A Hp Hact.
  pose proof (listenersOk_extends _ _ _ _ Hw A0) as Hw1. pose proof (listenersOk_extends _ _ _ _ Hw1 A) as Hw2.
  destruct (ex_records _ _ _ _ _ A) as (E1 & E2 & E3).
  assert (Hfresh : forall id q r r', rootListenerRegistrationPayloads w2 !! id = Some q -> rp_active q = true ->
    r ∈ rp_installedListeners q -> r' ∈ rs -> lr_listener r <> lr_listener r').
  { intros id q r r' Hq Hqa Hr Hr'. rewrite E2 in Hq.
    pose proof (pt_there _ _ (lo_active _ Hw1 _ _ Hq Hqa) r Hr) as Hin. apply (lo_made _ Hw1) in Hin. simpl in Hin.
    apply (proj1 (Forall_forall _ _) (ex_fresh _ _ _ _ _ A)) in Hr' as [? _]. lia. }
  split; simpl.
  - apply Hw2.
  - apply Hw2.
  - intros id q [[<- <-]|[_ H]]%lookup_insert_Some; [lia|]. apply (lo_old _ Hw2) in H. lia.
  - intros id q [[<- <-]|[_ H]]%lookup_insert_Some Hq.
    + split; rewrite Hp.
      * intros r Hr. change (entryOf r ∈ reg w2 (lr_target r)).
        rewrite (ex_registered _ _ _ _ _ A). apply elem_of_app. right. unfold entriesAt.
        apply list_elem_of_fmap. exists r. split; [done|]. by apply elem_onTarget.
      * intros r Hr. destruct (proj1 (Forall_forall _ _) (ex_ok _ _ _ _ _ A) r Hr) as [H1 H2 _ _]. done.
    + destruct (lo_active _ Hw2 _ _ H Hq) as [H1 H2]. by split.
  - intros id q [[<- <-]|[_ H]]%lookup_insert_Some Hq; [congruence|]. by apply (lo_reverted _ Hw2 _ _ H).
  - intros id1 id2 p1 p2 r1 r2 [[<- <-]|[_ H1]]%lookup_insert_Some Ha1 [[<- <-]|[_ H2]]%lookup_insert_Some Ha2 Hne Hr1 Hr2.
    + done.
    + rewrite Hp in Hr1. intros E. by apply (Hfresh _ _ _ _ H2 Ha2 Hr2 Hr1).
    + rewrite Hp in Hr2. by apply (Hfresh _ _ _ _ H1 Ha1 Hr1 Hr2).
    + by apply (lo_apart _ Hw2 id1 id2 p1 p2).
Qed.
Lemma registerAll_extends n options w :
  madeOk w -> exists T rs, extends T w rs (snd (registerSupportedRootListeners n options false w)).
Proof.
  intros Hmade. unfold registerSupportedRootListeners.
  destruct (getOwnerDocument (ew_host w) (inr n)) as [doc|err]; cbn [pureStep andThen]; [|exists [], []; by apply extends_refl].
  rewrite mark_spec. destruct (hasAddEventListener (ew_host w) n); cbn [pureStep andThen]; [|exists [], []; by apply extends_refl].
  pose proof (marked_extends registered (n :: option_list doc) n w ltac:(apply elem_of_cons; by left)) as A0.
  pose proof (installRootListeners_spec registered n doc options (marked n w)) as H.
  destruct (installRootListeners n doc options (marked n w)) as [[r rs] w1].
  destruct H as (A & _); [by eapply extends_made|].
  exists (n :: option_list doc), rs. pose proof (extends_trans registered _ _ [] _ _ _ A0 A). by destruct r.
Qed.

(** ** Reverting keeps the invariant *)

Lemma keys_restored (snapshots : list (targetSnapshot (Node := Node))) t n :
  default ∅ (eventHandlers (foldl (fun t s => restoreTarget s t) t snapshots) !! n)
  = default ∅ (eventHandlers t !! n) :> gset string.
Proof.
  revert t. induction snapshots as [|s snapshots IH]; intros t; simpl; [done|]. rewrite IH.
  unfold restoreTarget. simpl. destruct (eventHandlers t !! ts_target s) as [S|] eqn:E; [|done].
  destruct (negb (ts_hadEventHandlersKey s)); simpl; [|done]. case_bool_decide as Hs; [|done].
  destruct (decide (ts_target s = n)) as [<-|Hne]; [|by rewrite lookup_delete_ne].
  rewrite lookup_delete_eq, E. simpl. apply size_empty_iff in Hs. set_solver.
Qed.

Lemma removed_keysTrue w w' rs n :
  keysTrue w n -> (forall r, r ∈ rs -> entryOf r ∈ reg w (lr_target r) /\ lr_listenerSetKey r = entryKey (entryOf r)) ->
  reg w' n = List.filter (fun x => negb (bool_decide (x ∈ entriesAt rs n))) (reg w n) ->
  keysOf w' n = keysOf w n ∖ keysAt rs n -> keysTrue w' n.
Proof.
  intros [Hn Hk] Hrs Hreg Hkeys. split; rewrite Hreg; [by apply NoDup_map_filter|].
  rewrite Hkeys, Hk. apply leibniz_equiv. intros k.
  rewrite elem_of_difference, !elem_of_list_to_set, !list_elem_of_fmap, elem_keysAt. split.
  - intros [(x & -> & Hx) Hnot]. exists x. split; [done|]. apply list_elem_of_In, List.filter_In.
    split; [by apply list_elem_of_In|]. rewrite negb_true_iff, bool_decide_eq_false. intros Hin. apply Hnot.
    apply list_elem_of_fmap in Hin as (r & -> & [Hr Ht]%elem_onTarget). exists r. split_and!; [done|done|by apply Hrs].
  - intros (x & -> & Hx). apply list_elem_of_In, List.filter_In in Hx as [Hx Hout].
    apply list_elem_of_In in Hx. rewrite negb_true_iff, bool_decide_eq_false in Hout. split; [eauto|].
    intros (r & Hr & Ht & Ek). apply Hout. destruct (Hrs r Hr) as [Hin Er]. rewrite Ht in Hin.
    assert (x = entryOf r) as -> by (eapply NoDup_map_inj; [done|done|done|congruence]).
    apply list_elem_of_fmap. exists r. split; [done|]. by apply elem_onTarget.
Qed.
Lemma revert_keeps record w : listenersOk w -> listenersOk (snd (revertRootListenersForPrivateRoot record w)).
Proof.
  intros Hw. unfold revertRootListenersForPrivateRoot. destruct record as [id|]; cbn [mbind option_bind]; [|done].
  destruct (rootListenerRegistrationPayloads w !! id) as [p|] eqn:Ep; cbn [mbind option_bind]; [|done].
  destruct (rp_active p) eqn:Ea.
  2: { destruct (lo_reverted _ Hw _ _ Ep Ea) as [c ->]. done. }
  set (rs := rp_installedListeners p). destruct (lo_active _ Hw _ _ Ep Ea) as [Hthere Hkey]. fold rs in Hthere, Hkey.
  unfold cleanupInstalledRootListeners.
  assert (Hrev : forall r, r ∈ rev rs <-> r ∈ rs) by (intros r; by rewrite !list_elem_of_In, <- in_rev).
  destruct (removeAll_spec registered (rev rs) 0 w) as (k & w2 & -> & Hreg & Hh & Hm & Heq & _).
  { apply Forall_forall. intros r Hr%Hrev. by apply Hkey. }
  cbn [andThen snd]. rewrite Heq. cbn [ew_host setTargets setHost nextListener nextRegistration listenerShells
    rootListenerRegistrationPayloads rootListenerCleanupRecords].
  match goal with |- listenersOk ?x => set (w' := x) end.
  assert (Hreg' : forall n, reg w' n = List.filter (fun x => negb (bool_decide (x ∈ entriesAt (rev rs) n))) (reg w n)) by done.
  assert (Hsub : forall n x, x ∈ reg w' n -> x ∈ reg w n).
  { intros n x. rewrite Hreg', !list_elem_of_In, List.filter_In. tauto. }
  split; simpl.
  - intros n x Hx. apply Hsub in Hx. exact (lo_made _ Hw n x Hx).
  - intros n. apply (removed_keysTrue w w' (rev rs)); [apply Hw| |done|].
    + intros r Hr%Hrev. split; [by apply Hthere|by apply Hkey].
    + unfold keysOf. simpl. rewrite keys_restored, Hh. destruct (eventHandlers (ew_targets w) !! n); simpl; set_solver.
  - intros id' q [[<- <-]|[_ H]]%lookup_insert_Some; by eapply (lo_old _ Hw).
  - intros id' q [[<- <-]|[Hne H]]%lookup_insert_Some Hq; [done|].
    destruct (lo_active _ Hw _ _ H Hq) as [H1 H2]. split; [|done]. intros r Hr. rewrite Hreg'.
    apply list_elem_of_In, List.filter_In. split; [by apply list_elem_of_In, H1|].
    rewrite negb_true_iff, bool_decide_eq_false. intros (r' & E & [Hr'%Hrev _]%elem_onTarget)%list_elem_of_fmap.
    apply (lo_apart _ Hw id id' p q r' r); [done|done|done|done|done|done|done|]. by injection E.
  - intros id' q [[<- <-]|[Hne H]]%lookup_insert_Some Hq; [rewrite lookup_insert_eq; eauto|].
    rewrite lookup_insert_ne by done. by apply (lo_reverted _ Hw _ _ H).
  - intros id1 id2 p1 p2 r1 r2 [[<- <-]|[_ H1]]%lookup_insert_Some Ha1 [[<- <-]|[_ H2]]%lookup_insert_Some Ha2; try done.
    by apply (lo_apart _ Hw id1 id2 p1 p2).
Qed.

(** ** Every reachable state *)

Definition noListeners (d : D) : eventWorld (Node := Node) (D := D) := mkEventWorld d (mkTargets ∅ ∅) 0 ∅ 0 ∅ ∅.

Lemma start_ok d : (forall n, registered d n = []) -> listenersOk (noListeners d).
Proof.
  intros Hd. split; simpl; try (intros; by simplify_map_eq).
  - intros n x. unfold reg. simpl. rewrite Hd. by intros ?%not_elem_of_nil.
  - intros n. unfold keysTrue, reg, keysOf. simpl. rewrite Hd, lookup_empty. split; [constructor|done].
Qed.

Lemma restored_keeps w w' : listenersOk w -> restored registered w w' -> listenersOk w'.
Proof.
  intros Hw [Hr Ht Hl Hn Hp Hc]. split; rewrite ?Hp, ?Hn, ?Hc; try apply Hw.
  - intros n x. rewrite Hr. intros Hx. apply (lo_made _ Hw) in Hx. lia.
  - intros n. unfold keysTrue, keysOf. rewrite Hr, Ht. apply Hw.
  - intros id p H1 H2. destruct (lo_active _ Hw _ _ H1 H2) as [H3 H4]. split; [|done].
    intros r. rewrite Hr. apply H3.
Qed.

Lemma step_keeps w w' : listenersOk w -> listenerStep w w' -> listenersOk w'.
Proof.
  intros Hw [e c n options|e n options|target options|target options|record].
  - pose proof (listenToNativeEvent_spec registered e c n options w (lo_made _ Hw)) as H.
    destruct (listenToNativeEventRecord e c n options w) as [r w1]. simpl. by eapply listenersOk_extends; [|apply H].
  - unfold listenToNonDelegatedEventRecord, require. destruct (isNonDelegatedEvent e); [|done]. cbn [pureStep andThen].
    pose proof (installOnce_spec registered n e IS_NON_DELEGATED false options w (lo_made _ Hw) ltac:(by right)) as H.
    destruct (installOnce n e IS_NON_DELEGATED false options w) as [r w1]. simpl. by eapply listenersOk_extends; [|apply H].
  - unfold listenToAllSupportedEvents. destruct target as [v|n]; simpl; [done|].
    destruct (hasAddEventListener (ew_host w) n); simpl; [|done].
    destruct (registerAll_extends n options w (lo_made _ Hw)) as (T & rs & A).
    destruct (registerSupportedRootListeners n options false w) as [[o|err] w1]; by eapply listenersOk_extends.
  - unfold registerRootListenersForPrivateRoot. destruct target as [v|n]; simpl; [done|].
    destruct (hasAddEventListener (ew_host w) n); simpl; [|done].
    pose proof (register_spec registered n options w (lo_made _ Hw)) as H.
    destruct (registerSupportedRootListeners n options true w) as [[[id|]|err] w1]; simpl; [|done|].
    + destruct H as (doc & p & w0 & _ & _ & -> & Ha & _ & A & _).
      eapply registering_keeps; [done| |exact A|done|done]. exact (marked_extends registered _ n w (proj2 (elem_rootTargets registered n doc n) (or_introl eq_refl))).
    + by eapply restored_keeps.
  - by apply revert_keeps.
Qed.

(** C14: In every state that installing, registering and reverting reach, in any order and
    whatever they throw, the keys of a target are those of its listeners: it has a listener
    for an event and phase exactly when the key is in its set, and then one only; and the
    listeners of every registration that was not reverted are still on their targets, on
    none of which another registration owns them. *)
Theorem listeners_agree d w :
  (forall n, registered d n = []) -> rtc listenerStep (noListeners d) w ->
  (forall n e c, (exists l, (e, l, c) ∈ reg w n) <-> getListenerSetKey e c ∈ keysOf w n)
  /\ (forall n e c l l', (e, l, c) ∈ reg w n -> (e, l', c) ∈ reg w n -> l = l')
  /\ (forall id p r, rootListenerRegistrationPayloads w !! id = Some p -> rp_active p = true ->
        r ∈ rp_installedListeners p ->
        (lr_domEventName r, lr_listener r, lr_isCapturePhaseListener r) ∈ reg w (lr_target r)
        /\ forall id' p' r', rootListenerRegistrationPayloads w !! id' = Some p' -> rp_active p' = true -> id <> id' ->
              r' ∈ rp_installedListeners p' -> lr_listener r <> lr_listener r').
Proof.
  intros Hd Hsteps. assert (Hw : listenersOk w).
  { pose proof (start_ok d Hd) as H0. induction Hsteps as [|w0 w1 w2 Hs _ IH]; [done|].
    apply IH. by eapply step_keeps. }
  split; [|split].
  - intros n e c. destruct (lo_keys _ Hw n) as [_ ->]. rewrite elem_of_list_to_set, list_elem_of_fmap. split.
    + intros [l Hl]. by exists (e, l, c).
    + intros ([[e' l] c'] & E & Hin). simpl in E. apply listenerSetKey_inj in E as [-> ->]. eauto.
  - intros n e c l l' H H'. destruct (lo_keys _ Hw n) as [Hnd _].
    assert (E : (e, l, c) = (e, l', c)) by (by eapply NoDup_map_inj). congruence.
  - intros id p r Hp Ha Hr. split; [by apply (pt_there _ _ (lo_active _ Hw _ _ Hp Ha))|].
    intros id' p' r' Hp' Ha' Hne Hr'. by apply (lo_apart _ Hw id id' p p').
Qed.
End Invariant.
