(* ===== verification/EventDemo.v ===== *)
(** * Root listeners at concrete inputs

    The node 0 is a document, every other node is one of its elements. A target may refuse
    to take more than a limit of listeners. *)
From S2P Require Import Prelude JsValue DomHost DomTree HydrationDemo Events ListenerRegistry RootListeners RootListenersSpec ListenersInvariant.

(** The listeners of each node. *)
Record targets : Type := mkTargetLists { listsOf : gmap nat (list (string * N * bool)) }.
Definition listenersOn (d : targets) (n : nat) : list (string * N * bool) := default [] (listsOf d !! n).
Definition setListeners (n : nat) (l : list (string * N * bool)) (d : targets) : targets :=
  mkTargetLists (<[n := l]> (listsOf d)).

#[export] Instance documentHost : Host nat targets :=
  readingHost (fun _ n name => if bool_decide (name = "nodeType") then nodeTypeValue (if decide (n = 0) then 9 else 1) else VUndef)
    (fun _ _ _ => VNull) (fun _ n => if decide (n = 0) then None else Some 0).

Definition listeningHost (limit : option nat) : EventHost nat targets := {|
  hasAddEventListener _ _ := true;
  hasRemoveEventListener _ _ := true;
  callAddEventListener n e l o d :=
    if match limit with Some k => (k <=? length (listenersOn d n))%nat | None => false end
    then (hostError "too many listeners", d)
    else (Ok tt, if decide ((e, l, captureOf o) ∈ listenersOn d n) then d
                 else setListeners n (listenersOn d n ++ [(e, l, captureOf o)]) d);
  callRemoveEventListener n e l o d :=
    (Ok tt, setListeners n (List.filter (fun x => negb (bool_decide (x = (e, l, captureOf o)))) (listenersOn d n)) d);
  registrationsLength d n := Some (length (listenersOn d n)) |}.

Lemma listeners_set n m l d : listenersOn (setListeners n l d) m = if decide (m = n) then l else listenersOn d m.
Proof.
  unfold listenersOn, setListeners. simpl. case_decide as H; [by rewrite H, lookup_insert_eq|by rewrite lookup_insert_ne].
Qed.

#[export] Instance listening_laws limit : EventTargetLaws (EventHost0 := listeningHost limit) listenersOn.
Proof.
  split; try done.
  - intros d n p. by eexists.
  - intros n e l o d Hnew. cbn [callAddEventListener listeningHost].
    destruct (match limit with Some k => _ | None => _ end); cbn beta iota; [split; [by rewrite app_nil_r|done]|].
    rewrite decide_False by done. split; [|intros m Hm]; rewrite listeners_set.
    + by rewrite decide_True.
    + by rewrite decide_False.
  - intros n e l o d. eexists. split; [reflexivity|]. split; [|intros m Hm]; rewrite listeners_set.
    + by rewrite decide_True.
    + by rewrite decide_False.
Qed.

Definition nothing : eventWorld (Node := nat) (D := targets) := noListeners (mkTargetLists ∅).

Lemma nothing_made : madeOk listenersOn nothing.
Proof. intros n x Hx. by apply not_elem_of_nil in Hx. Qed.

(** ** A failing registration, and one that succeeds *)

Definition limited := registerRootListenersForPrivateRoot (EventHost0 := listeningHost (Some 3)) (inr 1) None nothing.

Lemma failed_registration_restores_witness :
  fst limited = hostError "too many listeners" /\ restored listenersOn nothing (snd limited)
  /\ exists id w, registerRootListenersForPrivateRoot (EventHost0 := listeningHost None) (inr 1) None nothing = (Ok (Some id), w).
Proof.
  assert (E : fst limited = hostError "too many listeners") by (vm_compute; reflexivity).
  split; [exact E|]. split.
  - apply (failed_registration_restores listenersOn (laws := listening_laws (Some 3)) None nothing nothing_made) with (target := inr 1)
      (e := HostError "too many listeners").
    change (limited = (hostError "too many listeners", snd limited)). rewrite <- E. apply surjective_pairing.
  - apply (failed_registration_restores listenersOn (laws := listening_laws None) None nothing nothing_made) with (doc := Some 0).
    + intros n e l o d. reflexivity.
    + reflexivity.
    + intros m _. split; reflexivity.
Defined.

(** ** Two roots in one document *)

Section TwoRoots.
#[local] Instance unlimited : EventHost nat targets := listeningHost None.

Definition oneRoot := snd (registerRootListenersForPrivateRoot (inr 1) None nothing).
Definition twoRoots := snd (registerRootListenersForPrivateRoot (inr 2) None oneRoot).
Definition firstReverted := snd (revertRootListenersForPrivateRoot (Some 0%N) twoRoots).

Lemma register_revert_roundtrip_witness :
  exists p, rootListenerRegistrationPayloads oneRoot !! 0%N = Some p
  /\ map (fun r => (lr_domEventName r, lr_isCapturePhaseListener r)) (rp_installedListeners p)
     = supportedListeners ++ [("selectionchange", false)]
  /\ exists cleanup w2, revertRootListenersForPrivateRoot (Some 0%N) oneRoot = (Ok cleanup, w2)
       /\ ew_targets w2 = ew_targets nothing.
Proof.
  assert (E : fst (registerRootListenersForPrivateRoot (inr 1) None nothing) = Ok (Some 0%N)) by (vm_compute; reflexivity).
  assert (E' : registerRootListenersForPrivateRoot (inr 1) None nothing = (Ok (Some 0%N), oneRoot))
    by (rewrite <- E; apply surjective_pairing).
  destruct (register_revert_roundtrip listenersOn 1 None nothing 0%N oneRoot nothing_made E')
    as (doc & p & Hdoc & Hp & _ & _ & _ & _ & Hph & c & w2 & Hrev & _ & Ht & _).
  injection Hdoc as <-. exists p. split; [exact Hp|]. split; [exact (Hph eq_refl)|]. exists c, w2. split; [exact Hrev|exact Ht].
Defined.

Lemma twoRoots_reachable : rtc listenerStep nothing twoRoots.
Proof.
  eapply rtc_l; [apply (listen_register nothing (inr 1) None)|].
  eapply rtc_l; [apply (listen_register oneRoot (inr 2) None)|constructor].
Qed.

Lemma no_listeners n : listenersOn (mkTargetLists ∅) n = [].
Proof. done. Qed.

Lemma twoRoots_click : getListenerSetKey "click" true ∈ keysOf twoRoots 2.
Proof.
  assert (E : mapset.mapset_car (keysOf twoRoots 2) !! getListenerSetKey "click" true = Some tt) by (vm_compute; reflexivity).
  exact E.
Qed.
Lemma twoRoots_second : is_Some (rootListenerRegistrationPayloads twoRoots !! 1%N).
Proof.
  assert (E : isSome (rootListenerRegistrationPayloads twoRoots !! 1%N) = true) by (vm_compute; reflexivity).
  destruct (rootListenerRegistrationPayloads twoRoots !! 1%N) as [p|]; [exists p; reflexivity|discriminate].
Qed.

Lemma listeners_agree_witness :
  (exists l, ("click", l, true) ∈ listenersOn (ew_host twoRoots) 2) /\ is_Some (rootListenerRegistrationPayloads twoRoots !! 1%N).
Proof.
  destruct (listeners_agree listenersOn (mkTargetLists ∅) twoRoots no_listeners twoRoots_reachable) as (H & _).
  split; [|exact twoRoots_second].
  exact (proj2 (H 2 "click" true) twoRoots_click).
Defined.

Lemma listener_flags_bounds_witness :
  exists rec w', listenToNativeEventRecord "click" true 1 None nothing = (Ok (Some rec), w') /\ (lr_eventSystemFlags rec < 32)%N.
Proof.
  destruct (listenToNativeEventRecord "click" true 1 None nothing) as [[[rec|]|e] w'] eqn:E;
    try (exfalso; vm_compute in E; congruence).
  exists rec, w'. split; [reflexivity|].
  exact (proj1 (proj2 (listener_flags_bounds listenersOn) nothing "click" true 1 None rec w' nothing_made (or_introl E))).
Defined.

(** The document's listener for selectionchange belongs to the first registration alone:
    reverting it leaves the second root, which is still registered, without it and without
    the document's mark. *)
Theorem revert_strands_shared_document :
  (exists p, rootListenerRegistrationPayloads firstReverted !! 1%N = Some p /\ rp_active p = true)
  /\ getListenerSetKey "selectionchange" false ∉ keysOf firstReverted 0
  /\ listenersOn (ew_host firstReverted) 0 = []
  /\ hasListeningMarker (ew_targets twoRoots) (Some 0) = true
  /\ hasListeningMarker (ew_targets firstReverted) (Some 0) = false.
Proof.
  assert (E1 : (rp_active <$> rootListenerRegistrationPayloads firstReverted !! 1%N) = Some true) by (vm_compute; reflexivity).
  assert (E2 : mapset.mapset_car (keysOf firstReverted 0) !! getListenerSetKey "selectionchange" false = None)
    by (vm_compute; reflexivity).
  split; [|split; [intros H; pose proof (eq_trans (eq_sym E2) H); discriminate|split; [|split]; vm_compute; reflexivity]].
  apply fmap_Some_1 in E1 as (p & Hp & Ha). exists p. split; [exact Hp|symmetry; exact Ha].
Qed.
End TwoRoots.
