(* ===== verification/RootBridge.v ===== *)
(** * The root bridge (client/root-bridge.js)

    Bridges make roots and request records: create, render and unmount. A record can be
    admitted, bounded by the life of its request, and mirrored for the native side; the side
    effects of a create request mark its container and register its listeners. The objects
    that the module makes are numbers, which are the keys of its WeakMaps; an argument that
    is no object of a kind is [None] or a number without an entry. Each record is kept with
    its payload. Hydrate requests and the public facade are not modelled. *)
From stdpp Require Import pretty.
From S2P Require Import Prelude JsValue DomHost DomTree RootMarkers Events ListenerRegistry RootListeners.

(** ** Names *)

Definition CLIENT_ROOT_KIND : string := "client".
Definition CONCURRENT_ROOT_TAG : string := "ConcurrentRoot".

Inductive rootLifecycle : Type := ROOT_LIFECYCLE_CREATED | ROOT_LIFECYCLE_RENDERED | ROOT_LIFECYCLE_UNMOUNTED.
#[export] Instance rootLifecycle_eq_dec : EqDecision rootLifecycle.
Proof. solve_decision. Defined.
Definition lifecycleName (s : rootLifecycle) : string :=
  match s with
  | ROOT_LIFECYCLE_CREATED => "created"
  | ROOT_LIFECYCLE_RENDERED => "rendered"
  | ROOT_LIFECYCLE_UNMOUNTED => "unmounted"
  end.

Inductive requestOperation : Type := CreateOperation | RenderOperation | UnmountOperation.
#[export] Instance requestOperation_eq_dec : EqDecision requestOperation.
Proof. solve_decision. Defined.
Definition requestTypeOf (op : requestOperation) : string :=
  match op with
  | CreateOperation => "createRoot"
  | RenderOperation => "root.render"
  | UnmountOperation => "root.unmount"
  end.

Definition FOREIGN_ROOT_HANDLE : string := "FAST_REACT_DOM_FOREIGN_ROOT_HANDLE".
Definition INVALID_ROOT_HANDLE : string := "FAST_REACT_DOM_INVALID_ROOT_HANDLE".
Definition INVALID_ROOT_OWNER : string := "FAST_REACT_DOM_INVALID_ROOT_OWNER".
Definition INVALID_ROOT_ID : string := "FAST_REACT_DOM_INVALID_ROOT_ID".
Definition UNMOUNTED_ROOT : string := "FAST_REACT_DOM_UNMOUNTED_ROOT".
Definition INVALID_ROOT_BRIDGE_REQUEST : string := "FAST_REACT_DOM_INVALID_ROOT_BRIDGE_REQUEST".
Definition INVALID_CREATE_RENDER_ADMISSION : string := "FAST_REACT_DOM_INVALID_CREATE_RENDER_ADMISSION".
Definition INVALID_ROOT_SIDE_EFFECT_RECORD : string := "FAST_REACT_DOM_INVALID_ROOT_SIDE_EFFECT_RECORD".

(** [`${prefix}:${sequence}`] *)
Definition numberedId (prefix : string) (sequence : N) : string := prefix +:+ ":" +:+ pretty sequence.

(** ** Descriptions of values *)

Inductive bridgeValueInfo : Type :=
| InfoNull
| InfoUndefined
| InfoPrimitive (v : value)
| InfoFunction (functionLength functionName : value)
| InfoSymbol (description : option string)
| InfoArray (arrayLength : N)
| InfoObject (sortedKeys : list string).

Definition stringLe (a b : string) : Prop := String.leb a b = true.
#[export] Instance stringLe_dec a b : Decision (stringLe a b).
Proof. unfold stringLe. apply _. Defined.

Definition describeBridgeValue (heap : ref -> jsobject) (v : value) : res bridgeValueInfo :=
  match v with
  | VNull => Ok InfoNull
  | VUndef => Ok InfoUndefined
  | VStr _ | VNum _ | VBool _ => Ok (InfoPrimitive v)
  | VFun f =>
      let* functionLength := get (heap f) "length" in
      let* name := get (heap f) "name" in
      Ok (InfoFunction functionLength (if truthy name then name else VStr ""))
  | VSym _ description => Ok (InfoSymbol (if decide (description = "") then None else Some description))
  | VBigInt _ => Ok (InfoObject [])
  | VObj r => Ok (match o_arrayLength (heap r) with
                  | Some n => InfoArray n
                  | None => InfoObject (merge_sort stringLe (keys (heap r)))
                  end)
  end.

(** ** State *)

(** A number that the native side would know an object by. *)
Record nativeHandle : Type := mkNativeHandle {
  nh_environmentId : N;
  nh_slot : N;
  nh_isRoot : bool }.

Record bridgeState : Type := mkBridge {
  nativeEnvironmentId : N;
  rootIdPrefix : string;
  requestIdPrefix : string;
  updateIdPrefix : string;
  nativeHandoffIdPrefix : string;
  sideEffectIdPrefix : string;
  createRenderAdmissionIdPrefix : string;
  lifecycleRequestBoundaryIdPrefix : string;
  nextRequestSequence : N;
  nextRootSequence : N;
  nextUpdateSequence : N;
  nextNativeHandleSlot : N;
  nextNativeRootId : N;
  nextSideEffectSequence : N;
  nextCreateRenderAdmissionSequence : N;
  nextLifecycleRequestBoundarySequence : N }.

Record ownerState : Type := mkOwnerState { os_rootId : string; os_rootKind : value; os_rootTag : value }.

(** The handle's own properties. *)
Record rootHandle : Type := mkHandle {
  ha_rootId : string;
  ha_rootKind : value;
  ha_rootTag : value;
  ha_owner : N }.

Record createMarkerGuard : Type := mkCreateMarkerGuard {
  cm_hasLegacyRootMarker : bool;
  cm_isContainerMarkedAsRoot : bool;
  cm_warning : option string }.

(** What create, render and unmount records have in common, with the payload: [rq_value] is
    the root's options or the element. *)
Record requestRecord : Type := mkRequest {
  rq_operation : requestOperation;
  rq_requestId : string;
  rq_requestSequence : N;
  rq_requestType : string;
  rq_sequence : N;
  rq_updateId : option string;
  rq_rootId : string;
  rq_rootKind : value;
  rq_rootTag : value;
  rq_lifecycleStatusBefore : option rootLifecycle;
  rq_lifecycleStatusAfter : rootLifecycle;
  rq_containerInfo : option containerDescription;
  rq_listenerGuard : option listenerGuard;
  rq_createMarkerGuard : option createMarkerGuard;
  rq_unmountMarkerGuard : option bool;
  rq_noOp : bool;
  rq_renderCount : nat;
  rq_sync : bool;
  rq_valueInfo : bridgeValueInfo;
  rq_callbackInfo : bridgeValueInfo;
  rq_owner : N;
  rq_handle : N;
  rq_value : value;
  rq_callback : value;
  rq_nativeValueHandle : option nativeHandle }.

Record admissionRecord : Type := mkAdmission {
  ad_operation : requestOperation;
  ad_requestId : string;
  ad_requestSequence : N;
  ad_requestType : string;
  ad_rootId : string;
  ad_rootKind : value;
  ad_rootTag : value;
  ad_updateId : option string;
  ad_sequence : N;
  ad_lifecycleStatusBefore : option rootLifecycle;
  ad_lifecycleStatusAfter : rootLifecycle;
  ad_lifecycleTransition : string;
  ad_payloadBridge : N;
  ad_payloadLifecycleTransition : string;
  ad_payloadOperation : requestOperation;
  ad_payloadHandle : N;
  ad_payloadSourceRecord : N }.

Record boundaryRecord : Type := mkBoundary {
  bd_boundaryId : string;
  bd_boundarySequence : N;
  bd_sourceAdmissionId : string;
  bd_sourceRequestId : string;
  bd_sourceRequestSequence : N;
  bd_sourceRequestType : string;
  bd_sourceOperation : requestOperation;
  bd_rootId : string;
  bd_rootKind : value;
  bd_rootTag : value;
  bd_sourceLifecycleStatusBefore : option rootLifecycle;
  bd_sourceLifecycleStatusAfter : rootLifecycle;
  bd_lifecycleTransition : string;
  bd_activeLifecycleStatus : rootLifecycle;
  bd_latestSourceRequestId : string;
  bd_latestSourceRequestSequence : N;
  bd_lifecycleRequestVersion : nat;
  bd_payloadAdmission : N;
  bd_payloadBridge : N;
  bd_payloadVersion : nat;
  bd_payloadHandle : N;
  bd_payloadSourceRecord : N }.

Inductive nativeRootHandleState : Type := NativeRootActive | NativeRootRetired.
Record nativeRequestRecord : Type := mkNativeRequest {
  nr_requestId : N;
  nr_kind : requestOperation;
  nr_environmentId : N;
  nr_rootHandle : nativeHandle;
  nr_rootId : N;
  nr_valueHandle : option nativeHandle;
  nr_rootHandleState : nativeRootHandleState }.

Record nativeHandoff : Type := mkHandoff {
  hf_operation : requestOperation;
  hf_handoffId : string;
  hf_handoffSequence : N;
  hf_sourceRequestId : string;
  hf_sourceRequestSequence : N;
  hf_sourceRequestType : string;
  hf_sourceLifecycleStatusBefore : option rootLifecycle;
  hf_sourceLifecycleStatusAfter : rootLifecycle;
  hf_rootId : string;
  hf_nativeRequestRecord : nativeRequestRecord;
  hf_payloadSourceRecord : N }.

Record sideEffectRecord : Type := mkSideEffect {
  se_requestId : string;
  se_requestSequence : N;
  se_requestType : string;
  se_rootId : string;
  se_rootKind : value;
  se_rootTag : value;
  se_sideEffectId : string;
  se_sideEffectSequence : N;
  se_markerRecord : N;
  se_listenerRegistration : option N;
  se_payloadActive : bool;
  se_payloadBridge : N;
  se_payloadSourceRecord : N }.
Record sideEffectCleanup : Type := mkSideEffectCleanup {
  sc_requestId : string;
  sc_rootId : string;
  sc_sideEffectId : string;
  sc_markerCleanup : cleanupRecord;
  sc_listenerCleanup : listenerCleanupRecord }.

Record createRenderAdmission : Type := mkCreateRender {
  cr_admissionId : string;
  cr_admissionSequence : N;
  cr_rootId : string;
  cr_createRequestId : string;
  cr_createRequestSequence : N;
  cr_renderRequestId : string;
  cr_renderRequestSequence : N;
  cr_renderUpdateId : option string;
  cr_sideEffectId : string;
  cr_createAdmission : N;
  cr_renderAdmission : N;
  cr_markerRecord : N;
  cr_listenerRegistration : option N;
  cr_rootListeningMarkerPresent : bool;
  cr_ownerDocumentListeningMarkerPresent : bool;
  cr_payloadBridge : N;
  cr_payloadCreateRecord : N;
  cr_payloadElement : value;
  cr_payloadRenderRecord : N;
  cr_payloadSideEffectRecord : N }.

Section RootBridge.
Context {Node D : Type} `{!EqDecision Node} `{!Countable Node} `{!Host Node D} `{!EventHost Node D}.
Context (heap : ref -> jsobject) (development : bool).
(** The object that is the owner of a number. *)
Context (ownerObject : N -> ref).
Implicit Types (d : D) (n : Node) (b h r : N).

Record handleState : Type := mkHandleState {
  hs_bridgeState : N;
  hs_container : Node;
  hs_containerInfo : containerDescription;
  hs_createRenderAdmissionRecord : option N;
  hs_latestLifecycleRequestRecord : option N;
  hs_lifecycleRequestVersion : nat;
  hs_lifecycleStatus : rootLifecycle;
  hs_nativeRootHandle : nativeHandle;
  hs_nativeRootId : N;
  hs_renderCount : nat;
  hs_rootOptions : value }.

(** [objects] counts the objects that were made. A create record's payload has the
    container, as its handle has. *)
Record rootWorld : Type := mkRootWorld {
  objects : N;
  bridges : gmap N bridgeState;
  rootOwnerState : gmap N ownerState;
  rootHandleState : gmap N (rootHandle * handleState);
  rootRecordPayloads : gmap N requestRecord;
  rootNativeHandoffRecords : gmap N N;
  rootNativeHandoffPayloads : gmap N nativeHandoff;
  rootBridgeAdmissionPayloads : gmap N admissionRecord;
  rootLifecycleRequestBoundaryPayloads : gmap N boundaryRecord;
  rootCreateSideEffectRecords : gmap N N;
  rootCreateSideEffectPayloads : gmap N sideEffectRecord;
  rootCreateSideEffectCleanupRecords : gmap N sideEffectCleanup;
  rootCreateRenderAdmissionRecords : gmap N N;
  rootCreateRenderAdmissionPayloads : gmap N createRenderAdmission;
  rootMarkers : markerState Node;
  rootEvents : eventWorld (Node := Node) (D := D) }.
Implicit Types (w : rootWorld).

Definition set_objects x w : rootWorld :=
  mkRootWorld x (bridges w) (rootOwnerState w) (rootHandleState w) (rootRecordPayloads w)
    (rootNativeHandoffRecords w) (rootNativeHandoffPayloads w) (rootBridgeAdmissionPayloads w)
    (rootLifecycleRequestBoundaryPayloads w) (rootCreateSideEffectRecords w) (rootCreateSideEffectPayloads w)
    (rootCreateSideEffectCleanupRecords w) (rootCreateRenderAdmissionRecords w)
    (rootCreateRenderAdmissionPayloads w) (rootMarkers w) (rootEvents w).
Definition set_bridges x w : rootWorld :=
  mkRootWorld (objects w) x (rootOwnerState w) (rootHandleState w) (rootRecordPayloads w)
    (rootNativeHandoffRecords w) (rootNativeHandoffPayloads w) (rootBridgeAdmissionPayloads w)
    (rootLifecycleRequestBoundaryPayloads w) (rootCreateSideEffectRecords w) (rootCreateSideEffectPayloads w)
    (rootCreateSideEffectCleanupRecords w) (rootCreateRenderAdmissionRecords w)
    (rootCreateRenderAdmissionPayloads w) (rootMarkers w) (rootEvents w).
Definition set_rootOwnerState x w : rootWorld :=
  mkRootWorld (objects w) (bridges w) x (rootHandleState w) (rootRecordPayloads w) (rootNativeHandoffRecords w)
    (rootNativeHandoffPayloads w) (rootBridgeAdmissionPayloads w) (rootLifecycleRequestBoundaryPayloads w)
    (rootCreateSideEffectRecords w) (rootCreateSideEffectPayloads w) (rootCreateSideEffectCleanupRecords w)
    (rootCreateRenderAdmissionRecords w) (rootCreateRenderAdmissionPayloads w) (rootMarkers w) (rootEvents w).
Definition set_rootHandleState x w : rootWorld :=
  mkRootWorld (objects w) (bridges w) (rootOwnerState w) x (rootRecordPayloads w) (rootNativeHandoffRecords w)
    (rootNativeHandoffPayloads w) (rootBridgeAdmissionPayloads w) (rootLifecycleRequestBoundaryPayloads w)
    (rootCreateSideEffectRecords w) (rootCreateSideEffectPayloads w) (rootCreateSideEffectCleanupRecords w)
    (rootCreateRenderAdmissionRecords w) (rootCreateRenderAdmissionPayloads w) (rootMarkers w) (rootEvents w).
Definition set_rootRecordPayloads x w : rootWorld :=
  mkRootWorld (objects w) (bridges w) (rootOwnerState w) (rootHandleState w) x (rootNativeHandoffRecords w)
    (rootNativeHandoffPayloads w) (rootBridgeAdmissionPayloads w) (rootLifecycleRequestBoundaryPayloads w)
    (rootCreateSideEffectRecords w) (rootCreateSideEffectPayloads w) (rootCreateSideEffectCleanupRecords w)
    (rootCreateRenderAdmissionRecords w) (rootCreateRenderAdmissionPayloads w) (rootMarkers w) (rootEvents w).
Definition set_rootNativeHandoffRecords x w : rootWorld :=
  mkRootWorld (objects w) (bridges w) (rootOwnerState w) (rootHandleState w) (rootRecordPayloads w) x
    (rootNativeHandoffPayloads w) (rootBridgeAdmissionPayloads w) (rootLifecycleRequestBoundaryPayloads w)
    (rootCreateSideEffectRecords w) (rootCreateSideEffectPayloads w) (rootCreateSideEffectCleanupRecords w)
    (rootCreateRenderAdmissionRecords w) (rootCreateRenderAdmissionPayloads w) (rootMarkers w) (rootEvents w).
Definition set_rootNativeHandoffPayloads x w : rootWorld :=
  mkRootWorld (objects w) (bridges w) (rootOwnerState w) (rootHandleState w) (rootRecordPayloads w)
    (rootNativeHandoffRecords w) x (rootBridgeAdmissionPayloads w) (rootLifecycleRequestBoundaryPayloads w)
    (rootCreateSideEffectRecords w) (rootCreateSideEffectPayloads w) (rootCreateSideEffectCleanupRecords w)
    (rootCreateRenderAdmissionRecords w) (rootCreateRenderAdmissionPayloads w) (rootMarkers w) (rootEvents w).
Definition set_rootBridgeAdmissionPayloads x w : rootWorld :=
  mkRootWorld (objects w) (bridges w) (rootOwnerState w) (rootHandleState w) (rootRecordPayloads w)
    (rootNativeHandoffRecords w) (rootNativeHandoffPayloads w) x (rootLifecycleRequestBoundaryPayloads w)
    (rootCreateSideEffectRecords w) (rootCreateSideEffectPayloads w) (rootCreateSideEffectCleanupRecords w)
    (rootCreateRenderAdmissionRecords w) (rootCreateRenderAdmissionPayloads w) (rootMarkers w) (rootEvents w).
Definition set_rootLifecycleRequestBoundaryPayloads x w : rootWorld :=
  mkRootWorld (objects w) (bridges w) (rootOwnerState w) (rootHandleState w) (rootRecordPayloads w)
    (rootNativeHandoffRecords w) (rootNativeHandoffPayloads w) (rootBridgeAdmissionPayloads w) x
    (rootCreateSideEffectRecords w) (rootCreateSideEffectPayloads w) (rootCreateSideEffectCleanupRecords w)
    (rootCreateRenderAdmissionRecords w) (rootCreateRenderAdmissionPayloads w) (rootMarkers w) (rootEvents w).
Definition set_rootCreateSideEffectRecords x w : rootWorld :=
  mkRootWorld (objects w) (bridges w) (rootOwnerState w) (rootHandleState w) (rootRecordPayloads w)
    (rootNativeHandoffRecords w) (rootNativeHandoffPayloads w) (rootBridgeAdmissionPayloads w)
    (rootLifecycleRequestBoundaryPayloads w) x (rootCreateSideEffectPayloads w)
    (rootCreateSideEffectCleanupRecords w) (rootCreateRenderAdmissionRecords w)
    (rootCreateRenderAdmissionPayloads w) (rootMarkers w) (rootEvents w).
Definition set_rootCreateSideEffectPayloads x w : rootWorld :=
  mkRootWorld (objects w) (bridges w) (rootOwnerState w) (rootHandleState w) (rootRecordPayloads w)
    (rootNativeHandoffRecords w) (rootNativeHandoffPayloads w) (rootBridgeAdmissionPayloads w)
    (rootLifecycleRequestBoundaryPayloads w) (rootCreateSideEffectRecords w) x
    (rootCreateSideEffectCleanupRecords w) (rootCreateRenderAdmissionRecords w)
    (rootCreateRenderAdmissionPayloads w) (rootMarkers w) (rootEvents w).
Definition set_rootCreateSideEffectCleanupRecords x w : rootWorld :=
  mkRootWorld (objects w) (bridges w) (rootOwnerState w) (rootHandleState w) (rootRecordPayloads w)
    (rootNativeHandoffRecords w) (rootNativeHandoffPayloads w) (rootBridgeAdmissionPayloads w)
    (rootLifecycleRequestBoundaryPayloads w) (rootCreateSideEffectRecords w) (rootCreateSideEffectPayloads w) x
    (rootCreateRenderAdmissionRecords w) (rootCreateRenderAdmissionPayloads w) (rootMarkers w) (rootEvents w).
Definition set_rootCreateRenderAdmissionRecords x w : rootWorld :=
  mkRootWorld (objects w) (bridges w) (rootOwnerState w) (rootHandleState w) (rootRecordPayloads w)
    (rootNativeHandoffRecords w) (rootNativeHandoffPayloads w) (rootBridgeAdmissionPayloads w)
    (rootLifecycleRequestBoundaryPayloads w) (rootCreateSideEffectRecords w) (rootCreateSideEffectPayloads w)
    (rootCreateSideEffectCleanupRecords w) x (rootCreateRenderAdmissionPayloads w) (rootMarkers w)
    (rootEvents w).
Definition set_rootCreateRenderAdmissionPayloads x w : rootWorld :=
  mkRootWorld (objects w) (bridges w) (rootOwnerState w) (rootHandleState w) (rootRecordPayloads w)
    (rootNativeHandoffRecords w) (rootNativeHandoffPayloads w) (rootBridgeAdmissionPayloads w)
    (rootLifecycleRequestBoundaryPayloads w) (rootCreateSideEffectRecords w) (rootCreateSideEffectPayloads w)
    (rootCreateSideEffectCleanupRecords w) (rootCreateRenderAdmissionRecords w) x (rootMarkers w)
    (rootEvents w).
Definition set_rootMarkers x w : rootWorld :=
  mkRootWorld (objects w) (bridges w) (rootOwnerState w) (rootHandleState w) (rootRecordPayloads w)
    (rootNativeHandoffRecords w) (rootNativeHandoffPayloads w) (rootBridgeAdmissionPayloads w)
    (rootLifecycleRequestBoundaryPayloads w) (rootCreateSideEffectRecords w) (rootCreateSideEffectPayloads w)
    (rootCreateSideEffectCleanupRecords w) (rootCreateRenderAdmissionRecords w)
    (rootCreateRenderAdmissionPayloads w) x (rootEvents w).
Definition set_rootEvents x w : rootWorld :=
  mkRootWorld (objects w) (bridges w) (rootOwnerState w) (rootHandleState w) (rootRecordPayloads w)
    (rootNativeHandoffRecords w) (rootNativeHandoffPayloads w) (rootBridgeAdmissionPayloads w)
    (rootLifecycleRequestBoundaryPayloads w) (rootCreateSideEffectRecords w) (rootCreateSideEffectPayloads w)
    (rootCreateSideEffectCleanupRecords w) (rootCreateRenderAdmissionRecords w)
    (rootCreateRenderAdmissionPayloads w) (rootMarkers w) x.

Definition modifyBridge b (f : bridgeState -> bridgeState) w : rootWorld := set_bridges (alter f b (bridges w)) w.
Definition modifyHandle h (f : handleState -> handleState) w : rootWorld :=
  set_rootHandleState (alter (fun x => (fst x, f (snd x))) h (rootHandleState w)) w.

(** ** Bridges *)

Definition getIdPrefix (v : value) (fallback : string) : string :=
  match v with VStr s => if decide (s = "") then fallback else s | _ => fallback end.
(** Integers that a double represents exactly. *)
Definition getPositiveInteger (v : value) (fallback : N) : N :=
  match v with
  | VNum n => match normal n with
              | Finite m e => if (0 <? m)%Z && (0 <=? e)%Z && (m * 10 ^ e <=? 9007199254740991)%Z
                              then Z.to_N (m * 10 ^ e) else fallback
              | _ => fallback
              end
  | _ => fallback
  end.

(** The options are read as data properties; without options all are undefined. *)
Definition createBridgeState (options : string -> value) : bridgeState :=
  mkBridge (getPositiveInteger (options "nativeEnvironmentId") 1)
    (getIdPrefix (options "rootIdPrefix") "root") (getIdPrefix (options "requestIdPrefix") "request")
    (getIdPrefix (options "updateIdPrefix") "update") (getIdPrefix (options "nativeHandoffIdPrefix") "native-handoff")
    (getIdPrefix (options "sideEffectIdPrefix") "side-effect")
    (getIdPrefix (options "createRenderAdmissionIdPrefix") "create-render-admission")
    (getIdPrefix (options "lifecycleRequestBoundaryIdPrefix") "lifecycle-request-boundary")
    1 1 1 1 1 1 1 1.

Definition createPrivateRootBridgeShell (options : string -> value) w : N * rootWorld :=
  (objects w, set_objects (objects w + 1)%N (set_bridges (<[objects w := createBridgeState options]> (bridges w)) w)).

(** The state of a shell's bridge, which the shell holds. *)
Definition bridgeOf w b : bridgeState := default (createBridgeState (fun _ => VUndef)) (bridges w !! b).

Definition takeRequestSequence (s : bridgeState) : bridgeState :=
  mkBridge (nativeEnvironmentId s) (rootIdPrefix s) (requestIdPrefix s) (updateIdPrefix s) (nativeHandoffIdPrefix s)
    (sideEffectIdPrefix s) (createRenderAdmissionIdPrefix s) (lifecycleRequestBoundaryIdPrefix s)
    (nextRequestSequence s + 1) (nextRootSequence s) (nextUpdateSequence s) (nextNativeHandleSlot s)
    (nextNativeRootId s) (nextSideEffectSequence s) (nextCreateRenderAdmissionSequence s)
    (nextLifecycleRequestBoundarySequence s).
Definition takeRootSequence (s : bridgeState) : bridgeState :=
  mkBridge (nativeEnvironmentId s) (rootIdPrefix s) (requestIdPrefix s) (updateIdPrefix s) (nativeHandoffIdPrefix s)
    (sideEffectIdPrefix s) (createRenderAdmissionIdPrefix s) (lifecycleRequestBoundaryIdPrefix s)
    (nextRequestSequence s) (nextRootSequence s + 1) (nextUpdateSequence s) (nextNativeHandleSlot s)
    (nextNativeRootId s) (nextSideEffectSequence s) (nextCreateRenderAdmissionSequence s)
    (nextLifecycleRequestBoundarySequence s).
Definition takeUpdateSequence (s : bridgeState) : bridgeState :=
  mkBridge (nativeEnvironmentId s) (rootIdPrefix s) (requestIdPrefix s) (updateIdPrefix s) (nativeHandoffIdPrefix s)
    (sideEffectIdPrefix s) (createRenderAdmissionIdPrefix s) (lifecycleRequestBoundaryIdPrefix s)
    (nextRequestSequence s) (nextRootSequence s) (nextUpdateSequence s + 1) (nextNativeHandleSlot s)
    (nextNativeRootId s) (nextSideEffectSequence s) (nextCreateRenderAdmissionSequence s)
    (nextLifecycleRequestBoundarySequence s).
Definition takeNativeHandleSlot (s : bridgeState) : bridgeState :=
  mkBridge (nativeEnvironmentId s) (rootIdPrefix s) (requestIdPrefix s) (updateIdPrefix s) (nativeHandoffIdPrefix s)
    (sideEffectIdPrefix s) (createRenderAdmissionIdPrefix s) (lifecycleRequestBoundaryIdPrefix s)
    (nextRequestSequence s) (nextRootSequence s) (nextUpdateSequence s) (nextNativeHandleSlot s + 1)
    (nextNativeRootId s) (nextSideEffectSequence s) (nextCreateRenderAdmissionSequence s)
    (nextLifecycleRequestBoundarySequence s).
Definition takeNativeRootId (s : bridgeState) : bridgeState :=
  mkBridge (nativeEnvironmentId s) (rootIdPrefix s) (requestIdPrefix s) (updateIdPrefix s) (nativeHandoffIdPrefix s)
    (sideEffectIdPrefix s) (createRenderAdmissionIdPrefix s) (lifecycleRequestBoundaryIdPrefix s)
    (nextRequestSequence s) (nextRootSequence s) (nextUpdateSequence s) (nextNativeHandleSlot s)
    (nextNativeRootId s + 1) (nextSideEffectSequence s) (nextCreateRenderAdmissionSequence s)
    (nextLifecycleRequestBoundarySequence s).
Definition takeSideEffectSequence (s : bridgeState) : bridgeState :=
  mkBridge (nativeEnvironmentId s) (rootIdPrefix s) (requestIdPrefix s) (updateIdPrefix s) (nativeHandoffIdPrefix s)
    (sideEffectIdPrefix s) (createRenderAdmissionIdPrefix s) (lifecycleRequestBoundaryIdPrefix s)
    (nextRequestSequence s) (nextRootSequence s) (nextUpdateSequence s) (nextNativeHandleSlot s)
    (nextNativeRootId s) (nextSideEffectSequence s + 1) (nextCreateRenderAdmissionSequence s)
    (nextLifecycleRequestBoundarySequence s).
Definition takeCreateRenderAdmissionSequence (s : bridgeState) : bridgeState :=
  mkBridge (nativeEnvironmentId s) (rootIdPrefix s) (requestIdPrefix s) (updateIdPrefix s) (nativeHandoffIdPrefix s)
    (sideEffectIdPrefix s) (createRenderAdmissionIdPrefix s) (lifecycleRequestBoundaryIdPrefix s)
    (nextRequestSequence s) (nextRootSequence s) (nextUpdateSequence s) (nextNativeHandleSlot s)
    (nextNativeRootId s) (nextSideEffectSequence s) (nextCreateRenderAdmissionSequence s + 1)
    (nextLifecycleRequestBoundarySequence s).
Definition takeLifecycleRequestBoundarySequence (s : bridgeState) : bridgeState :=
  mkBridge (nativeEnvironmentId s) (rootIdPrefix s) (requestIdPrefix s) (updateIdPrefix s) (nativeHandoffIdPrefix s)
    (sideEffectIdPrefix s) (createRenderAdmissionIdPrefix s) (lifecycleRequestBoundaryIdPrefix s)
    (nextRequestSequence s) (nextRootSequence s) (nextUpdateSequence s) (nextNativeHandleSlot s)
    (nextNativeRootId s) (nextSideEffectSequence s) (nextCreateRenderAdmissionSequence s)
    (nextLifecycleRequestBoundarySequence s + 1).

Definition createRequestInfo b (requestType : string) w : (string * N * string) * rootWorld :=
  let sequence := nextRequestSequence (bridgeOf w b) in
  ((numberedId (requestIdPrefix (bridgeOf w b)) sequence, sequence, requestType), modifyBridge b takeRequestSequence w).

Definition createNativeBridgeHandle b (isRoot : bool) w : nativeHandle * rootWorld :=
  (mkNativeHandle (nativeEnvironmentId (bridgeOf w b)) (nextNativeHandleSlot (bridgeOf w b)) isRoot,
   modifyBridge b takeNativeHandleSlot w).

(** ** Owners and handles *)

(** [options.rootKind || CLIENT_ROOT_KIND], undefined without options *)
Definition getRootKind (rootKind : value) : value := if truthy rootKind then rootKind else VStr CLIENT_ROOT_KIND.
Definition getRootTag (rootTag : value) : value := if truthy rootTag then rootTag else VStr CONCURRENT_ROOT_TAG.

Definition createPrivateRootOwner (rootId rootKind rootTag : value) w : effect rootWorld N :=
  match rootId with
  | VStr s =>
      if decide (s = "") then (hostError INVALID_ROOT_ID, w)
      else (Ok (objects w),
            set_objects (objects w + 1)%N
              (set_rootOwnerState (<[objects w := mkOwnerState s (getRootKind rootKind) (getRootTag rootTag)]>
                 (rootOwnerState w)) w))
  | _ => (hostError INVALID_ROOT_ID, w)
  end.

Definition assertPrivateRootOwner w (owner : option N) : res ownerState :=
  match (o ← owner; rootOwnerState w !! o) with Some s => Ok s | None => hostError INVALID_ROOT_OWNER end.

Definition getPrivateRootHandleState w (handle : option N) : res (N * rootHandle * handleState) :=
  match (h ← handle; x ← rootHandleState w !! h; Some (h, fst x, snd x)) with
  | Some x => Ok x
  | None => hostError INVALID_ROOT_HANDLE
  end.
Definition assertPrivateRootHandle := getPrivateRootHandleState.
Definition getRootOwnerFromHandle w (handle : option N) : res N :=
  let* x := assertPrivateRootHandle w handle in Ok (ha_owner (snd (fst x))).

Definition hostOf w : D := ew_host (rootEvents w).
(** [assertValidContainer], which gives its argument back. *)
Definition validContainer w (container : domArg Node) : res Node :=
  let* c := assertValidContainer (hostOf w) container in
  match c with inr n => Ok n | inl _ => hostError "FAST_REACT_DOM_INVALID_CONTAINER" end.

Definition createPrivateRootHandle (owner : option N) (container : domArg Node) (rootOptions : value) b w :
    effect rootWorld N :=
  do* o, w := pureStep (assertPrivateRootOwner w owner) w in
  do* n, w := pureStep (validContainer w container) w in
  let nativeRootId := nextNativeRootId (bridgeOf w b) in
  let w := modifyBridge b takeNativeRootId w in
  let '(nativeRootHandle, w) := createNativeBridgeHandle b true w in
  do* info, w := pureStep (describeContainer (hostOf w) (inr n)) w in
  let h := objects w in
  (Ok h,
   set_objects (h + 1)%N
     (set_rootHandleState
        (<[h := (mkHandle (os_rootId o) (os_rootKind o) (os_rootTag o) (default 0%N owner),
                 mkHandleState b n info None None 0 ROOT_LIFECYCLE_CREATED nativeRootHandle nativeRootId 0
                   rootOptions)]> (rootHandleState w)) w)).

Definition assertHandleBelongsToBridge w (handle : option N) b : res (N * rootHandle * handleState) :=
  let* x := assertPrivateRootHandle w handle in
  if (hs_bridgeState (snd x) =? b)%N then Ok x else hostError FOREIGN_ROOT_HANDLE.

Definition recordRequest (latest : N) (s : handleState) : handleState :=
  mkHandleState (hs_bridgeState s) (hs_container s) (hs_containerInfo s) (hs_createRenderAdmissionRecord s) (Some latest)
    (S (hs_lifecycleRequestVersion s)) (hs_lifecycleStatus s) (hs_nativeRootHandle s) (hs_nativeRootId s)
    (hs_renderCount s) (hs_rootOptions s).
Definition setLifecycle (status : rootLifecycle) (renderCount : nat) (s : handleState) : handleState :=
  mkHandleState (hs_bridgeState s) (hs_container s) (hs_containerInfo s) (hs_createRenderAdmissionRecord s)
    (hs_latestLifecycleRequestRecord s) (hs_lifecycleRequestVersion s) status (hs_nativeRootHandle s)
    (hs_nativeRootId s) renderCount (hs_rootOptions s).
Definition setCreateRenderAdmission (a : N) (s : handleState) : handleState :=
  mkHandleState (hs_bridgeState s) (hs_container s) (hs_containerInfo s) (Some a) (hs_latestLifecycleRequestRecord s)
    (hs_lifecycleRequestVersion s) (hs_lifecycleStatus s) (hs_nativeRootHandle s) (hs_nativeRootId s)
    (hs_renderCount s) (hs_rootOptions s).

(** The record is an object of its own, which becomes the handle's latest request. *)
Definition addRequest h (record : requestRecord) w : N * rootWorld :=
  let r := objects w in
  (r, modifyHandle h (recordRequest r)
        (set_rootRecordPayloads (<[r := record]> (rootRecordPayloads w)) (set_objects (r + 1)%N w))).

(** ** Requests *)

Definition describeCreateRootMarkerGuard w (container : domArg Node) : res createMarkerGuard :=
  let* warning := getCreateRootWarning heap development (hostOf w) (rootMarkers w) container in
  let* legacy := hasLegacyRootMarker heap (hostOf w) container in
  Ok (mkCreateMarkerGuard legacy (isContainerMarkedAsRoot (rootMarkers w) container) warning).

Definition createClientRootRecordWithBridge b (container : domArg Node) (rootOptions : value) w : effect rootWorld N :=
  do* n, w := pureStep (validContainer w container) w in
  let sequence := nextRootSequence (bridgeOf w b) in
  let rootId := numberedId (rootIdPrefix (bridgeOf w b)) sequence in
  let w := modifyBridge b takeRootSequence w in
  do* owner, w := createPrivateRootOwner (VStr rootId) VUndef VUndef w in
  do* handle, w := createPrivateRootHandle (Some owner) container rootOptions b w in
  do* x, w := pureStep (getPrivateRootHandleState w (Some handle)) w in
  let '(requestId, requestSequence, requestType, w) := createRequestInfo b "createRoot" w in
  do* listenerGuard, w := pureStep (describeRootListenerGuard (rootEvents w) container None) w in
  do* markerGuard, w := pureStep (describeCreateRootMarkerGuard w container) w in
  do* optionsInfo, w := pureStep (describeBridgeValue heap rootOptions) w in
  let '(nativeValueHandle, w) := createNativeBridgeHandle b false w in
  let '(r, w) := addRequest handle
    (mkRequest CreateOperation requestId requestSequence requestType sequence None rootId (VStr CLIENT_ROOT_KIND)
       (VStr CONCURRENT_ROOT_TAG) None ROOT_LIFECYCLE_CREATED (Some (hs_containerInfo (snd x))) (Some listenerGuard)
       (Some markerGuard) None false 0 false optionsInfo InfoUndefined owner handle rootOptions VUndef
       (Some nativeValueHandle)) w in
  (Ok r, w).

Definition assertRootHandleCanRender (s : handleState) : res unit :=
  if decide (hs_lifecycleStatus s = ROOT_LIFECYCLE_UNMOUNTED) then hostError UNMOUNTED_ROOT else Ok tt.

(** The operation is a render or, when [unmount] holds, an unmount, which is synchronous. *)
Definition createRootUpdateRecordWithBridge b (rootHandle : option N) (unmount : bool) (element callback : value) w :
    effect rootWorld N :=
  do* x, w := pureStep (getPrivateRootHandleState w rootHandle) w in
  let '(h, handle, s) := x in
  if negb (hs_bridgeState s =? b)%N then (hostError FOREIGN_ROOT_HANDLE, w)
  else
    let before := hs_lifecycleStatus s in
    do* _, w := pureStep (if unmount then Ok tt else assertRootHandleCanRender s) w in
    let noOp := unmount && bool_decide (before = ROOT_LIFECYCLE_UNMOUNTED) in
    let after := if unmount then ROOT_LIFECYCLE_UNMOUNTED else ROOT_LIFECYCLE_RENDERED in
    let renderCount := if unmount then hs_renderCount s else S (hs_renderCount s) in
    let w := modifyHandle h (setLifecycle after renderCount) w in
    let sequence := nextUpdateSequence (bridgeOf w b) in
    let updateId := numberedId (updateIdPrefix (bridgeOf w b)) sequence in
    let w := modifyBridge b takeUpdateSequence w in
    let operation := if unmount then UnmountOperation else RenderOperation in
    let '(requestId, requestSequence, requestType, w) := createRequestInfo b (requestTypeOf operation) w in
    let markerGuard := if unmount then Some (isContainerMarkedAsRoot (rootMarkers w) (inr (hs_container s))) else None in
    do* elementInfo, w := pureStep (describeBridgeValue heap element) w in
    do* callbackInfo, w := pureStep (describeBridgeValue heap callback) w in
    let '(nativeValueHandle, w) :=
      if unmount then (None, w) else let '(v, w) := createNativeBridgeHandle b false w in (Some v, w) in
    let '(r, w) := addRequest h
      (mkRequest operation requestId requestSequence requestType sequence (Some updateId) (ha_rootId handle)
         (ha_rootKind handle) (ha_rootTag handle) (Some before) after None None None markerGuard noOp renderCount
         (unmount && negb noOp) elementInfo callbackInfo (ha_owner handle) h element callback nativeValueHandle) w in
    (Ok r, w).

(** The operations of a shell. *)
Definition createClientRoot := createClientRootRecordWithBridge.
Definition renderContainer b (rootHandle : option N) (element callback : value) w : effect rootWorld N :=
  do* _, w := pureStep (assertHandleBelongsToBridge w rootHandle b) w in
  createRootUpdateRecordWithBridge b rootHandle false element callback w.
Definition updateContainer := renderContainer.
Definition unmountContainer b (rootHandle : option N) (callback : value) w : effect rootWorld N :=
  do* _, w := pureStep (assertHandleBelongsToBridge w rootHandle b) w in
  createRootUpdateRecordWithBridge b rootHandle true VNull callback w.

(** The functions without a shell use the handle's bridge. *)
Definition createRootUpdateRecord (rootHandle : option N) (element callback : value) w : effect rootWorld N :=
  do* x, w := pureStep (assertPrivateRootHandle w rootHandle) w in
  createRootUpdateRecordWithBridge (hs_bridgeState (snd x)) rootHandle false element callback w.
Definition createRootRenderRecord := createRootUpdateRecord.
Definition createRootUnmountRecord (rootHandle : option N) (callback : value) w : effect rootWorld N :=
  do* x, w := pureStep (assertPrivateRootHandle w rootHandle) w in
  createRootUpdateRecordWithBridge (hs_bridgeState (snd x)) rootHandle true VNull callback w.

(** ** Validation *)

(** [assertRecordField], and the other checks of a request *)
Definition assertRequest (b : bool) : res unit := require b INVALID_ROOT_BRIDGE_REQUEST.
Definition assertRootIdentityMatchesRecord (handle : rootHandle) (owner : ownerState) (record : requestRecord) : res unit :=
  assertRequest
    (bool_decide (ha_rootId handle = rq_rootId record) && bool_decide (os_rootId owner = rq_rootId record)
     && strictEq (ha_rootKind handle) (rq_rootKind record) && strictEq (os_rootKind owner) (rq_rootKind record)
     && strictEq (ha_rootTag handle) (rq_rootTag record) && strictEq (os_rootTag owner) (rq_rootTag record)).
Definition assertAllowedLifecycleBefore (record : requestRecord) (allowed : list rootLifecycle) : res unit :=
  assertRequest (match rq_lifecycleStatusBefore record with Some s => bool_decide (s ∈ allowed) | None => false end).
Definition isClientRequest (record : requestRecord) : bool :=
  bool_decide (rq_rootKind record = VStr CLIENT_ROOT_KIND) && bool_decide (rq_rootTag record = VStr CONCURRENT_ROOT_TAG).

Record validation : Type := mkValidation {
  va_bridgeState : N;
  va_lifecycleTransition : string;
  va_operation : requestOperation;
  va_rootHandleState : N }.
Definition transitionName (before : option rootLifecycle) (after : rootLifecycle) : string :=
  match before with Some s => lifecycleName s | None => "none" end +:+ "->" +:+ lifecycleName after.

Definition validateCreateRootBridgeRequestRecord w (record : requestRecord) : res validation :=
  let* _ := assertRequest (bool_decide (rq_operation record = CreateOperation)) in
  let* _ := assertRequest (bool_decide (rq_requestType record = "createRoot")) in
  let* _ := assertRequest (isClientRequest record) in
  let* _ := assertRequest (bool_decide (rq_lifecycleStatusBefore record = None)) in
  let* _ := assertRequest (bool_decide (rq_lifecycleStatusAfter record = ROOT_LIFECYCLE_CREATED)) in
  let* x := getPrivateRootHandleState w (Some (rq_handle record)) in
  let* owner := assertPrivateRootOwner w (Some (rq_owner record)) in
  let* _ := assertRootIdentityMatchesRecord (snd (fst x)) owner record in
  Ok (mkValidation (hs_bridgeState (snd x)) "none->created" CreateOperation (fst (fst x))).

Definition validateUpdateRootBridgeRequestRecord w (record : requestRecord) : res validation :=
  let* _ := assertRequest (isClientRequest record) in
  let* x := getPrivateRootHandleState w (Some (rq_handle record)) in
  let* owner := assertPrivateRootOwner w (Some (ha_owner (snd (fst x)))) in
  let* _ := assertRootIdentityMatchesRecord (snd (fst x)) owner record in
  let result := mkValidation (hs_bridgeState (snd x))
    (transitionName (rq_lifecycleStatusBefore record) (rq_lifecycleStatusAfter record)) (rq_operation record)
    (fst (fst x)) in
  match rq_operation record with
  | RenderOperation =>
      let* _ := assertRequest (bool_decide (rq_requestType record = "root.render")) in
      let* _ := assertRequest (bool_decide (rq_lifecycleStatusAfter record = ROOT_LIFECYCLE_RENDERED)) in
      let* _ := assertRequest (negb (isSome (rq_unmountMarkerGuard record))) in
      let* _ := assertRequest (negb (rq_noOp record)) in
      let* _ := assertRequest (negb (rq_sync record)) in
      let* _ := assertAllowedLifecycleBefore record [ROOT_LIFECYCLE_CREATED; ROOT_LIFECYCLE_RENDERED] in
      Ok result
  | UnmountOperation =>
      let* _ := assertRequest (bool_decide (rq_requestType record = "root.unmount")) in
      let* _ := assertRequest (bool_decide (rq_lifecycleStatusAfter record = ROOT_LIFECYCLE_UNMOUNTED)) in
      let* _ := assertAllowedLifecycleBefore record
                  [ROOT_LIFECYCLE_CREATED; ROOT_LIFECYCLE_RENDERED; ROOT_LIFECYCLE_UNMOUNTED] in
      let again := bool_decide (rq_lifecycleStatusBefore record = Some ROOT_LIFECYCLE_UNMOUNTED) in
      let* _ := assertRequest (Bool.eqb (rq_noOp record) again) in
      let* _ := assertRequest (Bool.eqb (rq_sync record) (negb again)) in
      let* _ := assertRequest (isSome (rq_unmountMarkerGuard record)) in
      Ok result
  | CreateOperation => hostError INVALID_ROOT_BRIDGE_REQUEST
  end.

Definition validateRootBridgeRequestRecord w (record : option N) : res (N * requestRecord * validation) :=
  match (r ← record; x ← rootRecordPayloads w !! r; Some (r, x)) with
  | None => hostError INVALID_ROOT_BRIDGE_REQUEST
  | Some (r, x) =>
      let* v := (match rq_operation x with
                 | CreateOperation => validateCreateRootBridgeRequestRecord w x
                 | _ => validateUpdateRootBridgeRequestRecord w x
                 end) in
      Ok (r, x, v)
  end.

(** [bridgeState !== null && other !== bridgeState] *)
Definition assertBridge (bridgeState : option N) (other : N) : res unit :=
  match bridgeState with
  | Some b => require (b =? other)%N FOREIGN_ROOT_HANDLE
  | None => Ok tt
  end.

(** ** Admission and boundaries *)

(** The admission record is an object of its own. *)
Definition createRootBridgeAdmissionRecord (source : N) (record : requestRecord) (v : validation) w : N * rootWorld :=
  let a := objects w in
  (a, set_objects (a + 1)%N
        (set_rootBridgeAdmissionPayloads
           (<[a := mkAdmission (rq_operation record) (rq_requestId record) (rq_requestSequence record)
                     (rq_requestType record) (rq_rootId record) (rq_rootKind record) (rq_rootTag record)
                     (rq_updateId record) (rq_sequence record) (rq_lifecycleStatusBefore record)
                     (rq_lifecycleStatusAfter record) (va_lifecycleTransition v) (va_bridgeState v)
                     (va_lifecycleTransition v) (va_operation v) (va_rootHandleState v) source]>
              (rootBridgeAdmissionPayloads w)) w)).

Definition admitRootBridgeRequestWithBridge (bridgeState : option N) (record : option N) w : effect rootWorld N :=
  do* x, w := pureStep (validateRootBridgeRequestRecord w record) w in
  let '(r, rq, v) := x in
  do* _, w := pureStep (assertBridge bridgeState (va_bridgeState v)) w in
  let '(a, w) := createRootBridgeAdmissionRecord r rq v w in (Ok a, w).

(** The admission's fields against its source record's. *)
Definition isSourceOwnedPrivateRootBridgeAdmissionRecord w (a : admissionRecord) : bool :=
  match rootRecordPayloads w !! ad_payloadSourceRecord a with
  | None => false
  | Some source =>
      bool_decide (rq_requestId source = ad_requestId a)
      && (rq_requestSequence source =? ad_requestSequence a)%N
      && bool_decide (rq_requestType source = ad_requestType a) && bool_decide (rq_rootId source = ad_rootId a)
      && strictEq (rq_rootKind source) (ad_rootKind a) && strictEq (rq_rootTag source) (ad_rootTag a)
      && bool_decide (rq_operation source = ad_operation a) && bool_decide (ad_payloadOperation a = ad_operation a)
      && bool_decide (ad_payloadLifecycleTransition a = ad_lifecycleTransition a)
  end.

Definition validatePrivateRootLifecycleAdmission w (admission : option N) : res (N * admissionRecord) :=
  match (i ← admission; a ← rootBridgeAdmissionPayloads w !! i; Some (i, a)) with
  | Some (i, a) => let* _ := assertRequest (isSourceOwnedPrivateRootBridgeAdmissionRecord w a) in Ok (i, a)
  | None => hostError INVALID_ROOT_BRIDGE_REQUEST
  end.

(** The state of the root that an admission is about, and its source record. *)
Definition admissionRoot w (a : admissionRecord) : option (handleState * requestRecord) :=
  x ← rootHandleState w !! ad_payloadHandle a;
  source ← rootRecordPayloads w !! ad_payloadSourceRecord a;
  Some (snd x, source).
Definition isLatest (a : admissionRecord) (s : handleState) : bool :=
  bool_decide (hs_latestLifecycleRequestRecord s = Some (ad_payloadSourceRecord a)).
Definition isMounted (s : handleState) : bool := negb (bool_decide (hs_lifecycleStatus s = ROOT_LIFECYCLE_UNMOUNTED)).

Definition validateActivePrivateRootLifecycleAdmission w (admission : option N) : res (N * admissionRecord) :=
  let* x := validatePrivateRootLifecycleAdmission w admission in
  let* _ := assertRequest (match admissionRoot w (snd x) with
                           | Some (s, _) => isMounted s && isLatest (snd x) s
                           | None => false end) in
  Ok x.

Definition validateCurrentPrivateRootLifecycleAdmission w (admission : option N) : res (N * admissionRecord) :=
  let* x := validatePrivateRootLifecycleAdmission w admission in
  match admissionRoot w (snd x) with
  | None => hostError INVALID_ROOT_BRIDGE_REQUEST
  | Some (s, source) =>
      if isMounted s && isLatest (snd x) s then Ok x
      else if bool_decide (rq_operation source = UnmountOperation) && negb (rq_noOp source)
              && bool_decide (rq_lifecycleStatusBefore source = Some ROOT_LIFECYCLE_RENDERED)
              && bool_decide (rq_lifecycleStatusAfter source = ROOT_LIFECYCLE_UNMOUNTED)
              && bool_decide (hs_lifecycleStatus s = ROOT_LIFECYCLE_UNMOUNTED) && isLatest (snd x) s
      then Ok x
      else hostError INVALID_ROOT_BRIDGE_REQUEST
  end.

Definition createPrivateRootLifecycleRequestBoundaryWithBridge (bridgeState : option N) (admission : option N) w :
    effect rootWorld N :=
  do* x, w := pureStep (validateCurrentPrivateRootLifecycleAdmission w admission) w in
  let '(i, a) := x in
  do* _, w := pureStep (assertBridge bridgeState (ad_payloadBridge a)) w in
  match admissionRoot w a with
  | None => (hostError INVALID_ROOT_BRIDGE_REQUEST, w)
  | Some (s, source) =>
      let b := ad_payloadBridge a in
      let sequence := nextLifecycleRequestBoundarySequence (bridgeOf w b) in
      let boundaryId := numberedId (lifecycleRequestBoundaryIdPrefix (bridgeOf w b)) sequence in
      let w := modifyBridge b takeLifecycleRequestBoundarySequence w in
      let j := objects w in
      (Ok j,
       set_objects (j + 1)%N
         (set_rootLifecycleRequestBoundaryPayloads
            (<[j := mkBoundary boundaryId sequence (ad_requestId a) (rq_requestId source) (rq_requestSequence source)
                      (rq_requestType source) (rq_operation source) (ad_rootId a) (ad_rootKind a) (ad_rootTag a)
                      (ad_lifecycleStatusBefore a) (ad_lifecycleStatusAfter a) (ad_lifecycleTransition a)
                      (hs_lifecycleStatus s) (rq_requestId source) (rq_requestSequence source)
                      (hs_lifecycleRequestVersion s) i b (hs_lifecycleRequestVersion s) (ad_payloadHandle a)
                      (ad_payloadSourceRecord a)]> (rootLifecycleRequestBoundaryPayloads w)) w))
  end.

(** The boundary is still the admission's, and the root has not moved on. *)
Definition validateActivePrivateRootLifecycleRequestBoundary w (admission boundary : option N) : option boundaryRecord :=
  i ← admission; a ← rootBridgeAdmissionPayloads w !! i;
  j ← boundary; c ← rootLifecycleRequestBoundaryPayloads w !! j;
  x ← admissionRoot w a;
  let '(s, source) := x in
  if (bd_payloadAdmission c =? i)%N && (bd_payloadBridge c =? ad_payloadBridge a)%N
     && (bd_payloadHandle c =? ad_payloadHandle a)%N && (bd_payloadSourceRecord c =? ad_payloadSourceRecord a)%N
     && isMounted s && isLatest a s
     && (hs_lifecycleRequestVersion s =? bd_payloadVersion c)%nat
     && bool_decide (bd_sourceAdmissionId c = ad_requestId a) && bool_decide (bd_sourceRequestId c = rq_requestId source)
     && (bd_sourceRequestSequence c =? rq_requestSequence source)%N
     && bool_decide (bd_sourceRequestType c = rq_requestType source)
     && bool_decide (bd_sourceOperation c = rq_operation source) && bool_decide (bd_rootId c = ad_rootId a)
     && strictEq (bd_rootKind c) (ad_rootKind a) && strictEq (bd_rootTag c) (ad_rootTag a)
     && bool_decide (bd_sourceLifecycleStatusBefore c = ad_lifecycleStatusBefore a)
     && bool_decide (bd_sourceLifecycleStatusAfter c = ad_lifecycleStatusAfter a)
     && bool_decide (bd_lifecycleTransition c = ad_lifecycleTransition a)
     && bool_decide (bd_activeLifecycleStatus c = hs_lifecycleStatus s)
     && bool_decide (bd_latestSourceRequestId c = rq_requestId source)
     && (bd_latestSourceRequestSequence c =? rq_requestSequence source)%N
     && (bd_lifecycleRequestVersion c =? hs_lifecycleRequestVersion s)%nat
  then Some c else None.
Definition isActiveSourceOwnedPrivateRootLifecycleRequestBoundaryForAdmission w (admission boundary : option N) : bool :=
  isSome (validateActivePrivateRootLifecycleRequestBoundary w admission boundary).

(** ** The native mirror *)

Definition createNativeRequestRecordMirror (record : requestRecord) (s : handleState) : nativeRequestRecord :=
  mkNativeRequest (rq_requestSequence record) (rq_operation record) (nh_environmentId (hs_nativeRootHandle s))
    (hs_nativeRootHandle s) (hs_nativeRootId s)
    (match rq_operation record with UnmountOperation => None | _ => rq_nativeValueHandle record end)
    (match rq_operation record with UnmountOperation => NativeRootRetired | _ => NativeRootActive end).

Definition createNativeRootBridgeHandoffRecordWithBridge (bridgeState : option N) (record : option N) w :
    effect rootWorld N :=
  do* x, w := pureStep (validateRootBridgeRequestRecord w record) w in
  let '(r, rq, v) := x in
  do* _, w := pureStep (assertBridge bridgeState (va_bridgeState v)) w in
  match rootNativeHandoffRecords w !! r with
  | Some existing => (Ok existing, w)
  | None =>
      do* x, w := pureStep (getPrivateRootHandleState w (Some (va_rootHandleState v))) w in
      let handoffSequence := rq_requestSequence rq in
      let handoffId := numberedId (nativeHandoffIdPrefix (bridgeOf w (hs_bridgeState (snd x)))) handoffSequence in
      let k := objects w in
      (Ok k,
       set_objects (k + 1)%N
         (set_rootNativeHandoffRecords (<[r := k]> (rootNativeHandoffRecords w))
            (set_rootNativeHandoffPayloads
               (<[k := mkHandoff (rq_operation rq) handoffId handoffSequence (rq_requestId rq) (rq_requestSequence rq)
                         (rq_requestType rq) (rq_lifecycleStatusBefore rq) (rq_lifecycleStatusAfter rq) (rq_rootId rq)
                         (createNativeRequestRecordMirror rq (snd x)) r]> (rootNativeHandoffPayloads w)) w)))
  end.

(** [value] of the handoff's payload: the container, the element or null. *)
Definition getNativeHandoffSourceValue w (record : requestRecord) : domArg Node :=
  match rq_operation record with
  | CreateOperation => match rootHandleState w !! rq_handle record with
                       | Some x => inr (hs_container (snd x)) | None => inl VNull end
  | RenderOperation => inl (rq_value record)
  | UnmountOperation => inl VNull
  end.

(** ** Marking the container and listening *)

Definition onMarkers {A : Type} (f : markerState Node -> effect (markerState Node) A) w : effect rootWorld A :=
  let '(r, m) := f (rootMarkers w) in (r, set_rootMarkers m w).
Definition onEvents {A : Type} (f : eventWorld -> effect eventWorld A) w : effect rootWorld A :=
  let '(r, e) := f (rootEvents w) in (r, set_rootEvents e w).

Definition validateCreateRootSideEffectRequest w (record : option N) : res (N * requestRecord * validation) :=
  let* x := validateRootBridgeRequestRecord w record in
  let* _ := assertRequest (bool_decide (va_operation (snd x) = CreateOperation)) in Ok x.

(** The error of a failed cleanup is kept in a property of the error that is thrown. *)
Definition markAndListen (owner : N) n (listenerOptions : option value) w : effect rootWorld (N * option N) :=
  do* markerRecord, w := onMarkers (markContainerAsRootWithRevertRecord heap development (hostOf w)
                                      (VObj (ownerObject owner)) (inr n)) w in
  match onEvents (registerRootListenersForPrivateRoot (inr n) listenerOptions) w with
  | (Ok registration, w) => (Ok (markerRecord, registration), w)
  | (Throw e, w) => (Throw e, snd (onMarkers (revertContainerRootMarkerMutation (hostOf w) (Some markerRecord)) w))
  end.

Definition applyPrivateCreateRootSideEffectsWithBridge (bridgeState : option N) (record : option N)
    (listenerOptions : option value) w : effect rootWorld N :=
  do* x, w := pureStep (validateCreateRootSideEffectRequest w record) w in
  let '(r, rq, v) := x in
  do* _, w := pureStep (assertBridge bridgeState (va_bridgeState v)) w in
  match (k ← rootCreateSideEffectRecords w !! r; p ← rootCreateSideEffectPayloads w !! k;
         if se_payloadActive p then Some k else None) with
  | Some existing => (Ok existing, w)
  | None =>
      do* x, w := pureStep (getPrivateRootHandleState w (Some (rq_handle rq))) w in
      let b := va_bridgeState v in
      let sequence := nextSideEffectSequence (bridgeOf w b) in
      let sideEffectId := numberedId (sideEffectIdPrefix (bridgeOf w b)) sequence in
      let w := modifyBridge b takeSideEffectSequence w in
      do* made, w := markAndListen (rq_owner rq) (hs_container (snd x)) listenerOptions w in
      let k := objects w in
      (Ok k,
       set_objects (k + 1)%N
         (set_rootCreateSideEffectRecords (<[r := k]> (rootCreateSideEffectRecords w))
            (set_rootCreateSideEffectPayloads
               (<[k := mkSideEffect (rq_requestId rq) (rq_requestSequence rq) (rq_requestType rq) (rq_rootId rq)
                         (rq_rootKind rq) (rq_rootTag rq) sideEffectId sequence (fst made) (snd made) true b r]>
                  (rootCreateSideEffectPayloads w)) w)))
  end.

Definition retireSideEffect (p : sideEffectRecord) : sideEffectRecord :=
  mkSideEffect (se_requestId p) (se_requestSequence p) (se_requestType p) (se_rootId p) (se_rootKind p) (se_rootTag p)
    (se_sideEffectId p) (se_sideEffectSequence p) (se_markerRecord p) (se_listenerRegistration p) false
    (se_payloadBridge p) (se_payloadSourceRecord p).

Definition revertPrivateCreateRootSideEffectsWithBridge (bridgeState : option N) (record : option N) w :
    effect rootWorld sideEffectCleanup :=
  match (k ← record; p ← rootCreateSideEffectPayloads w !! k; Some (k, p)) with
  | None => (hostError INVALID_ROOT_SIDE_EFFECT_RECORD, w)
  | Some (k, p) =>
      do* _, w := pureStep (assertBridge bridgeState (se_payloadBridge p)) w in
      match (if se_payloadActive p then None else rootCreateSideEffectCleanupRecords w !! k) with
      | Some existingCleanup => (Ok existingCleanup, w)
      | None =>
          do* listenerCleanup, w := onEvents (revertRootListenersForPrivateRoot (se_listenerRegistration p)) w in
          do* markerCleanup, w := onMarkers (revertContainerRootMarkerMutation (hostOf w) (Some (se_markerRecord p))) w in
          let cleanup := mkSideEffectCleanup (se_requestId p) (se_rootId p) (se_sideEffectId p) markerCleanup
                           listenerCleanup in
          (Ok cleanup,
           set_rootCreateSideEffectCleanupRecords (<[k := cleanup]> (rootCreateSideEffectCleanupRecords w))
             (set_rootCreateSideEffectPayloads (<[k := retireSideEffect p]> (rootCreateSideEffectPayloads w)) w))
      end
  end.

(** ** Create and render *)

Definition assertAdmission (b : bool) : res unit := require b INVALID_CREATE_RENDER_ADMISSION.

(** The two listening markers: of the container and of its document. *)
Definition validateCreateRenderSideEffectRecord w (sideEffect : option N) (create : N) (record : requestRecord)
    (v : validation) : res (N * sideEffectRecord * bool * bool) :=
  match (k ← sideEffect; p ← rootCreateSideEffectPayloads w !! k; Some (k, p)) with
  | None => hostError INVALID_CREATE_RENDER_ADMISSION
  | Some (k, p) =>
      let* _ := require (se_payloadBridge p =? va_bridgeState v)%N FOREIGN_ROOT_HANDLE in
      let* _ := assertAdmission (se_payloadSourceRecord p =? create)%N in
      let* _ := assertAdmission (se_payloadActive p) in
      let* _ := assertAdmission (bool_decide (se_requestId p = rq_requestId record)) in
      let* _ := assertAdmission (se_requestSequence p =? rq_requestSequence record)%N in
      let* _ := assertAdmission (bool_decide (se_requestType p = rq_requestType record)) in
      let* _ := assertAdmission (bool_decide (se_rootId p = rq_rootId record)) in
      let* _ := assertAdmission (strictEq (se_rootKind p) (rq_rootKind record)) in
      let* _ := assertAdmission (strictEq (se_rootTag p) (rq_rootTag record)) in
      let* _ := assertAdmission (isSome (privateRootMarkerMutationPayloads (rootMarkers w) !! se_markerRecord p)) in
      match (i ← se_listenerRegistration p; rootListenerRegistrationPayloads (rootEvents w) !! i) with
      | None => hostError INVALID_CREATE_RENDER_ADMISSION
      | Some registration =>
          let* x := getPrivateRootHandleState w (Some (rq_handle record)) in
          let n := hs_container (snd x) in
          let* _ := assertAdmission (match getContainerRoot (rootMarkers w) (inr n) with
                                     | Some owner => strictEq owner (VObj (ownerObject (rq_owner record)))
                                     | None => false end) in
          let* ownerDocument := getOwnerDocument (hostOf w) (inr n) in
          let rootMarker := hasListeningMarker (ew_targets (rootEvents w)) (Some n) in
          let documentMarker := hasListeningMarker (ew_targets (rootEvents w)) ownerDocument in
          let* _ := assertAdmission rootMarker in
          let* _ := assertAdmission ((rg_ownerDocumentRegistrationCount (rp_record registration) =? 0)%nat
                                     || documentMarker) in
          Ok (k, p, rootMarker, documentMarker)
      end
  end.

(** The record of an earlier admission with the same side effects. *)
Definition existingCreateRender w (render sideEffect : N) : option N :=
  a ← rootCreateRenderAdmissionRecords w !! render;
  c ← rootCreateRenderAdmissionPayloads w !! a;
  if (cr_payloadSideEffectRecord c =? sideEffect)%N then Some a else None.

Definition admitPrivateCreateRenderPathWithBridge (bridgeState : option N) (create sideEffect render : option N) w :
    effect rootWorld N :=
  do* c, w := pureStep (validateRootBridgeRequestRecord w create) w in
  let '(createId, createRecord, createValidation) := c in
  do* r, w := pureStep (validateRootBridgeRequestRecord w render) w in
  let '(renderId, renderRecord, renderValidation) := r in
  do* _, w := pureStep (assertAdmission (bool_decide (va_operation createValidation = CreateOperation))) w in
  do* _, w := pureStep (assertAdmission (bool_decide (va_operation renderValidation = RenderOperation))) w in
  do* _, w := pureStep (assertBridge bridgeState (va_bridgeState createValidation)) w in
  do* _, w := pureStep (assertBridge bridgeState (va_bridgeState renderValidation)) w in
  do* _, w := pureStep (assertAdmission (va_bridgeState createValidation =? va_bridgeState renderValidation)%N) w in
  do* s, w := pureStep (validateCreateRenderSideEffectRecord w sideEffect createId createRecord createValidation) w in
  let '(sideEffectId, p, rootMarker, documentMarker) := s in
  do* _, w := pureStep (assertBridge bridgeState (se_payloadBridge p)) w in
  do* _, w := pureStep (assertAdmission (rq_handle renderRecord =? rq_handle createRecord)%N) w in
  do* _, w := pureStep (assertAdmission (rq_requestSequence createRecord <? rq_requestSequence renderRecord)%N) w in
  match existingCreateRender w renderId sideEffectId with
  | Some existing => (Ok existing, w)
  | None =>
      let b := va_bridgeState createValidation in
      let sequence := nextCreateRenderAdmissionSequence (bridgeOf w b) in
      let admissionId := numberedId (createRenderAdmissionIdPrefix (bridgeOf w b)) sequence in
      let w := modifyBridge b takeCreateRenderAdmissionSequence w in
      let '(createAdmission, w) := createRootBridgeAdmissionRecord createId createRecord createValidation w in
      let '(renderAdmission, w) := createRootBridgeAdmissionRecord renderId renderRecord renderValidation w in
      let a := objects w in
      let record := mkCreateRender admissionId sequence (rq_rootId createRecord) (rq_requestId createRecord)
        (rq_requestSequence createRecord) (rq_requestId renderRecord) (rq_requestSequence renderRecord)
        (rq_updateId renderRecord) (se_sideEffectId p) createAdmission renderAdmission (se_markerRecord p)
        (se_listenerRegistration p) rootMarker documentMarker b createId (rq_value renderRecord) renderId sideEffectId in
      (Ok a,
       modifyHandle (va_rootHandleState renderValidation) (setCreateRenderAdmission a)
         (set_objects (a + 1)%N
            (set_rootCreateRenderAdmissionRecords (<[renderId := a]> (rootCreateRenderAdmissionRecords w))
               (set_rootCreateRenderAdmissionPayloads (<[a := record]> (rootCreateRenderAdmissionPayloads w)) w))))
  end.

(** ** Runs *)

(** The modelled operations that change the state, at any arguments, and other code that
    changes markers and listeners. Hydrate requests are left out, and so is the public facade,
    whose withdrawal of a render that failed
    (rollbackPrivateRootPublicFacadeRenderRecordAfterFailure) takes the request back: it
    forgets its record and sets the root's status, counts and version to those of before. *)
Inductive bridgeStep w : rootWorld -> Prop :=
| step_shell options : bridgeStep w (snd (createPrivateRootBridgeShell options w))
| step_owner rootId rootKind rootTag : bridgeStep w (snd (createPrivateRootOwner rootId rootKind rootTag w))
| step_create b container rootOptions : is_Some (bridges w !! b) ->
    bridgeStep w (snd (createClientRoot b container rootOptions w))
| step_render b rootHandle element callback : bridgeStep w (snd (renderContainer b rootHandle element callback w))
| step_unmount b rootHandle callback : bridgeStep w (snd (unmountContainer b rootHandle callback w))
| step_render_of rootHandle element callback : bridgeStep w (snd (createRootUpdateRecord rootHandle element callback w))
| step_unmount_of rootHandle callback : bridgeStep w (snd (createRootUnmountRecord rootHandle callback w))
| step_admit (b : option N) record : bridgeStep w (snd (admitRootBridgeRequestWithBridge b record w))
| step_boundary (b : option N) admission :
    bridgeStep w (snd (createPrivateRootLifecycleRequestBoundaryWithBridge b admission w))
| step_handoff (b : option N) record : bridgeStep w (snd (createNativeRootBridgeHandoffRecordWithBridge b record w))
| step_apply (b : option N) record listenerOptions :
    bridgeStep w (snd (applyPrivateCreateRootSideEffectsWithBridge b record listenerOptions w))
| step_revert (b : option N) record : bridgeStep w (snd (revertPrivateCreateRootSideEffectsWithBridge b record w))
| step_create_render (b : option N) create sideEffect render :
    bridgeStep w (snd (admitPrivateCreateRenderPathWithBridge b create sideEffect render w))
| step_environment rootMarkers' rootEvents' : bridgeStep w (set_rootMarkers rootMarkers' (set_rootEvents rootEvents' w)).

Definition noRoots d : rootWorld :=
  mkRootWorld 0 ∅ ∅ ∅ ∅ ∅ ∅ ∅ ∅ ∅ ∅ ∅ ∅ ∅ (mkMarkers ∅ 0 ∅ ∅) (mkEventWorld d (mkTargets ∅ ∅) 0 ∅ 0 ∅ ∅).
End RootBridge.
