(* ===== verification/RootBridgeSpec.v ===== *)
(** * Theorems about the root bridge

    The requests of a root are the history that its state sums up; every record that a
    bridge made is admitted by that bridge and by no other; a lifecycle boundary is active as
    long as its request is the root's last; and the side effects of a create request are
    applied as a whole or not at all and can be undone. *)
From stdpp Require Import pretty.
From S2P Require Import Prelude JsValue DomHost DomTree DomTreeSpec DomCommitSpec RootMarkers TreePublishSpec Events ListenerRegistry RootListeners RootListenersSpec RootBridge.

Section Bridges.
Context {Node D : Type} `{!EqDecision Node} `{!Countable Node} `{!Host Node D} `{!EventHost Node D}.
Context (registered : D -> Node -> list (string * N * bool)) {laws : EventTargetLaws registered}.
Context (heap : ref -> jsobject) (development : bool) (ownerObject : N -> ref).
Implicit Types (d : D) (n : Node) (b h r : N) (rq : requestRecord).

Abbreviation World := (rootWorld (Node := Node) (D := D)).
Abbreviation Handle := (rootHandle * handleState (Node := Node))%type.
Abbreviation step := (bridgeStep heap development ownerObject).
Implicit Types (w : World) (s : handleState (Node := Node)) (ha : rootHandle).

(** ** The history of a root *)

(** The requests of the root [h], last first, with the state they lead to. *)
Inductive life (records : gmap N requestRecord) h : list N -> rootLifecycle -> nat -> Prop :=
| life_create r rq :
    records !! r = Some rq -> rq_handle rq = h -> rq_operation rq = CreateOperation ->
    rq_lifecycleStatusBefore rq = None -> rq_lifecycleStatusAfter rq = ROOT_LIFECYCLE_CREATED ->
    life records h [r] ROOT_LIFECYCLE_CREATED 0
| life_render r rq p ids status k :
    life records h (p :: ids) status k -> (p < r)%N -> status <> ROOT_LIFECYCLE_UNMOUNTED ->
    records !! r = Some rq -> rq_handle rq = h -> rq_operation rq = RenderOperation ->
    rq_lifecycleStatusBefore rq = Some status -> rq_lifecycleStatusAfter rq = ROOT_LIFECYCLE_RENDERED ->
    rq_renderCount rq = S k ->
    life records h (r :: p :: ids) ROOT_LIFECYCLE_RENDERED (S k)
| life_unmount r rq p ids status k :
    life records h (p :: ids) status k -> (p < r)%N ->
    records !! r = Some rq -> rq_handle rq = h -> rq_operation rq = UnmountOperation ->
    rq_lifecycleStatusBefore rq = Some status -> rq_lifecycleStatusAfter rq = ROOT_LIFECYCLE_UNMOUNTED ->
    rq_noOp rq = bool_decide (status = ROOT_LIFECYCLE_UNMOUNTED) -> rq_renderCount rq = k ->
    life records h (r :: p :: ids) ROOT_LIFECYCLE_UNMOUNTED k.

Lemma life_mono records records' h ids status k :
  records ⊆ records' -> life records h ids status k -> life records' h ids status k.
Proof.
  intros Hsub. induction 1; [eapply life_create|eapply life_render|eapply life_unmount]; eauto; by eapply lookup_weaken.
Qed.

Lemma life_below records h p ids status k r : life records h (p :: ids) status k -> r ∈ p :: ids -> (r <= p)%N.
Proof.
  remember (p :: ids) as l eqn:E. intros H. revert p ids E. induction H; intros q l' [= -> <-]; intros Hin.
  - apply list_elem_of_singleton in Hin as ->. lia.
  - apply elem_of_cons in Hin as [->|Hin]; [lia|]. specialize (IHlife _ _ eq_refl Hin). lia.
  - apply elem_of_cons in Hin as [->|Hin]; [lia|]. specialize (IHlife _ _ eq_refl Hin). lia.
Qed.

Lemma life_of records h ids status k r :
  life records h ids status k -> r ∈ ids -> exists rq, records !! r = Some rq /\ rq_handle rq = h.
Proof.
  induction 1 as [| |]; intros Hin; apply elem_of_cons in Hin as [->|Hin]; eauto. by apply not_elem_of_nil in Hin.
Qed.

(** The last request knows the state of the root. *)
Lemma life_head records h ids status k :
  life records h ids status k -> exists p rest rq, ids = p :: rest /\ records !! p = Some rq /\ rq_handle rq = h
    /\ rq_lifecycleStatusAfter rq = status.
Proof. destruct 1; do 3 eexists; eauto. Qed.

(** ** What holds of every state *)

(** The admission of a path changes nothing else of a handle. *)
Definition eraseAdmission (x : Handle) : Handle := (fst x, setCreateRenderAdmission 0 (snd x)).
Definition handleOf w h : option Handle := eraseAdmission <$> (rootHandleState w !! h).

Definition requestShape rq : Prop :=
  match rq_operation rq with
  | CreateOperation => rq_requestType rq = "createRoot" /\ rq_lifecycleStatusBefore rq = None
      /\ rq_lifecycleStatusAfter rq = ROOT_LIFECYCLE_CREATED
  | RenderOperation => rq_requestType rq = "root.render" /\ rq_lifecycleStatusAfter rq = ROOT_LIFECYCLE_RENDERED
      /\ rq_unmountMarkerGuard rq = None /\ rq_noOp rq = false /\ rq_sync rq = false
      /\ (rq_lifecycleStatusBefore rq = Some ROOT_LIFECYCLE_CREATED \/ rq_lifecycleStatusBefore rq = Some ROOT_LIFECYCLE_RENDERED)
  | UnmountOperation => rq_requestType rq = "root.unmount" /\ rq_lifecycleStatusAfter rq = ROOT_LIFECYCLE_UNMOUNTED
      /\ isSome (rq_unmountMarkerGuard rq) = true /\ exists before, rq_lifecycleStatusBefore rq = Some before
      /\ rq_noOp rq = bool_decide (before = ROOT_LIFECYCLE_UNMOUNTED) /\ rq_sync rq = negb (rq_noOp rq)
  end.

(** A request is made at a bridge, which numbers it. *)
Definition madeAt w b r rq : Prop :=
  rootRecordPayloads w !! r = Some rq /\ exists x, handleOf w (rq_handle rq) = Some x /\ hs_bridgeState (snd x) = b.

(** The object [x] of the bridge has a native slot: a handle, or the value of a request. *)
Definition hasSlot w b x (v : nativeHandle) : Prop :=
  (exists hs, handleOf w x = Some hs /\ hs_bridgeState (snd hs) = b /\ hs_nativeRootHandle (snd hs) = v)
  \/ (exists rq, madeAt w b x rq /\ rq_nativeValueHandle rq = Some v).

(** [ids] are all requests of the handle [h], whose state is [s]. *)
Definition history w h s (ids : list N) : Prop :=
  life (rootRecordPayloads w) h ids (hs_lifecycleStatus s) (hs_renderCount s)
  /\ head ids = hs_latestLifecycleRequestRecord s /\ length ids = hs_lifecycleRequestVersion s
  /\ forall r rq, rootRecordPayloads w !! r = Some rq -> rq_handle rq = h -> r ∈ ids.

Record handleOk w h (x : Handle) : Prop := {
  ho_fresh : (h < objects w)%N;
  ho_bridge : is_Some (bridges w !! hs_bridgeState (snd x));
  ho_owner : rootOwnerState w !! ha_owner (fst x) =
    Some (mkOwnerState (ha_rootId (fst x)) (VStr CLIENT_ROOT_KIND) (VStr CONCURRENT_ROOT_TAG));
  ho_kind : ha_rootKind (fst x) = VStr CLIENT_ROOT_KIND;
  ho_tag : ha_rootTag (fst x) = VStr CONCURRENT_ROOT_TAG;
  ho_life : exists ids, history w h (snd x) ids }.

Record requestOk w r rq : Prop := {
  ro_fresh : (r < objects w)%N;
  ro_handle : exists x, handleOf w (rq_handle rq) = Some x /\ rq_rootId rq = ha_rootId (fst x)
    /\ rq_owner rq = ha_owner (fst x)
    /\ (rq_requestSequence rq < nextRequestSequence (bridgeOf w (hs_bridgeState (snd x))))%N
    /\ rq_requestId rq = numberedId (requestIdPrefix (bridgeOf w (hs_bridgeState (snd x)))) (rq_requestSequence rq);
  ro_kind : rq_rootKind rq = VStr CLIENT_ROOT_KIND;
  ro_tag : rq_rootTag rq = VStr CONCURRENT_ROOT_TAG;
  ro_shape : requestShape rq }.

Record bridgesOk w : Prop := {
  bo_bridge b : is_Some (bridges w !! b) -> (b < objects w)%N;
  bo_owner o : is_Some (rootOwnerState w !! o) -> (o < objects w)%N;
  bo_handle h x : handleOf w h = Some x -> handleOk w h x;
  bo_request r rq : rootRecordPayloads w !! r = Some rq -> requestOk w r rq;
  bo_order b r r' rq rq' : madeAt w b r rq -> madeAt w b r' rq' -> (r < r')%N ->
    (rq_requestSequence rq < rq_requestSequence rq')%N;
  bo_slot b x v : hasSlot w b x v -> (nh_slot v < nextNativeHandleSlot (bridgeOf w b))%N
    /\ nh_environmentId v = nativeEnvironmentId (bridgeOf w b);
  bo_slots b x y v v' : hasSlot w b x v -> hasSlot w b y v' -> (x < y)%N -> (nh_slot v < nh_slot v')%N }.

Lemma noRoots_ok d : bridgesOk (noRoots d).
Proof.
  assert (Hh : forall h, handleOf (noRoots d) h = None) by done.
  assert (Hr : forall b r rq, ~ madeAt (noRoots d) b r rq) by (intros b r rq [H _]; done).
  assert (Hs : forall b x v, ~ hasSlot (noRoots d) b x v).
  { intros b x v [(? & H & _)|(? & H & _)]; [by rewrite Hh in H|by apply Hr in H]. }
  split.
  - by intros b [x H].
  - by intros o [x H].
  - intros h x H. by rewrite Hh in H.
  - done.
  - intros b r r' rq rq' H. by apply Hr in H.
  - intros b x v H. by apply Hs in H.
  - intros b x y v v' H. by apply Hs in H.
Qed.

(** ** Steps that make no request *)

(** The numbers of a bridge that requests and native handles have. *)
Definition sameNumbers (x y : bridgeState) : Prop :=
  nextRequestSequence x = nextRequestSequence y /\ nextNativeHandleSlot x = nextNativeHandleSlot y
  /\ requestIdPrefix x = requestIdPrefix y /\ nativeEnvironmentId x = nativeEnvironmentId y.

Record frame w w' : Prop := {
  fr_objects : (objects w <= objects w')%N;
  fr_bridge b : is_Some (bridges w !! b) -> is_Some (bridges w' !! b) /\ sameNumbers (bridgeOf w b) (bridgeOf w' b);
  fr_bridges b : is_Some (bridges w' !! b) -> is_Some (bridges w !! b) \/ (b < objects w')%N;
  fr_owner o x : rootOwnerState w !! o = Some x -> rootOwnerState w' !! o = Some x;
  fr_owners o : is_Some (rootOwnerState w' !! o) -> is_Some (rootOwnerState w !! o) \/ (o < objects w')%N;
  fr_handle h : handleOf w' h = handleOf w h;
  fr_records : rootRecordPayloads w' = rootRecordPayloads w }.

Lemma frame_refl w : frame w w.
Proof. split; auto; try lia. intros b H. by split. Qed.

Lemma frame_trans w1 w2 w3 : frame w1 w2 -> frame w2 w3 -> frame w1 w3.
Proof.
  intros A B. pose proof (fr_objects _ _ A). pose proof (fr_objects _ _ B). split.
  - lia.
  - intros b Hb. destruct (fr_bridge _ _ A b Hb) as [H2 (a1 & a2 & a3 & a4)].
    destruct (fr_bridge _ _ B b H2) as [H3 (b1 & b2 & b3 & b4)]. split; [done|]. by split_and!; etrans.
  - intros b Hb. destruct (fr_bridges _ _ B b Hb) as [H2|H2]; [|by right].
    destruct (fr_bridges _ _ A b H2); [by left|right; lia].
  - intros o x Ho. by apply (fr_owner _ _ B), (fr_owner _ _ A).
  - intros o Ho. destruct (fr_owners _ _ B o Ho) as [H2|H2]; [|by right].
    destruct (fr_owners _ _ A o H2); [by left|right; lia].
  - intros h. by rewrite (fr_handle _ _ B), (fr_handle _ _ A).
  - by rewrite (fr_records _ _ B), (fr_records _ _ A).
Qed.

Lemma frame_made w w' b r rq : frame w w' -> madeAt w' b r rq -> madeAt w b r rq.
Proof. intros A [H (x & Hx & Hb)]. split; [by rewrite <- (fr_records _ _ A)|]. exists x. by rewrite <- (fr_handle _ _ A). Qed.
Lemma frame_slot w w' b x v : frame w w' -> hasSlot w' b x v -> hasSlot w b x v.
Proof.
  intros A [(hs & Hh & H)|(rq & Hm & H)]; [left; exists hs; by rewrite <- (fr_handle _ _ A)|right].
  exists rq. split; [by eapply frame_made|done].
Qed.

Lemma slot_bridge w b x v : bridgesOk w -> hasSlot w b x v -> is_Some (bridges w !! b).
Proof.
  intros Hok [(hs & Hh & <- & _)|(rq & [_ (hs & Hh & <-)] & _)]; by eapply ho_bridge, bo_handle.
Qed.

Lemma handle_frame w w' h x : frame w w' -> handleOk w h x -> handleOk w' h x.
Proof.
  intros A [H1 H2 H3 H4 H5 H6]. pose proof (fr_objects _ _ A). split; try done.
  - lia.
  - by apply (fr_bridge _ _ A).
  - by apply (fr_owner _ _ A).
  - unfold history. by rewrite (fr_records _ _ A).
Qed.

Lemma frame_ok w w' : bridgesOk w -> frame w w' -> bridgesOk w'.
Proof.
  intros Hok A. pose proof (fr_objects _ _ A) as Hle. split.
  - intros b Hb. destruct (fr_bridges _ _ A b Hb) as [H|H]; [|done]. apply (bo_bridge _ Hok) in H. lia.
  - intros o Ho. destruct (fr_owners _ _ A o Ho) as [H|H]; [|done]. apply (bo_owner _ Hok) in H. lia.
  - intros h x Hx. rewrite (fr_handle _ _ A) in Hx. by eapply handle_frame, bo_handle.
  - intros r rq Hr. rewrite (fr_records _ _ A) in Hr. destruct (bo_request _ Hok r rq Hr) as [H1 (x & Hx & H2 & H3 & H4 & H5) H6 H7 H8].
    pose proof (ho_bridge _ _ _ (bo_handle _ Hok _ _ Hx)) as Hb. destruct (fr_bridge _ _ A _ Hb) as [_ (E1 & _ & E3 & _)].
    split; try done; [lia|]. exists x. rewrite (fr_handle _ _ A), <- E1, <- E3. done.
  - intros b r r' rq rq' H1 H2. apply (bo_order _ Hok b); by eapply frame_made.
  - intros b x v Hs. apply (frame_slot _ _ _ _ _ A) in Hs. destruct (fr_bridge _ _ A b (slot_bridge _ _ _ _ Hok Hs)) as [_ (_ & <- & _ & <-)].
    by apply (bo_slot _ Hok _ x).
  - intros b x y v v' H1 H2. by apply (bo_slots _ Hok b x y); eapply frame_slot.
Qed.
Lemma frame_core w w' : (objects w <= objects w')%N -> bridges w' = bridges w -> rootOwnerState w' = rootOwnerState w ->
  rootHandleState w' = rootHandleState w -> rootRecordPayloads w' = rootRecordPayloads w -> frame w w'.
Proof.
  intros H1 H2 H3 H4 H5. split; rewrite ?H2, ?H3; auto.
  - intros b Hb. split; [done|]. unfold bridgeOf. rewrite H2. by split.
  - intros h. unfold handleOf. by rewrite H4.
Qed.

Lemma bridgeOf_modify w b f b' :
  bridgeOf (modifyBridge b f w) b' = if decide (b' = b /\ is_Some (bridges w !! b)) then f (bridgeOf w b') else bridgeOf w b'.
Proof.
  unfold bridgeOf, modifyBridge. simpl. destruct (decide (b' = b)) as [->|Hne].
  - rewrite lookup_alter_eq. destruct (bridges w !! b) as [x|]; simpl.
    + by rewrite decide_True by eauto.
    + rewrite decide_False; [done|]. intros [_ [? [=]]].
  - rewrite lookup_alter_ne by done. rewrite decide_False; [done|]. by intros [? _].
Qed.

Lemma frame_bridge b f w : (forall x, sameNumbers x (f x)) -> frame w (modifyBridge b f w).
Proof.
  intros Hf. split; simpl; auto; try lia.
  - intros b' Hb. split; [|rewrite bridgeOf_modify; case_decide; [apply Hf|by split]].
    destruct (decide (b' = b)) as [->|]; [|by rewrite lookup_alter_ne]. rewrite lookup_alter_eq. by apply fmap_is_Some.
  - intros b' Hb. left. destruct (decide (b' = b)) as [->|]; [|by rewrite lookup_alter_ne in Hb].
    rewrite lookup_alter_eq in Hb. by apply fmap_is_Some in Hb.
Qed.

Lemma frame_admission h a w : frame w (modifyHandle h (setCreateRenderAdmission a) w).
Proof.
  split; simpl; auto; try lia.
  - intros b Hb. by split.
  - intros h'. unfold handleOf, modifyHandle. simpl. destruct (decide (h' = h)) as [->|].
    + rewrite lookup_alter_eq. by destruct (rootHandleState w !! h).
    + by rewrite lookup_alter_ne.
Qed.

(** Take the case of each check of an operation. *)
Ltac checks :=
  repeat match goal with
  | |- context [pureStep ?r] => destruct r as [?|?]; cbn [pureStep andThen]
  | |- context [let '(_, _) := ?x in _] => destruct x
  | |- context [match ?x with Some _ => _ | None => _ end] => destruct x
  | |- context [match ?x with Ok _ => _ | Throw _ => _ end] => destruct x
  end; cbn [snd].
Ltac frames :=
  first [ apply frame_refl | done
        | apply frame_core; simpl; first [reflexivity | lia]
        | match goal with |- frame ?w ?w' => match w' with context [modifyBridge ?b ?f w] =>
            eapply (frame_trans _ (modifyBridge b f w)); [apply frame_bridge; by split|frames] end end ].

Lemma onEvents_frame {A : Type} (f : eventWorld (Node := Node) (D := D) -> effect eventWorld A) w : frame w (snd (onEvents f w)).
Proof. unfold onEvents. destruct (f (rootEvents w)). apply frame_core; done || simpl; lia. Qed.
Lemma onMarkers_frame {A : Type} (f : markerState Node -> effect (markerState Node) A) w : frame w (snd (onMarkers f w)).
Proof. unfold onMarkers. destruct (f (rootMarkers w)). apply frame_core; done || simpl; lia. Qed.

Lemma shell_frame options w : bridgesOk w -> frame w (snd (createPrivateRootBridgeShell options w)).
Proof.
  intros Hok. assert (Hne : forall b, is_Some (bridges w !! b) -> b <> objects w).
  { intros b Hb ->. apply (bo_bridge _ Hok) in Hb. lia. }
  split; simpl; auto; try lia.
  - intros b Hb. unfold bridgeOf. simpl. rewrite lookup_insert_ne by (intros <-; by eapply Hne). split; [done|by split].
  - intros b Hb. destruct (decide (b = objects w)) as [->|]; [right; lia|]. rewrite lookup_insert_ne in Hb by done. by left.
Qed.

Lemma owner_frame rootId rootKind rootTag w : bridgesOk w -> frame w (snd (createPrivateRootOwner rootId rootKind rootTag w)).
Proof.
  intros Hok. destruct rootId; try apply frame_refl. simpl. case_decide; [apply frame_refl|]. split; simpl; auto; try lia.
  - intros b Hb. by split.
  - intros o x Ho. rewrite lookup_insert_ne; [done|]. intros <-. assert (is_Some (rootOwnerState w !! objects w)) as H1 by eauto.
    apply (bo_owner _ Hok) in H1. lia.
  - intros o Ho. destruct (decide (o = objects w)) as [->|]; [right; lia|]. rewrite lookup_insert_ne in Ho by done. by left.
Qed.
Lemma admit_frame (b : option N) record w : frame w (snd (admitRootBridgeRequestWithBridge b record w)).
Proof. unfold admitRootBridgeRequestWithBridge, createRootBridgeAdmissionRecord. checks; frames. Qed.

Lemma boundary_frame (b : option N) admission w : frame w (snd (createPrivateRootLifecycleRequestBoundaryWithBridge b admission w)).
Proof. unfold createPrivateRootLifecycleRequestBoundaryWithBridge. checks; frames. Qed.

Lemma handoff_frame (b : option N) record w : frame w (snd (createNativeRootBridgeHandoffRecordWithBridge b record w)).
Proof. unfold createNativeRootBridgeHandoffRecordWithBridge. checks; frames. Qed.

Lemma markAndListen_frame owner n listenerOptions w :
  frame w (snd (markAndListen heap development ownerObject owner n listenerOptions w)).
Proof.
  unfold markAndListen. match goal with |- context [onMarkers ?f w] => pose proof (onMarkers_frame f w) as A end.
  destruct (onMarkers _ w) as [[m|e] w1]; simpl in *; [|done].
  match goal with |- context [onEvents ?f w1] => pose proof (onEvents_frame f w1) as B end.
  destruct (onEvents _ w1) as [[i|e] w2]; simpl in *; [by eapply frame_trans|].
  eapply frame_trans; [exact A|]. eapply frame_trans; [exact B|]. apply onMarkers_frame.
Qed.

Lemma apply_frame (b : option N) record listenerOptions w :
  frame w (snd (applyPrivateCreateRootSideEffectsWithBridge heap development ownerObject b record listenerOptions w)).
Proof.
  unfold applyPrivateCreateRootSideEffectsWithBridge.
  destruct (validateCreateRootSideEffectRequest w record) as [[[r rq] v]|e]; [|apply frame_refl]. cbn [pureStep andThen].
  destruct (assertBridge b (va_bridgeState v)); [|apply frame_refl]. cbn [pureStep andThen].
  match goal with |- context [match ?x with Some _ => _ | None => _ end] => destruct x; [apply frame_refl|] end.
  destruct (getPrivateRootHandleState w (Some (rq_handle rq))) as [x|]; [|apply frame_refl]. cbn [pureStep andThen].
  match goal with |- context [markAndListen ?a ?b ?c ?o ?n ?l ?w1] => pose proof (markAndListen_frame o n l w1) as A;
    destruct (markAndListen a b c o n l w1) as [[made|e] w2]; cbn [andThen]; simpl in A;
    assert (frame w w2) as B by (eapply frame_trans; [|exact A]; apply frame_bridge; by split) end; [|done].
  eapply frame_trans; [exact B|]. frames.
Qed.

Lemma revert_frame (b : option N) record w : frame w (snd (revertPrivateCreateRootSideEffectsWithBridge b record w)).
Proof.
  unfold revertPrivateCreateRootSideEffectsWithBridge.
  match goal with |- context [match ?x with Some _ => _ | None => _ end] => destruct x as [[k p]|]; [|apply frame_refl] end.
  destruct (assertBridge b _); [|apply frame_refl]. cbn [pureStep andThen].
  match goal with |- context [match ?x with Some _ => _ | None => _ end] => destruct x; [apply frame_refl|] end.
  match goal with |- context [onEvents ?f w] => pose proof (onEvents_frame f w) as A end.
  destruct (onEvents _ w) as [[c|e] w1]; cbn [andThen]; [|done].
  match goal with |- context [onMarkers ?f w1] => pose proof (onMarkers_frame f w1) as B end.
  destruct (onMarkers _ w1) as [[c'|e] w2]; cbn [andThen]; simpl in A, B; eapply frame_trans; [exact A| |exact A|exact B].
  eapply frame_trans; [exact B|]. frames.
Qed.

Lemma createRender_frame (b : option N) create sideEffect render w :
  frame w (snd (admitPrivateCreateRenderPathWithBridge ownerObject b create sideEffect render w)).
Proof.
  unfold admitPrivateCreateRenderPathWithBridge, createRootBridgeAdmissionRecord. checks; try apply frame_refl.
  eapply frame_trans; [|apply frame_admission]. frames.
Qed.

(** ** Numbers of the bridge *)

Lemma numberedId_inj p i j : numberedId p i = numberedId p j -> i = j.
Proof. unfold numberedId. intros H%string_app_inj_l%string_app_inj_l. by apply (inj pretty) in H. Qed.
(** ** Steps that make a request *)

(** [w'] is [w] with the request [rq] of the handle [h], which may be new too; [bs] and
    [bs'] are the states of the handle's bridge. *)
Record requested w h ha s r rq w' : Prop := {
  rd_objects : (objects w <= r)%N /\ objects w' = (r + 1)%N;
  rd_handle : rootHandleState w' = <[h := (ha, s)]> (rootHandleState w);
  rd_old : (exists s0, rootHandleState w !! h = Some (ha, s0) /\ hs_bridgeState s0 = hs_bridgeState s
             /\ hs_nativeRootHandle s0 = hs_nativeRootHandle s)
           \/ rootHandleState w !! h = None /\ (objects w <= h < r)%N;
  rd_records : rootRecordPayloads w' = <[r := rq]> (rootRecordPayloads w);
  rd_bridges b : is_Some (bridges w' !! b) <-> is_Some (bridges w !! b);
  rd_other b : b <> hs_bridgeState s -> bridgeOf w' b = bridgeOf w b;
  rd_own : is_Some (bridges w !! hs_bridgeState s);
  rd_owner o x : rootOwnerState w !! o = Some x -> rootOwnerState w' !! o = Some x;
  rd_owners o : is_Some (rootOwnerState w' !! o) -> is_Some (rootOwnerState w !! o) \/ (o < objects w')%N;
  rd_identity : rq_handle rq = h /\ rq_rootId rq = ha_rootId ha /\ rq_owner rq = ha_owner ha
    /\ rq_rootKind rq = ha_rootKind ha /\ rq_rootTag rq = ha_rootTag ha;
  rd_numbers : let bs := bridgeOf w (hs_bridgeState s) in let bs' := bridgeOf w' (hs_bridgeState s) in
    rq_requestSequence rq = nextRequestSequence bs /\ nextRequestSequence bs' = (nextRequestSequence bs + 1)%N
    /\ rq_requestId rq = numberedId (requestIdPrefix bs) (nextRequestSequence bs)
    /\ requestIdPrefix bs' = requestIdPrefix bs /\ nativeEnvironmentId bs' = nativeEnvironmentId bs
    /\ (nextNativeHandleSlot bs <= nextNativeHandleSlot bs')%N;
  rd_slots : let bs := bridgeOf w (hs_bridgeState s) in let bs' := bridgeOf w' (hs_bridgeState s) in
    (rootHandleState w !! h = None -> nh_slot (hs_nativeRootHandle s) = nextNativeHandleSlot bs
       /\ nh_environmentId (hs_nativeRootHandle s) = nativeEnvironmentId bs
       /\ (nextNativeHandleSlot bs < nextNativeHandleSlot bs')%N)
    /\ forall v, rq_nativeValueHandle rq = Some v -> nh_environmentId v = nativeEnvironmentId bs
         /\ (nextNativeHandleSlot bs <= nh_slot v < nextNativeHandleSlot bs')%N
         /\ (rootHandleState w !! h = None -> (nextNativeHandleSlot bs < nh_slot v)%N) }.

Lemma handleOf_raw w h ha s : rootHandleState w !! h = Some (ha, s) -> handleOf w h = Some (ha, setCreateRenderAdmission 0 s).
Proof. unfold handleOf. by intros ->. Qed.

Section Requested.
Context {w h ha s r rq w'} (Hok : bridgesOk w) (A : requested w h ha s r rq w').

Lemma requested_handle h' : handleOf w' h' = if decide (h' = h) then Some (ha, setCreateRenderAdmission 0 s) else handleOf w h'.
Proof.
  unfold handleOf. rewrite (rd_handle _ _ _ _ _ _ _ A). case_decide as E; [subst; by rewrite lookup_insert_eq|].
  by rewrite lookup_insert_ne.
Qed.

Lemma requested_fresh : rootRecordPayloads w !! r = None.
Proof.
  destruct (rootRecordPayloads w !! r) eqn:E; [|done]. apply (bo_request _ Hok), ro_fresh in E.
  pose proof (rd_objects _ _ _ _ _ _ _ A). lia.
Qed.

Lemma requested_sub : rootRecordPayloads w ⊆ rootRecordPayloads w'.
Proof. rewrite (rd_records _ _ _ _ _ _ _ A). apply insert_subseteq, requested_fresh. Qed.

Lemma requested_record r' rq' : rootRecordPayloads w' !! r' = Some rq' <->
  r' = r /\ rq' = rq \/ rootRecordPayloads w !! r' = Some rq'.
Proof.
  rewrite (rd_records _ _ _ _ _ _ _ A), lookup_insert_Some. pose proof requested_fresh as Hf. split.
  - intros [[-> ->]|[_ H]]; auto.
  - intros [[-> ->]|H]; [by left|right]. split; [|done]. intros ->. congruence.
Qed.

(** A handle that was there keeps its identity. *)
Lemma requested_kept h' x : handleOf w h' = Some x ->
  exists x', handleOf w' h' = Some x' /\ fst x' = fst x /\ hs_bridgeState (snd x') = hs_bridgeState (snd x)
    /\ hs_nativeRootHandle (snd x') = hs_nativeRootHandle (snd x).
Proof.
  intros Hx. rewrite requested_handle. case_decide as E; [|by exists x]. subst h'.
  destruct (rd_old _ _ _ _ _ _ _ A) as [(s0 & H0 & H1 & H2)|[H0 _]].
  - eexists. split; [done|]. apply handleOf_raw in H0. rewrite Hx in H0. injection H0 as ->. done.
  - unfold handleOf in Hx. by rewrite H0 in Hx.
Qed.

Lemma requested_made b r' rq' : madeAt w' b r' rq' ->
  r' = r /\ rq' = rq /\ b = hs_bridgeState s \/ madeAt w b r' rq' /\ (r' < objects w)%N.
Proof.
  intros [Hr (x & Hx & <-)]. apply requested_record in Hr as [[-> ->]|Hr].
  - left. split; [done|]. split; [done|]. rewrite (proj1 (rd_identity _ _ _ _ _ _ _ A)), requested_handle, decide_True in Hx by done.
    by injection Hx as <-.
  - right. pose proof (bo_request _ Hok _ _ Hr) as [Hf (y & Hy & _)]. split; [|done]. split; [done|]. exists y. split; [done|].
    destruct (requested_kept _ _ Hy) as (x' & Hx' & _ & Hb & _). rewrite Hx' in Hx. by injection Hx as ->.
Qed.

Lemma made_sequence b r' rq' : madeAt w b r' rq' -> (rq_requestSequence rq' < nextRequestSequence (bridgeOf w b))%N.
Proof.
  intros [Hr (x & Hx & <-)]. destruct (bo_request _ Hok _ _ Hr) as [_ (y & Hy & _ & _ & Hlt & _)].
  rewrite Hx in Hy. by injection Hy as ->.
Qed.

(** A slot is an old one, or one of the at most two that the step took. *)
Lemma requested_slot b x v : hasSlot w' b x v ->
  hasSlot w b x v /\ (x < objects w)%N
  \/ b = hs_bridgeState s /\ nh_environmentId v = nativeEnvironmentId (bridgeOf w b)
     /\ (nh_slot v < nextNativeHandleSlot (bridgeOf w' b))%N
     /\ (x = h /\ rootHandleState w !! h = None /\ (objects w <= h < r)%N /\ nh_slot v = nextNativeHandleSlot (bridgeOf w b)
         \/ x = r /\ (nextNativeHandleSlot (bridgeOf w b) <= nh_slot v)%N
            /\ (rootHandleState w !! h = None -> (nextNativeHandleSlot (bridgeOf w b) < nh_slot v)%N)).
Proof.
  destruct (rd_slots _ _ _ _ _ _ _ A) as [Hroot Hvalue].
  intros [(y & Hy & <- & <-)|(rq' & Hm & Hv)].
  - rewrite requested_handle in Hy. case_decide as E.
    + subst x. injection Hy as <-. destruct (rd_old _ _ _ _ _ _ _ A) as [(s0 & H0 & H1 & H2)|[H0 Hlt]].
      * left. apply handleOf_raw in H0. split; [|by eapply ho_fresh, bo_handle]. left. eexists. split; [exact H0|]. done.
      * right. destruct (Hroot H0) as (H1 & H2 & H3). simpl. split; [done|]. split; [done|]. split; [lia|]. left. done.
    + left. split; [left; by exists y|]. by eapply ho_fresh, bo_handle.
  - apply requested_made in Hm as [(-> & -> & ->)|[Hm Hlt]]; [|left; split; [right; by exists rq'|done]].
    right. destruct (Hvalue v Hv) as (H1 & H2 & H3). split; [done|]. split; [done|]. split; [lia|]. right. split; [done|]. split; [lia|done].
Qed.
Lemma requested_life_other h' x :
  h' <> h -> handleOk w h' x -> handleOk w' h' x.
Proof.
  intros Hne [H1 H2 H3 H4 H5 (ids & L & H6 & H7 & H8)]. destruct (rd_objects _ _ _ _ _ _ _ A). split; try done.
  - lia.
  - by apply (rd_bridges _ _ _ _ _ _ _ A).
  - by apply (rd_owner _ _ _ _ _ _ _ A).
  - exists ids. split; [eapply life_mono; [exact requested_sub|done]|]. split; [done|]. split; [done|].
    intros r' rq' Hr Hh. apply requested_record in Hr as [[-> ->]|Hr]; [|by eapply H8].
    by rewrite (proj1 (rd_identity _ _ _ _ _ _ _ A)) in Hh.
Qed.

Lemma requested_request r' rq' :
  ha_rootKind ha = VStr CLIENT_ROOT_KIND -> ha_rootTag ha = VStr CONCURRENT_ROOT_TAG -> requestShape rq ->
  rootRecordPayloads w' !! r' = Some rq' -> requestOk w' r' rq'.
Proof.
  intros Hkind Htag Hshape Hr. destruct (rd_objects _ _ _ _ _ _ _ A) as [Ho1 Ho2].
  destruct (rd_numbers _ _ _ _ _ _ _ A) as (N1 & N2 & N3 & N4 & N5 & N6).
  apply requested_record in Hr as [[-> ->]|Hr].
  - destruct (rd_identity _ _ _ _ _ _ _ A) as (I1 & I2 & I3 & I4 & I5). split; try congruence; [lia|].
    exists (ha, setCreateRenderAdmission 0 s). rewrite I1, requested_handle, decide_True by done.
    split; [done|]. split; [done|]. split; [done|]. cbn [snd hs_bridgeState setCreateRenderAdmission].
    split; [lia|]. by rewrite N3, N4, N1.
  - destruct (bo_request _ Hok _ _ Hr) as [H1 (x & Hx & H2 & H3 & H4 & H5) H6 H7 H8]. split; try done; [lia|].
    destruct (requested_kept _ _ Hx) as (x' & Hx' & E1 & E2 & _). exists x'. rewrite E1, E2.
    split; [done|]. split; [done|]. split; [done|]. destruct (decide (hs_bridgeState (snd x) = hs_bridgeState s)) as [E|E].
    + rewrite E in *. rewrite N2, N4. split; [lia|done].
    + by rewrite (rd_other _ _ _ _ _ _ _ A).
Qed.

Lemma requested_ok :
  rootOwnerState w' !! ha_owner ha = Some (mkOwnerState (ha_rootId ha) (VStr CLIENT_ROOT_KIND) (VStr CONCURRENT_ROOT_TAG)) ->
  ha_rootKind ha = VStr CLIENT_ROOT_KIND -> ha_rootTag ha = VStr CONCURRENT_ROOT_TAG -> requestShape rq ->
  (exists ids, history w' h s ids) ->
  bridgesOk w'.
Proof.
  intros Howner Hkind Htag Hshape Hlife. destruct (rd_objects _ _ _ _ _ _ _ A) as [Ho1 Ho2].
  destruct (rd_numbers _ _ _ _ _ _ _ A) as (N1 & N2 & N3 & N4 & N5 & N6). split.
  - intros b Hb. apply (rd_bridges _ _ _ _ _ _ _ A), (bo_bridge _ Hok) in Hb. lia.
  - intros o Ho. destruct (rd_owners _ _ _ _ _ _ _ A o Ho) as [H|H]; [|done]. apply (bo_owner _ Hok) in H. lia.
  - intros h' x Hx. rewrite requested_handle in Hx. case_decide as E.
    + subst h'. injection Hx as <-. split; try done.
      * destruct (rd_old _ _ _ _ _ _ _ A) as [(s0 & H0 & _)|[_ H]]; [|lia].
        apply handleOf_raw, (bo_handle _ Hok), ho_fresh in H0. lia.
      * apply (rd_bridges _ _ _ _ _ _ _ A). apply (rd_own _ _ _ _ _ _ _ A).
    + by eapply requested_life_other, bo_handle.
  - intros r' rq' Hr. by eapply requested_request.
  - intros b r1 r2 rq1 rq2 H1 H2 Hlt. apply requested_made in H1 as [(-> & -> & ->)|[H1 L1]], H2 as [(-> & -> & E)|[H2 L2]]; try lia.
    + subst b. apply made_sequence in H1. lia.
    + by eapply (bo_order _ Hok).
  - intros b x v Hs. apply requested_slot in Hs as [[Hs _]|(-> & H1 & H2 & _)]; [|by rewrite N5].
    destruct (bo_slot _ Hok _ _ _ Hs) as [H1 H2]. destruct (decide (b = hs_bridgeState s)) as [->|Hne].
    + rewrite N5. split; [lia|done].
    + by rewrite (rd_other _ _ _ _ _ _ _ A).
  - intros b x y v v' Hx Hy Hlt. apply requested_slot in Hx as [[Hx L1]|(-> & _ & _ & Hx)], Hy as [[Hy L2]|(E & _ & _ & Hy)].
    + by eapply (bo_slots _ Hok).
    + destruct (bo_slot _ Hok _ _ _ Hx) as [H1 _]. subst b. destruct Hy as [(_ & _ & _ & ->)|(_ & Hy & _)]; lia.
    + destruct Hx as [(-> & _ & Hx & _)|(-> & _)]; lia.
    + destruct Hx as [(-> & Hn & Hx & ->)|(-> & _)], Hy as [(-> & _ & Hy & _)|(-> & _ & Hy)]; try lia. by apply Hy.
Qed.
End Requested.
(** ** Rendering and unmounting *)

Lemma bridgeOf_alter w w' b F : bridges w' = alter F b (bridges w) -> is_Some (bridges w !! b) ->
  bridgeOf w' b = F (bridgeOf w b) /\ (forall b', b' <> b -> bridgeOf w' b' = bridgeOf w b')
  /\ forall b', is_Some (bridges w' !! b') <-> is_Some (bridges w !! b').
Proof.
  intros E [x Hx]. unfold bridgeOf. rewrite E. split; [by rewrite lookup_alter_eq, Hx|]. split; intros b'.
  - intros Hne. by rewrite lookup_alter_ne.
  - destruct (decide (b' = b)) as [->|]; [rewrite lookup_alter_eq; apply fmap_is_Some|by rewrite lookup_alter_ne].
Qed.

Lemma bridgeOf_own w b f : is_Some (bridges w !! b) -> bridgeOf (modifyBridge b f w) b = f (bridgeOf w b).
Proof. intros H. by rewrite bridgeOf_modify, decide_True. Qed.

Lemma alter_comp {A : Type} (f g : A -> A) (i : N) (m : gmap N A) : alter f i (alter g i m) = alter (f ∘ g) i m.
Proof.
  apply map_eq. intros j. destruct (decide (j = i)) as [->|]; [|by rewrite !lookup_alter_ne].
  rewrite !lookup_alter_eq. by destruct (m !! i).
Qed.
Lemma alter_twice {A : Type} (f g : A -> A) (i : N) x (m : gmap N A) :
  m !! i = Some x -> alter f i (alter g i m) = <[i := f (g x)]> m.
Proof. intros H. by rewrite alter_comp, alter_alt, H. Qed.

(** Functions have a length and a name that can be read. *)
Definition plainFunctions : Prop :=
  forall f, (exists v, get (heap f) "length" = Ok v) /\ exists v, get (heap f) "name" = Ok v.

Lemma describe_ok (Hplain : plainFunctions) v : exists i, describeBridgeValue heap v = Ok i.
Proof.
  destruct v as [| | | | | | |f|r]; simpl; eauto. destruct (Hplain f) as [[x ->] [y ->]]. simpl. eauto.
Qed.

Definition updateStatus (unmount : bool) : rootLifecycle := if unmount then ROOT_LIFECYCLE_UNMOUNTED else ROOT_LIFECYCLE_RENDERED.
Definition updateCount (unmount : bool) s : nat := if unmount then hs_renderCount s else S (hs_renderCount s).

(** What a request says of the state of its root. *)
Definition updateRequest (unmount : bool) s rq : Prop :=
  rq_operation rq = (if unmount then UnmountOperation else RenderOperation)
  /\ rq_lifecycleStatusBefore rq = Some (hs_lifecycleStatus s) /\ rq_lifecycleStatusAfter rq = updateStatus unmount
  /\ rq_noOp rq = unmount && bool_decide (hs_lifecycleStatus s = ROOT_LIFECYCLE_UNMOUNTED)
  /\ rq_renderCount rq = updateCount unmount s.

(** A step of a handle that was there, whose bridge takes numbers by [F]. *)
Lemma requested_update (F : bridgeState -> bridgeState) w h ha s s' rq w' :
  rootHandleState w !! h = Some (ha, s) -> is_Some (bridges w !! hs_bridgeState s) ->
  hs_bridgeState s' = hs_bridgeState s -> hs_nativeRootHandle s' = hs_nativeRootHandle s ->
  objects w' = (objects w + 1)%N -> rootHandleState w' = <[h := (ha, s')]> (rootHandleState w) ->
  rootRecordPayloads w' = <[objects w := rq]> (rootRecordPayloads w) ->
  bridges w' = alter F (hs_bridgeState s) (bridges w) -> rootOwnerState w' = rootOwnerState w ->
  rq_handle rq = h /\ rq_rootId rq = ha_rootId ha /\ rq_owner rq = ha_owner ha
    /\ rq_rootKind rq = ha_rootKind ha /\ rq_rootTag rq = ha_rootTag ha ->
  (let x := bridgeOf w (hs_bridgeState s) in
    rq_requestSequence rq = nextRequestSequence x /\ nextRequestSequence (F x) = (nextRequestSequence x + 1)%N
    /\ rq_requestId rq = numberedId (requestIdPrefix x) (nextRequestSequence x)
    /\ requestIdPrefix (F x) = requestIdPrefix x /\ nativeEnvironmentId (F x) = nativeEnvironmentId x
    /\ (nextNativeHandleSlot x <= nextNativeHandleSlot (F x))%N
    /\ forall v, rq_nativeValueHandle rq = Some v -> nh_environmentId v = nativeEnvironmentId x
         /\ (nextNativeHandleSlot x <= nh_slot v < nextNativeHandleSlot (F x))%N) ->
  requested w h ha s' (objects w) rq w'.
Proof.
  intros Hh Hb E1 E2 E3 E4 E5 E6 E7 E8 (N1 & N2 & N3 & N4 & N5 & N6 & N7).
  destruct (bridgeOf_alter _ _ _ _ E6 Hb) as (B1 & B2 & B3). split; rewrite ?E1, ?B1; try done.
  - left. by exists s.
  - by rewrite E7.
  - rewrite E7. by left.
  - split; [by rewrite Hh|]. intros v Hv. destruct (N7 v Hv). split; [done|]. split; [done|]. by rewrite Hh.
Qed.

(** Read the own bridge through the numbers that were taken. *)
Ltac own_bridge :=
  repeat rewrite bridgeOf_own by (simpl; rewrite ?lookup_alter_eq, ?fmap_is_Some; assumption).

(** The state of a handle is no state of a bridge. *)
Ltac fold_handle :=
  repeat match goal with |- context [bridgeOf (modifyHandle ?h ?f ?w)] =>
    change (bridgeOf (modifyHandle h f w)) with (bridgeOf w) end.

Lemma update_made (Hplain : plainFunctions) w h ha s (unmount : bool) (element callback : value) :
  rootHandleState w !! h = Some (ha, s) -> is_Some (bridges w !! hs_bridgeState s) ->
  (unmount = false -> hs_lifecycleStatus s <> ROOT_LIFECYCLE_UNMOUNTED) ->
  exists rq w', createRootUpdateRecordWithBridge heap (hs_bridgeState s) (Some h) unmount element callback w = (Ok (objects w), w')
    /\ requested w h ha (recordRequest (objects w) (setLifecycle (updateStatus unmount) (updateCount unmount s) s)) (objects w) rq w'
    /\ requestShape rq /\ updateRequest unmount s rq /\ rootOwnerState w' = rootOwnerState w.
Proof.
  intros Hh Hb Hcan. unfold createRootUpdateRecordWithBridge, getPrivateRootHandleState. cbn [mbind option_bind]. rewrite Hh.
  cbn [mbind option_bind fst snd pureStep andThen]. rewrite N.eqb_refl. cbn [negb].
  assert (Hr : (if unmount then Ok tt else assertRootHandleCanRender s) = Ok tt).
  { unfold assertRootHandleCanRender. destruct unmount; [done|]. rewrite decide_False; [done|]. by apply Hcan. }
  rewrite Hr. cbn [pureStep andThen createRequestInfo].
  destruct (describe_ok Hplain element) as [i1 ->], (describe_ok Hplain callback) as [i2 ->]. cbn [pureStep andThen].
  destruct unmount; cbn [createNativeBridgeHandle addRequest]; (do 2 eexists; split; [reflexivity|]).
  - split.
    + eapply (requested_update (takeRequestSequence ∘ takeUpdateSequence)); try done; simpl.
      * etrans; [by eapply alter_twice|done].
      * apply alter_comp.
      * own_bridge. by split_and!.
    + unfold requestShape, updateRequest; simpl; split_and!; try done; by eexists.
  - split.
    + eapply (requested_update (takeNativeHandleSlot ∘ takeRequestSequence ∘ takeUpdateSequence)); try done; simpl.
      * etrans; [by eapply alter_twice|done].
      * by rewrite !alter_comp.
      * own_bridge. fold_handle.
        split_and!; try done; simpl; [lia|]. intros v [= <-]. simpl. split; [done|lia].
    + unfold requestShape, updateRequest; simpl; split_and!; try done. specialize (Hcan eq_refl).
      destruct (hs_lifecycleStatus s); [by left|by right|done].
Qed.

(** ** Creating *)

Lemma validContainer_node w container n : validContainer w container = Ok n -> container = inr n.
Proof.
  unfold validContainer. intros (c & Hc & H)%bind_Ok. destruct c as [v|m]; [done|]. injection H as ->.
  unfold assertValidContainer in Hc. apply bind_Ok in Hc as ([] & _ & Hc); [congruence|done].
Qed.

Lemma ownerDocument_ok d n : exists doc, getOwnerDocument d (inr n) = Ok doc.
Proof. unfold getOwnerDocument. destruct (el_reads d n "nodeType") as [v ->]. simpl. eauto. Qed.

Lemma listenerGuard_ok (e : eventWorld (Node := Node) (D := D)) n action : exists g, describeRootListenerGuard e (inr n) action = Ok g.
Proof.
  unfold describeRootListenerGuard, describeListenerGuard. destruct (ownerDocument_ok (ew_host e) n) as [doc ->].
  cbv zeta. cbn [bind]. destruct (describeContainer_ok registered (ew_host e) n) as [i Hi], doc as [m|].
  - destruct (describeContainer_ok registered (ew_host e) m) as [j Hj]. rewrite Hj, Hi. cbn [bind]. eauto.
  - rewrite Hi. cbn [bind]. eauto.
Qed.

Lemma markerGuard_ok w n : exists g, describeCreateRootMarkerGuard heap development w (inr n) = Ok g.
Proof.
  unfold describeCreateRootMarkerGuard, getCreateRootWarning, hasLegacyRootMarker.
  destruct (el_reads (hostOf w) n "_reactRootContainer") as [v ->]. destruct development; simpl; eauto.
Qed.

Lemma handle_made o x w b n rootOptions :
  rootOwnerState w !! o = Some x -> validContainer w (inr n) = Ok n -> is_Some (bridges w !! b) ->
  exists info, createPrivateRootHandle (Some o) (inr n) rootOptions b w = (Ok (objects w),
    set_objects (objects w + 1)%N
      (set_rootHandleState
         (<[objects w := (mkHandle (os_rootId x) (os_rootKind x) (os_rootTag x) o,
            mkHandleState b n info None None 0 ROOT_LIFECYCLE_CREATED
              (mkNativeHandle (nativeEnvironmentId (bridgeOf w b)) (nextNativeHandleSlot (bridgeOf w b)) true)
              (nextNativeRootId (bridgeOf w b)) 0 rootOptions)]> (rootHandleState w))
         (modifyBridge b takeNativeHandleSlot (modifyBridge b takeNativeRootId w)))).
Proof.
  intros Ho Hvalid Hb. unfold createPrivateRootHandle, assertPrivateRootOwner. cbn [mbind option_bind]. rewrite Ho.
  cbn [pureStep andThen]. rewrite Hvalid. cbn [pureStep andThen createNativeBridgeHandle]. rewrite bridgeOf_own by done.
  destruct (describeContainer_ok registered (hostOf w) n) as [info Hi]. exists info.
  change (hostOf (modifyBridge b takeNativeHandleSlot (modifyBridge b takeNativeRootId w))) with (hostOf w).
  rewrite Hi. done.
Qed.

(** A step that makes an owner, a handle and a request, whose bridge takes numbers by [F]. *)
Lemma requested_create (F : bridgeState -> bridgeState) w ha x s rq w' : bridgesOk w ->
  is_Some (bridges w !! hs_bridgeState s) -> objects w' = (objects w + 3)%N ->
  rootHandleState w' = <[(objects w + 1)%N := (ha, s)]> (rootHandleState w) ->
  rootRecordPayloads w' = <[(objects w + 2)%N := rq]> (rootRecordPayloads w) ->
  bridges w' = alter F (hs_bridgeState s) (bridges w) -> rootOwnerState w' = <[objects w := x]> (rootOwnerState w) ->
  rq_handle rq = (objects w + 1)%N /\ rq_rootId rq = ha_rootId ha /\ rq_owner rq = ha_owner ha
    /\ rq_rootKind rq = ha_rootKind ha /\ rq_rootTag rq = ha_rootTag ha ->
  (let x := bridgeOf w (hs_bridgeState s) in
    rq_requestSequence rq = nextRequestSequence x /\ nextRequestSequence (F x) = (nextRequestSequence x + 1)%N
    /\ rq_requestId rq = numberedId (requestIdPrefix x) (nextRequestSequence x)
    /\ requestIdPrefix (F x) = requestIdPrefix x /\ nativeEnvironmentId (F x) = nativeEnvironmentId x
    /\ nextNativeHandleSlot (F x) = (nextNativeHandleSlot x + 2)%N
    /\ nh_slot (hs_nativeRootHandle s) = nextNativeHandleSlot x
    /\ nh_environmentId (hs_nativeRootHandle s) = nativeEnvironmentId x
    /\ exists v, rq_nativeValueHandle rq = Some v /\ nh_environmentId v = nativeEnvironmentId x
         /\ nh_slot v = (nextNativeHandleSlot x + 1)%N) ->
  requested w (objects w + 1)%N ha s (objects w + 2)%N rq w'.
Proof.
  intros Hok Hb E3 E4 E5 E6 E7 E8 (N1 & N2 & N3 & N4 & N5 & N6 & N7 & N8 & v & N9 & N10 & N11).
  destruct (bridgeOf_alter _ _ _ _ E6 Hb) as (B1 & B2 & B3).
  assert (Hnone : rootHandleState w !! (objects w + 1)%N = None).
  { destruct (rootHandleState w !! (objects w + 1)%N) as [[ha' s']|] eqn:E; [|done].
    apply handleOf_raw, (bo_handle _ Hok), ho_fresh in E. lia. }
  split; rewrite ?B1; try done.
  - split; lia.
  - right. split; [done|lia].
  - intros o y Ho. rewrite E7, lookup_insert_ne; [done|]. intros <-. assert (is_Some (rootOwnerState w !! objects w)) as H by eauto.
    apply (bo_owner _ Hok) in H. lia.
  - intros o. rewrite E7. destruct (decide (o = objects w)) as [->|]; [intros; right; lia|]. rewrite lookup_insert_ne by done. by left.
  - simpl. split_and!; try done. lia.
  - simpl. split; [intros _; split_and!; try done; lia|]. rewrite N9. intros v' [= <-]. split; [done|]. lia.
Qed.

Lemma create_made (Hplain : plainFunctions) w b n rootOptions :
  bridgesOk w -> is_Some (bridges w !! b) -> validContainer w (inr n) = Ok n ->
  exists ha s rq w', createClientRoot heap development b (inr n) rootOptions w = (Ok (objects w + 2)%N, w')
    /\ requested w (objects w + 1)%N ha s (objects w + 2)%N rq w' /\ requestShape rq
    /\ rq_operation rq = CreateOperation /\ rq_renderCount rq = 0
    /\ hs_bridgeState s = b /\ hs_container s = n /\ hs_lifecycleStatus s = ROOT_LIFECYCLE_CREATED
    /\ hs_renderCount s = 0 /\ hs_latestLifecycleRequestRecord s = Some (objects w + 2)%N /\ hs_lifecycleRequestVersion s = 1
    /\ rootOwnerState w' !! ha_owner ha = Some (mkOwnerState (ha_rootId ha) (VStr CLIENT_ROOT_KIND) (VStr CONCURRENT_ROOT_TAG))
    /\ ha_rootKind ha = VStr CLIENT_ROOT_KIND /\ ha_rootTag ha = VStr CONCURRENT_ROOT_TAG.
Proof.
  intros Hok Hb Hvalid. unfold createClientRoot, createClientRootRecordWithBridge. rewrite Hvalid. cbn [pureStep andThen].
  unfold createPrivateRootOwner at 1. rewrite decide_False. 2: { unfold numberedId. destruct (rootIdPrefix _); done. }
  cbn [andThen]. change (objects (modifyBridge b takeRootSequence w)) with (objects w). set (w1 := set_objects _ _).
  destruct (handle_made (objects w) (mkOwnerState (numberedId (rootIdPrefix (bridgeOf w b)) (nextRootSequence (bridgeOf w b)))
    (VStr CLIENT_ROOT_KIND) (VStr CONCURRENT_ROOT_TAG)) w1 b n rootOptions) as [info ->].
  { apply lookup_insert_eq. }
  { done. }
  { simpl. by rewrite lookup_alter_eq, fmap_is_Some. }
  cbn [andThen]. unfold getPrivateRootHandleState. cbn [mbind option_bind rootHandleState set_objects set_rootHandleState].
  rewrite lookup_insert_eq. cbn [mbind option_bind pureStep andThen createRequestInfo fst snd].
  match goal with |- context [describeRootListenerGuard ?e _ _] => destruct (listenerGuard_ok e n None) as [g1 ->] end.
  match goal with |- context [describeCreateRootMarkerGuard _ _ ?w2 _] => destruct (markerGuard_ok w2 n) as [g2 ->] end.
  destruct (describe_ok Hplain rootOptions) as [i ->]. cbn [pureStep andThen createNativeBridgeHandle addRequest].
  do 4 eexists. split; [apply (f_equal2 pair); [f_equal; simpl; lia|reflexivity]|]. split.
  - eapply (requested_create (takeNativeHandleSlot ∘ takeRequestSequence ∘ takeNativeHandleSlot ∘ takeNativeRootId ∘ takeRootSequence)); simpl.
    + done.
    + shelve.
    + lia.
    + etrans; [apply alter_insert_eq|reflexivity].
    + refine (f_equal (fun k => <[k := _]> (rootRecordPayloads w)) _). lia.
    + simpl. by rewrite !alter_comp.
    + done.
    + done.
    + destruct Hb as [y Hy]. unfold bridgeOf, w1. simpl. repeat (rewrite lookup_alter_eq || rewrite Hy). simpl. 
      split_and!; try done; [lia|]. eexists. split; [done|]. simpl. split; [done|]. lia.
  - unfold requestShape. simpl. split_and!; try done; [f_equal; lia|]. apply lookup_insert_eq.
Unshelve. done.
Qed.

(** ** Every step *)

(** What a step does to the requests: nothing, a new root with its create request, or a
    request of a root that was there. *)
Inductive movement w w' : Prop :=
| moved_nothing : frame w w' -> movement w w'
| moved_create ha s rq :
    requested w (objects w + 1)%N ha s (objects w + 2)%N rq w' -> requestShape rq ->
    rq_operation rq = CreateOperation -> hs_lifecycleStatus s = ROOT_LIFECYCLE_CREATED -> hs_renderCount s = 0 ->
    hs_latestLifecycleRequestRecord s = Some (objects w + 2)%N -> hs_lifecycleRequestVersion s = 1 ->
    rootOwnerState w' !! ha_owner ha = Some (mkOwnerState (ha_rootId ha) (VStr CLIENT_ROOT_KIND) (VStr CONCURRENT_ROOT_TAG)) ->
    ha_rootKind ha = VStr CLIENT_ROOT_KIND -> ha_rootTag ha = VStr CONCURRENT_ROOT_TAG -> movement w w'
| moved_update h ha s (unmount : bool) rq :
    rootHandleState w !! h = Some (ha, s) -> (unmount = false -> hs_lifecycleStatus s <> ROOT_LIFECYCLE_UNMOUNTED) ->
    requested w h ha (recordRequest (objects w) (setLifecycle (updateStatus unmount) (updateCount unmount s) s)) (objects w) rq w' ->
    requestShape rq -> updateRequest unmount s rq -> rootOwnerState w' = rootOwnerState w -> movement w w'.

Lemma create_movement w b container rootOptions : plainFunctions -> bridgesOk w -> is_Some (bridges w !! b) ->
  movement w (snd (createClientRoot heap development b container rootOptions w)).
Proof.
  intros Hplain Hok Hb. destruct (validContainer w container) as [n|e] eqn:Hv.
  - pose proof (validContainer_node _ _ _ Hv) as ->.
    destruct (create_made Hplain w b n rootOptions Hok Hb Hv) as (ha & s & rq & w' & E & A & H1 & H2 & H3 & H4 & H5 & H6 & H7 & H8 & H9 & H10 & H11 & H12).
    rewrite E. by eapply moved_create.
  - unfold createClientRoot, createClientRootRecordWithBridge. rewrite Hv. apply moved_nothing, frame_refl.
Qed.

Lemma update_movement w b rootHandle unmount element callback : plainFunctions -> bridgesOk w ->
  movement w (snd (createRootUpdateRecordWithBridge heap b rootHandle unmount element callback w)).
Proof.
  intros Hplain Hok. destruct rootHandle as [h|]; [|apply moved_nothing, frame_refl].
  destruct (rootHandleState w !! h) as [[ha s]|] eqn:Hh.
  2: { unfold createRootUpdateRecordWithBridge, getPrivateRootHandleState. cbn [mbind option_bind]. rewrite Hh. apply moved_nothing, frame_refl. }
  destruct (decide (hs_bridgeState s = b)) as [<-|Hne].
  2: { unfold createRootUpdateRecordWithBridge, getPrivateRootHandleState. cbn [mbind option_bind]. rewrite Hh. simpl.
       rewrite (proj2 (N.eqb_neq _ _) Hne). apply moved_nothing, frame_refl. }
  assert (is_Some (bridges w !! hs_bridgeState s)) as Hb by (eapply handleOf_raw, bo_handle, ho_bridge in Hh; done).
  destruct (decide (unmount = false /\ hs_lifecycleStatus s = ROOT_LIFECYCLE_UNMOUNTED)) as [[-> Hs]|Hcan].
  { unfold createRootUpdateRecordWithBridge, getPrivateRootHandleState. cbn [mbind option_bind]. rewrite Hh. simpl.
    rewrite N.eqb_refl. unfold assertRootHandleCanRender. rewrite Hs. apply moved_nothing, frame_refl. }
  destruct (update_made Hplain w h ha s unmount element callback Hh Hb) as (rq & w' & E & A & H1 & H2 & H3); [by intros -> H; apply Hcan|].
  rewrite E. eapply moved_update; try done. intros -> H. by apply Hcan.
Qed.

Lemma step_movement w w' : plainFunctions -> bridgesOk w -> step w w' -> movement w w'.
Proof.
  intros Hplain Hok. destruct 1.
  - by apply moved_nothing, shell_frame.
  - by apply moved_nothing, owner_frame.
  - by apply create_movement.
  - unfold renderContainer. destruct (assertHandleBelongsToBridge w rootHandle b); [by apply update_movement|apply moved_nothing, frame_refl].
  - unfold unmountContainer. destruct (assertHandleBelongsToBridge w rootHandle b); [by apply update_movement|apply moved_nothing, frame_refl].
  - unfold createRootUpdateRecord. destruct (assertPrivateRootHandle w rootHandle); [by apply update_movement|apply moved_nothing, frame_refl].
  - unfold createRootUnmountRecord. destruct (assertPrivateRootHandle w rootHandle); [by apply update_movement|apply moved_nothing, frame_refl].
  - apply moved_nothing, admit_frame.
  - apply moved_nothing, boundary_frame.
  - apply moved_nothing, handoff_frame.
  - apply moved_nothing, apply_frame.
  - apply moved_nothing, revert_frame.
  - apply moved_nothing, createRender_frame.
  - apply moved_nothing, frame_core; done || simpl; lia.
Qed.

(** The history of a root after a request of it. *)
Lemma update_history w h ha s unmount rq w' ids :
  bridgesOk w -> (unmount = false -> hs_lifecycleStatus s <> ROOT_LIFECYCLE_UNMOUNTED) ->
  requested w h ha (recordRequest (objects w) (setLifecycle (updateStatus unmount) (updateCount unmount s) s)) (objects w) rq w' ->
  updateRequest unmount s rq -> history w h s ids ->
  history w' h (recordRequest (objects w) (setLifecycle (updateStatus unmount) (updateCount unmount s) s)) (objects w :: ids).
Proof.
  intros Hok Hcan A (U1 & U2 & U3 & U4 & U5) (L & _ & Hlen & Hall). split; [|split; [done|split; [by simpl; rewrite Hlen|]]].
  - pose proof (life_mono _ _ _ _ _ _ (requested_sub Hok A) L) as L'. destruct (life_head _ _ _ _ _ L) as (p & rest & rq0 & -> & Hp & _).
    apply (bo_request _ Hok), ro_fresh in Hp. pose proof (proj2 (requested_record Hok A (objects w) rq) (or_introl (conj eq_refl eq_refl))) as Hr.
    pose proof (proj1 (rd_identity _ _ _ _ _ _ _ A)) as Hid. destruct unmount; simpl in *.
    + eapply life_unmount; eauto.
    + eapply life_render; eauto.
  - intros r' rq' Hr Hid. apply (requested_record Hok A) in Hr as [[-> _]|Hr]; [by left|right]. by eapply Hall.
Qed.

Lemma movement_ok w w' : bridgesOk w -> movement w w' -> bridgesOk w'.
Proof.
  intros Hok [A|ha s rq A Hshape Hop H1 H2 H3 H4 H5 H6 H7|h ha s unmount rq Hh Hcan A Hshape Hu Hown].
  - by eapply frame_ok.
  - apply (requested_ok Hok A); try done. exists [(objects w + 2)%N].
    pose proof (proj2 (requested_record Hok A (objects w + 2)%N rq) (or_introl (conj eq_refl eq_refl))) as Hr.
    pose proof (proj1 (rd_identity _ _ _ _ _ _ _ A)) as Hid. unfold requestShape in Hshape. rewrite Hop in Hshape.
    unfold history. rewrite H1, H2, H3, H4. split; [eapply life_create; try done; apply Hshape|]. split; [done|]. split; [done|].
    intros r' rq' Hr' Hid'. apply (requested_record Hok A) in Hr' as [[-> _]|Hr']; [by left|].
    destruct (bo_request _ Hok _ _ Hr') as [_ (x & Hx & _)]. rewrite Hid' in Hx. apply (bo_handle _ Hok), ho_fresh in Hx. lia.
  - pose proof (bo_handle _ Hok _ _ (handleOf_raw _ _ _ _ Hh)) as Ho.
    apply (requested_ok Hok A); try done; [rewrite Hown; apply Ho|apply Ho|apply Ho|].
    destruct (ho_life _ _ _ Ho) as [ids L]. exists (objects w :: ids). by eapply update_history.
Qed.

Lemma reachable_ok d w : plainFunctions -> rtc step (noRoots d) w -> bridgesOk w.
Proof.
  intros Hplain. remember (noRoots d) as w0 eqn:E. intros H.
  assert (Hok : bridgesOk w0) by (rewrite E; apply noRoots_ok). clear E.
  induction H as [|w0 w1 w2 H1 _ IH]; [done|]. apply IH. eapply movement_ok; [exact Hok|]. by apply step_movement.
Qed.

Lemma life_sorted records h ids status k : life records h ids status k -> StronglySorted (fun a b => (b < a)%N) ids.
Proof.
  assert (Hcons : forall r p rest st j, life records h (p :: rest) st j -> (p < r)%N ->
    StronglySorted (fun a b => (b < a)%N) (p :: rest) -> StronglySorted (fun a b => (b < a)%N) (r :: p :: rest)).
  { intros r p rest st j L Hlt H. constructor; [done|]. apply Forall_forall. intros x Hx. pose proof (life_below _ _ _ _ _ _ _ L Hx). lia. }
  induction 1; eauto. by repeat constructor.
Qed.

(** ** The requests of a root *)

(** A step keeps the identity of a handle and adds to its history. *)
Record grown w w' h ha s s' (ids later : list N) : Prop := {
  gr_handle : rootHandleState w' !! h = Some (ha, s');
  gr_history : history w' h s' (later ++ ids);
  gr_bridge : hs_bridgeState s' = hs_bridgeState s;
  gr_records : rootRecordPayloads w ⊆ rootRecordPayloads w';
  gr_later : Forall (fun r => objects w <= r)%N later }.

Lemma history_step w w' h ha s ids : bridgesOk w -> movement w w' -> rootHandleState w !! h = Some (ha, s) -> history w h s ids ->
  exists s' later, grown w w' h ha s s' ids later.
Proof.
  intros Hok M Hh L.
  assert (Hkept : forall s', rootHandleState w' !! h = Some (ha, s') -> setCreateRenderAdmission 0 s' = setCreateRenderAdmission 0 s ->
    rootRecordPayloads w ⊆ rootRecordPayloads w' ->
    (forall r rq, rootRecordPayloads w' !! r = Some rq -> rq_handle rq = h -> rootRecordPayloads w !! r = Some rq) ->
    exists s' later, grown w w' h ha s s' ids later).
  { intros s' H1 H2 H3 H4. exists s', []. destruct s', s. simpl in H2. injection H2. intros. subst. destruct L as (L1 & L2 & L3 & L4).
    split; try done. split; [by eapply life_mono|]. split; [done|]. split; [done|]. intros r rq Hr Hid. eapply L4; [by apply H4|done]. }
  destruct M as [A|ha' s' rq A _ _ _ _ _ _ _ _ _|h' ha' s' unmount rq Hh' Hcan A _ Hu _].
  - pose proof (fr_handle _ _ A h) as E. unfold handleOf in E. rewrite Hh in E.
    destruct (rootHandleState w' !! h) as [[ha' s']|] eqn:E'; [|done]. injection E as E1 E2.
    eapply (Hkept s'); [congruence|unfold setCreateRenderAdmission; congruence|by rewrite (fr_records _ _ A)|].
    intros r rq. by rewrite (fr_records _ _ A).
  - assert (Hne : h <> (objects w + 1)%N) by (intros ->; apply handleOf_raw, (bo_handle _ Hok), ho_fresh in Hh; lia).
    apply (Hkept s); [by rewrite (rd_handle _ _ _ _ _ _ _ A), lookup_insert_ne|done|by apply (requested_sub Hok A)|].
    intros r rq' Hr Hid. apply (requested_record Hok A) in Hr as [[-> ->]|Hr]; [|done].
    by rewrite (proj1 (rd_identity _ _ _ _ _ _ _ A)) in Hid.
  - destruct (decide (h = h')) as [<-|Hne].
    + rewrite Hh in Hh'. injection Hh' as <- <-. eexists _, [objects w]. split.
      * by rewrite (rd_handle _ _ _ _ _ _ _ A), lookup_insert_eq.
      * eapply (update_history _ _ _ _ _ _ _ ids Hok Hcan A Hu L).
      * done.
      * by apply (requested_sub Hok A).
      * constructor; [lia|constructor].
    + apply (Hkept s); [by rewrite (rd_handle _ _ _ _ _ _ _ A), lookup_insert_ne|done|by apply (requested_sub Hok A)|].
      intros r rq' Hr Hid. apply (requested_record Hok A) in Hr as [[-> ->]|Hr]; [|done].
      by rewrite (proj1 (rd_identity _ _ _ _ _ _ _ A)) in Hid.
Qed.

Lemma movement_objects w w' : movement w w' -> (objects w <= objects w')%N.
Proof. intros [A|ha s rq A|h ha s unmount rq _ _ A]; [apply A| |]; destruct (rd_objects _ _ _ _ _ _ _ A); lia. Qed.

Lemma history_run (Hplain : plainFunctions) w w' h ha s ids :
  bridgesOk w -> rtc step w w' -> rootHandleState w !! h = Some (ha, s) -> history w h s ids ->
  bridgesOk w' /\ exists s' later, grown w w' h ha s s' ids later.
Proof.
  intros Hok R. revert s ids Hok. induction R as [w|w w1 w' H1 R IH]; intros s ids Hok Hh L.
  - split; [done|]. exists s, []. by split.
  - pose proof (step_movement _ _ Hplain Hok H1) as M. destruct (history_step _ _ _ _ _ _ Hok M Hh L) as (s1 & l1 & [G1 G2 G3 G4 G5]).
    destruct (IH s1 (l1 ++ ids) (movement_ok _ _ Hok M) G1 G2) as (Hok' & s' & l2 & [K1 K2 K3 K4 K5]).
    split; [done|]. exists s', (l2 ++ l1). split; try done.
    + by rewrite <- app_assoc.
    + by rewrite K3.
    + by etrans.
    + apply Forall_app. split; [|done]. eapply Forall_impl; [exact K5|]. intros r Hr. pose proof (movement_objects _ _ M). simpl in Hr. lia.
Qed.

Lemma updateRecord_step (Hplain : plainFunctions) w h ha s ids unmount element callback :
  bridgesOk w -> rootHandleState w !! h = Some (ha, s) -> history w h s ids ->
  (unmount = false -> hs_lifecycleStatus s <> ROOT_LIFECYCLE_UNMOUNTED) ->
  exists w' rq, createRootUpdateRecordWithBridge heap (hs_bridgeState s) (Some h) unmount element callback w = (Ok (objects w), w')
    /\ rootRecordPayloads w' !! objects w = Some rq /\ updateRequest unmount s rq
    /\ let s' := recordRequest (objects w) (setLifecycle (updateStatus unmount) (updateCount unmount s) s) in
       rootHandleState w' !! h = Some (ha, s') /\ history w' h s' (objects w :: ids).
Proof.
  intros Hok Hh L Hcan. pose proof (ho_bridge _ _ _ (bo_handle _ Hok _ _ (handleOf_raw _ _ _ _ Hh))) as Hb.
  destruct (update_made Hplain w h ha s unmount element callback Hh Hb Hcan) as (rq & w' & E & A & _ & H1 & _).
  exists w', rq. split; [done|]. split; [by rewrite (rd_records _ _ _ _ _ _ _ A), lookup_insert_eq|]. split; [done|].
  split; [by rewrite (rd_handle _ _ _ _ _ _ _ A), lookup_insert_eq|]. by eapply update_history.
Qed.

(** The checks that a shell makes first pass for its own roots. *)
Lemma own_handle w h ha s : rootHandleState w !! h = Some (ha, s) ->
  assertHandleBelongsToBridge w (Some h) (hs_bridgeState s) = Ok (h, ha, s).
Proof.
  intros Hh. unfold assertHandleBelongsToBridge, assertPrivateRootHandle, getPrivateRootHandleState. cbn [mbind option_bind].
  rewrite Hh. simpl. by rewrite N.eqb_refl.
Qed.

(** C7: The state of a root sums up its requests, in every state that the modelled operations
    reach (the public facade's withdrawal of a request whose render failed is none of them),
    when reading the name and the length of a function never throws. The requests of a root
    form a chain, from its create request over renders and unmounts, each of which
    names the status that the one before it left; the root's status, its number of renders,
    its version and its latest request are those of the chain, which only grows. A root that
    is not unmounted can be rendered, which adds a request; once it is unmounted a render
    throws and changes nothing, and an unmount adds a request that is marked as a no-op. *)
Theorem root_history d w h ha s :
  plainFunctions -> rtc step (noRoots d) w -> rootHandleState w !! h = Some (ha, s) ->
  exists ids, history w h s ids /\ StronglySorted (fun a b => (b < a)%N) ids
  /\ (forall w', rtc step w w' -> exists s' later, rootHandleState w' !! h = Some (ha, s') /\ history w' h s' (later ++ ids))
  /\ (forall element callback,
       let '(outcome, w') := renderContainer heap (hs_bridgeState s) (Some h) element callback w in
       if decide (hs_lifecycleStatus s = ROOT_LIFECYCLE_UNMOUNTED)
       then outcome = hostError UNMOUNTED_ROOT /\ w' = w
       else exists r s', outcome = Ok r /\ rootHandleState w' !! h = Some (ha, s') /\ history w' h s' (r :: ids)
            /\ hs_lifecycleStatus s' = ROOT_LIFECYCLE_RENDERED /\ hs_renderCount s' = S (hs_renderCount s))
  /\ (forall callback, exists r rq s' w', unmountContainer heap (hs_bridgeState s) (Some h) callback w = (Ok r, w')
       /\ rootHandleState w' !! h = Some (ha, s') /\ history w' h s' (r :: ids) /\ hs_lifecycleStatus s' = ROOT_LIFECYCLE_UNMOUNTED
       /\ rootRecordPayloads w' !! r = Some rq
       /\ rq_noOp rq = bool_decide (hs_lifecycleStatus s = ROOT_LIFECYCLE_UNMOUNTED)).
Proof.
  intros Hplain R Hh. pose proof (reachable_ok _ _ Hplain R) as Hok.
  destruct (ho_life _ _ _ (bo_handle _ Hok _ _ (handleOf_raw _ _ _ _ Hh))) as [ids L].
  change (history w h s ids) in L. exists ids. split; [done|]. split; [eapply life_sorted, L|]. split; [|split].
  - intros w' R'. destruct (history_run Hplain _ _ _ _ _ _ Hok R' Hh L) as (_ & s' & later & [G1 G2 _ _ _]). by exists s', later.
  - intros element callback. unfold renderContainer. rewrite (own_handle _ _ _ _ Hh). cbn [pureStep andThen]. case_decide as Hs.
    + unfold createRootUpdateRecordWithBridge, getPrivateRootHandleState. cbn [mbind option_bind]. rewrite Hh. simpl.
      rewrite N.eqb_refl. unfold assertRootHandleCanRender. by rewrite Hs.
    + destruct (updateRecord_step Hplain w h ha s ids false element callback Hok Hh L) as (w' & rq & -> & _ & _ & H1 & H2); [done|].
      by eexists _, _.
  - intros callback. unfold unmountContainer. rewrite (own_handle _ _ _ _ Hh). cbn [pureStep andThen].
    destruct (updateRecord_step Hplain w h ha s ids true VNull callback Hok Hh L) as (w' & rq & -> & H0 & (_ & _ & _ & H4 & _) & H1 & H2); [done|].
    by eexists _, _, _, _.
Qed.

(** ** Validation *)

Lemma strictEq_str x : strictEq (VStr x) (VStr x) = true.
Proof. by apply bool_decide_eq_true_2. Qed.

(** The validation of a record that a bridge [b] made. *)
Definition validationOf b rq : validation :=
  mkValidation b (transitionName (rq_lifecycleStatusBefore rq) (rq_lifecycleStatusAfter rq)) (rq_operation rq) (rq_handle rq).

Lemma handleOf_inv w h x : handleOf w h = Some x -> exists s, rootHandleState w !! h = Some (fst x, s)
  /\ hs_bridgeState s = hs_bridgeState (snd x) /\ hs_container s = hs_container (snd x).
Proof.
  unfold handleOf. destruct (rootHandleState w !! h) as [[ha s]|]; [|done]. intros [= <-]. by exists s.
Qed.

Lemma validate_ok w b r rq : bridgesOk w -> madeAt w b r rq ->
  validateRootBridgeRequestRecord w (Some r) = Ok (r, rq, validationOf b rq).
Proof.
  intros Hok [Hr (x & Hx & <-)]. destruct (bo_request _ Hok _ _ Hr) as [_ (y & Hy & I1 & I2 & _ & _) K1 K2 Hshape].
  rewrite Hx in Hy. injection Hy as <-. pose proof (bo_handle _ Hok _ _ Hx) as [_ _ Ho K3 K4 _].
  destruct (handleOf_inv _ _ _ Hx) as (s & Hs & Hbs & _).
  assert (Hid : assertRootIdentityMatchesRecord (fst x)
            (mkOwnerState (ha_rootId (fst x)) (VStr CLIENT_ROOT_KIND) (VStr CONCURRENT_ROOT_TAG)) rq = Ok tt).
  { unfold assertRootIdentityMatchesRecord, assertRequest, require. cbn [os_rootId os_rootKind os_rootTag].
    rewrite K1, K2, K3, K4, I1, !strictEq_str, bool_decide_eq_true_2 by done. done. }
  assert (Hc : isClientRequest rq = true) by (unfold isClientRequest; by rewrite K1, K2, !bool_decide_eq_true_2).
  unfold validateRootBridgeRequestRecord. cbn [mbind option_bind]. rewrite Hr. cbn [mbind option_bind].
  unfold requestShape in Hshape. unfold validationOf, validateCreateRootBridgeRequestRecord, validateUpdateRootBridgeRequestRecord.
  destruct (rq_operation rq) eqn:Hop.
  - destruct Hshape as (E1 & E2 & E3). rewrite E1, E2, E3, Hc, I2. unfold assertRequest, require.
    rewrite !bool_decide_eq_true_2 by done. cbn [bind]. unfold getPrivateRootHandleState, assertPrivateRootOwner.
    cbn [mbind option_bind]. rewrite Hs. cbn [mbind option_bind bind fst snd]. rewrite Ho. cbn [bind]. rewrite Hid. cbn [bind]. by rewrite Hbs.
  - destruct Hshape as (E1 & E2 & E3 & E4 & E5 & E6). rewrite E1, E2, E3, E4, E5, Hc. unfold assertAllowedLifecycleBefore, assertRequest, require.
    cbn [bind]. unfold getPrivateRootHandleState, assertPrivateRootOwner. cbn [mbind option_bind]. rewrite Hs.
    cbn [mbind option_bind bind fst snd]. rewrite Ho. cbn [bind]. rewrite Hid. cbn [bind]. rewrite Hbs.
    by destruct E6 as [-> | ->].
  - destruct Hshape as (E1 & E2 & E3 & before & E4 & E5 & E6). rewrite E1, E2, E3, E4, E6, E5, Hc.
    unfold assertAllowedLifecycleBefore, assertRequest, require. rewrite E4.
    cbn [bind]. unfold getPrivateRootHandleState, assertPrivateRootOwner. cbn [mbind option_bind]. rewrite Hs.
    cbn [mbind option_bind bind fst snd]. rewrite Ho. cbn [bind]. rewrite Hid. cbn [bind]. rewrite Hbs.
    by destruct before.
Qed.

(** ** Admissions, boundaries and hand-offs *)

(** The admission of the request [r] of a root of the bridge [b]. *)
Definition admissionOf b r rq : admissionRecord :=
  let transition := transitionName (rq_lifecycleStatusBefore rq) (rq_lifecycleStatusAfter rq) in
  mkAdmission (rq_operation rq) (rq_requestId rq) (rq_requestSequence rq) (rq_requestType rq) (rq_rootId rq) (rq_rootKind rq)
    (rq_rootTag rq) (rq_updateId rq) (rq_sequence rq) (rq_lifecycleStatusBefore rq) (rq_lifecycleStatusAfter rq) transition b
    transition (rq_operation rq) (rq_handle rq) r.

(** The boundary of the admission [i] of that request, at the state [s] of the root. *)
Definition boundaryOf b r rq (i : N) (id : string) (sequence : N) s : boundaryRecord :=
  let transition := transitionName (rq_lifecycleStatusBefore rq) (rq_lifecycleStatusAfter rq) in
  mkBoundary id sequence (rq_requestId rq) (rq_requestId rq) (rq_requestSequence rq) (rq_requestType rq) (rq_operation rq)
    (rq_rootId rq) (rq_rootKind rq) (rq_rootTag rq) (rq_lifecycleStatusBefore rq) (rq_lifecycleStatusAfter rq) transition
    (hs_lifecycleStatus s) (rq_requestId rq) (rq_requestSequence rq) (hs_lifecycleRequestVersion s) i b
    (hs_lifecycleRequestVersion s) (rq_handle rq) r.

Definition handoffOf w r rq s : nativeHandoff :=
  mkHandoff (rq_operation rq) (numberedId (nativeHandoffIdPrefix (bridgeOf w (hs_bridgeState s))) (rq_requestSequence rq))
    (rq_requestSequence rq) (rq_requestId rq) (rq_requestSequence rq) (rq_requestType rq) (rq_lifecycleStatusBefore rq)
    (rq_lifecycleStatusAfter rq) (rq_rootId rq) (createNativeRequestRecordMirror rq s) r.

(** What a step adds to the records that refer to requests, under keys that are new. *)
Record additions w w' : Prop := {
  ad_admission a x : rootBridgeAdmissionPayloads w' !! a = Some x -> rootBridgeAdmissionPayloads w !! a = Some x
    \/ (objects w <= a < objects w')%N /\ exists b r rq, madeAt w b r rq /\ x = admissionOf b r rq;
  ad_admissions a x : (a < objects w)%N -> rootBridgeAdmissionPayloads w !! a = Some x -> rootBridgeAdmissionPayloads w' !! a = Some x;
  ad_boundary j x : rootLifecycleRequestBoundaryPayloads w' !! j = Some x -> rootLifecycleRequestBoundaryPayloads w !! j = Some x
    \/ (objects w <= j < objects w')%N;
  ad_boundaries j x : (j < objects w)%N -> rootLifecycleRequestBoundaryPayloads w !! j = Some x ->
    rootLifecycleRequestBoundaryPayloads w' !! j = Some x;
  ad_handoff r k : rootNativeHandoffRecords w' !! r = Some k -> rootNativeHandoffRecords w !! r = Some k
    \/ (objects w <= k < objects w')%N /\ exists b rq ha s, madeAt w b r rq /\ rootHandleState w !! rq_handle rq = Some (ha, s)
       /\ rootNativeHandoffPayloads w' !! k = Some (handoffOf w r rq s);
  ad_handoffs r k : rootNativeHandoffRecords w !! r = Some k -> rootNativeHandoffRecords w' !! r = Some k;
  ad_payloads k x : (k < objects w)%N -> rootNativeHandoffPayloads w !! k = Some x -> rootNativeHandoffPayloads w' !! k = Some x }.

Lemma additions_none w w' :
  rootBridgeAdmissionPayloads w' = rootBridgeAdmissionPayloads w ->
  rootLifecycleRequestBoundaryPayloads w' = rootLifecycleRequestBoundaryPayloads w ->
  rootNativeHandoffRecords w' = rootNativeHandoffRecords w -> rootNativeHandoffPayloads w' = rootNativeHandoffPayloads w ->
  additions w w'.
Proof. intros E1 E2 E3 E4. split; rewrite ?E1, ?E2, ?E3, ?E4; auto. Qed.

(** Other code adds nothing; each of the maps is left alone. *)
Ltac adds_nothing :=
  apply additions_none; reflexivity.

Lemma onEvents_extras {A : Type} (f : eventWorld (Node := Node) (D := D) -> effect eventWorld A) w :
  additions w (snd (onEvents f w)).
Proof. unfold onEvents. destruct (f (rootEvents w)). adds_nothing. Qed.

Lemma insert_old {A : Type} (m : gmap N A) (a i : N) (x y : A) : (i < a)%N -> m !! i = Some x -> <[a := y]> m !! i = Some x.
Proof. intros Hlt H. rewrite lookup_insert_ne; [done|]. lia. Qed.

Lemma admissionRecord_of w b r rq :
  createRootBridgeAdmissionRecord r rq (validationOf b rq) w =
    (objects w, set_objects (objects w + 1)%N (set_rootBridgeAdmissionPayloads
       (<[objects w := admissionOf b r rq]> (rootBridgeAdmissionPayloads w)) w)).
Proof. done. Qed.

(** A request that validates was made at the bridge that the validation names. *)
Lemma validate_inv w record r rq v : bridgesOk w -> validateRootBridgeRequestRecord w record = Ok (r, rq, v) ->
  record = Some r /\ exists b, madeAt w b r rq /\ v = validationOf b rq.
Proof.
  intros Hok H. destruct record as [r'|]; [|done]. destruct (rootRecordPayloads w !! r') as [rq'|] eqn:Hr.
  - destruct (bo_request _ Hok _ _ Hr) as [_ (x & Hx & _) _ _ _].
    assert (Hm : madeAt w (hs_bridgeState (snd x)) r' rq') by (split; [done|by exists x]).
    rewrite (validate_ok _ _ _ _ Hok Hm) in H. injection H as <- <- <-. split; [done|]. by eexists.
  - unfold validateRootBridgeRequestRecord in H. cbn [mbind option_bind] in H. by rewrite Hr in H.
Qed.

Lemma admit_additions (bs : option N) record w : bridgesOk w -> additions w (snd (admitRootBridgeRequestWithBridge bs record w)).
Proof.
  intros Hok. unfold admitRootBridgeRequestWithBridge.
  destruct (validateRootBridgeRequestRecord w record) as [[[r rq] v]|e] eqn:Hv; [|adds_nothing]. cbn [pureStep andThen].
  destruct (validate_inv _ _ _ _ _ Hok Hv) as (-> & b & Hm & ->).
  destruct (assertBridge bs _) as [u|]; [|adds_nothing]. cbn [pureStep andThen]. rewrite admissionRecord_of. split; simpl; auto.
  - intros a x. rewrite lookup_insert_Some. intros [[<- <-]|[_ H]]; [right|by left]. split; [lia|]. by exists b, r, rq.
  - intros a x. apply insert_old.
Qed.

Lemma boundary_additions (bs : option N) admission w :
  additions w (snd (createPrivateRootLifecycleRequestBoundaryWithBridge bs admission w)).
Proof.
  unfold createPrivateRootLifecycleRequestBoundaryWithBridge. checks; try adds_nothing. split; simpl; auto.
  - intros j x. rewrite lookup_insert_Some. intros [[<- <-]|[_ H]]; [right; lia|by left].
  - intros j x. apply insert_old.
Qed.

Lemma handoff_additions (bs : option N) record w : bridgesOk w -> additions w (snd (createNativeRootBridgeHandoffRecordWithBridge bs record w)).
Proof.
  intros Hok. unfold createNativeRootBridgeHandoffRecordWithBridge.
  destruct (validateRootBridgeRequestRecord w record) as [[[r rq] v]|e] eqn:Hv; [|adds_nothing]. cbn [pureStep andThen].
  destruct (validate_inv _ _ _ _ _ Hok Hv) as (-> & b & Hm & ->).
  destruct (assertBridge bs _) as [u|]; [|adds_nothing]. cbn [pureStep andThen].
  destruct (rootNativeHandoffRecords w !! r) as [k|] eqn:Hk; [adds_nothing|].
  destruct (proj2 Hm) as (x & Hx & Hb). destruct (handleOf_inv _ _ _ Hx) as (s & Hs & _).
  unfold getPrivateRootHandleState. cbn [mbind option_bind va_rootHandleState validationOf]. rewrite Hs.
  cbn [mbind option_bind pureStep andThen fst snd]. split; simpl; auto.
  - intros r' k. rewrite lookup_insert_Some. intros [[<- <-]|[_ H]]; [right|by left]. split; [lia|].
    exists b, rq, (fst x), s. split; [done|]. split; [done|]. by rewrite lookup_insert_eq.
  - intros r' k H. rewrite lookup_insert_ne; [done|]. intros <-. congruence.
  - intros k y. apply insert_old.
Qed.

Lemma createRender_additions (bs : option N) create sideEffect render w : bridgesOk w ->
  additions w (snd (admitPrivateCreateRenderPathWithBridge ownerObject bs create sideEffect render w)).
Proof.
  intros Hok. unfold admitPrivateCreateRenderPathWithBridge.
  destruct (validateRootBridgeRequestRecord w create) as [[[r1 rq1] v1]|e] eqn:Hv1; [|adds_nothing]. cbn [pureStep andThen].
  destruct (validateRootBridgeRequestRecord w render) as [[[r2 rq2] v2]|e] eqn:Hv2; [|adds_nothing]. cbn [pureStep andThen].
  destruct (validate_inv _ _ _ _ _ Hok Hv1) as (-> & b1 & Hm1 & ->), (validate_inv _ _ _ _ _ Hok Hv2) as (-> & b2 & Hm2 & ->).
  rewrite !admissionRecord_of. checks; try adds_nothing. split; simpl; auto.
  - intros a' x. rewrite lookup_insert_Some. intros [[<- <-]|[_ H]].
    { right. split; [lia|]. by exists b2, r2, rq2. }
    apply lookup_insert_Some in H as [[<- <-]|[_ H]]; [right|by left]. split; [lia|]. by exists b1, r1, rq1.
  - intros a' x Hlt H. apply insert_old; [lia|]. by apply insert_old.
Qed.

Lemma markAndListen_world owner n listenerOptions w : exists m e,
  snd (markAndListen heap development ownerObject owner n listenerOptions w) = set_rootEvents e (set_rootMarkers m w).
Proof.
  unfold markAndListen, onMarkers, onEvents.
  destruct (markContainerAsRootWithRevertRecord _ _ _ _ _ _) as [[i|err] m]; cbn [andThen snd].
  - destruct (registerRootListenersForPrivateRoot _ _ _) as [[g|err] e]; cbn [snd]; [by exists m, e|].
    destruct (revertContainerRootMarkerMutation _ _ _) as [o m']. by exists m', e.
  - exists m, (rootEvents w). by destruct w.
Qed.

Lemma apply_additions (bs : option N) record listenerOptions w :
  additions w (snd (applyPrivateCreateRootSideEffectsWithBridge heap development ownerObject bs record listenerOptions w)).
Proof.
  unfold applyPrivateCreateRootSideEffectsWithBridge.
  destruct (validateCreateRootSideEffectRequest w record) as [[[r rq] v]|e]; [|adds_nothing]. cbn [pureStep andThen].
  destruct (assertBridge bs _) as [u|]; [|adds_nothing]. cbn [pureStep andThen].
  match goal with |- context [match ?x with Some _ => _ | None => _ end] => destruct x; [adds_nothing|] end.
  destruct (getPrivateRootHandleState w (Some (rq_handle rq))) as [x|]; [|adds_nothing]. cbn [pureStep andThen].
  match goal with |- context [markAndListen ?a ?b ?c ?o ?n ?l ?w1] => destruct (markAndListen_world o n l w1) as (m & e & E);
    destruct (markAndListen a b c o n l w1) as [[made|err] w2] end; simpl in E; subst w2; adds_nothing.
Qed.

Lemma revert_additions (bs : option N) record w : additions w (snd (revertPrivateCreateRootSideEffectsWithBridge bs record w)).
Proof.
  unfold revertPrivateCreateRootSideEffectsWithBridge, onEvents, onMarkers.
  match goal with |- context [match ?x with Some _ => _ | None => _ end] => destruct x as [[k p]|]; [|adds_nothing] end.
  destruct (assertBridge bs _) as [u|]; [|adds_nothing]. cbn [pureStep andThen].
  match goal with |- context [match ?x with Some _ => _ | None => _ end] => destruct x; [adds_nothing|] end.
  destruct (revertRootListenersForPrivateRoot _ _) as [[c|err] e]; cbn [andThen]; [|adds_nothing].
  destruct (revertContainerRootMarkerMutation _ _ _) as [[c'|err] m]; cbn [andThen]; adds_nothing.
Qed.

(** Nothing is added to the maps of [w]. *)
Definition sameExtras w w' : Prop :=
  rootBridgeAdmissionPayloads w' = rootBridgeAdmissionPayloads w
  /\ rootLifecycleRequestBoundaryPayloads w' = rootLifecycleRequestBoundaryPayloads w
  /\ rootNativeHandoffRecords w' = rootNativeHandoffRecords w /\ rootNativeHandoffPayloads w' = rootNativeHandoffPayloads w.

Lemma andThen_same {A B : Type} (p : effect World A) (k : A -> World -> effect World B) w :
  sameExtras w (snd p) -> (forall a w1, sameExtras w w1 -> sameExtras w (snd (k a w1))) -> sameExtras w (snd (andThen p k)).
Proof. destruct p as [[a|e] w1]; simpl; auto. Qed.

Lemma create_additions b container rootOptions w : additions w (snd (createClientRoot heap development b container rootOptions w)).
Proof.
  assert (H : sameExtras w (snd (createClientRoot heap development b container rootOptions w))).
  2: { destruct H as (H1 & H2 & H3 & H4). by apply additions_none. }
  unfold createClientRoot, createClientRootRecordWithBridge. apply andThen_same; [done|]. intros n w1 H1. apply andThen_same.
  - unfold createPrivateRootOwner. by case_decide.
  - intros owner w2 H2. apply andThen_same.
    + unfold createPrivateRootHandle, createNativeBridgeHandle. checks; exact H2.
    + intros handle w3 H3. unfold createRequestInfo, createNativeBridgeHandle, addRequest. checks; exact H3.
Qed.

Lemma update_additions b rootHandle unmount element callback w :
  additions w (snd (createRootUpdateRecordWithBridge heap b rootHandle unmount element callback w)).
Proof.
  assert (H : sameExtras w (snd (createRootUpdateRecordWithBridge heap b rootHandle unmount element callback w))).
  2: { destruct H as (H1 & H2 & H3 & H4). by apply additions_none. }
  unfold createRootUpdateRecordWithBridge. apply andThen_same; [done|]. intros [[h handle] s] w1 H1. destruct (negb _); [exact H1|].
  apply andThen_same; [exact H1|]. intros u w2 H2. unfold createRequestInfo.
  apply andThen_same; [exact H2|]. intros i1 w3 H3. apply andThen_same; [exact H3|]. intros i2 w4 H4.
  unfold createNativeBridgeHandle, addRequest. destruct unmount; exact H4.
Qed.

Lemma step_additions w w' : bridgesOk w -> step w w' -> additions w w'.
Proof.
  intros Hok. destruct 1.
  - adds_nothing.
  - unfold createPrivateRootOwner. destruct rootId; try adds_nothing. case_decide; adds_nothing.
  - apply create_additions.
  - unfold renderContainer. destruct (assertHandleBelongsToBridge w rootHandle b); [apply update_additions|adds_nothing].
  - unfold unmountContainer. destruct (assertHandleBelongsToBridge w rootHandle b); [apply update_additions|adds_nothing].
  - unfold createRootUpdateRecord. destruct (assertPrivateRootHandle w rootHandle); [apply update_additions|adds_nothing].
  - unfold createRootUnmountRecord. destruct (assertPrivateRootHandle w rootHandle); [apply update_additions|adds_nothing].
  - by apply admit_additions.
  - apply boundary_additions.
  - by apply handoff_additions.
  - apply apply_additions.
  - apply revert_additions.
  - by apply createRender_additions.
  - adds_nothing.
Qed.

Lemma movement_kept w w' h x : bridgesOk w -> movement w w' -> handleOf w h = Some x ->
  exists x', handleOf w' h = Some x' /\ fst x' = fst x /\ hs_bridgeState (snd x') = hs_bridgeState (snd x)
    /\ hs_nativeRootHandle (snd x') = hs_nativeRootHandle (snd x).
Proof.
  intros Hok [A|ha s rq A|h' ha s unmount rq _ _ A] Hx; [|by eapply requested_kept|by eapply requested_kept].
  exists x. by rewrite (fr_handle _ _ A).
Qed.

Lemma movement_made w w' b r rq : bridgesOk w -> movement w w' -> madeAt w b r rq -> madeAt w' b r rq.
Proof.
  intros Hok M [Hr (x & Hx & <-)]. split.
  - destruct M as [A|ha s rq' A|h' ha s unmount rq' _ _ A]; [by rewrite (fr_records _ _ A)| |];
      by eapply lookup_weaken; [|apply (requested_sub Hok A)].
  - destruct (movement_kept _ _ _ _ Hok M Hx) as (x' & Hx' & _ & Hb & _). by exists x'.
Qed.

(** What a hand-off tells the native side of the request [rq] of a root with the native
    handle [v]. *)
Definition mirrors r rq (v : nativeHandle) (hf : nativeHandoff) : Prop :=
  hf_payloadSourceRecord hf = r /\ hf_sourceRequestId hf = rq_requestId rq
  /\ let nr := hf_nativeRequestRecord hf in
     nr_kind nr = rq_operation rq /\ nr_requestId nr = rq_requestSequence rq /\ nr_rootHandle nr = v
     /\ nr_environmentId nr = nh_environmentId v
     /\ (rq_operation rq = UnmountOperation -> nr_valueHandle nr = None /\ nr_rootHandleState nr = NativeRootRetired)
     /\ (rq_operation rq <> UnmountOperation -> nr_valueHandle nr = rq_nativeValueHandle rq /\ nr_rootHandleState nr = NativeRootActive).

Record extrasOk w : Prop := {
  eo_admission a x : rootBridgeAdmissionPayloads w !! a = Some x ->
    (a < objects w)%N /\ exists b r rq, madeAt w b r rq /\ x = admissionOf b r rq;
  eo_boundary j x : rootLifecycleRequestBoundaryPayloads w !! j = Some x -> (j < objects w)%N;
  eo_handoff r k : rootNativeHandoffRecords w !! r = Some k -> (k < objects w)%N /\ exists b rq x hf,
    madeAt w b r rq /\ handleOf w (rq_handle rq) = Some x /\ rootNativeHandoffPayloads w !! k = Some hf
    /\ mirrors r rq (hs_nativeRootHandle (snd x)) hf }.

Lemma handoff_mirrors w r rq s : mirrors r rq (hs_nativeRootHandle s) (handoffOf w r rq s).
Proof. unfold mirrors, handoffOf, createNativeRequestRecordMirror. simpl. split_and!; try done; by destruct (rq_operation rq). Qed.

Lemma extras_step w w' : bridgesOk w -> movement w w' -> additions w w' -> extrasOk w -> extrasOk w'.
Proof.
  intros Hok M A [E1 E2 E3]. pose proof (movement_objects _ _ M) as Hle. split.
  - intros a x Ha. destruct (ad_admission _ _ A a x Ha) as [H|(Hlt & b & r & rq & Hm & ->)].
    + destruct (E1 a x H) as (Hlt & b & r & rq & Hm & ->). split; [lia|]. exists b, r, rq. split; [by eapply movement_made|done].
    + split; [lia|]. exists b, r, rq. split; [by eapply movement_made|done].
  - intros j x Hj. destruct (ad_boundary _ _ A j x Hj) as [H|H]; [apply E2 in H; lia|lia].
  - intros r k Hk. destruct (ad_handoff _ _ A r k Hk) as [H|(Hlt & b & rq & ha & s & Hm & Hs & Hp)].
    + destruct (E3 r k H) as (Hlt & b & rq & x & hf & Hm & Hx & Hp & Hmir).
      destruct (movement_kept _ _ _ _ Hok M Hx) as (x' & Hx' & _ & _ & Hn). split; [lia|].
      exists b, rq, x', hf. rewrite Hn. split; [by eapply movement_made|]. split; [done|]. split; [by eapply (ad_payloads _ _ A)|done].
    + destruct (movement_kept _ _ _ _ Hok M (handleOf_raw _ _ _ _ Hs)) as (x' & Hx' & _ & _ & Hn). split; [lia|].
      exists b, rq, x', (handoffOf w r rq s). rewrite Hn. split; [by eapply movement_made|]. do 2 (split; [done|]). exact (handoff_mirrors w r rq s).
Qed.

(** The invariant of all reachable states, and what a run keeps. *)
Definition worldOk w : Prop := bridgesOk w /\ extrasOk w.

Lemma world_step (Hplain : plainFunctions) w w' : worldOk w -> step w w' -> worldOk w' /\ movement w w' /\ additions w w'.
Proof.
  intros [Hok He] H. pose proof (step_movement _ _ Hplain Hok H) as M. pose proof (step_additions _ _ Hok H) as A.
  split; [|done]. split; [by eapply movement_ok|by eapply extras_step].
Qed.

Lemma world_reachable (Hplain : plainFunctions) d w : rtc step (noRoots d) w -> worldOk w.
Proof.
  remember (noRoots d) as w0 eqn:E. intros H. assert (Hok : worldOk w0).
  { rewrite E. split; [apply noRoots_ok|]. split; by intros ? ? [=]. }
  clear E. induction H as [|w0 w1 w2 H1 _ IH]; [done|]. apply IH. by eapply world_step.
Qed.

Record kept w w' : Prop := {
  kp_objects : (objects w <= objects w')%N;
  kp_made b r rq : madeAt w b r rq -> madeAt w' b r rq;
  kp_handle h x : handleOf w h = Some x -> exists x', handleOf w' h = Some x' /\ fst x' = fst x
    /\ hs_bridgeState (snd x') = hs_bridgeState (snd x) /\ hs_nativeRootHandle (snd x') = hs_nativeRootHandle (snd x);
  kp_admission a x : rootBridgeAdmissionPayloads w !! a = Some x -> rootBridgeAdmissionPayloads w' !! a = Some x;
  kp_boundary j x : rootLifecycleRequestBoundaryPayloads w !! j = Some x -> rootLifecycleRequestBoundaryPayloads w' !! j = Some x;
  kp_handoff r k : rootNativeHandoffRecords w !! r = Some k -> rootNativeHandoffRecords w' !! r = Some k
    /\ rootNativeHandoffPayloads w' !! k = rootNativeHandoffPayloads w !! k }.

Lemma kept_run (Hplain : plainFunctions) w w' : worldOk w -> rtc step w w' -> worldOk w' /\ kept w w'.
Proof.
  intros Hok R. induction R as [w|w w1 w2 H1 R IH].
  { split; [done|]. split; try done. intros h x Hx. by exists x. }
  destruct (world_step Hplain _ _ Hok H1) as (Hok1 & M & A), Hok as [Hb He]. destruct (IH Hok1) as [Hok2 K]. split; [done|].
  pose proof (movement_objects _ _ M). split.
  - pose proof (kp_objects _ _ K). lia.
  - intros b r rq Hm. by eapply (kp_made _ _ K), movement_made.
  - intros h x Hx. destruct (movement_kept _ _ _ _ Hb M Hx) as (x1 & Hx1 & E1 & E2 & E3).
    destruct (kp_handle _ _ K h x1 Hx1) as (x2 & Hx2 & F1 & F2 & F3). exists x2. split; [done|]. split_and!; congruence.
  - intros a x Ha. apply (kp_admission _ _ K), (ad_admissions _ _ A); [|done]. by eapply eo_admission.
  - intros j x Hj. apply (kp_boundary _ _ K), (ad_boundaries _ _ A); [|done]. by eapply eo_boundary.
  - intros r k Hk. destruct (eo_handoff _ He r k Hk) as (Hlt & b & rq & x & hf & _ & _ & Hp & _).
    destruct (kp_handoff _ _ K r k (ad_handoffs _ _ A _ _ Hk)) as [H2 H3]. split; [done|]. rewrite H3, Hp.
    by apply (ad_payloads _ _ A).
Qed.

(** ** Admission *)

Lemma own_bridge_ok (bs : option N) b : bs = None \/ bs = Some b -> assertBridge bs b = Ok tt.
Proof. intros [-> | ->]; [done|]. simpl. by rewrite N.eqb_refl. Qed.




(** ** Boundaries *)

Lemma admissionRoot_of w b r rq ha s : rootRecordPayloads w !! r = Some rq -> rootHandleState w !! rq_handle rq = Some (ha, s) ->
  admissionRoot w (admissionOf b r rq) = Some (s, rq).
Proof. intros Hr Hs. unfold admissionRoot. simpl. by rewrite Hs, Hr. Qed.

(** What is left of the check of a boundary is the state of the root. *)
Lemma boundary_check w b r rq ha s i j id sequence s0 :
  rootRecordPayloads w !! r = Some rq -> rootHandleState w !! rq_handle rq = Some (ha, s) ->
  rq_rootKind rq = VStr CLIENT_ROOT_KIND -> rq_rootTag rq = VStr CONCURRENT_ROOT_TAG ->
  rootBridgeAdmissionPayloads w !! i = Some (admissionOf b r rq) ->
  rootLifecycleRequestBoundaryPayloads w !! j = Some (boundaryOf b r rq i id sequence s0) ->
  isActiveSourceOwnedPrivateRootLifecycleRequestBoundaryForAdmission w (Some i) (Some j) = true <->
    isMounted s = true /\ hs_latestLifecycleRequestRecord s = Some r
    /\ hs_lifecycleRequestVersion s = hs_lifecycleRequestVersion s0 /\ hs_lifecycleStatus s0 = hs_lifecycleStatus s.
Proof.
  intros Hr Hs K1 K2 Hi Hj. unfold isActiveSourceOwnedPrivateRootLifecycleRequestBoundaryForAdmission,
    validateActivePrivateRootLifecycleRequestBoundary. cbn [mbind option_bind]. rewrite Hi. cbn [mbind option_bind]. rewrite Hj.
  cbn [mbind option_bind]. rewrite (admissionRoot_of _ _ _ _ _ _ Hr Hs). cbn [mbind option_bind].
  unfold isLatest. cbn -[strictEq isMounted bool_decide N.eqb Nat.eqb andb]. rewrite K1, K2, !strictEq_str, !N.eqb_refl.
  repeat match goal with |- context [bool_decide (?x = ?x)] => rewrite (bool_decide_eq_true_2 (x = x)) by reflexivity end.
  rewrite ?andb_true_l, ?andb_true_r. case_match eqn:E; simpl.
  - split; [intros _|done]. bools. split_and!; try done. by apply Nat.eqb_eq.
  - split; [done|]. intros (H1 & H2 & H3 & H4). rewrite H1, H2, H3, H4, !bool_decide_eq_true_2, !Nat.eqb_refl in E by done. done.
Qed.

Lemma boundary_made w (bs : option N) i j w1 : worldOk w ->
  createPrivateRootLifecycleRequestBoundaryWithBridge bs (Some i) w = (Ok j, w1) ->
  exists b r rq ha s id sequence, rootBridgeAdmissionPayloads w !! i = Some (admissionOf b r rq) /\ madeAt w b r rq
    /\ rootHandleState w !! rq_handle rq = Some (ha, s) /\ hs_latestLifecycleRequestRecord s = Some r
    /\ rootLifecycleRequestBoundaryPayloads w1 !! j = Some (boundaryOf b r rq i id sequence s)
    /\ rootBridgeAdmissionPayloads w1 = rootBridgeAdmissionPayloads w.
Proof.
  intros [Hok He] H. unfold createPrivateRootLifecycleRequestBoundaryWithBridge in H.
  destruct (validateCurrentPrivateRootLifecycleAdmission w (Some i)) as [[i' a]|e] eqn:Hv; [|done]. cbn [pureStep andThen] in H.
  unfold validateCurrentPrivateRootLifecycleAdmission, validatePrivateRootLifecycleAdmission in Hv. cbn [mbind option_bind] in Hv.
  destruct (rootBridgeAdmissionPayloads w !! i) as [a'|] eqn:Ha; [|done]. cbn [mbind option_bind] in Hv.
  destruct (assertRequest _) as [u|]; [|done]. cbn [bind snd] in Hv.
  destruct (eo_admission _ He _ _ Ha) as (_ & b & r & rq & Hm & ->). destruct Hm as [Hr (x & Hx & Hb)].
  destruct (handleOf_inv _ _ _ Hx) as (s & Hs & _). rewrite (admissionRoot_of _ _ _ _ _ _ Hr Hs) in Hv.
  assert (i' = i /\ a = admissionOf b r rq /\ hs_latestLifecycleRequestRecord s = Some r) as (-> & -> & Hlatest).
  { unfold isLatest in Hv. destruct (isMounted s && _) eqn:E1.
    - injection Hv as <- <-. bools. done.
    - match type of Hv with (if ?c then _ else _) = _ => destruct c eqn:E2 end; [|done]. injection Hv as <- <-. bools. done. }
  destruct (assertBridge bs _); [|done]. cbn [pureStep andThen] in H. rewrite (admissionRoot_of _ _ _ _ _ _ Hr Hs) in H.
  injection H as <- <-. exists b, r, rq, (fst x), s. do 2 eexists. split; [done|]. split; [split; [done|by exists x]|].
  split; [done|]. split; [done|]. split; [|done]. simpl. by rewrite lookup_insert_eq.
Qed.

(** C17: A boundary is active exactly as long as its request is the last of its root, in the
    states that the modelled operations reach (the public facade's withdrawal of a request
    whose render failed is none of them), when reading the name and the length of a function
    never throws. A boundary can only be made for a request that is the root's latest; from
    then on, in every later state, it is active when the request was no unmount and no request
    of the root has been recorded since. So once it is inactive it stays so. *)
Theorem boundary_follows_root d w (bs : option N) i j w1 :
  plainFunctions -> rtc step (noRoots d) w -> createPrivateRootLifecycleRequestBoundaryWithBridge bs (Some i) w = (Ok j, w1) ->
  exists b r rq ha s, rootBridgeAdmissionPayloads w !! i = Some (admissionOf b r rq) /\ madeAt w b r rq
  /\ rootHandleState w !! rq_handle rq = Some (ha, s) /\ hs_latestLifecycleRequestRecord s = Some r
  /\ forall w2, rtc step w1 w2 ->
     (isActiveSourceOwnedPrivateRootLifecycleRequestBoundaryForAdmission w2 (Some i) (Some j) = true <->
      rq_operation rq <> UnmountOperation
      /\ forall r' rq', rootRecordPayloads w2 !! r' = Some rq' -> rq_handle rq' = rq_handle rq -> is_Some (rootRecordPayloads w !! r')).
Proof.
  intros Hplain R H. pose proof (world_reachable Hplain _ _ R) as Hok.
  destruct (boundary_made _ _ _ _ _ Hok H) as (b & r & rq & ha & s & id & sequence & Hi & Hm & Hs & Hlatest & Hj & Hadm).
  exists b, r, rq, ha, s. do 4 (split; [done|]). intros w2 R2.
  pose proof (step_boundary heap development ownerObject w bs (Some i)) as H1. rewrite H in H1. simpl in H1.
  destruct (world_step Hplain _ _ Hok H1) as (Hok1 & M1 & _). destruct (kept_run Hplain _ _ Hok1 R2) as [Hok2 K2].
  destruct (ho_life _ _ _ (bo_handle _ (proj1 Hok) _ _ (handleOf_raw _ _ _ _ Hs))) as [ids L]. change (history w (rq_handle rq) s ids) in L.
  destruct (history_run Hplain _ _ _ _ _ _ (proj1 Hok) (rtc_l _ _ _ _ H1 R2) Hs L) as (_ & s2 & later & [G1 G2 G3 G4 G5]).
  destruct (bo_request _ (proj1 Hok) _ _ (proj1 Hm)) as [_ _ K3 K4 Hshape].
  pose proof (lookup_weaken _ _ _ _ (proj1 Hm) G4) as Hr2.
  assert (Hi1 : rootBridgeAdmissionPayloads w1 !! i = Some (admissionOf b r rq)) by (by rewrite Hadm).
  rewrite (boundary_check w2 b r rq ha s2 i j id sequence s Hr2 G1 K3 K4 (kp_admission _ _ K2 _ _ Hi1) (kp_boundary _ _ K2 _ _ Hj)).
  destruct L as (L & Hhead & Hlen & Hall), G2 as (L2 & Hhead2 & Hlen2 & Hall2).
  destruct (life_head _ _ _ _ _ L) as (p & rest & rq0 & -> & Hp & _ & Hstatus). rewrite Hlatest in Hhead. injection Hhead as ->.
  rewrite (proj1 Hm) in Hp. injection Hp as <-. destruct later as [|q later].
  - simpl in *. destruct (life_head _ _ _ _ _ L2) as (p & rest2 & rq2 & [= <- <-] & Hp2 & _ & Hstatus2).
    rewrite Hr2 in Hp2. injection Hp2 as <-. rewrite <- Hlen, <- Hlen2, <- Hstatus, <- Hhead2. split.
    + intros (Hmount & _). split; [|intros r' rq' Hr' Hid; destruct (life_of _ _ _ _ _ _ L (Hall2 _ _ Hr' Hid)) as (y & Hy & _); by exists y].
      intros Hop. unfold requestShape in Hshape. rewrite Hop in Hshape. destruct Hshape as (_ & Hafter & _).
      unfold isMounted in Hmount. rewrite <- Hstatus2, Hafter in Hmount. done.
    + intros [Hop _]. split_and!; try done. unfold isMounted. rewrite <- Hstatus2. unfold requestShape in Hshape.
      destruct (rq_operation rq); [by destruct Hshape as (_ & _ & ->)|by destruct Hshape as (_ & -> & _)|done].
  - split.
    + intros (_ & _ & Hv & _). rewrite <- Hlen, <- Hlen2 in Hv. rewrite length_app in Hv. simpl in Hv. lia.
    + intros [_ Hno]. exfalso. destruct (life_of _ _ _ _ _ q L2) as (y & Hy & Hid); [by left|].
      destruct (Hno _ _ Hy Hid) as [z Hz]. apply (bo_request _ (proj1 Hok)), ro_fresh in Hz.
      apply Forall_cons in G5 as [G5 _]. simpl in G5. lia.
Qed.

(** ** Hand-offs and numbers *)

Lemma handoff_again w (bs : option N) b r rq k : bridgesOk w -> madeAt w b r rq -> rootNativeHandoffRecords w !! r = Some k ->
  bs = None \/ bs = Some b -> createNativeRootBridgeHandoffRecordWithBridge bs (Some r) w = (Ok k, w).
Proof.
  intros Hok Hm Hk Hbs. unfold createNativeRootBridgeHandoffRecordWithBridge. rewrite (validate_ok _ _ _ _ Hok Hm).
  cbn [pureStep andThen va_bridgeState validationOf]. rewrite (own_bridge_ok _ _ Hbs). cbn [pureStep andThen]. by rewrite Hk.
Qed.

(** C37: A request is handed to the native side once. Its hand-off mirrors it: the operation, the
    sequence number, the root's native handle with its environment, the value's handle, and
    whether the root is still active, which it is not for an unmount. In every later state
    asking again gives the same hand-off and changes nothing. *)
Theorem handoff_once d w (bs : option N) r k w1 :
  plainFunctions -> rtc step (noRoots d) w -> createNativeRootBridgeHandoffRecordWithBridge bs (Some r) w = (Ok k, w1) ->
  exists b rq x hf, madeAt w b r rq /\ handleOf w (rq_handle rq) = Some x /\ mirrors r rq (hs_nativeRootHandle (snd x)) hf
  /\ forall w2, rtc step w1 w2 -> rootNativeHandoffPayloads w2 !! k = Some hf
     /\ forall bs' : option N, bs' = None \/ bs' = Some b -> createNativeRootBridgeHandoffRecordWithBridge bs' (Some r) w2 = (Ok k, w2).
Proof.
  intros Hplain R H. pose proof (world_reachable Hplain _ _ R) as Hok.
  pose proof (step_handoff heap development ownerObject w bs (Some r)) as H1. rewrite H in H1. simpl in H1.
  destruct (world_step Hplain _ _ Hok H1) as (Hok1 & M1 & _).
  assert (Hk : rootNativeHandoffRecords w1 !! r = Some k).
  { unfold createNativeRootBridgeHandoffRecordWithBridge in H.
    destruct (validateRootBridgeRequestRecord w (Some r)) as [[[r' rq] v]|e] eqn:Hv; [|done]. cbn [pureStep andThen] in H.
    destruct (validate_inv _ _ _ _ _ (proj1 Hok) Hv) as ([= ->] & _). destruct (assertBridge bs _); [|done].
    cbn [pureStep andThen] in H. destruct (rootNativeHandoffRecords w !! r') eqn:E; [by injection H as -> <-|].
    destruct (getPrivateRootHandleState w _); [|done]. injection H as <- <-. simpl. by rewrite lookup_insert_eq. }
  destruct (eo_handoff _ (proj2 Hok1) _ _ Hk) as (_ & b & rq & x1 & hf & Hm1 & Hx1 & Hp & Hmir).
  pose proof (handoff_frame bs (Some r) w) as A. rewrite H in A. simpl in A.
  exists b, rq, x1, hf. split; [by eapply frame_made|]. split; [by rewrite <- (fr_handle _ _ A)|]. split; [done|]. intros w2 R2.
  destruct (kept_run Hplain _ _ Hok1 R2) as [Hok2 K2]. destruct (kp_handoff _ _ K2 _ _ Hk) as [E1 E2]. split; [by rewrite E2|].
  intros bs' Hbs. eapply handoff_again; [apply Hok2|by apply (kp_made _ _ K2)|done|done].
Qed.

(** C38: The numbers of a bridge are its own. In every reachable state the requests of a bridge
    are numbered in the order they were made, two requests have different ids, and two
    objects that the native side knows, roots and values, have different slots, all of them
    below the slot that is next. *)
Theorem bridge_numbers_unique d w b :
  plainFunctions -> rtc step (noRoots d) w ->
  (forall r r' rq rq', madeAt w b r rq -> madeAt w b r' rq' ->
     ((rq_requestSequence rq < rq_requestSequence rq')%N <-> (r < r')%N) /\ (rq_requestId rq = rq_requestId rq' -> r = r'))
  /\ (forall x y v v', hasSlot w b x v -> hasSlot w b y v' -> nh_slot v = nh_slot v' -> x = y)
  /\ (forall x v, hasSlot w b x v -> (nh_slot v < nextNativeHandleSlot (bridgeOf w b))%N
       /\ nh_environmentId v = nativeEnvironmentId (bridgeOf w b)).
Proof.
  intros Hplain R. pose proof (reachable_ok _ _ Hplain R) as Hok. split; [|split].
  - intros r r' rq rq' H1 H2.
    assert (Hlt : (rq_requestSequence rq < rq_requestSequence rq')%N <-> (r < r')%N).
    { split; [|by eapply (bo_order _ Hok)]. intros H. destruct (N.lt_total r r') as [Hl|[Hl|Hl]]; [done| |].
      - subst. destruct H1 as [H1 _], H2 as [H2 _]. rewrite H1 in H2. injection H2 as ->. lia.
      - pose proof (bo_order _ Hok _ _ _ _ _ H2 H1 Hl). lia. }
    split; [done|]. intros Hid. assert (Hseq : rq_requestSequence rq = rq_requestSequence rq').
    { destruct H1 as [H1 (x & Hx & Hb)], H2 as [H2 (x' & Hx' & Hb')].
      destruct (bo_request _ Hok _ _ H1) as [_ (y & Hy & _ & _ & _ & E1) _ _ _], (bo_request _ Hok _ _ H2) as [_ (y' & Hy' & _ & _ & _ & E2) _ _ _].
      rewrite Hx in Hy. rewrite Hx' in Hy'. injection Hy as <-. injection Hy' as <-. rewrite E1, E2, Hb, Hb' in Hid.
      by apply numberedId_inj in Hid. }
    destruct (N.lt_total r r') as [Hl|[Hl|Hl]]; [|done|].
    + pose proof (bo_order _ Hok _ _ _ _ _ H1 H2 Hl). lia.
    + pose proof (bo_order _ Hok _ _ _ _ _ H2 H1 Hl). lia.
  - intros x y v v' H1 H2 Heq. destruct (N.lt_total x y) as [Hl|[Hl|Hl]]; [|done|].
    + pose proof (bo_slots _ Hok _ _ _ _ _ H1 H2 Hl). lia.
    + pose proof (bo_slots _ Hok _ _ _ _ _ H2 H1 Hl). lia.
  - intros x v. apply (bo_slot _ Hok).
Qed.

(** ** A description that throws *)

(** A root can be lost to the description of a callback. When the length of a function that
    is given to [unmount] cannot be read, the request throws that exception and no record is
    made; yet the root is unmounted: its status says so, it cannot be rendered any more, and
    the only trace of its life is the request before. *)
Theorem callback_getter_strands_root w h ha s f e :
  rootHandleState w !! h = Some (ha, s) -> get (heap f) "length" = Throw e ->
  let '(outcome, w') := unmountContainer heap (hs_bridgeState s) (Some h) (VFun f) w in
  outcome = Throw e /\ rootRecordPayloads w' = rootRecordPayloads w
  /\ exists s', rootHandleState w' !! h = Some (ha, s') /\ hs_lifecycleStatus s' = ROOT_LIFECYCLE_UNMOUNTED
     /\ hs_latestLifecycleRequestRecord s' = hs_latestLifecycleRequestRecord s
     /\ hs_lifecycleRequestVersion s' = hs_lifecycleRequestVersion s
     /\ forall element callback, renderContainer heap (hs_bridgeState s) (Some h) element callback w' = (hostError UNMOUNTED_ROOT, w').
Proof.
  intros Hh Hf. unfold unmountContainer. rewrite (own_handle _ _ _ _ Hh). cbn [pureStep andThen].
  unfold createRootUpdateRecordWithBridge at 1, getPrivateRootHandleState at 1. cbn [mbind option_bind]. rewrite Hh.
  cbn [mbind option_bind fst snd pureStep andThen]. rewrite N.eqb_refl. cbn [negb createRequestInfo].
  cbn [describeBridgeValue pureStep andThen]. rewrite Hf. cbn [bind pureStep andThen].
  set (w' := modifyBridge _ takeRequestSequence _). split; [done|]. split; [done|].
  assert (Hs' : rootHandleState w' !! h = Some (ha, setLifecycle ROOT_LIFECYCLE_UNMOUNTED (hs_renderCount s) s)).
  { unfold w'. simpl. by rewrite lookup_alter_eq, Hh. }
  eexists. split; [exact Hs'|]. do 3 (split; [done|]). intros element callback. unfold renderContainer.
  pose proof (own_handle _ _ _ _ Hs') as E. simpl in E. rewrite E. cbn [pureStep andThen].
  unfold createRootUpdateRecordWithBridge, getPrivateRootHandleState. cbn [mbind option_bind]. rewrite Hs'. simpl. by rewrite N.eqb_refl.
Qed.

(** ** Side effects *)

(** The owners that the module makes are plain objects with a kind, and the type of a node
    does not change. *)
Definition plainOwners : Prop := forall o, get (heap (ownerObject o)) "kind" = Ok (VStr "FastReactDomPrivateRootOwner").
Definition constantNodeTypes : Prop := forall d d' n, readProperty d n "nodeType" = readProperty d' n "nodeType".

Lemma validNode_constant (Hnode : constantNodeTypes) d d' n : assertValidContainer d (inr n) = assertValidContainer d' (inr n).
Proof. unfold assertValidContainer, isValidContainer. by rewrite (Hnode d d' n). Qed.

Lemma strictEq_refl_obj x : strictEq (VObj x) (VObj x) = true.
Proof. by apply bool_decide_eq_true_2. Qed.

(** Marking a container: it fails with the markers as they were, or it can be reverted. *)
Lemma mark_reverts (Howners : plainOwners) (Hnode : constantNodeTypes) d owner n (m : markerState Node) :
  match markContainerAsRootWithRevertRecord heap development d (VObj (ownerObject owner)) (inr n) m with
  | (Throw e, m') => m' = m
  | (Ok i, m') => markers m' !! n = Some (VObj (ownerObject owner))
      /\ is_Some (privateRootMarkerMutationPayloads m' !! i)
      /\ forall d', exists cleanup m2, revertContainerRootMarkerMutation d' (Some i) m' = (Ok cleanup, m2) /\ markers m2 = markers m
  end.
Proof.
  destruct (markContainerAsRootWithRevertRecord _ _ _ _ _ _) as [[i|e] m'] eqn:E.
  - destruct (root_marker_roundtrip heap _ _ _ _ _ _ _ E) as (H1 & H2 & H3). split; [by rewrite H2, lookup_insert_eq|].
    unfold markContainerAsRootWithRevertRecord in E.
    destruct (rootTarget d _ (inr n)) as [n'|] eqn:Et; [|done]. pose proof (rootTarget_node _ _ _ _ Et) as ->. cbn [pureStep andThen] in E.
    assert (Hvalid : forall d', exists c, assertValidContainer d' (inr n) = Ok c).
    { intros d'. rewrite (validNode_constant Hnode d' d). unfold rootTarget in Et. apply bind_Ok in Et as (c & -> & _). by exists c. }
    split.
    { destruct (require _ _); [|done]. cbn [pureStep andThen] in E. destruct (getCreateRootWarning _ _ _ _ _); [|done].
      cbn [pureStep andThen] in E. unfold markContainerAsRoot in E. rewrite Et in E. cbn [pureStep andThen] in E.
      destruct (describeRootOwnerKind _ _); [|done]. injection E as <- <-. simpl. rewrite lookup_insert_eq. by eexists. }
    intros d'. specialize (H3 d' m' eq_refl).
    destruct (revertContainerRootMarkerMutation d' (Some i) m') as [[c|e] m2].
    + exists c, m2. split; [done|]. apply map_eq. intros x. destruct H3 as [-> _]. case_decide as Ex; [done|].
      by rewrite H2, lookup_insert_ne.
    + exfalso. destruct H3 as (_ & [He|[_ He]]); [destruct (Hvalid d') as [c Hc]; congruence|].
      rewrite H2, lookup_insert_eq in He. simpl default in He. by rewrite strictEq_refl_obj in He.
  - unfold markContainerAsRootWithRevertRecord in E. destruct (rootTarget d _ (inr n)) as [n'|] eqn:Et; [|by injection E].
    cbn [pureStep andThen] in E. destruct (require _ _); [|by injection E]. cbn [pureStep andThen] in E.
    destruct (getCreateRootWarning _ _ _ _ _); [|by injection E]. cbn [pureStep andThen] in E.
    unfold markContainerAsRoot in E. rewrite Et in E. cbn [pureStep andThen] in E. unfold describeRootOwnerKind in E.
    rewrite Howners in E. by cbn in E.
Qed.

(** Marking and listening: a failure leaves markers and listeners as they were. *)
Lemma markAndListen_atomic (Howners : plainOwners) (Hnode : constantNodeTypes) owner n listenerOptions w :
  madeOk registered (rootEvents w) ->
  match markAndListen heap development ownerObject owner n listenerOptions w with
  | (Throw e, w') => markers (rootMarkers w') = markers (rootMarkers w) /\ restored registered (rootEvents w) (rootEvents w')
  | (Ok (i, g), w') => exists g' m1 e1, g = Some g'
      /\ markContainerAsRootWithRevertRecord heap development (hostOf w) (VObj (ownerObject owner)) (inr n) (rootMarkers w) = (Ok i, m1)
      /\ registerRootListenersForPrivateRoot (inr n) listenerOptions (rootEvents w) = (Ok (Some g'), e1)
      /\ w' = set_rootEvents e1 (set_rootMarkers m1 w)
  end.
Proof.
  intros Hmade. unfold markAndListen, onMarkers, onEvents. pose proof (mark_reverts Howners Hnode (hostOf w) owner n (rootMarkers w)) as Hmark.
  destruct (markContainerAsRootWithRevertRecord _ _ _ _ _ _) as [[i|e] m1]; cbn [andThen].
  2: { split; [by rewrite Hmark|apply registration_restored_refl]. }
  change (rootEvents (set_rootMarkers m1 w)) with (rootEvents w).
  destruct (registerRootListenersForPrivateRoot (inr n) listenerOptions (rootEvents w)) as [[g|e] e1] eqn:Eg.
  - destruct g as [g'|]; [by exists g', m1, e1|]. exfalso.
    unfold registerRootListenersForPrivateRoot in Eg. simpl in Eg. destruct (hasAddEventListener _ n); [|done]. simpl in Eg.
    pose proof (register_spec registered n listenerOptions (rootEvents w) Hmade) as Hs. by rewrite Eg in Hs.
  - cbn [snd]. destruct Hmark as (_ & _ & Hrevert). destruct (Hrevert (hostOf (set_rootEvents e1 (set_rootMarkers m1 w)))) as (c & m2 & E & Hm).
    change (rootMarkers (set_rootEvents e1 (set_rootMarkers m1 w))) with m1. rewrite E. cbn [snd]. split; [done|].
    by eapply failed_restores.
Qed.

(** The active side effects of a create request. *)
Definition activeEffects w r : option N :=
  k ← rootCreateSideEffectRecords w !! r; p ← rootCreateSideEffectPayloads w !! k; if se_payloadActive p then Some k else None.

Lemma sideEffectRequest_ok w b r rq : bridgesOk w -> madeAt w b r rq -> rq_operation rq = CreateOperation ->
  validateCreateRootSideEffectRequest w (Some r) = Ok (r, rq, validationOf b rq).
Proof.
  intros Hok Hm Hop. unfold validateCreateRootSideEffectRequest. rewrite (validate_ok _ _ _ _ Hok Hm). cbn [bind snd].
  unfold assertRequest, require. simpl. by rewrite Hop.
Qed.

Lemma apply_again w (bs : option N) b r rq k listenerOptions :
  bridgesOk w -> madeAt w b r rq -> rq_operation rq = CreateOperation -> bs = None \/ bs = Some b -> activeEffects w r = Some k ->
  applyPrivateCreateRootSideEffectsWithBridge heap development ownerObject bs (Some r) listenerOptions w = (Ok k, w).
Proof.
  intros Hok Hm Hop Hbs Hact. unfold applyPrivateCreateRootSideEffectsWithBridge. rewrite (sideEffectRequest_ok _ _ _ _ Hok Hm Hop).
  cbn [pureStep andThen va_bridgeState validationOf]. rewrite (own_bridge_ok _ _ Hbs). cbn [pureStep andThen]. unfold activeEffects in Hact. by rewrite Hact.
Qed.

(** Reverting side effects whose parts revert. *)
Lemma revert_ok w (bs : option N) k p g c m2 lc e2 :
  rootCreateSideEffectPayloads w !! k = Some p -> se_payloadActive p = true -> se_listenerRegistration p = Some g ->
  bs = None \/ bs = Some (se_payloadBridge p) ->
  revertContainerRootMarkerMutation (ew_host e2) (Some (se_markerRecord p)) (rootMarkers w) = (Ok c, m2) ->
  revertRootListenersForPrivateRoot (Some g) (rootEvents w) = (Ok lc, e2) ->
  exists cleanup w', revertPrivateCreateRootSideEffectsWithBridge bs (Some k) w = (Ok cleanup, w')
    /\ rootMarkers w' = m2 /\ rootEvents w' = e2
    /\ sc_listenerCleanup cleanup = lc /\ sc_markerCleanup cleanup = c
    /\ revertPrivateCreateRootSideEffectsWithBridge bs (Some k) w' = (Ok cleanup, w').
Proof.
  intros Hp Hact Hg Hbs Hm He. pose proof (own_bridge_ok _ _ Hbs) as Ha.
  unfold revertPrivateCreateRootSideEffectsWithBridge, onEvents, onMarkers. cbn [mbind option_bind]. rewrite Hp.
  cbn [mbind option_bind]. rewrite Ha. cbn [pureStep andThen]. rewrite Hact, Hg, He. cbn [andThen].
  change (rootMarkers (set_rootEvents e2 w)) with (rootMarkers w). change (hostOf (set_rootEvents e2 w)) with (ew_host e2).
  rewrite Hm. cbn [andThen]. do 2 eexists. split; [reflexivity|]. do 4 (split; [done|]).
  cbn. rewrite !lookup_insert_eq. cbn. rewrite Ha. cbn. by rewrite !lookup_insert_eq.
Qed.

(** C8: The side effects of a create request are a transaction, when reading the name and the
    length of a function never throws, the owners are plain objects with their [kind], the
    type of a node does not change, and every listener on a target was made by the module (so
    that a new one is none of them). Applying them marks the container with the root's owner
    and installs the root's listeners: the container and its document get the listeners of the
    registration's record and the mark that they listen; on a container without keys these
    are the supported ones, in order; and where the keys are those of the listeners, the
    container then listens to every supported event in its phases and the document to
    selection changes. Or it throws, with the markers and the listeners as they were. Once
    they are applied, applying them again does nothing. Later, while the marker and the
    listeners are those of the application, they can be reverted by the bridge: no trace of
    the marker, of the listeners, of their keys and marks is left, and reverting again gives
    the same cleanup record and does nothing. *)
Theorem side_effects_transaction d w (bs : option N) b r rq x listenerOptions :
  plainFunctions -> plainOwners -> constantNodeTypes -> rtc step (noRoots d) w -> madeOk registered (rootEvents w) ->
  madeAt w b r rq -> handleOf w (rq_handle rq) = Some x -> rq_operation rq = CreateOperation -> bs = None \/ bs = Some b ->
  activeEffects w r = None ->
  let n := hs_container (snd x) in
  match applyPrivateCreateRootSideEffectsWithBridge heap development ownerObject bs (Some r) listenerOptions w with
  | (Throw e, w1) => markers (rootMarkers w1) = markers (rootMarkers w) /\ restored registered (rootEvents w) (rootEvents w1)
  | (Ok k, w1) =>
      getContainerRoot (rootMarkers w1) (inr n) = Some (VObj (ownerObject (rq_owner rq)))
      /\ (exists g doc p, registerRootListenersForPrivateRoot (inr n) listenerOptions (rootEvents w) = (Ok (Some g), rootEvents w1)
           /\ getOwnerDocument (ew_host (rootEvents w)) (inr n) = Ok doc
           /\ rootListenerRegistrationPayloads (rootEvents w1) !! g = Some p
           /\ (forall m, reg registered (rootEvents w1) m = reg registered (rootEvents w) m ++ entriesAt (rp_installedListeners p) m)
           /\ (forall m, m ∈ rootTargets n doc -> hasListeningMarker (ew_targets (rootEvents w1)) (Some m) = true)
           /\ (keysOf (rootEvents w) n = ∅ ->
               map (fun r : listenerRecord (Node := Node) => (lr_domEventName r, lr_isCapturePhaseListener r))
                 (rp_installedListeners p) = supportedListeners ++ docPlan doc (rootEvents w))
           /\ ((forall m, keysAgree registered (rootEvents w) m) ->
               (forall e c, (e, c) ∈ supportedListeners -> listens registered (rootEvents w1) n e c)
               /\ forall m, doc = Some m -> listens registered (rootEvents w1) m "selectionchange" false))
      /\ (forall options, applyPrivateCreateRootSideEffectsWithBridge heap development ownerObject bs (Some r) options w1 = (Ok k, w1))
      /\ forall w2, rootMarkers w2 = rootMarkers w1 -> rootEvents w2 = rootEvents w1 ->
         rootCreateSideEffectPayloads w2 !! k = rootCreateSideEffectPayloads w1 !! k ->
         exists cleanup w3, revertPrivateCreateRootSideEffectsWithBridge bs (Some k) w2 = (Ok cleanup, w3)
         /\ markers (rootMarkers w3) = markers (rootMarkers w)
         /\ (forall n, reg registered (rootEvents w3) n = reg registered (rootEvents w) n)
         /\ ew_targets (rootEvents w3) = ew_targets (rootEvents w)
         /\ revertPrivateCreateRootSideEffectsWithBridge bs (Some k) w3 = (Ok cleanup, w3)
  end.
Proof.
  intros Hplain Howners Hnode R Hmade Hm Hx Hop Hbs Hnone. pose proof (reachable_ok _ _ Hplain R) as Hok.
  destruct (handleOf_inv _ _ _ Hx) as (s & Hs & Hbr & Hcont). cbv zeta. rewrite <- Hcont. clear Hcont.
  pose proof (apply_frame bs (Some r) listenerOptions w) as A.
  unfold applyPrivateCreateRootSideEffectsWithBridge at 1 in A. unfold applyPrivateCreateRootSideEffectsWithBridge at 1.
  rewrite (sideEffectRequest_ok _ _ _ _ Hok Hm Hop) in *. cbn [pureStep andThen va_bridgeState validationOf] in *.
  rewrite (own_bridge_ok _ _ Hbs) in *. cbn [pureStep andThen] in *. unfold activeEffects in Hnone. rewrite Hnone in *.
  unfold getPrivateRootHandleState in *. cbn [mbind option_bind] in *. rewrite Hs in *. cbn [mbind option_bind pureStep andThen snd] in *.
  set (w0 := modifyBridge _ takeSideEffectSequence w) in *.
  pose proof (markAndListen_atomic Howners Hnode (rq_owner rq) (hs_container s) listenerOptions w0 Hmade) as H.
  destruct (markAndListen _ _ _ _ _ _ _) as [[[i g]|e] w1]; cbn [andThen] in *; [|exact H].
  destruct H as (g' & m1 & e1 & -> & Hmark & Hlisten & ->). cbn [fst snd] in *.
  match goal with |- getContainerRoot (rootMarkers ?w') _ = _ /\ _ => set (w1 := w') in * end.
  change (rootEvents w0) with (rootEvents w) in Hlisten, Hmade.
  pose proof (fun H => registered_listens registered _ _ _ _ _ Hmade H Hlisten) as Hl.
  pose proof (mark_reverts Howners Hnode (hostOf w0) (rq_owner rq) (hs_container s) (rootMarkers w0)) as Hmr. rewrite Hmark in Hmr.
  destruct Hmr as (H1 & _ & Hrevert).
  destruct (registered_reverts registered _ _ _ _ _ Hmade Hlisten)
    as (doc & p & Hdoc & Hp & Hnew & _ & _ & Hmarks & Hfresh & lc & e2 & He & Hreg & Ht & _ & _).
  split; [|split; [|split]].
  - unfold getContainerRoot. change (rootMarkers w1) with m1. rewrite H1. done.
  - exists g', doc, p. change (rootEvents w1) with e1. do 4 (split; [done|]). split; [|split; [done|]].
    + intros m Hin%Hmarks. unfold marksOf in Hin. simpl. by rewrite Hin.
    + intros [H2 H3]%Hl. split; [done|]. intros d' ->. by apply H3.
  - intros options. eapply apply_again; [by eapply frame_ok| |done|done|].
    + destruct Hm as [Hr (y & Hy & Hyb)]. split; [done|]. exists y. split; [|done]. by rewrite (fr_handle _ _ A).
    + unfold activeEffects, w1. simpl. rewrite lookup_insert_eq. simpl. by rewrite lookup_insert_eq.
  - intros w2 E1 E2 E3. unfold w1 in E3. simpl in E3. rewrite lookup_insert_eq in E3.
    change (rootMarkers w1) with m1 in E1. change (rootEvents w1) with e1 in E2.
    destruct (Hrevert (ew_host e2)) as (c & m2 & Hc & Hm2).
    destruct (revert_ok w2 bs _ _ g' c m2 lc e2 E3) as (cleanup & w3 & F0 & F1 & F2 & _ & _ & F5); try done.
    + by rewrite E1.
    + by rewrite E2.
    + exists cleanup, w3. split; [exact F0|]. rewrite F1, F2. split; [exact Hm2|]. split; [exact Hreg|]. split; [exact Ht|exact F5].
Qed.
End Bridges.
