(* ===== verification/RootBridgeDemo.v ===== *)
(** * The root bridge at concrete inputs

    Two bridges; the first has a root on the node 1, which is rendered and then unmounted.
    The requests are the objects 4, 5 and 8, the handle is the object 3. *)
From S2P Require Import Prelude JsValue DomHost DomTree RootMarkers Events ListenerRegistry RootListeners RootListenersSpec EventDemo RootBridge RootBridgeSpec.

Section Demo.
#[local] Instance bridgeHost : EventHost nat targets := listeningHost None.
#[local] Instance bridgeLaws : EventTargetLaws listenersOn := listening_laws None.

Definition bridgeHeap (r : ref) : jsobject :=
  literal [("kind", VStr "FastReactDomPrivateRootOwner"); ("length", VNum (Finite 0 0)); ("name", VStr "f")].
Definition ownerRef (o : N) : ref := User (1000 + o).
Abbreviation bridgeRun := (rtc (bridgeStep (Node := nat) (D := targets) bridgeHeap true ownerRef)).

Definition noBridges : rootWorld (Node := nat) (D := targets) := noRoots (mkTargetLists ∅).
Definition twoBridges := snd (createPrivateRootBridgeShell (fun _ => VUndef) (snd (createPrivateRootBridgeShell (fun _ => VUndef) noBridges))).
Definition bridgeCreated := snd (createClientRoot bridgeHeap true 0 (inr 1) VUndef twoBridges).
Definition bridgeRendered := snd (renderContainer bridgeHeap 0 (Some 3%N) (VStr "hello") VUndef bridgeCreated).
Definition bridgeAdmitted := snd (admitRootBridgeRequestWithBridge (Some 0%N) (Some 5%N) bridgeRendered).

Lemma bridge_functions : plainFunctions bridgeHeap.
Proof. intros f. split; eexists; reflexivity. Qed.
Lemma bridge_owners : plainOwners bridgeHeap ownerRef.
Proof. intros o. reflexivity. Qed.
Lemma bridge_nodes : constantNodeTypes (Node := nat) (D := targets).
Proof. intros d d' n. reflexivity. Qed.

Lemma bridgeCreated_run : bridgeRun noBridges bridgeCreated.
Proof.
  eapply rtc_l; [apply (step_shell _ _ _ noBridges (fun _ => VUndef))|].
  eapply rtc_l; [apply (step_shell _ _ _ _ (fun _ => VUndef))|].
  apply rtc_once. apply (step_create bridgeHeap true ownerRef twoBridges 0%N (inr 1) VUndef).
  destruct (bridges twoBridges !! 0%N) as [x|] eqn:E; [by exists x|]. exfalso. vm_compute in E. discriminate.
Qed.
Lemma bridgeRendered_run : bridgeRun noBridges bridgeRendered.
Proof.
  etrans; [apply bridgeCreated_run|]. apply rtc_once.
  apply (step_render bridgeHeap true ownerRef bridgeCreated 0%N (Some 3%N) (VStr "hello") VUndef).
Qed.
Lemma bridgeAdmitted_run : bridgeRun noBridges bridgeAdmitted.
Proof.
  etrans; [apply bridgeRendered_run|]. apply rtc_once.
  apply (step_admit bridgeHeap true ownerRef bridgeRendered (Some 0%N) (Some 5%N)).
Qed.


Lemma root_history_witness : exists ha s ids, rootHandleState bridgeRendered !! 3%N = Some (ha, s)
  /\ history bridgeRendered 3 s ids /\ length ids = hs_lifecycleRequestVersion s.
Proof.
  destruct (rootHandleState bridgeRendered !! 3%N) as [[ha s]|] eqn:E; [|exfalso; vm_compute in E; discriminate].
  destruct (root_history listenersOn bridgeHeap true ownerRef _ _ _ _ _ bridge_functions bridgeRendered_run E) as (ids & H & _).
  exists ha, s, ids. split; [reflexivity|]. split; [exact H|]. apply H.
Defined.


Abbreviation bridgeBounded := (createPrivateRootLifecycleRequestBoundaryWithBridge None (Some 6%N) bridgeAdmitted).
Lemma boundary_follows_root_witness : exists b r rq,
  rootBridgeAdmissionPayloads bridgeAdmitted !! 6%N = Some (admissionOf b r rq) /\ madeAt bridgeAdmitted b r rq.
Proof.
  assert (E : fst bridgeBounded = Ok 7%N) by (vm_compute; reflexivity).
  assert (E' : bridgeBounded = (Ok 7%N, snd bridgeBounded)) by (rewrite <- E; apply surjective_pairing).
  destruct (boundary_follows_root listenersOn bridgeHeap true ownerRef _ _ _ _ _ _ bridge_functions bridgeAdmitted_run E')
    as (b & r & rq & ha & s & H1 & H2 & _).
  exists b, r, rq. split; [exact H1|exact H2].
Defined.

Abbreviation bridgeHanded := (createNativeRootBridgeHandoffRecordWithBridge (Some 0%N) (Some 5%N) bridgeRendered).
Lemma handoff_once_witness : exists hf, rootNativeHandoffPayloads (snd bridgeHanded) !! 6%N = Some hf /\ hf_payloadSourceRecord hf = 5%N.
Proof.
  assert (E : fst bridgeHanded = Ok 6%N) by (vm_compute; reflexivity).
  assert (E' : bridgeHanded = (Ok 6%N, snd bridgeHanded)) by (rewrite <- E; apply surjective_pairing).
  destruct (handoff_once listenersOn bridgeHeap true ownerRef _ _ _ _ _ _ bridge_functions bridgeRendered_run E')
    as (b & rq & x & hf & _ & _ & H & Hk).
  exists hf. split; [exact (proj1 (Hk _ (rtc_refl _ _)))|apply H].
Defined.

Lemma bridge_numbers_unique_witness : exists v, hasSlot bridgeRendered 0 3 v /\ nh_environmentId v = 1%N.
Proof.
  assert (E : (fun x => hs_bridgeState (snd x)) <$> handleOf bridgeRendered 3%N = Some 0%N) by (vm_compute; reflexivity).
  destruct (handleOf bridgeRendered 3%N) as [x|] eqn:Hx; [|discriminate]. injection E as Hb.
  assert (H : hasSlot bridgeRendered 0 3 (hs_nativeRootHandle (snd x)))
    by (left; exists x; split; [exact Hx|split; [exact Hb|reflexivity]]).
  destruct (bridge_numbers_unique listenersOn bridgeHeap true ownerRef _ _ 0%N bridge_functions bridgeRendered_run) as (_ & _ & H3).
  exists (hs_nativeRootHandle (snd x)). split; [exact H|].
  etransitivity; [exact (proj2 (H3 _ _ H))|]. vm_compute. reflexivity.
Defined.

(** A heap in which the length of one function throws. *)
Definition trapHeap (r : ref) : jsobject :=
  mkObject [("length", (true, Getter (VStr "trap")))] [] None None.

Lemma callback_getter_strands_root_witness :
  fst (unmountContainer trapHeap 0 (Some 3%N) (VFun (User 7)) bridgeRendered) = Throw (Thrown (VStr "trap")).
Proof.
  destruct (rootHandleState bridgeRendered !! 3%N) as [[ha s]|] eqn:E; [|exfalso; vm_compute in E; discriminate].
  assert (Hb : hs_bridgeState s = 0%N).
  { assert (Hs : (fun x => hs_bridgeState (snd x)) <$> (rootHandleState bridgeRendered !! 3%N) = Some 0%N) by (vm_compute; reflexivity).
    rewrite E in Hs. injection Hs as Hs. exact Hs. }
  pose proof (callback_getter_strands_root trapHeap bridgeRendered 3%N ha s (User 7) (Thrown (VStr "trap")) E eq_refl) as H.
  rewrite Hb in H. destruct (unmountContainer trapHeap 0 (Some 3%N) (VFun (User 7)) bridgeRendered) as [o w']. exact (proj1 H).
Defined.

Lemma bridge_made : madeOk listenersOn (rootEvents bridgeCreated).
Proof.
  intros n x Hx. assert (E : ew_host (rootEvents bridgeCreated) = mkTargetLists ∅) by (vm_compute; reflexivity).
  unfold reg in Hx. rewrite E in Hx. by apply not_elem_of_nil in Hx.
Qed.

Abbreviation bridgeApplied := (applyPrivateCreateRootSideEffectsWithBridge bridgeHeap true ownerRef None (Some 4%N) None bridgeCreated).
Lemma side_effects_transaction_witness :
  fst bridgeApplied = Ok 5%N
  /\ exists cleanup w3, revertPrivateCreateRootSideEffectsWithBridge None (Some 5%N) (snd bridgeApplied) = (Ok cleanup, w3)
     /\ markers (rootMarkers w3) = markers (rootMarkers bridgeCreated) /\ ew_targets (rootEvents w3) = ew_targets (rootEvents bridgeCreated).
Proof.
  assert (E : fst bridgeApplied = Ok 5%N) by (vm_compute; reflexivity). split; [exact E|].
  assert (Er : (fun rq => (rq_handle rq, rq_operation rq)) <$> (rootRecordPayloads bridgeCreated !! 4%N) = Some (3%N, CreateOperation))
    by (vm_compute; reflexivity).
  destruct (rootRecordPayloads bridgeCreated !! 4%N) as [rq|] eqn:Hr; [|discriminate]. injection Er as E1 E2.
  assert (Eh : isSome (handleOf bridgeCreated 3%N) = true) by (vm_compute; reflexivity).
  destruct (handleOf bridgeCreated 3%N) as [x|] eqn:Hx; [|discriminate].
  assert (Hm : madeAt bridgeCreated (hs_bridgeState (snd x)) 4%N rq) by (split; [exact Hr|exists x; rewrite E1; split; [exact Hx|reflexivity]]).
  assert (Hn : activeEffects bridgeCreated 4%N = None) by (vm_compute; reflexivity).
  rewrite <- E1 in Hx.
  pose proof (side_effects_transaction listenersOn bridgeHeap true ownerRef _ bridgeCreated None _ 4%N rq x None bridge_functions bridge_owners
    bridge_nodes bridgeCreated_run bridge_made Hm Hx E2 (or_introl eq_refl) Hn) as H.
  destruct bridgeApplied as [o w1]. simpl in E. subst o. destruct H as (_ & _ & _ & H).
  destruct (H w1 eq_refl eq_refl eq_refl) as (cleanup & w3 & H1 & H2 & _ & H4 & _).
  exists cleanup, w3. split; [exact H1|]. split; [exact H2|exact H4].
Defined.
End Demo.
