(* ===== verification/EventExtract.v ===== *)
(** * Extracting the dispatch queue of an event (events/plugin-event-system.js)

    From a native event and the wrapper of the root listener that received it to the record
    of its dispatch: the target (events/get-event-target.js), the React name of the event,
    a listener record for every listener along the dispatch path, and the queue entry with
    the listeners in the order in which a phase runs them. A record and its private payload
    are one value; a listener record is known by its number, since the code compares such
    records by identity. Constant fields and fields that repeat another are left out. *)
From S2P Require Import Prelude JsValue DomHost DomTree DomPayload DomCommit RootMarkers ComponentTree TreeTargets Events ListenerRegistry.

(** ** React names *)

Definition simpleEventPluginEvents : list string :=
  ["abort"; "auxClick"; "beforeToggle"; "cancel"; "canPlay"; "canPlayThrough"; "click"; "close";
   "contextMenu"; "copy"; "cut"; "drag"; "dragEnd"; "dragEnter"; "dragExit"; "dragLeave"; "dragOver";
   "dragStart"; "drop"; "durationChange"; "emptied"; "encrypted"; "ended"; "error";
   "gotPointerCapture"; "input"; "invalid"; "keyDown"; "keyPress"; "keyUp"; "load"; "loadedData";
   "loadedMetadata"; "loadStart"; "lostPointerCapture"; "mouseDown"; "mouseMove"; "mouseOut";
   "mouseOver"; "mouseUp"; "paste"; "pause"; "play"; "playing"; "pointerCancel"; "pointerDown";
   "pointerMove"; "pointerOut"; "pointerOver"; "pointerUp"; "progress"; "rateChange"; "reset";
   "resize"; "seeked"; "seeking"; "stalled"; "submit"; "suspend"; "timeUpdate"; "touchCancel";
   "touchEnd"; "touchMove"; "touchStart"; "volumeChange"; "scroll"; "scrollEnd"; "toggle";
   "waiting"; "wheel"].

(** [eventName[0].toUpperCase() + eventName.slice(1)] *)
Definition capitalize (s : string) : string :=
  match s with String c s => toUpperCase (String c EmptyString) +:+ s | EmptyString => "" end.

(** The later assignments of the code come first. *)
Definition simpleEventReactNames : list (string * string) :=
  [("animationend", "onAnimationEnd"); ("animationiteration", "onAnimationIteration");
   ("animationstart", "onAnimationStart"); ("dblclick", "onDoubleClick"); ("focusin", "onFocus");
   ("focusout", "onBlur"); ("transitioncancel", "onTransitionCancel");
   ("transitionend", "onTransitionEnd"); ("transitionrun", "onTransitionRun");
   ("transitionstart", "onTransitionStart")]
  ++ map (fun eventName => (toLowerCase eventName, "on" +:+ capitalize eventName)) simpleEventPluginEvents.

Definition getSimpleEventReactName (domEventName : string) : option string :=
  snd <$> List.find (fun p => String.eqb (fst p) domEventName) simpleEventReactNames.

Definition getSimpleEventRegistrationName (domEventName : string) (eventSystemFlags : N) : option string :=
  reactName ← getSimpleEventReactName domEventName;
  Some (if isCapturePhase eventSystemFlags then reactName +:+ "Capture" else reactName).

(** ** Plugins *)

Definition PLUGIN_EXTRACTION_BLOCKED_CODE : string := "FAST_REACT_DOM_PLUGIN_EXTRACTION_BLOCKED".
Definition polyfillEventPluginNames : list string :=
  ["enter-leave-event-plugin"; "change-event-plugin"; "select-event-plugin";
   "before-input-event-plugin"; "form-action-event-plugin"].

Record pluginRecord : Type := mkPlugin {
  pl_blockedReason : option string;
  pl_dispatchEntryCount : nat;
  pl_extractionStatus : string;
  pl_listenerMetadataCount : nat;
  pl_pluginName : string }.

Definition createPluginRecords (eventSystemFlags : N) (entryCount listenerCount : nat) : list pluginRecord :=
  let processPolyfills := shouldProcessPolyfillEventPlugins eventSystemFlags in
  [mkPlugin (Some PLUGIN_EXTRACTION_BLOCKED_CODE) entryCount "blocked" listenerCount "simple-event-plugin"]
  ++ map (fun name =>
       mkPlugin (if processPolyfills then Some PLUGIN_EXTRACTION_BLOCKED_CODE else None) 0
         (if processPolyfills then "blocked" else "skipped-by-event-system-flags") 0 name)
       polyfillEventPluginNames
  ++ [mkPlugin (Some PLUGIN_EXTRACTION_BLOCKED_CODE) 0 "blocked-by-feature-gate" 0 "scroll-end-event-plugin"].

Section Extract.
Context {Node D : Type} `{!EqDecision Node} `{!Countable Node} `{!Host Node D} (heap : ref -> jsobject).
(** [node.correspondingUseElement], [None] when falsy *)
Context (correspondingUseElement : D -> Node -> option (domArg Node)).
Implicit Types (d : D) (m : markerState Node) (t : treeState Node) (q : queueState Node) (n : Node).

(** ** Native events *)

(** What the code reads of a native event and what it writes. A missing property is
    [undefined]; a counter is [None] when it is no number; the two flags say whether the
    event has the methods. *)
Record nativeEvent : Type := mkNative {
  ne_type : value;
  ne_target : domArg Node;
  ne_srcElement : domArg Node;
  ne_defaultPrevented : value;
  ne_returnValue : value;
  ne_cancelBubble : value;
  ne_preventDefaultCallCount : option Z;
  ne_stopPropagationCallCount : option Z;
  ne_stopImmediatePropagationCallCount : option Z;
  ne_immediatePropagationStopped : value;
  ne_hasPreventDefault : bool;
  ne_hasStopPropagation : bool }.

(** The event argument: an object, by its identity in a store, or another value. *)
Definition eventArg : Type := (value + N)%type.
Definition nativeOf (events : gmap N nativeEvent) (e : eventArg) : option nativeEvent :=
  match e with inr id => events !! id | inl _ => None end.

(** [a || b] *)
Definition orArg (a b : domArg Node) : domArg Node :=
  match a with inr _ => a | inl v => if truthy v then a else b end.
Definition nodeOrNull (o : option Node) : domArg Node :=
  match o with Some n => inr n | None => inl VNull end.

Definition getEventTarget d (nativeEvent : option nativeEvent) (fallbackTarget : domArg Node) : res (domArg Node) :=
  let target := match nativeEvent with
    | Some e => orArg (ne_target e) (orArg (ne_srcElement e) (inl VNull))
    | None => inl VNull end in
  let target := match target with
    | inl VNull | inl VUndef => orArg fallbackTarget (inl VNull)
    | _ => target end in
  let target := match target with
    | inr n => default target (correspondingUseElement d n)
    | inl _ => target end in
  match target with
  | inr n =>
      let* nodeType := readProperty d n "nodeType" in
      if isNodeType nodeType 3 then Ok (nodeOrNull (parentNode d n)) else Ok target
  | inl _ => Ok target
  end.

Definition getNativeEventType (nativeEvent : option nativeEvent) (fallbackEventName : string) : string :=
  match nativeEvent with
  | Some e => match ne_type e with VStr s => s | _ => fallbackEventName end
  | None => fallbackEventName
  end.

(** ** Listener records *)

(** [dl_queueEntry] is the entry of a private listener queue, with its index and key. *)
Record dispatchListener : Type := mkDispatchListener {
  dl_id : N;
  dl_currentTarget : Node;
  dl_dispatchPathIndex : nat;
  dl_domEventName : string;
  dl_hostOwner : option value;
  dl_inCapturePhase : bool;
  dl_latestPropsPresent : bool;
  dl_nativeEventTarget : domArg Node;
  dl_nativeEventType : string;
  dl_registrationName : option string;
  dl_rootOwner : option value;
  dl_targetInst : N;
  dl_queueEntry : option (N * nat * string);
  dl_latestProps : option value;
  dl_listener : option ref;
  dl_nativeEvent : eventArg;
  dl_targetListenerLookupRecord : option (lookup (Node := Node)) }.

Section Event.
Context (wrapper : wrapperRecord Node) (event : eventArg) (native : option nativeEvent) (eventTarget : domArg Node).

Definition createDispatchListenerRecord (entry : pathEntry (Node := Node)) (l : lookup (Node := Node)) (next : N) :
    dispatchListener * N :=
  (mkDispatchListener next (pe_targetHostInstanceNode entry) (pe_index entry) (wr_domEventName wrapper)
     (pe_hostOwner entry) (isCapturePhase (wr_eventSystemFlags wrapper)) (isSome (lk_latestProps l))
     eventTarget (getNativeEventType native (wr_domEventName wrapper)) (lk_registrationName l)
     (pe_rootOwner entry) (pe_targetHostInstanceToken entry) None (lk_latestProps l) (lk_listener l)
     event (Some l), (next + 1)%N).

Definition createPrivateEventListenerQueueDispatchListenerRecord q (entry : pathEntry (Node := Node))
    (queueEntry : N) (next : N) : dispatchListener * N :=
  let payload := getPrivateEventListenerQueueEntryPayload q (Some queueEntry) in
  (mkDispatchListener next (pe_targetHostInstanceNode entry) (pe_index entry) (wr_domEventName wrapper)
     (pe_hostOwner entry) (isCapturePhase (wr_eventSystemFlags wrapper)) (pe_latestPropsPresent entry)
     eventTarget (getNativeEventType native (wr_domEventName wrapper))
     (getSimpleEventRegistrationName (wr_domEventName wrapper) (wr_eventSystemFlags wrapper))
     (pe_rootOwner entry) (pe_targetHostInstanceToken entry)
     ((fun p => (queueEntry, qr_listenerQueueIndex (snd p), qr_listenerQueueKey (snd p))) <$> payload)
     None ((fun p => qp_listener (fst p)) <$> payload) event None, (next + 1)%N).

Fixpoint queuedListeners q (entry : pathEntry (Node := Node)) (queueEntries : list N) (next : N) :
    list dispatchListener * N :=
  match queueEntries with
  | [] => ([], next)
  | e :: queueEntries =>
      let '(r, next) := createPrivateEventListenerQueueDispatchListenerRecord q entry e next in
      let '(rs, next) := queuedListeners q entry queueEntries next in (r :: rs, next)
  end.

Definition createPrivateEventListenerQueueDispatchListenerRecords q (entry : pathEntry (Node := Node)) (next : N) :
    list dispatchListener * N :=
  queuedListeners q entry
    (getPrivateEventListenerQueueEntries q (inr (pe_targetHostInstanceNode entry))
       (VStr (wr_domEventName wrapper)) (VBool (isCapturePhase (wr_eventSystemFlags wrapper)))) next.

(** ** The queue *)

Record dispatchQueueEntry : Type := mkQueueEntry {
  qe_domEventName : string;
  qe_inCapturePhase : bool;
  qe_listeners : list dispatchListener;
  qe_nativeEventTarget : domArg Node;
  qe_nativeEventType : string;
  qe_processingListenerRecords : list dispatchListener;
  qe_reactName : option string;
  qe_registrationName : option string }.

Definition createDispatchQueueEntryRecord (listeners : list dispatchListener) : dispatchQueueEntry :=
  let inCapturePhase := isCapturePhase (wr_eventSystemFlags wrapper) in
  mkQueueEntry (wr_domEventName wrapper) inCapturePhase listeners eventTarget
    (getNativeEventType native (wr_domEventName wrapper))
    (if inCapturePhase then rev listeners else listeners)
    (getSimpleEventReactName (wr_domEventName wrapper))
    (head listeners ≫= dl_registrationName).

Record dispatchQueue : Type := mkQueue {
  dq_entries : list dispatchQueueEntry;
  dq_listenerCount : nat }.
Definition createDispatchQueueRecord (entries : list dispatchQueueEntry) : dispatchQueue :=
  mkQueue entries (list_sum (map (fun e => length (qe_listeners e)) entries)).

Definition registrationNameValue : value :=
  match getSimpleEventRegistrationName (wr_domEventName wrapper) (wr_eventSystemFlags wrapper) with
  | Some name => VStr name
  | None => VNull
  end.

(** The loop over the path: the lookups and the listener records so far. *)
Fixpoint metadataLoop (fuel : nat) d m t q (target : normalizationRecord (Node := Node))
    (entries : list (pathEntry (Node := Node))) (lookups : list (lookup (Node := Node)))
    (listeners : list dispatchListener) (next : N) :
    option (effect N (list (lookup (Node := Node)) * list dispatchListener)) :=
  match entries with
  | [] => Some (Ok (lookups, listeners), next)
  | entry :: entries =>
      match (if (pe_index entry =? 0)%nat then Some (Ok target)
             else createEventTargetNormalizationRecord fuel d m t (inr (pe_targetHostInstanceNode entry))) with
      | None => None
      | Some (Throw e) => Some (Throw e, next)
      | Some (Ok normalization) =>
          match createEventListenerTargetLookupRecord heap d t (Some normalization) registrationNameValue with
          | Throw e => Some (Throw e, next)
          | Ok l =>
              let '(queued, next) := createPrivateEventListenerQueueDispatchListenerRecords q entry next in
              let '(own, next) := if lk_listenerFound l
                then let '(r, next) := createDispatchListenerRecord entry l next in ([r], next)
                else ([], next) in
              metadataLoop fuel d m t q target entries (lookups ++ [l]) (listeners ++ queued ++ own) next
          end
      end
  end.

Definition createSimpleEventDispatchMetadata (fuel : nat) d m t q (target : normalizationRecord (Node := Node))
    (path : pathRecord (Node := Node)) (next : N) :
    option (effect N (dispatchQueue * list (lookup (Node := Node)))) :=
  let queueOf (r : list (lookup (Node := Node)) * list dispatchListener) :=
    (createDispatchQueueRecord
       (match snd r with [] => [] | _ => [createDispatchQueueEntryRecord (snd r)] end), fst r) in
  match pr_entries path with
  | [] =>
      Some (do* l, next := pureStep (createEventListenerTargetLookupRecord heap d t (Some target) registrationNameValue) next in
            (Ok (queueOf ([l], [])), next))
  | entries =>
      match metadataLoop fuel d m t q target entries [] [] next with
      | None => None
      | Some r => Some (do* r, next := r in (Ok (queueOf r), next))
      end
  end.
End Event.

(** ** Dispatch records *)

Record dispatchRecord : Type := mkDispatch {
  dr_dispatchQueue : dispatchQueue;
  dr_nativeEvent : eventArg;
  dr_nativeEventTarget : domArg Node;
  dr_nativeEventType : string;
  dr_pluginRecords : list pluginRecord;
  dr_targetDispatchPathRecord : pathRecord (Node := Node);
  dr_targetInst : option N;
  dr_targetListenerLookupRecords : list (lookup (Node := Node));
  dr_targetNormalizationRecord : normalizationRecord (Node := Node);
  dr_wrapperRecord : wrapperRecord Node }.

Definition dr_inCapturePhase (r : dispatchRecord) : bool := isCapturePhase (wr_eventSystemFlags (dr_wrapperRecord r)).
Definition dr_targetListenerFound (r : dispatchRecord) : bool :=
  match dr_targetListenerLookupRecords r with l :: _ => lk_listenerFound l | [] => false end.

Definition INVALID_EVENT_WRAPPER_RECORD_CODE : string := "FAST_REACT_DOM_INVALID_EVENT_WRAPPER_RECORD".

(** An argument that is no wrapper is [None]. *)
Definition assertEventListenerWrapperRecord (wrapper : option (wrapperRecord Node)) : res (wrapperRecord Node) :=
  match wrapper with Some w => Ok w | None => hostError INVALID_EVENT_WRAPPER_RECORD_CODE end.

Definition createEventDispatchRecordFromWrapperRecord (fuel : nat) d m t q (events : gmap N nativeEvent)
    (wrapper : option (wrapperRecord Node)) (event : eventArg) (next : N) : option (effect N dispatchRecord) :=
  let native := nativeOf events event in
  match assertEventListenerWrapperRecord wrapper with
  | Throw e => Some (Throw e, next)
  | Ok w =>
      match getEventTarget d native (inr (wr_targetContainer w)) with
      | Throw e => Some (Throw e, next)
      | Ok eventTarget =>
          match createEventTargetNormalizationRecord fuel d m t eventTarget with
          | None => None
          | Some (Throw e) => Some (Throw e, next)
          | Some (Ok target) =>
              match createEventTargetDispatchPathRecord fuel d m t (Some target) with
              | None => None
              | Some (Throw e) => Some (Throw e, next)
              | Some (Ok path) =>
                  match createSimpleEventDispatchMetadata w event native eventTarget fuel d m t q target path next with
                  | None => None
                  | Some r =>
                      Some (do* x, next := r in
                            let '(queue, lookups) := x in
                            (Ok (mkDispatch queue event eventTarget
                                   (getNativeEventType native (wr_domEventName w))
                                   (createPluginRecords (wr_eventSystemFlags w) (length (dq_entries queue)) (dq_listenerCount queue))
                                   path (pr_targetInst path) lookups target w), next))
                  end
              end
          end
      end
  end.
End Extract.
Arguments nativeEvent Node : clear implicits.
Arguments dispatchListener Node : clear implicits.
Arguments dispatchQueueEntry Node : clear implicits.
Arguments dispatchQueue Node : clear implicits.
Arguments dispatchRecord Node : clear implicits.
