(* ===== verification/EventDispatch.v ===== *)
(** * Running the listeners of a dispatch (events/plugin-event-system.js)

    [invokeDispatchQueueCanaryFromDispatchRecords] runs the listeners of the dispatch queues
    of some dispatch records, one after the other, against an event object whose
    [currentTarget] changes from listener to listener. Three mutable objects of the code are
    parts of the state here: the current target, the propagation state and the state of
    [preventDefault], which all entries of one call share. A listener is a program that may
    call the event's methods, read it, change the native events and its own state, and
    return or throw. *)
From S2P Require Import Prelude JsValue DomHost DomTree Events ListenerRegistry ComponentTree TreeTargets EventExtract.

Definition INVALID_EVENT_DISPATCH_RECORD_CODE : string := "FAST_REACT_DOM_INVALID_EVENT_DISPATCH_RECORD".

Section Dispatch.
Context {Node : Type} `{!EqDecision Node} `{!Countable Node} {User : Type}.
(** The two methods of a native event. *)
Context (nativePreventDefault nativeStopPropagation : nativeEvent Node -> effect (nativeEvent Node) unit).
Abbreviation natives := (gmap N (nativeEvent Node)).
Abbreviation listener := (dispatchListener Node).
Implicit Types (e : eventArg) (ev : natives) (r : listener).

(** ** Listeners *)

(** What a listener can read of the event; [None] is a property or method that the event
    does not have. *)
Record eventView : Type := mkView {
  vw_currentTarget : option Node;
  vw_type : string;
  vw_inCapturePhase : bool;
  vw_registrationName : option string;
  vw_target : domArg Node;
  vw_targetInst : option N;
  vw_nativeEvent : option eventArg;
  vw_defaultPrevented : option bool;
  vw_isPropagationStopped : option bool;
  vw_isNativeImmediatePropagationStopped : option bool }.

(** A call of a method of the event gives its outcome: an exception can be caught. *)
Inductive program : Type :=
| Return (v : value)
| Raise (e : error)
| CallStopPropagation (k : res unit -> program)
| CallPreventDefault (k : res unit -> program)
| ReadEvent (k : eventView -> program)
| Own (f : natives * User -> natives * User) (k : natives * User -> program).

Context (listenerCode : ref -> program).

(** ** Native events *)

Definition sameEvent (a b : eventArg) : bool :=
  match a, b with inr x, inr y => (x =? y)%N | inl v, inl w => strictEq v w | _, _ => false end.

Definition getNativeEventDefaultPrevented ev e : bool :=
  match nativeOf ev e with
  | None => false
  | Some n => if nullish (ne_defaultPrevented n) then bool_decide (ne_returnValue n = VBool false)
              else bool_decide (ne_defaultPrevented n = VBool true)
  end.
Definition getNativeEventPreventDefaultDiagnosticCallCount ev e : Z :=
  default 0%Z (n ← nativeOf ev e; ne_preventDefaultCallCount n).
Definition getNativeStopPropagationCallCount ev e : Z :=
  default 0%Z (n ← nativeOf ev e; ne_stopPropagationCallCount n).
Definition getNativeStopImmediatePropagationCallCount ev e : Z :=
  match nativeOf ev e with
  | None => 0
  | Some n => match ne_stopImmediatePropagationCallCount n with
              | Some c => c
              | None => if bool_decide (ne_immediatePropagationStopped n = VBool true) then 1 else 0
              end
  end.

Definition setReturnValue (n : nativeEvent Node) : nativeEvent Node :=
  mkNative (ne_type n) (ne_target n) (ne_srcElement n) (ne_defaultPrevented n) (VBool false) (ne_cancelBubble n)
    (ne_preventDefaultCallCount n) (ne_stopPropagationCallCount n) (ne_stopImmediatePropagationCallCount n)
    (ne_immediatePropagationStopped n) (ne_hasPreventDefault n) (ne_hasStopPropagation n).
Definition setCancelBubble (n : nativeEvent Node) : nativeEvent Node :=
  mkNative (ne_type n) (ne_target n) (ne_srcElement n) (ne_defaultPrevented n) (ne_returnValue n) (VBool true)
    (ne_preventDefaultCallCount n) (ne_stopPropagationCallCount n) (ne_stopImmediatePropagationCallCount n)
    (ne_immediatePropagationStopped n) (ne_hasPreventDefault n) (ne_hasStopPropagation n).

(** The method when the event has it, else the assignment. *)
Definition routeToNativeEvent (has : nativeEvent Node -> bool) (call : nativeEvent Node -> effect (nativeEvent Node) unit)
    (assign : nativeEvent Node -> nativeEvent Node) e ev : effect natives unit :=
  match e with
  | inl _ => (Ok tt, ev)
  | inr id =>
      match ev !! id with
      | None => (Ok tt, ev)
      | Some n => if has n then let '(r, n) := call n in (r, <[id := n]> ev)
                  else (Ok tt, <[id := assign n]> ev)
      end
  end.
Definition routeCanaryPreventDefaultToNativeEvent e ev : effect natives unit :=
  routeToNativeEvent ne_hasPreventDefault nativePreventDefault setReturnValue e ev.
Definition routeCanaryStopPropagationToNativeEvent e ev : effect natives unit :=
  routeToNativeEvent ne_hasStopPropagation nativeStopPropagation setCancelBubble e ev.

(** ** The shared states *)

Record canaryOptions : Type := mkCanaryOptions {
  enableDefaultPreventedDiagnostics : bool;
  enableListenerErrorRoutingDiagnostics : bool;
  enableNativeStopImmediatePropagationDiagnostics : bool;
  enablePropagationStopDiagnostics : bool;
  useProcessingOrder : bool }.

(** The properties of the options object, in the order of [canaryOptions]; [None] is no object. *)
Definition normalizeDispatchQueueCanaryOptions (options : option (value * value * value * value * value)) :
    canaryOptions :=
  let '(a, b, c, d, p) := default (VUndef, VUndef, VUndef, VUndef, VUndef) options in
  let enabled v := bool_decide (v = VBool true) in
  mkCanaryOptions (enabled a) (enabled b) (enabled c) (enabled d) (negb (bool_decide (p = VBool false))).

Record propagationState : Type := mkPropagation {
  ps_currentDispatchListenerRecord : option listener;
  ps_currentTarget : option Node;
  ps_enableNativeStop : bool;
  ps_enableStop : bool;
  ps_nativeImmediatePropagationStopped : bool;
  ps_nativeEvent : eventArg;
  ps_nativeStopImmediateCallCount : Z;
  ps_nativeStopImmediateNativeCallCount : Z;
  ps_nativeStopImmediateSource : option listener;
  ps_nativeStopImmediateStoppedNativeEvent : eventArg;
  ps_nativeStopPropagationCallCount : Z;
  ps_propagationStopped : bool;
  ps_stoppedNativeEvent : eventArg;
  ps_stopPropagationCallCount : Z;
  ps_stopSourceListenerRecord : option listener }.

Record defaultPreventedState : Type := mkDefaultPrevented {
  dp_currentDispatchListenerRecord : option listener;
  dp_currentTarget : option Node;
  dp_defaultPrevented : bool;
  dp_initialDefaultPrevented : bool;
  dp_initialNativePreventDefaultCallCount : Z;
  dp_nativeEvent : eventArg;
  dp_nativeEventPreventDefaultCallCount : Z;
  dp_preventDefaultCallCount : Z;
  dp_preventDefaultSourceListenerRecord : option listener }.

Definition nullEvent : eventArg := inl VNull.

Definition createDispatchQueuePropagationDiagnosticState (o : canaryOptions) : option propagationState :=
  if negb (enablePropagationStopDiagnostics o) && negb (enableNativeStopImmediatePropagationDiagnostics o) then None
  else Some (mkPropagation None None (enableNativeStopImmediatePropagationDiagnostics o)
               (enablePropagationStopDiagnostics o) false nullEvent 0 0 None nullEvent 0 false nullEvent 0 None).

Definition createDispatchQueueDefaultPreventedDiagnosticState (o : canaryOptions) : option defaultPreventedState :=
  if enableDefaultPreventedDiagnostics o
  then Some (mkDefaultPrevented None None false false 0 nullEvent 0 0 None) else None.

(** [currentTargetState] *)
Record currentTargetState : Type := mkCurrent {
  ct_currentDispatchListenerRecord : option listener;
  ct_currentTarget : option Node }.

Record runState : Type := mkRun {
  rs_events : natives;
  rs_user : User;
  rs_current : currentTargetState;
  rs_propagation : option propagationState;
  rs_default : option defaultPreventedState }.
Implicit Types (s : runState).

Definition setEvents ev s : runState := mkRun ev (rs_user s) (rs_current s) (rs_propagation s) (rs_default s).
Definition setOwn (x : natives * User) s : runState :=
  mkRun (fst x) (snd x) (rs_current s) (rs_propagation s) (rs_default s).
Definition setPropagation p s : runState := mkRun (rs_events s) (rs_user s) (rs_current s) p (rs_default s).
Definition setDefault p s : runState := mkRun (rs_events s) (rs_user s) (rs_current s) (rs_propagation s) p.
Definition overPropagation (f : propagationState -> propagationState) s : runState :=
  setPropagation (f <$> rs_propagation s) s.
Definition overDefault (f : defaultPreventedState -> defaultPreventedState) s : runState :=
  setDefault (f <$> rs_default s) s.

(** ** The event object *)

(** The static fields of the event, which come from the first listener of the entry; it has
    no context, and then a [currentTarget] of its own, when one listener runs alone. *)
Record canaryEvent : Type := mkCanaryEvent {
  ce_nativeEventType : string;
  ce_inCapturePhase : bool;
  ce_registrationName : option string;
  ce_target : domArg Node;
  ce_targetInst : option N;
  ce_ownCurrentTarget : option Node;
  ce_hasContext : bool }.

Definition contextPropagation (c : canaryEvent) s : option propagationState :=
  if ce_hasContext c then rs_propagation s else None.
Definition contextDefault (c : canaryEvent) s : option defaultPreventedState :=
  if ce_hasContext c then rs_default s else None.

Definition isNativeImmediatePropagationStopped (p : propagationState) ev : bool :=
  ps_nativeImmediatePropagationStopped p
  || (ps_nativeStopImmediateNativeCallCount p <? getNativeStopImmediatePropagationCallCount ev (ps_nativeEvent p))%Z.

Definition eventNow (c : canaryEvent) s : eventView :=
  let stop := p ← contextPropagation c s; if ps_enableStop p then Some p else None in
  let native := p ← contextPropagation c s; if ps_enableNativeStop p then Some p else None in
  mkView (if ce_hasContext c then ct_currentTarget (rs_current s) else ce_ownCurrentTarget c)
    (ce_nativeEventType c) (ce_inCapturePhase c) (ce_registrationName c) (ce_target c) (ce_targetInst c)
    (ps_nativeEvent <$> native) (dp_defaultPrevented <$> contextDefault c s) (ps_propagationStopped <$> stop)
    ((fun p => isNativeImmediatePropagationStopped p (rs_events s)) <$> native).

Definition syncDefaultPrevented ev (p : defaultPreventedState) : defaultPreventedState :=
  mkDefaultPrevented (dp_currentDispatchListenerRecord p) (dp_currentTarget p)
    (dp_defaultPrevented p || getNativeEventDefaultPrevented ev (dp_nativeEvent p))
    (dp_initialDefaultPrevented p) (dp_initialNativePreventDefaultCallCount p) (dp_nativeEvent p)
    (getNativeEventPreventDefaultDiagnosticCallCount ev (dp_nativeEvent p))
    (dp_preventDefaultCallCount p) (dp_preventDefaultSourceListenerRecord p).
Definition syncDefaultPreventedDiagnosticStateFromNative s : runState :=
  overDefault (syncDefaultPrevented (rs_events s)) s.

Definition markPrevented (p : defaultPreventedState) : defaultPreventedState :=
  mkDefaultPrevented (dp_currentDispatchListenerRecord p) (dp_currentTarget p) true
    (dp_initialDefaultPrevented p) (dp_initialNativePreventDefaultCallCount p) (dp_nativeEvent p)
    (dp_nativeEventPreventDefaultCallCount p) (dp_preventDefaultCallCount p + 1)
    (dp_currentDispatchListenerRecord p).

(** [event.preventDefault()]; without the diagnostics the event has no such method. *)
Definition callPreventDefault (c : canaryEvent) s : effect runState unit :=
  match contextDefault c s with
  | None => (Throw (TypeError "event.preventDefault is not a function"), s)
  | Some p =>
      let s := setDefault (Some (markPrevented p)) s in
      let '(r, ev) := routeCanaryPreventDefaultToNativeEvent (dp_nativeEvent p) (rs_events s) in
      let s := setEvents ev s in
      do* _, s := pureStep r s in
      (Ok tt, syncDefaultPreventedDiagnosticStateFromNative s)
  end.

Definition markStopped (p : propagationState) : propagationState :=
  mkPropagation (ps_currentDispatchListenerRecord p) (ps_currentTarget p) (ps_enableNativeStop p) (ps_enableStop p)
    (ps_nativeImmediatePropagationStopped p) (ps_nativeEvent p) (ps_nativeStopImmediateCallCount p)
    (ps_nativeStopImmediateNativeCallCount p) (ps_nativeStopImmediateSource p)
    (ps_nativeStopImmediateStoppedNativeEvent p) (ps_nativeStopPropagationCallCount p) true
    (ps_nativeEvent p) (ps_stopPropagationCallCount p + 1) (ps_currentDispatchListenerRecord p).
Definition setNativeStopCount (n : Z) (p : propagationState) : propagationState :=
  mkPropagation (ps_currentDispatchListenerRecord p) (ps_currentTarget p) (ps_enableNativeStop p) (ps_enableStop p)
    (ps_nativeImmediatePropagationStopped p) (ps_nativeEvent p) (ps_nativeStopImmediateCallCount p)
    (ps_nativeStopImmediateNativeCallCount p) (ps_nativeStopImmediateSource p)
    (ps_nativeStopImmediateStoppedNativeEvent p) n (ps_propagationStopped p)
    (ps_stoppedNativeEvent p) (ps_stopPropagationCallCount p) (ps_stopSourceListenerRecord p).

(** [event.stopPropagation()] *)
Definition callStopPropagation (c : canaryEvent) s : effect runState unit :=
  match (p ← contextPropagation c s; if ps_enableStop p then Some p else None) with
  | None => (Throw (TypeError "event.stopPropagation is not a function"), s)
  | Some p =>
      let s := setPropagation (Some (markStopped p)) s in
      let '(r, ev) := routeCanaryStopPropagationToNativeEvent (ps_nativeEvent p) (rs_events s) in
      let s := setEvents ev s in
      do* _, s := pureStep r s in
      (Ok tt, overPropagation (setNativeStopCount (getNativeStopPropagationCallCount ev (ps_nativeEvent p))) s)
  end.

Fixpoint run (c : canaryEvent) (p : program) s : effect runState value :=
  match p with
  | Return v => (Ok v, s)
  | Raise e => (Throw e, s)
  | CallStopPropagation k => let '(r, s) := callStopPropagation c s in run c (k r) s
  | CallPreventDefault k => let '(r, s) := callPreventDefault c s in run c (k r) s
  | ReadEvent k => run c (k (eventNow c s)) s
  | Own f k => let x := f (rs_events s, rs_user s) in run c (k x) (setOwn x s)
  end.

(** ** Preparing and resetting *)

Definition setPropagationTarget (r : option listener) (p : propagationState) : propagationState :=
  mkPropagation r (dl_currentTarget <$> r) (ps_enableNativeStop p) (ps_enableStop p)
    (ps_nativeImmediatePropagationStopped p) (ps_nativeEvent p) (ps_nativeStopImmediateCallCount p)
    (ps_nativeStopImmediateNativeCallCount p) (ps_nativeStopImmediateSource p)
    (ps_nativeStopImmediateStoppedNativeEvent p) (ps_nativeStopPropagationCallCount p) (ps_propagationStopped p)
    (ps_stoppedNativeEvent p) (ps_stopPropagationCallCount p) (ps_stopSourceListenerRecord p).
Definition setDefaultTarget (r : option listener) (p : defaultPreventedState) : defaultPreventedState :=
  mkDefaultPrevented r (dl_currentTarget <$> r) (dp_defaultPrevented p) (dp_initialDefaultPrevented p)
    (dp_initialNativePreventDefaultCallCount p) (dp_nativeEvent p) (dp_nativeEventPreventDefaultCallCount p)
    (dp_preventDefaultCallCount p) (dp_preventDefaultSourceListenerRecord p).

Definition setListenerOfEvent (r : option listener) s : runState :=
  overDefault (setDefaultTarget r) (overPropagation (setPropagationTarget r)
    (mkRun (rs_events s) (rs_user s) (mkCurrent r (dl_currentTarget <$> r)) (rs_propagation s) (rs_default s))).
Definition prepareDispatchQueueCanaryEventForListener (c : canaryEvent) r s : runState :=
  if ce_hasContext c then setListenerOfEvent (Some r) s else s.
Definition resetDispatchQueueCanaryEventAfterListener (c : canaryEvent) s : runState :=
  if ce_hasContext c then setListenerOfEvent None s else s.

(** The native event is compared with the ones that were stopped before. *)
Definition enterPropagation ev e (p : propagationState) : propagationState :=
  mkPropagation (ps_currentDispatchListenerRecord p) (ps_currentTarget p) (ps_enableNativeStop p) (ps_enableStop p)
    (sameEvent (ps_nativeStopImmediateStoppedNativeEvent p) e && ps_nativeImmediatePropagationStopped p) e
    (ps_nativeStopImmediateCallCount p) (getNativeStopImmediatePropagationCallCount ev e)
    (ps_nativeStopImmediateSource p) (ps_nativeStopImmediateStoppedNativeEvent p)
    (getNativeStopPropagationCallCount ev e)
    (sameEvent (ps_stoppedNativeEvent p) e && ps_propagationStopped p)
    (ps_stoppedNativeEvent p) (ps_stopPropagationCallCount p) (ps_stopSourceListenerRecord p).

Definition initializeDefaultPreventedDiagnosticStateForNativeEvent ev e (p : defaultPreventedState) :
    defaultPreventedState :=
  if sameEvent (dp_nativeEvent p) e then syncDefaultPrevented ev p
  else mkDefaultPrevented (dp_currentDispatchListenerRecord p) (dp_currentTarget p)
         (getNativeEventDefaultPrevented ev e) (getNativeEventDefaultPrevented ev e)
         (getNativeEventPreventDefaultDiagnosticCallCount ev e) e
         (getNativeEventPreventDefaultDiagnosticCallCount ev e)
         (dp_preventDefaultCallCount p) (dp_preventDefaultSourceListenerRecord p).

(** [None] is an entry without listeners. *)
Definition createDispatchQueueCanaryEventContext (d : dispatchRecord Node) (listenerRecords : list listener) s :
    option canaryEvent * runState :=
  match listenerRecords with
  | [] => (None, s)
  | first :: _ =>
      let e := dl_nativeEvent first in
      (Some (mkCanaryEvent (dl_nativeEventType first) (dl_inCapturePhase first) (dl_registrationName first)
               (dl_nativeEventTarget first) (dr_targetInst d) None true),
       overDefault (initializeDefaultPreventedDiagnosticStateForNativeEvent (rs_events s) e)
         (overPropagation (enterPropagation (rs_events s) e)
            (mkRun (rs_events s) (rs_user s) (mkCurrent None None) (rs_propagation s) (rs_default s))))
  end.

(** [previousInstance] is [None] before the first listener. *)
Definition shouldSkipDispatchListenerForPropagationStop r (previousInstance : option N) (c : canaryEvent) s : bool :=
  match contextPropagation c s with
  | None => false
  | Some p => ps_propagationStopped p && negb (bool_decide (previousInstance = Some (dl_targetInst r)))
  end.
Definition shouldSkipDispatchListenerForNativeStopImmediatePropagation r (c : canaryEvent) s : bool :=
  match contextPropagation c s with
  | None => false
  | Some p => ps_enableNativeStop p && ps_nativeImmediatePropagationStopped p
              && negb (bool_decide (dl_id <$> ps_nativeStopImmediateSource p = Some (dl_id r)))
  end.

Definition updateNativeStop ev (before : Z) (p : propagationState) : propagationState :=
  let after := getNativeStopImmediatePropagationCallCount ev (ps_nativeEvent p) in
  if negb (ps_enableNativeStop p) then p
  else if (after <=? before)%Z then
    mkPropagation (ps_currentDispatchListenerRecord p) (ps_currentTarget p) (ps_enableNativeStop p) (ps_enableStop p)
      (ps_nativeImmediatePropagationStopped p) (ps_nativeEvent p) (ps_nativeStopImmediateCallCount p)
      after (ps_nativeStopImmediateSource p) (ps_nativeStopImmediateStoppedNativeEvent p)
      (ps_nativeStopPropagationCallCount p) (ps_propagationStopped p)
      (ps_stoppedNativeEvent p) (ps_stopPropagationCallCount p) (ps_stopSourceListenerRecord p)
  else
    mkPropagation (ps_currentDispatchListenerRecord p) (ps_currentTarget p) (ps_enableNativeStop p) (ps_enableStop p)
      true (ps_nativeEvent p) (ps_nativeStopImmediateCallCount p + (after - before))
      after (ps_currentDispatchListenerRecord p) (ps_nativeEvent p)
      (ps_nativeStopPropagationCallCount p) (ps_propagationStopped p)
      (ps_stoppedNativeEvent p) (ps_stopPropagationCallCount p) (ps_stopSourceListenerRecord p).
Definition updateNativeStopImmediatePropagationDiagnosticState (before : Z) s : runState :=
  overPropagation (updateNativeStop (rs_events s) before) s.

(** ** Invoking one listener *)

Inductive skipReason : Type :=
| NoDispatchQueueEntry
| NoDispatchListenerRecord
| NoListenerFunction
| PropagationStoppedSkip
| NativeStopImmediateSkip.

Inductive invocationStatus : Type :=
| InvokedListener
| CapturedListenerError
| Skipped (reason : skipReason).

#[export] Instance skipReason_eq_dec : EqDecision skipReason.
Proof. solve_decision. Defined.
#[export] Instance invocationStatus_eq_dec : EqDecision invocationStatus.
Proof. solve_decision. Defined.

(** The fields that repeat the listener record are read from it; [iv_error] and
    [iv_returnValue] are of the private payload. *)
Record invocationRecord : Type := mkInvocation {
  iv_listenerRecord : option listener;
  iv_invocationStatus : invocationStatus;
  iv_currentTargetBefore : option Node;
  iv_currentTargetDuring : option Node;
  iv_currentTargetAfter : option Node;
  iv_currentTargetReset : bool;
  iv_defaultPreventedBefore : bool;
  iv_defaultPreventedAfter : bool;
  iv_nativeDefaultPreventedBefore : bool;
  iv_nativeDefaultPreventedAfter : bool;
  iv_nativePreventDefaultCallCountBefore : Z;
  iv_nativePreventDefaultCallCountAfter : Z;
  iv_nativeImmediateStoppedBefore : bool;
  iv_nativeImmediateStoppedAfter : bool;
  iv_nativeStopImmediateCallCount : Z;
  iv_nativeStopImmediateCallCountDelta : Z;
  iv_nativeStopImmediateNativeCallCount : Z;
  iv_nativeStopImmediateNativeCallCountDelta : Z;
  iv_propagationStoppedBefore : bool;
  iv_propagationStoppedAfter : bool;
  iv_propagationStopCallCount : Z;
  iv_propagationStopCallCountDelta : Z;
  iv_preventDefaultCallCount : Z;
  iv_preventDefaultCallCountDelta : Z;
  iv_listenerErrorCaptured : bool;
  iv_listenerIndex : nat;
  iv_listenerInvocationCount : nat;
  iv_listenerReturnStatus : string;
  iv_selectedFromProcessingOrder : bool;
  iv_error : option error;
  iv_returnValue : value }.

Definition stopCount (p : option propagationState) : Z := default 0%Z (ps_stopPropagationCallCount <$> p).
Definition stopped (p : option propagationState) : bool := default false (ps_propagationStopped <$> p).
Definition immediateStopped (p : option propagationState) : bool :=
  default false (ps_nativeImmediatePropagationStopped <$> p).
Definition nativeCallCount (p : option propagationState) : Z :=
  default 0%Z (ps_nativeStopImmediateNativeCallCount <$> p).
Definition getNativeStopImmediatePropagationDiagnosticCallCount (p : option propagationState) : Z :=
  match p with
  | Some p => if ps_enableNativeStop p then ps_nativeStopImmediateCallCount p else 0
  | None => 0
  end.
Definition getDefaultPreventedDiagnosticCallCount (p : option defaultPreventedState) : Z :=
  default 0%Z (dp_preventDefaultCallCount <$> p).
Definition prevented (p : option defaultPreventedState) : bool := default false (dp_defaultPrevented <$> p).
Definition nativePrevented ev (p : option defaultPreventedState) : bool :=
  match p with Some p => getNativeEventDefaultPrevented ev (dp_nativeEvent p) | None => false end.
Definition nativePreventCount ev (p : option defaultPreventedState) : Z :=
  match p with Some p => getNativeEventPreventDefaultDiagnosticCallCount ev (dp_nativeEvent p) | None => 0 end.

(** [diagnostic] is the state that is passed for two of the reasons. *)
Definition createSkippedSingleListenerInvocationCanaryRecord (r : option listener) (listenerIndex : nat)
    (processing : bool) (reason : skipReason) (diagnostic : option propagationState) : invocationRecord :=
  let native := bool_decide (reason = NativeStopImmediateSkip) in
  let stop := bool_decide (reason = PropagationStoppedSkip) in
  mkInvocation r (Skipped reason) None None None false false false false false 0 0 native native
    (getNativeStopImmediatePropagationDiagnosticCallCount diagnostic) 0 (nativeCallCount diagnostic) 0
    stop stop (stopCount diagnostic) 0 0 0 false listenerIndex 0 "not-applicable" processing None VUndef.

Definition describeReturnValue (v : value) : string :=
  match v with
  | VUndef => "undefined"
  | VNull => "null"
  | VBool _ => "boolean"
  | VNum _ => "number"
  | VStr _ => "string"
  | VSym _ _ => "symbol"
  | VBigInt _ => "bigint"
  | VFun _ => "function"
  | VObj _ => "object"
  end.

(** The variable [error] after the [try] statement: it is still [null] when [null] was thrown. *)
Definition caughtError (r : res value) : option error :=
  match r with
  | Ok _ => None
  | Throw (Thrown VNull) => None
  | Throw e => Some e
  end.

(** The event without a context, for a listener that runs by itself. *)
Definition ownCanaryEvent r : canaryEvent :=
  mkCanaryEvent (dl_nativeEventType r) (dl_inCapturePhase r) (dl_registrationName r)
    (dl_nativeEventTarget r) (Some (dl_targetInst r)) (Some (dl_currentTarget r)) false.

(** The listener's call, with what surrounds it in the [try] statement: its outcome, and the
    three values of [currentTarget]. *)
Definition callListener (c : canaryEvent) r (f : ref) (nativeCallCountBefore : Z) s :
    (res value * (option Node * option Node * option Node)) * runState :=
  let before := vw_currentTarget (eventNow c s) in
  let s := prepareDispatchQueueCanaryEventForListener c r s in
  let during := vw_currentTarget (eventNow c s) in
  let '(outcome, s) := run c (listenerCode f) s in
  let s := if ce_hasContext c
    then resetDispatchQueueCanaryEventAfterListener c
           (updateNativeStopImmediatePropagationDiagnosticState nativeCallCountBefore s)
    else s in
  ((outcome, (before, during, vw_currentTarget (eventNow c s))), s).

Definition invokeDispatchListenerRecordForCanary (context : option canaryEvent) r (listenerIndex : nat)
    (processing : bool) s : invocationRecord * runState :=
  match dl_listener r with
  | None =>
      (createSkippedSingleListenerInvocationCanaryRecord (Some r) listenerIndex processing NoListenerFunction None, s)
  | Some f =>
      let c := default (ownCanaryEvent r) context in
      let p0 := contextPropagation c s in
      let d0 := contextDefault c s in
      let '((outcome, (before, during, after)), s1) := callListener c r f (nativeCallCount p0) s in
      let s2 := if ce_hasContext c then syncDefaultPreventedDiagnosticStateFromNative s1 else s1 in
      let p1 := contextPropagation c s2 in
      let d1 := contextDefault c s2 in
      let error := caughtError outcome in
      let returnValue := match outcome with Ok v => v | Throw _ => VUndef end in
      (mkInvocation (Some r) (match error with None => InvokedListener | Some _ => CapturedListenerError end)
         before during after (ce_hasContext c && bool_decide (after = None))
         (prevented d0) (prevented d1)
         (nativePrevented (rs_events s) d0) (nativePrevented (rs_events s2) d1)
         (nativePreventCount (rs_events s) d0) (nativePreventCount (rs_events s2) d1)
         (immediateStopped p0) (immediateStopped p1)
         (getNativeStopImmediatePropagationDiagnosticCallCount p1)
         (getNativeStopImmediatePropagationDiagnosticCallCount p1
            - getNativeStopImmediatePropagationDiagnosticCallCount p0)
         (nativeCallCount p1) (nativeCallCount p1 - nativeCallCount p0)
         (stopped p0) (stopped p1) (stopCount p1) (stopCount p1 - stopCount p0)
         (getDefaultPreventedDiagnosticCallCount d1)
         (getDefaultPreventedDiagnosticCallCount d1 - getDefaultPreventedDiagnosticCallCount d0)
         (isSome error) listenerIndex 1
         (match error with None => describeReturnValue returnValue | Some _ => "not-applicable" end)
         processing error returnValue, s2)
  end.

(** ** Diagnostics *)

Inductive queueRelation : Type := UnknownSource | SameTarget | Ancestor | Descendant.
Definition getListenerQueueRelationToSource r (source : option listener) : queueRelation :=
  match source with
  | None => UnknownSource
  | Some source =>
      if (dl_targetInst source =? dl_targetInst r)%N then SameTarget
      else if (dl_dispatchPathIndex source <? dl_dispatchPathIndex r)%nat then Ancestor else Descendant
  end.

(** A record of [stopPropagation], or of a listener that it skips. *)
Record propagationDiagnostic : Type := mkPropagationDiagnostic {
  pd_listenerRecord : listener;
  pd_skippedListener : bool;
  pd_nativeStopPropagationCallCount : Z;
  pd_propagationStopCallCount : Z;
  pd_propagationStopped : bool;
  pd_stopSource : option listener;
  pd_relation : queueRelation;
  pd_sameTargetAsStopSource : bool }.
Definition sameTargetAs r (source : option listener) : bool :=
  match source with Some s => (dl_targetInst s =? dl_targetInst r)%N | None => false end.
Definition createDispatchPropagationStopDiagnosticRecord r (p : propagationState) (skipped : bool) :
    propagationDiagnostic :=
  mkPropagationDiagnostic r skipped (ps_nativeStopPropagationCallCount p) (ps_stopPropagationCallCount p)
    (ps_propagationStopped p) (ps_stopSourceListenerRecord p)
    (getListenerQueueRelationToSource r (ps_stopSourceListenerRecord p))
    (sameTargetAs r (ps_stopSourceListenerRecord p)).

Record nativeStopDiagnostic : Type := mkNativeStopDiagnostic {
  nd_listenerRecord : listener;
  nd_skippedListener : bool;
  nd_nativeImmediatePropagationStopped : bool;
  nd_callCount : Z;
  nd_nativeCallCount : Z;
  nd_source : option listener;
  nd_relation : queueRelation;
  nd_sameTargetAsStopSource : bool }.
Definition createDispatchNativeStopImmediatePropagationDiagnosticRecord r (p : propagationState) (skipped : bool) :
    nativeStopDiagnostic :=
  mkNativeStopDiagnostic r skipped (ps_nativeImmediatePropagationStopped p) (ps_nativeStopImmediateCallCount p)
    (ps_nativeStopImmediateNativeCallCount p) (ps_nativeStopImmediateSource p)
    (getListenerQueueRelationToSource r (ps_nativeStopImmediateSource p))
    (sameTargetAs r (ps_nativeStopImmediateSource p)).

Record defaultPreventedDiagnostic : Type := mkDefaultDiagnostic {
  dd_listenerRecord : listener;
  dd_defaultPrevented : bool;
  dd_nativeDefaultPrevented : bool;
  dd_nativePreventDefaultCallCount : Z;
  dd_preventDefaultCallCount : Z;
  dd_source : option listener }.
Definition createDispatchDefaultPreventedDiagnosticRecord ev r (p : defaultPreventedState) : defaultPreventedDiagnostic :=
  mkDefaultDiagnostic r (dp_defaultPrevented p) (getNativeEventDefaultPrevented ev (dp_nativeEvent p))
    (getNativeEventPreventDefaultDiagnosticCallCount ev (dp_nativeEvent p))
    (dp_preventDefaultCallCount p) (dp_preventDefaultSourceListenerRecord p).

(** The report of a listener's error, with its number. *)
Record errorRoute : Type := mkErrorRoute {
  eo_errorRouteIndex : nat;
  eo_invocationRecord : invocationRecord;
  eo_error : option error }.
Definition createDispatchListenerErrorRouteRecord (iv : invocationRecord) (errorRouteIndex : nat) : errorRoute :=
  mkErrorRoute errorRouteIndex iv (iv_error iv).

(** ** The loops *)

(** What the call collects. *)
Record tally : Type := mkTally {
  ta_invocationRecords : list invocationRecord;
  ta_listenerErrorRoutes : list errorRoute;
  ta_defaultPreventedDiagnostics : list defaultPreventedDiagnostic;
  ta_propagationStopDiagnostics : list propagationDiagnostic;
  ta_nativeStopDiagnostics : list nativeStopDiagnostic;
  ta_dispatchQueueEntryCount : nat;
  ta_listenerCandidateCount : nat;
  ta_listenerInvocationCount : nat;
  ta_listenerErrorCount : nat;
  ta_propagationSkippedListenerCount : nat;
  ta_nativeStopSkippedListenerCount : nat }.
Definition emptyTally : tally := mkTally [] [] [] [] [] 0 0 0 0 0 0.

Definition onePropagation (p : option propagationState) {A : Type} (f : propagationState -> A) : list A :=
  match p with Some p => [f p] | None => [] end.

Definition tallyNativeSkip (iv : invocationRecord) r (p : option propagationState) (a : tally) : tally :=
  mkTally (ta_invocationRecords a ++ [iv]) (ta_listenerErrorRoutes a) (ta_defaultPreventedDiagnostics a)
    (ta_propagationStopDiagnostics a)
    (ta_nativeStopDiagnostics a
       ++ onePropagation p (fun p => createDispatchNativeStopImmediatePropagationDiagnosticRecord r p true))
    (ta_dispatchQueueEntryCount a) (ta_listenerCandidateCount a) (ta_listenerInvocationCount a)
    (ta_listenerErrorCount a) (ta_propagationSkippedListenerCount a) (ta_nativeStopSkippedListenerCount a + 1).

Definition tallyPropagationSkip (iv : invocationRecord) r (p : option propagationState) (a : tally) : tally :=
  mkTally (ta_invocationRecords a ++ [iv]) (ta_listenerErrorRoutes a) (ta_defaultPreventedDiagnostics a)
    (ta_propagationStopDiagnostics a
       ++ onePropagation p (fun p => createDispatchPropagationStopDiagnosticRecord r p true))
    (ta_nativeStopDiagnostics a) (ta_dispatchQueueEntryCount a) (ta_listenerCandidateCount a)
    (ta_listenerInvocationCount a) (ta_listenerErrorCount a) (ta_propagationSkippedListenerCount a + 1)
    (ta_nativeStopSkippedListenerCount a).

(** After an invocation, [s] before it and [s'] after it. *)
Definition tallyInvocation (o : canaryOptions) (iv : invocationRecord) r s s' (a : tally) : tally :=
  mkTally (ta_invocationRecords a ++ [iv])
    (ta_listenerErrorRoutes a
       ++ (if iv_listenerErrorCaptured iv && enableListenerErrorRoutingDiagnostics o
           then [createDispatchListenerErrorRouteRecord iv (length (ta_listenerErrorRoutes a))] else []))
    (ta_defaultPreventedDiagnostics a
       ++ (match rs_default s' with
           | Some p =>
               if (getDefaultPreventedDiagnosticCallCount (rs_default s) <? dp_preventDefaultCallCount p)%Z
               then [createDispatchDefaultPreventedDiagnosticRecord (rs_events s') r p] else []
           | None => []
           end))
    (ta_propagationStopDiagnostics a
       ++ (match rs_propagation s' with
           | Some p => if (stopCount (rs_propagation s) <? ps_stopPropagationCallCount p)%Z
                       then [createDispatchPropagationStopDiagnosticRecord r p false] else []
           | None => []
           end))
    (ta_nativeStopDiagnostics a
       ++ (match rs_propagation s' with
           | Some p => if (getNativeStopImmediatePropagationDiagnosticCallCount (rs_propagation s)
                             <? ps_nativeStopImmediateCallCount p)%Z
                       then [createDispatchNativeStopImmediatePropagationDiagnosticRecord r p false] else []
           | None => []
           end))
    (ta_dispatchQueueEntryCount a) (ta_listenerCandidateCount a)
    (ta_listenerInvocationCount a + iv_listenerInvocationCount iv)
    (ta_listenerErrorCount a + (if iv_listenerErrorCaptured iv then 1 else 0))
    (ta_propagationSkippedListenerCount a) (ta_nativeStopSkippedListenerCount a).

Definition tallyEntry (candidates : nat) (a : tally) : tally :=
  mkTally (ta_invocationRecords a) (ta_listenerErrorRoutes a) (ta_defaultPreventedDiagnostics a)
    (ta_propagationStopDiagnostics a) (ta_nativeStopDiagnostics a) (ta_dispatchQueueEntryCount a + 1)
    (ta_listenerCandidateCount a + candidates) (ta_listenerInvocationCount a) (ta_listenerErrorCount a)
    (ta_propagationSkippedListenerCount a) (ta_nativeStopSkippedListenerCount a).

Fixpoint listenerLoop (o : canaryOptions) (c : canaryEvent) (listenerIndex : nat) (previousInstance : option N)
    (listenerRecords : list listener) (a : tally) s : tally * runState :=
  match listenerRecords with
  | [] => (a, s)
  | r :: rest =>
      let skipped reason := createSkippedSingleListenerInvocationCanaryRecord (Some r) listenerIndex
                              (useProcessingOrder o) reason (rs_propagation s) in
      if shouldSkipDispatchListenerForNativeStopImmediatePropagation r c s then
        listenerLoop o c (S listenerIndex) (Some (dl_targetInst r)) rest
          (tallyNativeSkip (skipped NativeStopImmediateSkip) r (rs_propagation s) a) s
      else if shouldSkipDispatchListenerForPropagationStop r previousInstance c s then
        (tallyPropagationSkip (skipped PropagationStoppedSkip) r (rs_propagation s) a, s)
      else
        let '(iv, s') := invokeDispatchListenerRecordForCanary (Some c) r listenerIndex (useProcessingOrder o) s in
        listenerLoop o c (S listenerIndex) (Some (dl_targetInst r)) rest (tallyInvocation o iv r s s' a) s'
  end.

Definition listenersOf (o : canaryOptions) (entry : dispatchQueueEntry Node) : list listener :=
  if useProcessingOrder o then qe_processingListenerRecords entry else qe_listeners entry.

Definition entryStep (o : canaryOptions) (d : dispatchRecord Node) (entry : dispatchQueueEntry Node)
    (x : tally * runState) : tally * runState :=
  let '(a, s) := x in
  let listenerRecords := listenersOf o entry in
  let '(context, s) := createDispatchQueueCanaryEventContext d listenerRecords s in
  let a := tallyEntry (length listenerRecords) a in
  match context with
  | None => (a, s)
  | Some c =>
      let '(a, s) := listenerLoop o c 0 None listenerRecords a s in
      (a, resetDispatchQueueCanaryEventAfterListener c s)
  end.

Definition recordStep (o : canaryOptions) (x : tally * runState) (d : dispatchRecord Node) : tally * runState :=
  fold_left (fun x entry => entryStep o d entry x) (dq_entries (dr_dispatchQueue d)) x.

Record queueInvocationRecord : Type := mkQueueInvocation {
  qi_tally : tally;
  qi_dispatchRecordCount : nat;
  qi_captureListenerInvocationCount : nat;
  qi_bubbleListenerInvocationCount : nat;
  qi_currentTargetResetCount : nat;
  qi_currentTargetResetAfterDispatch : bool;
  qi_defaultPrevented : bool;
  qi_nativeDefaultPreventedBefore : bool;
  qi_nativeDefaultPreventedAfter : bool;
  qi_preventDefaultCallCount : Z;
  qi_nativePreventDefaultCallCount : Z;
  qi_nativePreventDefaultCallCountDelta : Z;
  qi_invocationStatus : string;
  qi_nativeImmediatePropagationStopped : bool;
  qi_nativeStopImmediateCallCount : Z;
  qi_propagationStopped : bool;
  qi_propagationStopCallCount : Z;
  qi_propagationStopNativeCallCount : Z }.

Definition invokedInPhase (capture : bool) (iv : invocationRecord) : bool :=
  match iv_listenerRecord iv with
  | Some r => Bool.eqb (dl_inCapturePhase r) capture && (0 <? iv_listenerInvocationCount iv)%nat
  | None => false
  end.

Definition queueInvocationRecordOf (recordCount : nat) (a : tally) s : queueInvocationRecord :=
  let ivs := ta_invocationRecords a in
  let resets := length (List.filter (fun iv => (0 <? iv_listenerInvocationCount iv)%nat && iv_currentTargetReset iv) ivs) in
  let p := rs_propagation s in
  let d := rs_default s in
  mkQueueInvocation a recordCount
    (length (List.filter (invokedInPhase true) ivs)) (length (List.filter (invokedInPhase false) ivs))
    resets (ta_listenerInvocationCount a =? resets)%nat
    (prevented d) (default false (dp_initialDefaultPrevented <$> d)) (nativePrevented (rs_events s) d)
    (getDefaultPreventedDiagnosticCallCount d) (nativePreventCount (rs_events s) d)
    (nativePreventCount (rs_events s) d - default 0%Z (dp_initialNativePreventDefaultCallCount <$> d))
    (match ivs with
     | [] => "skipped-no-listeners"
     | _ => if (ta_listenerErrorCount a =? 0)%nat then "invoked-dispatch-queue-canary"
            else "captured-dispatch-queue-listener-errors"
     end)
    (immediateStopped p) (default 0%Z (ps_nativeStopImmediateCallCount <$> p))
    (stopped p) (stopCount p) (default 0%Z (ps_nativeStopPropagationCallCount <$> p)).

(** An argument that is no dispatch record is [None]. *)
Definition assertEventDispatchRecord (record : option (dispatchRecord Node)) : res (dispatchRecord Node) :=
  match record with Some d => Ok d | None => hostError INVALID_EVENT_DISPATCH_RECORD_CODE end.

Definition initialRun (o : canaryOptions) ev (user : User) : runState :=
  mkRun ev user (mkCurrent None None) (createDispatchQueuePropagationDiagnosticState o)
    (createDispatchQueueDefaultPreventedDiagnosticState o).

Definition invokeDispatchQueueCanaryFromDispatchRecords (dispatchRecords : list (option (dispatchRecord Node)))
    (options : option (value * value * value * value * value)) ev (user : User) :
    effect (natives * User) queueInvocationRecord :=
  do* records, w := pureStep (mapRes assertEventDispatchRecord dispatchRecords) (ev, user) in
  let o := normalizeDispatchQueueCanaryOptions options in
  let '(a, s) := fold_left (recordStep o) records (emptyTally, initialRun o (fst w) (snd w)) in
  (Ok (queueInvocationRecordOf (length records) a s), (rs_events s, rs_user s)).

(** One listener alone, without the shared states. An index that is undefined is 0; negative
    and fractional numbers are no indices. *)
Definition normalizeNonNegativeInteger (v : value) : res nat :=
  match v with
  | VUndef => Ok 0
  | VNum (Finite m e) => if (0 <=? m)%Z && (0 <=? e)%Z then Ok (Z.to_nat (m * 10 ^ e))
                         else hostError INVALID_EVENT_DISPATCH_RECORD_CODE
  | _ => hostError INVALID_EVENT_DISPATCH_RECORD_CODE
  end.

Definition invokeSingleListenerCanaryFromDispatchRecord (record : option (dispatchRecord Node))
    (dispatchQueueEntryIndex listenerIndex processing : value) ev (user : User) :
    effect (natives * User) invocationRecord :=
  let w := (ev, user) in
  do* d, w := pureStep (assertEventDispatchRecord record) w in
  do* entryIndex, w := pureStep (normalizeNonNegativeInteger dispatchQueueEntryIndex) w in
  do* index, w := pureStep (normalizeNonNegativeInteger listenerIndex) w in
  let processing := negb (bool_decide (processing = VBool false)) in
  let skipped reason := createSkippedSingleListenerInvocationCanaryRecord None index processing reason None in
  match dq_entries (dr_dispatchQueue d) !! entryIndex with
  | None => (Ok (skipped NoDispatchQueueEntry), w)
  | Some entry =>
      match (if processing then qe_processingListenerRecords entry else qe_listeners entry) !! index with
      | None => (Ok (skipped NoDispatchListenerRecord), w)
      | Some r =>
          let '(iv, s) := invokeDispatchListenerRecordForCanary None r index processing
                            (mkRun ev user (mkCurrent None None) None None) in
          (Ok iv, (rs_events s, rs_user s))
      end
  end.
End Dispatch.
