(* ===== verification/EventExtractSpec.v ===== *)
(** * Theorems on the extraction of the dispatch queue

    Which listeners an event collects along its dispatch path, and in which order. *)
From S2P Require Import Prelude JsValue DomHost DomTree DomPayload DomCommit RootMarkers ComponentTree TreeTargets ComponentTreeSpec Events ListenerRegistry EventExtract.

Section ExtractSpec.
Context {Node D : Type} `{!EqDecision Node} `{!Countable Node} `{!Host Node D} (heap : ref -> jsobject).
Context (correspondingUseElement : D -> Node -> option (domArg Node)).
Implicit Types (d : D) (m : markerState Node) (t : treeState Node) (q : queueState Node) (n x : Node) (k : N).

(** The listener that the latest props of a node hold for a registration name. *)
Definition propListener d t x (name : option string) : option ref :=
  nm ← name;
  props ← getLatestPropsFromNode t (inr x);
  r ← propsObjectOf props;
  if hasOwn (heap r) nm then
    match get (heap r) nm, shouldPreventMouseEvent heap nm d x r with
    | Ok (VFun f), Ok false => Some f
    | _, _ => None
    end
  else None.

Definition nameValue (name : option string) : value := match name with Some s => VStr s | None => VNull end.

(** The record of a node that is mounted under its token. *)
Definition mountedTarget t x k (target : normalizationRecord (Node := Node)) : Prop :=
  token t x = Some k /\ nr_closestMountedHostInstanceToken target = Some k
  /\ nr_closestMountedHostInstanceNode target = Some x
  /\ assertEventTargetNormalizationRecord (Some target) = Ok target.

Lemma lookup_propListener d t x k target name l :
  treeOk t -> mountedTarget t x k target ->
  createEventListenerTargetLookupRecord heap d t (Some target) (nameValue name) = Ok l ->
  lk_listener l = propListener d t x name.
Proof.
  intros Hok (Hk & Ht & Hn & Ha). unfold createEventListenerTargetLookupRecord. rewrite Ha. cbn [bind]. rewrite Ht, Hn.
  intros (nm & Hnm & (u & _ & H)%bind_Ok)%bind_Ok.
  assert (nm = name) as ->.
  { destruct name as [s|]; simpl in Hnm; [|congruence]. case_decide; [done|congruence]. }
  rewrite nodeFromToken_ok in H by done.
  assert (En : tokenToNode t !! k = Some x) by (by apply (ok_pair _ Hok)). rewrite En in H.
  apply bind_Ok in H as (_ & _ & H). unfold propListener. destruct name as [s|]; cbn [mbind option_bind].
  2: { destruct (getLatestPropsFromNode t (inr x)) as [[| | | | | | | |]|]; cbn in H; try done; by injection H as <-. }
  destruct (getLatestPropsFromNode t (inr x)) as [v|]; cbn; [|by injection H as <-].
  destruct (propsObjectOf v) as [r|] eqn:Er; cbn.
  2: { destruct v; try done; by injection H as <-. }
  assert (H' : (let* listener := (if hasOwn (heap r) s then get (heap r) s else Ok VNull) in
      if nullish listener then Ok None
      else let* prevented := shouldPreventMouseEvent heap s d x r in
           if prevented then Ok None
           else match listener with VFun f => Ok (Some f)
                | _ => hostError "FAST_REACT_DOM_INVALID_EVENT_LISTENER" end) = Ok (lk_listener l)).
  { apply propsObject_some in Er as [-> | ->]; cbn [propsObjectOf] in H; revert H; clear;
      (destruct (if hasOwn _ _ then _ else _) as [listener|]; [|done]); cbn [bind];
      (destruct (nullish listener); [by intros [= <-]|]);
      (destruct (shouldPreventMouseEvent _ _ _ _ _) as [[]|]; cbn [bind]; [by intros [= <-]| |done]);
      destruct listener; try done; by intros [= <-]. }
  destruct (hasOwn (heap r) s); [|cbn in H'; congruence].
  destruct (get (heap r) s) as [listener|]; [|done]. cbn [bind] in H'.
  destruct (nullish listener) eqn:Enull; [destruct listener; try done; congruence|].
  destruct (shouldPreventMouseEvent heap s d x r) as [[]|]; cbn [bind] in H'; [|..|done];
    destruct listener; try done; congruence.
Qed.

(** The record of a node that is on a path. *)
Lemma normalize_mounted fuel d m t x k :
  treeOk t -> readable d -> token t x = Some k -> 0 < fuel ->
  exists target, createEventTargetNormalizationRecord fuel d m t (inr x) = Some (Ok target) /\ mountedTarget t x k target.
Proof.
  intros Hok Hread Hk Hf. unfold createEventTargetNormalizationRecord, getClosestMountedHostInstanceTokenFromNode.
  destruct fuel as [|fuel]; [lia|]. cbn [asNode closestFrom]. unfold getMountedHostInstanceTokenFromNode at 1.
  rewrite tokenFromNode_ok by done. unfold token in Hk. rewrite Hk.
  destruct (nodeTypeOf_readable d x Hread) as [v Hv]. rewrite Hv. cbn [bind]. eexists. split; [done|].
  assert (En : tokenToNode t !! k = Some x) by (by apply (ok_pair _ Hok)).
  split; [done|]. simpl nr_closestMountedHostInstanceToken. split; [done|].
  rewrite nodeFromToken_ok by done. rewrite En. by split.
Qed.

Section Event.
Context (w : wrapperRecord Node) (event : eventArg) (native : option (nativeEvent Node)) (eventTarget : domArg Node).
Context (d : D) (m : markerState Node) (t : treeState Node) (q : queueState Node).
Let capture : bool := isCapturePhase (wr_eventSystemFlags w).
Let name : option string := getSimpleEventRegistrationName (wr_domEventName w) (wr_eventSystemFlags w).

(** What is said of a listener record: its node, its token, its position and its function. *)
Definition listenerPlace (l : dispatchListener Node) : nat * (Node * N) * option ref :=
  (dl_dispatchPathIndex l, (dl_currentTarget l, dl_targetInst l), dl_listener l).

(** The functions that listen on a node: those of its private queue, then that of its props. *)
Definition listenersOn x : list (option ref) :=
  map (fun e => (fun p => qp_listener (fst p)) <$> getPrivateEventListenerQueueEntryPayload q (Some e))
    (activeEntries q x (VStr (wr_domEventName w)) capture)
  ++ match propListener d t x name with Some f => [Some f] | None => [] end.

Definition expected (place : nat * (Node * N)) : list (nat * (Node * N) * option ref) :=
  map (fun f => (place, f)) (listenersOn (fst (snd place))).

Fixpoint from (next : N) (count : nat) : list N :=
  match count with O => [] | S count => next :: from (next + 1) count end.

Lemma from_app next a b : from next (a + b) = from next a ++ from (next + N.of_nat a) b.
Proof.
  induction a as [|a IH] in next |- *; simpl; [by rewrite N.add_0_r|]. rewrite IH. do 3 f_equal. lia.
Qed.
Lemma from_ge next count i : i ∈ from next count -> (next <= i)%N.
Proof.
  induction count as [|count IH] in next |- *; simpl; [by intros ?%not_elem_of_nil|].
  intros [->|H%IH]%elem_of_cons; lia.
Qed.
Lemma from_nodup next count : NoDup (from next count).
Proof.
  induction count as [|count IH] in next |- *; simpl; [constructor|].
  constructor; [|done]. intros H%from_ge. lia.
Qed.

(** The records of a list of listeners are made with consecutive numbers. *)
Definition made (places : list (nat * (Node * N) * option ref)) (next : N) (x : list (dispatchListener Node) * N) : Prop :=
  map listenerPlace (fst x) = places /\ map dl_id (fst x) = from next (length (fst x))
  /\ snd x = (next + N.of_nat (length (fst x)))%N
  /\ Forall (fun l => dl_nativeEvent l = event /\ dl_inCapturePhase l = capture) (fst x).

Lemma made_app p1 p2 next l1 l2 (n1 n2 : N) :
  made p1 next (l1, n1) -> made p2 n1 (l2, n2) -> made (p1 ++ p2) next (l1 ++ l2, n2).
Proof.
  intros (H1 & H2 & H3 & H4) (G1 & G2 & G3 & G4). simpl in *. subst n1 n2.
  unfold made. cbn [fst snd]. rewrite length_app, !map_app, from_app, H1, H2, G1, G2.
  split; [done|]. split; [done|]. split; [lia|]. by apply Forall_app.
Qed.

Lemma queued_made entry es next :
  made (map (fun e => (entryPlace entry, (fun p => qp_listener (fst p)) <$> getPrivateEventListenerQueueEntryPayload q (Some e))) es)
    next (queuedListeners w event native eventTarget q entry es next).
Proof.
  induction es as [|e es IH] in next |- *; cbn [queuedListeners].
  { by split_and!; [..|simpl; lia|constructor]. }
  unfold createPrivateEventListenerQueueDispatchListenerRecord.
  specialize (IH (next + 1)%N). destruct (queuedListeners _ _ _ _ _ _ _ _) as [rs n1].
  destruct IH as (H1 & H2 & H3 & H4). simpl in *. split; [simpl; by rewrite H1|]. simpl.
  split; [by rewrite H2|]. split; [lia|]. by constructor.
Qed.

Lemma own_made entry l next :
  lk_listener l = propListener d t (pe_targetHostInstanceNode entry) name ->
  made (map (fun f => (entryPlace entry, f)) (match propListener d t (pe_targetHostInstanceNode entry) name with
                                              | Some f => [Some f] | None => [] end)) next
    (if lk_listenerFound l then let '(r, next) := createDispatchListenerRecord w event native eventTarget entry l next in ([r], next)
     else ([], next)).
Proof.
  intros H. unfold lk_listenerFound. rewrite H. destruct (propListener _ _ _ _) as [f|] eqn:E; simpl.
  - split; [unfold listenerPlace, createDispatchListenerRecord; simpl; by rewrite H|]. simpl. split; [done|]. split; [done|]. by constructor.
  - split_and!; try done. simpl. lia.
Qed.

Lemma metadata_made fuel target x0 k0 entries :
  treeOk t -> readable d -> 0 < fuel -> mountedTarget t x0 k0 target ->
  Forall (fun e => token t (pe_targetHostInstanceNode e) = Some (pe_targetHostInstanceToken e)
                   /\ (pe_index e = 0 -> pe_targetHostInstanceNode e = x0 /\ pe_targetHostInstanceToken e = k0)) entries ->
  forall lookups listeners places start next,
  made places start (listeners, next) ->
  exists r, metadataLoop heap w event native eventTarget fuel d m t q target entries lookups listeners next = Some r
  /\ forall ls rs next', r = (Ok (ls, rs), next') ->
       made (places ++ flat_map (fun e => expected (entryPlace e)) entries) start (rs, next')
       /\ length ls = length lookups + length entries.
Proof.
  intros Hok Hread Hf Htarget. induction 1 as [|e entries [Hk H0] _ IH]; intros lookups listeners places start next Hm.
  { eexists. split; [done|]. intros ls rs next' [= <- <- <-]. simpl. by rewrite app_nil_r, Nat.add_0_r. }
  cbn [metadataLoop flat_map].
  assert (Hnorm : exists target', (if (pe_index e =? 0)%nat then Some (Ok target)
      else createEventTargetNormalizationRecord fuel d m t (inr (pe_targetHostInstanceNode e))) = Some (Ok target')
    /\ mountedTarget t (pe_targetHostInstanceNode e) (pe_targetHostInstanceToken e) target').
  { destruct (Nat.eqb_spec (pe_index e) 0) as [Hi|Hi]; [|by apply normalize_mounted].
    destruct (H0 Hi) as [-> ->]. by exists target. }
  destruct Hnorm as (target' & -> & Htarget').
  change (registrationNameValue w) with (nameValue name).
  destruct (createEventListenerTargetLookupRecord heap d t (Some target') (nameValue name)) as [l|er] eqn:El.
  2: { eexists. split; [done|]. done. }
  apply (lookup_propListener _ _ _ _ _ _ _ Hok Htarget') in El. unfold createPrivateEventListenerQueueDispatchListenerRecords.
  match goal with |- context [queuedListeners _ _ _ _ _ _ ?es next] => pose proof (queued_made e es next) as Hq end.
  destruct (queuedListeners _ _ _ _ _ _ _ _) as [queued n1]. pose proof (own_made e l n1 El) as Ho.
  destruct (if lk_listenerFound l then _ else _) as [own n2].
  assert (Hm2 : made (places ++ expected (entryPlace e)) start (listeners ++ queued ++ own, n2)).
  { eapply made_app; [exact Hm|]. unfold expected, listenersOn. simpl fst. rewrite map_app.
    eapply made_app; [|exact Ho]. rewrite map_map.
    unfold getPrivateEventListenerQueueEntries in Hq. fold capture in Hq.
    replace (bool_decide (VBool capture = VBool true)) with capture in Hq by (by destruct capture). exact Hq. }
  destruct (IH (lookups ++ [l]) _ _ _ _ Hm2) as (r & Hr & Hres). exists r. split; [exact Hr|].
  intros ls rs next' E. destruct (Hres ls rs next' E) as [G1 G2]. rewrite app_assoc. split; [exact G1|].
  rewrite G2, length_app. simpl. lia.
Qed.
End Event.

Definition queueListeners (queue : dispatchQueue Node) : list (dispatchListener Node) :=
  flat_map qe_listeners (dq_entries queue).
Definition processedListeners (queue : dispatchQueue Node) : list (dispatchListener Node) :=
  flat_map qe_processingListenerRecords (dq_entries queue).

Lemma flat_map_places {A} (f : nat * (Node * N) -> list A) entries places :
  map entryPlace entries = places ->
  flat_map (fun e => f (entryPlace e)) entries = flat_map f places.
Proof. intros <-. induction entries as [|e es IH]; simpl; [done|]. by rewrite IH. Qed.

Lemma numbered_length {A} i (places : list A) : length (numbered i places) = length places.
Proof. induction places as [|p places IH] in i |- *; simpl; [done|]. by rewrite IH. Qed.

Lemma numbered_entries d t entries i (places : list (Node * N)) :
  map entryPlace entries = numbered i places ->
  Forall (fun p => token t (fst p) = Some (snd p)) places ->
  Forall (fun e => token t (pe_targetHostInstanceNode e) = Some (pe_targetHostInstanceToken e)
                   /\ (pe_index e = 0 -> i = 0 /\ head places = Some (pe_targetHostInstanceNode e, pe_targetHostInstanceToken e))) entries.
Proof.
  intros He Hp. revert i entries He. induction Hp as [|[x k] places Hx _ IH]; intros i [|e es] He; try done.
  simpl in He. injection He as Hi Hn Hk Hes. constructor.
  - rewrite Hn, Hk. split; [done|]. intros H. split; [congruence|done].
  - apply IH in Hes. eapply Forall_impl; [exact Hes|]. intros e' [H1 H2]. split; [done|]. intros H. by destruct (H2 H).
Qed.

(** C13: The dispatch queue of an event: for a target whose parent chain is [l], the record is
    made with fuel for the chain, or an exception of the lookups is passed on. The record
    has a listener for each function that listens along the path of the chain: node by node
    from the target to the container root, first those of the node's private queue for the
    event and phase, then the one that its latest props hold under the event's React name;
    they are numbered consecutively. A capture phase processes them in the reverse order. *)
Theorem dispatch_queue_spec fuel d m t q events w event n l next :
  treeOk t -> readable d -> chain d n l -> length l <= fuel ->
  getEventTarget correspondingUseElement d (nativeOf events event) (inr (wr_targetContainer w)) = Ok (inr n) ->
  exists r, createEventDispatchRecordFromWrapperRecord heap correspondingUseElement fuel d m t q events (Some w) event next = Some r
  /\ forall rec next', r = (Ok rec, next') ->
       let queue := dr_dispatchQueue rec in
       map listenerPlace (queueListeners queue) = flat_map (expected w d t q) (numbered 0 (fst (pathOf m t l)))
       /\ map dl_id (queueListeners queue) = from next (length (queueListeners queue))
       /\ next' = (next + N.of_nat (length (queueListeners queue)))%N
       /\ Forall (fun lr => dl_nativeEvent lr = event) (queueListeners queue)
       /\ processedListeners queue = (if isCapturePhase (wr_eventSystemFlags w) then rev (queueListeners queue) else queueListeners queue)
       /\ dq_listenerCount queue = length (queueListeners queue)
       /\ length (dr_targetListenerLookupRecords rec) = Nat.max 1 (length (fst (pathOf m t l)))
       /\ dr_targetInst rec = snd <$> head (fst (pathOf m t l)).
Proof.
  intros Hok Hread Hc Hl Hev. unfold createEventDispatchRecordFromWrapperRecord. cbn [assertEventListenerWrapperRecord].
  rewrite Hev.
  destruct (dispatch_path_made d m t n l fuel Hok Hread Hc Hl)
    as (target & path & -> & -> & Hplaces & _ & _ & Hinst & _ & Htoken & Hnode & Hassert).
  assert (Hf : 0 < fuel) by (apply chain_head in Hc as (rest & -> & _); simpl in Hl; lia).
  unfold createSimpleEventDispatchMetadata. destruct (pr_entries path) as [|e es] eqn:Ees.
  { eexists. split; [done|]. intros rec next'. rewrite Hinst, Htoken.
    destruct (fst (pathOf m t l)) as [|p0 ps]; [|done].
    destruct (createEventListenerTargetLookupRecord _ _ _ _ _) as [lk|er]; cbn [pureStep andThen]; [|done].
    intros [= <- <-]. simpl. split_and!; try done; [simpl; lia|by destruct (isCapturePhase _)]. }
  assert (Hhead : mountedTarget t (pe_targetHostInstanceNode e) (pe_targetHostInstanceToken e) target
                  /\ head (fst (pathOf m t l)) = Some (pe_targetHostInstanceNode e, pe_targetHostInstanceToken e)).
  { pose proof (pathOf_tokens m t l) as Hp. destruct (fst (pathOf m t l)) as [|[x k] ps]; [done|].
    simpl in Hplaces, Htoken, Hnode. injection Hplaces as _ -> -> _. apply Forall_cons in Hp as [Hx _]. by split_and!. }
  destruct Hhead as [Htarget Hhead].
  pose proof (numbered_entries d t _ 0 _ Hplaces (pathOf_tokens m t l)) as Hentries.
  destruct (metadata_made w event (nativeOf events event) (inr n) d m t q fuel target _ _ (e :: es) Hok Hread Hf Htarget)
    with (lookups := @nil (lookup (Node := Node))) (listeners := @nil (dispatchListener Node)) (places := @nil (nat * (Node * N) * option ref))
         (start := next) (next := next) as (r & Hr & Hres).
  { eapply Forall_impl; [exact Hentries|]. intros e' [H1 H2]. split; [done|]. intros H. destruct (H2 H) as [_ H3].
    rewrite Hhead in H3. by injection H3 as -> ->. }
  { split; [done|]. split; [done|]. split; [simpl; lia|constructor]. }
  rewrite Hr. destruct r as [[[ls rs]|er] n1]; cbn [andThen]; eexists; (split; [done|]); intros rec next'; [|done].
  destruct (Hres _ _ _ eq_refl) as [(H1 & H2 & H3 & H4) H5]. cbn [fst snd app] in *.
  rewrite (flat_map_places (expected w d t q) _ _ Hplaces) in H1.
  intros [= <- <-]. cbv zeta. cbn [dr_dispatchQueue dr_targetListenerLookupRecords dr_targetInst fst snd].
  rewrite H5, Hinst, Htoken.
  assert (Hlen : length (e :: es) = length (fst (pathOf m t l))).
  { rewrite <- (length_map entryPlace), Hplaces. apply numbered_length. }
  assert (Hq : queueListeners (createDispatchQueueRecord
      (match rs with [] => [] | _ => [createDispatchQueueEntryRecord w (nativeOf events event) (inr n) rs] end)) = rs).
  { destruct rs; [done|]. unfold queueListeners. simpl. by rewrite app_nil_r. }
  rewrite Hq.
  split; [exact H1|]. split; [exact H2|]. split; [exact H3|].
  split; [eapply Forall_impl; [exact H4|]; by intros x [? _]|]. split; [|split; [|split; [simpl in *; lia|done]]].
  - destruct rs; [by destruct (isCapturePhase _)|]. unfold processedListeners. simpl. rewrite app_nil_r. by destruct (isCapturePhase _).
  - destruct rs; [done|]. simpl. lia.
Qed.
End ExtractSpec.
