(* ===== verification/EventDispatchSpec.v ===== *)
(** * Theorems on the dispatch of events

    The loop over the listeners is the dispatch of the DOM standard; an exception of a
    listener changes nothing but its report; the counts and the current targets of a
    dispatch. *)
From S2P Require Import Prelude JsValue DomHost DomTree Events ListenerRegistry ComponentTree TreeTargets EventExtract EventDispatch.

Section DispatchSpec.
Context {Node : Type} `{!EqDecision Node} `{!Countable Node} {User : Type}.
Context (nativePreventDefault nativeStopPropagation : nativeEvent Node -> effect (nativeEvent Node) unit).
Context (listenerCode : ref -> program (Node := Node) (User := User)).
Abbreviation state := (runState (Node := Node) (User := User)).
Abbreviation listener := (dispatchListener Node).
Abbreviation invoke := (invokeDispatchListenerRecordForCanary nativePreventDefault nativeStopPropagation listenerCode).
Abbreviation loop := (listenerLoop nativePreventDefault nativeStopPropagation listenerCode).
Abbreviation runIt := (run nativePreventDefault nativeStopPropagation).
Implicit Types (s : state) (r : listener) (o : canaryOptions) (c : canaryEvent (Node := Node)).

(** ** What a listener's program leaves alone *)

(** The fields of the propagation state that only the dispatch itself changes. *)
Definition fixedPropagation (p p' : propagationState (Node := Node)) : Prop :=
  ps_currentDispatchListenerRecord p' = ps_currentDispatchListenerRecord p
  /\ ps_enableNativeStop p' = ps_enableNativeStop p /\ ps_enableStop p' = ps_enableStop p
  /\ ps_nativeImmediatePropagationStopped p' = ps_nativeImmediatePropagationStopped p
  /\ ps_nativeEvent p' = ps_nativeEvent p
  /\ ps_nativeStopImmediateSource p' = ps_nativeStopImmediateSource p
  /\ (ps_propagationStopped p = true -> ps_propagationStopped p' = true)
  /\ (ps_stopPropagationCallCount p <= ps_stopPropagationCallCount p')%Z.

Definition fixedDefault (p p' : defaultPreventedState (Node := Node)) : Prop :=
  dp_nativeEvent p' = dp_nativeEvent p
  /\ (dp_defaultPrevented p = true -> dp_defaultPrevented p' = true)
  /\ (dp_preventDefaultCallCount p <= dp_preventDefaultCallCount p')%Z.

#[local] Instance fixedPropagation_preorder : PreOrder fixedPropagation.
Proof.
  split; [by intros p|]. intros p q t (H1 & H2 & H3 & H4 & H5 & H6 & H7 & H8) (G1 & G2 & G3 & G4 & G5 & G6 & G7 & G8).
  split_and!; try congruence; [auto|lia].
Qed.
#[local] Instance fixedDefault_preorder : PreOrder fixedDefault.
Proof. split; [by intros p|]. intros p q t (H1 & H2 & H3) (G1 & G2 & G3). split_and!; [congruence|auto|lia]. Qed.

(** Both states are there before and after, or neither time. *)
Definition both {A} (R : A -> A -> Prop) (a b : option A) : Prop :=
  match a, b with Some x, Some y => R x y | None, None => True | _, _ => False end.
#[local] Instance both_preorder {A} (R : A -> A -> Prop) `{!PreOrder R} : PreOrder (both R).
Proof.
  split; [intros [x|]; [cbn; reflexivity|done]|].
  intros [x|] [y|] [z|]; cbn; try done. intros; by etrans.
Qed.

Definition leaves s s' : Prop :=
  rs_current s' = rs_current s
  /\ both fixedPropagation (rs_propagation s) (rs_propagation s')
  /\ both fixedDefault (rs_default s) (rs_default s').
#[local] Instance leaves_preorder : PreOrder leaves.
Proof.
  split; [intros s; by split_and!|].
  intros s1 s2 s3 (H1 & H2 & H3) (G1 & G2 & G3). split_and!; [congruence|by etrans|by etrans].
Qed.

Lemma leaves_events ev s : leaves s (setEvents ev s).
Proof. by split_and!. Qed.

Lemma callStop_leaves c s : leaves s (snd (callStopPropagation nativeStopPropagation c s)).
Proof.
  unfold callStopPropagation, contextPropagation. destruct (ce_hasContext c); cbn; [|reflexivity].
  destruct (rs_propagation s) as [p|] eqn:Ep; cbn; [|reflexivity].
  destruct (ps_enableStop p) eqn:Een; cbn; [|reflexivity].
  destruct (routeCanaryStopPropagationToNativeEvent _ _ _) as [[[]|e] ev]; cbn; (split; [done|]); cbn; rewrite Ep;
    (split; [|done]); cbn; (split_and!; try done; simpl; lia).
Qed.

Lemma callPrevent_leaves c s : leaves s (snd (callPreventDefault nativePreventDefault c s)).
Proof.
  unfold callPreventDefault, contextDefault. destruct (ce_hasContext c); cbn; [|reflexivity].
  destruct (rs_default s) as [p|] eqn:Ep; cbn; [|reflexivity].
  destruct (routeCanaryPreventDefaultToNativeEvent _ _ _) as [[[]|e] ev]; cbn; (split; [done|]); cbn; rewrite Ep;
    (split; [reflexivity|]); cbn; (split_and!; try done; simpl; lia).
Qed.

Lemma run_leaves c p s : leaves s (snd (runIt c p s)).
Proof.
  induction p as [v|e|k IH|k IH|k IH|f k IH] in s |- *; cbn [run]; try reflexivity.
  - pose proof (callStop_leaves c s). destruct (callStopPropagation _ c s) as [x s1]. by etrans.
  - pose proof (callPrevent_leaves c s). destruct (callPreventDefault _ c s) as [x s1]. by etrans.
  - apply IH.
  - etrans; [|apply IH]. by split_and!.
Qed.

(** A program whose exceptions are returns instead. *)
Fixpoint silence (p : program (Node := Node) (User := User)) : program :=
  match p with
  | Return v => Return v
  | Raise _ => Return VUndef
  | CallStopPropagation k => CallStopPropagation (fun x => silence (k x))
  | CallPreventDefault k => CallPreventDefault (fun x => silence (k x))
  | ReadEvent k => ReadEvent (fun x => silence (k x))
  | Own f k => Own f (fun x => silence (k x))
  end.

Lemma run_silence c p s :
  runIt c (silence p) s
  = (Ok (match fst (runIt c p s) with Ok v => v | Throw _ => VUndef end), snd (runIt c p s)).
Proof.
  induction p as [v|e|k IH|k IH|k IH|f k IH] in s |- *; cbn [run silence]; try done.
  - destruct (callStopPropagation _ c s) as [x s1]. apply IH.
  - destruct (callPreventDefault _ c s) as [x s1]. apply IH.
Qed.

(** ** One invocation *)

Definition framesPropagation r (p p' : propagationState (Node := Node)) : Prop :=
  ps_enableNativeStop p' = ps_enableNativeStop p /\ ps_enableStop p' = ps_enableStop p
  /\ ps_nativeEvent p' = ps_nativeEvent p
  /\ (ps_nativeStopImmediateSource p' = ps_nativeStopImmediateSource p \/ ps_nativeStopImmediateSource p' = Some r)
  /\ (ps_nativeImmediatePropagationStopped p = true -> ps_nativeImmediatePropagationStopped p' = true)
  /\ (ps_propagationStopped p = true -> ps_propagationStopped p' = true).

Definition noCurrent : currentTargetState := mkCurrent (Node := Node) None None.

Definition frames r s s' : Prop :=
  rs_current s' = noCurrent
  /\ both (framesPropagation r) (rs_propagation s) (rs_propagation s')
  /\ both fixedDefault (rs_default s) (rs_default s').

Lemma update_frames r before ev (p p1 : propagationState (Node := Node)) :
  fixedPropagation (setPropagationTarget (Some r) p) p1 ->
  framesPropagation r p (setPropagationTarget None (updateNativeStop ev before p1)).
Proof.
  intros (H1 & H2 & H3 & H4 & H5 & H6 & H7 & H8). unfold updateNativeStop.
  destruct (negb _); [|destruct (_ <=? _)%Z]; split_and!; simpl in *; try done; try (by left); try congruence.
  - right. exact H1.
Qed.

(** The call of one listener in its context: the current target is the listener's node while
    it runs, and there is none before and after; the shared states keep what they had. *)
Lemma callListener_frames c r f n s outcome before during after s' :
  ce_hasContext c = true -> rs_current s = noCurrent ->
  callListener nativePreventDefault nativeStopPropagation listenerCode c r f n s = ((outcome, (before, during, after)), s') ->
  before = None /\ during = Some (dl_currentTarget r) /\ after = None /\ frames r s s'.
Proof.
  intros Hc Hs. unfold callListener, prepareDispatchQueueCanaryEventForListener, resetDispatchQueueCanaryEventAfterListener.
  rewrite Hc. pose proof (run_leaves c (listenerCode f) (setListenerOfEvent (Some r) s)) as (_ & Hp & Hd).
  destruct (run _ _ c (listenerCode f) _) as [out s1] eqn:E. simpl in Hp, Hd.
  unfold eventNow. rewrite Hc, Hs. simpl. intros [= <- <- <- <- <-]. split; [done|split; [done|split; [done|split; [done|split]]]]; simpl.
  - destruct (rs_propagation s) as [p|], (rs_propagation s1) as [p1|]; simpl in *; try done.
    by apply update_frames.
  - destruct (rs_default s) as [p|], (rs_default s1) as [p1|]; simpl in *; done.
Qed.

Lemma sync_frames r s s1 : frames r s s1 -> frames r s (syncDefaultPreventedDiagnosticStateFromNative s1).
Proof.
  intros (H1 & H2 & H3). split; [done|split; [done|]]. simpl.
  destruct (rs_default s) as [d|], (rs_default s1) as [d1|]; simpl in *; try done.
  destruct H3 as (G1 & G2 & G3). split_and!; try done. simpl. intros H. by rewrite (G2 H).
Qed.

Lemma invoke_frames c r i b s iv s' :
  ce_hasContext c = true -> rs_current s = noCurrent -> invoke (Some c) r i b s = (iv, s') ->
  frames r s s' /\ iv_listenerRecord iv = Some r /\ iv_listenerIndex iv = i
  /\ (iv_listenerInvocationCount iv = if isSome (dl_listener r) then 1 else 0)
  /\ (iv_listenerInvocationCount iv = 1 ->
         iv_currentTargetBefore iv = None /\ iv_currentTargetDuring iv = Some (dl_currentTarget r)
         /\ iv_currentTargetAfter iv = None /\ iv_currentTargetReset iv = true)
  /\ iv_listenerErrorCaptured iv = isSome (iv_error iv)
  /\ (dl_listener r <> None -> iv_invocationStatus iv = if iv_listenerErrorCaptured iv then CapturedListenerError else InvokedListener).
Proof.
  intros Hc Hs. unfold invokeDispatchListenerRecordForCanary. destruct (dl_listener r) as [f|].
  - simpl default. rewrite Hc.
    destruct (callListener _ _ _ c r f _ s) as [[outcome [[before during] after]] s1] eqn:E.
    apply callListener_frames in E as (-> & -> & -> & Hf); [|done|done]. intros [= <- <-].
    split; [by apply sync_frames|]. simpl. split_and!; try done. by destruct (caughtError outcome).
  - intros [= <- <-]. split; [|by split_and!]. split; [done|split]; simpl.
    + destruct (rs_propagation s); simpl; [|done]. split_and!; try done. by left.
    + destruct (rs_default s); simpl; [|done]. by split_and!.
Qed.

(** ** The dispatch of the DOM standard *)

(** The listeners of consecutive equal instances. *)
Fixpoint byInstance (l : list listener) : list (list listener) :=
  match l with
  | [] => []
  | r :: l =>
      match byInstance l with
      | (x :: g) :: gs => if (dl_targetInst x =? dl_targetInst r)%N then (r :: x :: g) :: gs else [r] :: (x :: g) :: gs
      | gs => [r] :: gs
      end
  end.

(** The flags of the event: "stop propagation" and "stop immediate propagation". *)
Definition stopFlag c s : bool := stopped (contextPropagation c s).
Definition immediateFlag c s : bool :=
  match contextPropagation c s with
  | Some p => ps_enableNativeStop p && ps_nativeImmediatePropagationStopped p
  | None => false
  end.

Definition skipRecord o s r (i : nat) (reason : skipReason) : invocationRecord :=
  createSkippedSingleListenerInvocationCanaryRecord (Some r) i (useProcessingOrder o) reason (rs_propagation s).

(** Inner invoke: the listeners of one target run until "stop immediate propagation" is
    set; then each is reported as skipped. *)
Fixpoint innerInvoke o c (i : nat) (l : list listener) (a : tally) s : nat * (tally * state) :=
  match l with
  | [] => (i, (a, s))
  | r :: l =>
      if immediateFlag c s then
        innerInvoke o c (S i) l (tallyNativeSkip (skipRecord o s r i NativeStopImmediateSkip) r (rs_propagation s) a) s
      else
        let '(iv, s') := invoke (Some c) r i (useProcessingOrder o) s in
        innerInvoke o c (S i) l (tallyInvocation o iv r s s' a) s'
  end.

(** Invoke: a target whose turn comes after "stop propagation" ends the dispatch, with a
    report of its first listener. *)
Fixpoint domDispatch o c (i : nat) (gs : list (list listener)) (a : tally) s : tally * state :=
  match gs with
  | [] => (a, s)
  | g :: gs =>
      match g with
      | r :: _ =>
          if negb (immediateFlag c s) && stopFlag c s then
            (tallyPropagationSkip (skipRecord o s r i PropagationStoppedSkip) r (rs_propagation s) a, s)
          else let '(i, (a, s)) := innerInvoke o c i g a s in domDispatch o c i gs a s
      | [] => domDispatch o c i gs a s
      end
  end.

Definition continueGroup o c (i : nat) (gs : list (list listener)) (a : tally) s : tally * state :=
  match gs with
  | g :: gs => let '(i, (a, s)) := innerInvoke o c i g a s in domDispatch o c i gs a s
  | [] => (a, s)
  end.

Lemma byInstance_cons r l :
  exists g gs, byInstance (r :: l) = (r :: g) :: gs.
Proof. simpl. destruct (byInstance l) as [|[|x g] gs]; eauto. case_match; eauto. Qed.

(** The listeners are told apart from the one that stopped the event. *)
Definition sourceApart (l : list listener) s : Prop :=
  forall p x, rs_propagation s = Some p -> ps_nativeStopImmediateSource p = Some x -> dl_id x ∉ map dl_id l.

Lemma sourceApart_cons r l s : sourceApart (r :: l) s -> sourceApart l s.
Proof. intros H p x Hp Hx Hin. apply (H p x Hp Hx). simpl. by right. Qed.

Lemma skip_immediate r l c s :
  sourceApart (r :: l) s -> shouldSkipDispatchListenerForNativeStopImmediatePropagation r c s = immediateFlag c s.
Proof.
  intros H. unfold shouldSkipDispatchListenerForNativeStopImmediatePropagation, immediateFlag, contextPropagation.
  destruct (ce_hasContext c); [|done]. destruct (rs_propagation s) as [p|] eqn:Ep; [|done].
  rewrite bool_decide_eq_false_2; [by rewrite andb_true_r|].
  destruct (ps_nativeStopImmediateSource p) as [x|] eqn:Ex; [|done]. simpl. intros [= Hid].
  apply (H p x Ep Ex). rewrite Hid. simpl. by left.
Qed.

Lemma skip_stop r prev c s :
  shouldSkipDispatchListenerForPropagationStop r prev c s
  = stopFlag c s && negb (bool_decide (prev = Some (dl_targetInst r))).
Proof.
  unfold shouldSkipDispatchListenerForPropagationStop, stopFlag, stopped, contextPropagation.
  destruct (ce_hasContext c); [|done]. by destruct (rs_propagation s).
Qed.

Lemma frames_apart r l s s' :
  frames r s s' -> NoDup (map dl_id (r :: l)) -> sourceApart (r :: l) s -> sourceApart l s'.
Proof.
  intros (_ & Hp & _) Hnd Ha p' x Hp' Hx. rewrite Hp' in Hp.
  destruct (rs_propagation s) as [p|] eqn:Ep; [|done]. destruct Hp as (_ & _ & _ & [Hs|Hs] & _).
  - rewrite Hs in Hx. by apply (sourceApart_cons _ _ _ Ha p x).
  - rewrite Hs in Hx. injection Hx as <-. simpl in Hnd. by apply NoDup_cons in Hnd as [? _].
Qed.

(** The loop over the listeners is the dispatch over the targets. *)
Lemma loop_dom o c l : ce_hasContext c = true -> forall i prev a s,
  NoDup (map dl_id l) -> sourceApart l s -> rs_current s = noCurrent ->
  loop o c i prev l a s
  = if bool_decide (prev = dl_targetInst <$> head l) then continueGroup o c i (byInstance l) a s
    else domDispatch o c i (byInstance l) a s.
Proof.
  intros Hc. induction l as [|r l IH]; intros i prev a s Hnd Ha Hs; [by case_bool_decide|].
  assert (Hnd' : NoDup (map dl_id l)) by (simpl in Hnd; by apply NoDup_cons in Hnd as [_ ?]).
  (** the rest of the loop, when [r] is done *)
  assert (Hrest : forall i a s, sourceApart l s -> rs_current s = noCurrent ->
    loop o c i (Some (dl_targetInst r)) l a s
    = match byInstance (r :: l) with
      | (_ :: g) :: gs => let '(i, (a, s)) := innerInvoke o c i g a s in domDispatch o c i gs a s
      | _ => (a, s) end).
  { intros i' a' s' Ha' Hs'. rewrite IH by done. destruct l as [|x l']; [done|].
    destruct (byInstance_cons x l') as (g & gs & E). rewrite E. simpl head.
    assert (E2 : byInstance (r :: x :: l') = if (dl_targetInst x =? dl_targetInst r)%N then (r :: x :: g) :: gs
                                             else [r] :: (x :: g) :: gs).
    { change (byInstance (r :: x :: l')) with (match byInstance (x :: l') with
        | (x :: g) :: gs => if (dl_targetInst x =? dl_targetInst r)%N then (r :: x :: g) :: gs else [r] :: (x :: g) :: gs
        | gs => [r] :: gs end). by rewrite E. }
    rewrite E2. simpl fmap. destruct (N.eqb_spec (dl_targetInst x) (dl_targetInst r)) as [Hi|Hi].
    - rewrite bool_decide_eq_true_2 by congruence. done.
    - rewrite bool_decide_eq_false_2 by congruence. done. }
  destruct (byInstance_cons r l) as (g & gs & E). rewrite E in Hrest |- *. simpl head. simpl fmap.
  cbn [listenerLoop]. rewrite (skip_immediate r l) by done. rewrite skip_stop.
  unfold continueGroup. cbn [domDispatch innerInvoke]. destruct (immediateFlag c s) eqn:Ei.
  - rewrite Hrest by (try done; by eapply sourceApart_cons). simpl negb. simpl andb.
    by destruct (bool_decide _).
  - simpl negb. rewrite andb_true_l.
    assert (Hgo : (let '(iv, s') := invoke (Some c) r i (useProcessingOrder o) s in
        loop o c (S i) (Some (dl_targetInst r)) l (tallyInvocation o iv r s s' a) s')
      = (let '(i, (a, s)) := (let '(iv, s') := invoke (Some c) r i (useProcessingOrder o) s in
           innerInvoke o c (S i) g (tallyInvocation o iv r s s' a) s') in domDispatch o c i gs a s)).
    { destruct (invoke _ _ _ _ _) as [iv s1] eqn:Einv.
      apply invoke_frames in Einv as (Hf & _); [|done|done].
      apply Hrest; [by eapply frames_apart|apply Hf]. }
    destruct (bool_decide (prev = _)) eqn:Eb; simpl negb; [rewrite andb_false_r; exact Hgo|].
    rewrite andb_true_r. destruct (stopFlag c s); [done|exact Hgo].
Qed.

Lemma loop_apart o c l rest : ce_hasContext c = true -> forall i prev a s,
  NoDup (map dl_id (l ++ rest)) -> sourceApart (l ++ rest) s -> rs_current s = noCurrent ->
  rs_current (snd (loop o c i prev l a s)) = noCurrent /\ sourceApart rest (snd (loop o c i prev l a s)).
Proof.
  intros Hc. induction l as [|r l IH]; intros i prev a s Hnd Ha Hs; [done|].
  assert (Hnd' : NoDup (map dl_id (l ++ rest))) by (simpl in Hnd; by apply NoDup_cons in Hnd as [_ ?]).
  cbn [listenerLoop]. destruct (shouldSkipDispatchListenerForNativeStopImmediatePropagation r c s).
  { apply IH; [done| |done]. by eapply sourceApart_cons. }
  destruct (shouldSkipDispatchListenerForPropagationStop r prev c s).
  { split; [done|]. intros p x Hp Hx Hin. apply (Ha p x Hp Hx). simpl. right. rewrite map_app. apply elem_of_app. by right. }
  destruct (invoke _ _ _ _ _) as [iv s1] eqn:E. apply invoke_frames in E as (Hf & _); [|done|done].
  apply IH; [done| |apply Hf]. by eapply frames_apart.
Qed.

(** The dispatch of a queue entry and of a record, target by target. *)
Definition domEntry o (d : dispatchRecord Node) (entry : dispatchQueueEntry Node) (x : tally * state) : tally * state :=
  let '(a, s) := x in
  let listeners := listenersOf o entry in
  let '(context, s) := createDispatchQueueCanaryEventContext d listeners s in
  let a := tallyEntry (length listeners) a in
  match context with
  | None => (a, s)
  | Some c => let '(a, s) := domDispatch o c 0 (byInstance listeners) a s in
              (a, resetDispatchQueueCanaryEventAfterListener c s)
  end.
Definition domRecord o (x : tally * state) (d : dispatchRecord Node) : tally * state :=
  fold_left (fun x entry => domEntry o d entry x) (dq_entries (dr_dispatchQueue d)) x.

Definition listenersOfRecord o (d : dispatchRecord Node) : list listener :=
  flat_map (listenersOf o) (dq_entries (dr_dispatchQueue d)).

Lemma context_apart d l rest s c s' :
  createDispatchQueueCanaryEventContext d l s = (Some c, s') -> sourceApart rest s ->
  sourceApart rest s' /\ rs_current s' = noCurrent /\ ce_hasContext c = true.
Proof.
  destruct l as [|r l]; [done|]. simpl. intros [= <- <-] Ha. split; [|done].
  intros p x Hp Hx. simpl in Hp. destruct (rs_propagation s) as [p0|] eqn:E; [|done]. injection Hp as <-.
  by apply (Ha p0 x E).
Qed.
Lemma context_none d l s s' : createDispatchQueueCanaryEventContext d l s = (None, s') -> l = [] /\ s' = s.
Proof. destruct l; simpl; [by intros [= <-]|done]. Qed.

Lemma reset_apart c l s : sourceApart l s -> sourceApart l (resetDispatchQueueCanaryEventAfterListener c s).
Proof.
  unfold resetDispatchQueueCanaryEventAfterListener. destruct (ce_hasContext c); [|done].
  intros Ha p x Hp Hx. simpl in Hp. destruct (rs_propagation s) as [p0|] eqn:E; [|done]. injection Hp as <-.
  by apply (Ha p0 x E).
Qed.

Lemma entry_dom o d entry rest a s :
  NoDup (map dl_id (listenersOf o entry ++ rest)) -> sourceApart (listenersOf o entry ++ rest) s ->
  entryStep nativePreventDefault nativeStopPropagation listenerCode o d entry (a, s) = domEntry o d entry (a, s)
  /\ sourceApart rest (snd (entryStep nativePreventDefault nativeStopPropagation listenerCode o d entry (a, s))).
Proof.
  intros Hnd Ha. unfold entryStep, domEntry.
  destruct (createDispatchQueueCanaryEventContext d (listenersOf o entry) s) as [[c|] s1] eqn:E.
  - apply context_apart with (rest := listenersOf o entry ++ rest) in E as (Ha1 & Hs1 & Hc); [|done].
    assert (Hnd1 : NoDup (map dl_id (listenersOf o entry))).
    { rewrite map_app in Hnd. by apply NoDup_app in Hnd as [? _]. }
    assert (Ha2 : sourceApart (listenersOf o entry) s1).
    { intros p x Hp Hx Hin. apply (Ha1 p x Hp Hx). rewrite map_app. apply elem_of_app. by left. }
    destruct (loop_apart o c (listenersOf o entry) rest Hc 0 None (tallyEntry (length (listenersOf o entry)) a) s1 Hnd Ha1 Hs1) as [_ Hr].
    assert (Heq : loop o c 0 None (listenersOf o entry) (tallyEntry (length (listenersOf o entry)) a) s1
      = domDispatch o c 0 (byInstance (listenersOf o entry)) (tallyEntry (length (listenersOf o entry)) a) s1).
    { rewrite loop_dom by done. by destruct (listenersOf o entry). }
    rewrite Heq in Hr |- *. destruct (domDispatch _ _ _ _ _ _) as [a2 s2]. split; [done|]. by apply reset_apart.
  - apply context_none in E as [E ->]. rewrite E in Ha. done.
Qed.

Lemma record_dom o d rest a s :
  NoDup (map dl_id (listenersOfRecord o d ++ rest)) -> sourceApart (listenersOfRecord o d ++ rest) s ->
  recordStep nativePreventDefault nativeStopPropagation listenerCode o (a, s) d = domRecord o (a, s) d
  /\ sourceApart rest (snd (recordStep nativePreventDefault nativeStopPropagation listenerCode o (a, s) d)).
Proof.
  unfold recordStep, domRecord, listenersOfRecord. generalize (dq_entries (dr_dispatchQueue d)) as es.
  intros es. induction es as [|e es IH] in a, s |- *; [done|]. cbn [fold_left flat_map]. rewrite <- app_assoc. intros Hnd Ha.
  destruct (entry_dom o d e _ a s Hnd Ha) as [Heq Hap]. rewrite Heq in Hap |- *.
  destruct (domEntry o d e (a, s)) as [a1 s1]. apply IH; [|done].
  rewrite map_app in Hnd. by apply NoDup_app in Hnd as (_ & _ & ?).
Qed.

Lemma records_dom o ds a s :
  NoDup (map dl_id (flat_map (listenersOfRecord o) ds)) -> sourceApart (flat_map (listenersOfRecord o) ds) s ->
  fold_left (recordStep nativePreventDefault nativeStopPropagation listenerCode o) ds (a, s) = fold_left (domRecord o) ds (a, s).
Proof.
  induction ds as [|d ds IH] in a, s |- *; [done|]. cbn [fold_left flat_map]. intros Hnd Ha.
  destruct (record_dom o d _ a s Hnd Ha) as [Heq Hap]. rewrite Heq in Hap |- *.
  destruct (domRecord o (a, s) d) as [a1 s1]. apply IH; [|done].
  rewrite map_app in Hnd. by apply NoDup_app in Hnd as (_ & _ & ?).
Qed.

Lemma initial_apart o ev user l : sourceApart l (initialRun o ev user).
Proof.
  intros p x. unfold initialRun, createDispatchQueuePropagationDiagnosticState. simpl. case_match; [done|].
  by intros [= <-].
Qed.

Lemma mapRes_some (ds : list (dispatchRecord Node)) : mapRes assertEventDispatchRecord (map Some ds) = Ok ds.
Proof. induction ds as [|d ds IH]; simpl; [done|]. by rewrite IH. Qed.

(** The loop over all listeners, which remembers the previous listener's instance, is a loop
    over the targets and their listeners. *)
Lemma dispatch_by_target (ds : list (dispatchRecord Node)) options ev user :
  let o := normalizeDispatchQueueCanaryOptions options in
  NoDup (map dl_id (flat_map (listenersOfRecord o) ds)) ->
  invokeDispatchQueueCanaryFromDispatchRecords nativePreventDefault nativeStopPropagation listenerCode
    (map Some ds) options ev user
  = (let '(a, s) := fold_left (domRecord o) ds (emptyTally, initialRun o ev user) in
     (Ok (queueInvocationRecordOf (length ds) a s), (rs_events s, rs_user s))).
Proof.
  intros o Hnd. unfold invokeDispatchQueueCanaryFromDispatchRecords. rewrite mapRes_some. cbn [pureStep andThen fst snd].
  fold o. by rewrite records_dom by (done || apply initial_apart).
Qed.

(** ** Exceptions of listeners *)

(** What a record would be, had the listener returned. *)
Definition quiet (iv : invocationRecord (Node := Node)) : invocationRecord :=
  mkInvocation (iv_listenerRecord iv)
    (match iv_invocationStatus iv with CapturedListenerError => InvokedListener | x => x end)
    (iv_currentTargetBefore iv) (iv_currentTargetDuring iv) (iv_currentTargetAfter iv) (iv_currentTargetReset iv)
    (iv_defaultPreventedBefore iv) (iv_defaultPreventedAfter iv)
    (iv_nativeDefaultPreventedBefore iv) (iv_nativeDefaultPreventedAfter iv)
    (iv_nativePreventDefaultCallCountBefore iv) (iv_nativePreventDefaultCallCountAfter iv)
    (iv_nativeImmediateStoppedBefore iv) (iv_nativeImmediateStoppedAfter iv)
    (iv_nativeStopImmediateCallCount iv) (iv_nativeStopImmediateCallCountDelta iv)
    (iv_nativeStopImmediateNativeCallCount iv) (iv_nativeStopImmediateNativeCallCountDelta iv)
    (iv_propagationStoppedBefore iv) (iv_propagationStoppedAfter iv)
    (iv_propagationStopCallCount iv) (iv_propagationStopCallCountDelta iv)
    (iv_preventDefaultCallCount iv) (iv_preventDefaultCallCountDelta iv)
    false (iv_listenerIndex iv) (iv_listenerInvocationCount iv)
    (if iv_listenerErrorCaptured iv then "undefined" else iv_listenerReturnStatus iv)
    (iv_selectedFromProcessingOrder iv) None (iv_returnValue iv).

Definition quietTally (a : tally (Node := Node)) : tally :=
  mkTally (map quiet (ta_invocationRecords a)) [] (ta_defaultPreventedDiagnostics a) (ta_propagationStopDiagnostics a)
    (ta_nativeStopDiagnostics a) (ta_dispatchQueueEntryCount a) (ta_listenerCandidateCount a)
    (ta_listenerInvocationCount a) 0 (ta_propagationSkippedListenerCount a) (ta_nativeStopSkippedListenerCount a).

Definition silenced : ref -> program := fun f => silence (listenerCode f).
Abbreviation invokeSilenced := (invokeDispatchListenerRecordForCanary nativePreventDefault nativeStopPropagation silenced).

Lemma callListener_silenced c r f n s :
  callListener nativePreventDefault nativeStopPropagation silenced c r f n s
  = (let '((outcome, targets), s') := callListener nativePreventDefault nativeStopPropagation listenerCode c r f n s in
     ((Ok (match outcome with Ok v => v | Throw _ => VUndef end), targets), s')).
Proof.
  unfold callListener, silenced. rewrite run_silence. by destruct (run _ _ c (listenerCode f) _) as [out s1].
Qed.

Lemma invoke_silenced context r i b s :
  invokeSilenced context r i b s = (quiet (fst (invoke context r i b s)), snd (invoke context r i b s)).
Proof.
  unfold invokeDispatchListenerRecordForCanary. destruct (dl_listener r) as [f|]; [|done].
  rewrite callListener_silenced.
  destruct (callListener _ _ listenerCode _ _ _ _ _) as [[outcome [[before during] after]] s1]. simpl fst. simpl snd.
  unfold quiet. simpl. f_equal. by destruct outcome as [v|[| | |[]]].
Qed.

Lemma tally_quiet o iv r s s' a :
  tallyInvocation o (quiet iv) r s s' (quietTally a) = quietTally (tallyInvocation o iv r s s' a).
Proof. unfold tallyInvocation, quietTally. simpl. by rewrite map_app. Qed.

Lemma loop_silenced o c l i prev a s :
  listenerLoop nativePreventDefault nativeStopPropagation silenced o c i prev l (quietTally a) s
  = (let '(a, s) := loop o c i prev l a s in (quietTally a, s)).
Proof.
  induction l as [|r l IH] in i, prev, a, s |- *; [done|]. cbn [listenerLoop].
  destruct (shouldSkipDispatchListenerForNativeStopImmediatePropagation r c s).
  { rewrite <- IH. f_equal. unfold quietTally, tallyNativeSkip. simpl. by rewrite map_app. }
  destruct (shouldSkipDispatchListenerForPropagationStop r prev c s).
  { unfold quietTally, tallyPropagationSkip. simpl. by rewrite map_app. }
  rewrite invoke_silenced. destruct (invoke (Some c) r i _ s) as [iv s1]. simpl. by rewrite tally_quiet, IH.
Qed.

Lemma entry_silenced o d entry a s :
  entryStep nativePreventDefault nativeStopPropagation silenced o d entry (quietTally a, s)
  = (let '(a, s) := entryStep nativePreventDefault nativeStopPropagation listenerCode o d entry (a, s) in (quietTally a, s)).
Proof.
  unfold entryStep. destruct (createDispatchQueueCanaryEventContext d (listenersOf o entry) s) as [[c|] s1]; [|done].
  change (tallyEntry (length (listenersOf o entry)) (quietTally a))
    with (quietTally (tallyEntry (length (listenersOf o entry)) a)).
  rewrite loop_silenced. by destruct (listenerLoop _ _ _ _ _ _ _ _ _ _) as [a2 s2].
Qed.

Lemma records_silenced o ds a s :
  fold_left (recordStep nativePreventDefault nativeStopPropagation silenced o) ds (quietTally a, s)
  = (let '(a, s) := fold_left (recordStep nativePreventDefault nativeStopPropagation listenerCode o) ds (a, s) in (quietTally a, s)).
Proof.
  induction ds as [|d ds IH] in a, s |- *; [done|]. cbn [fold_left].
  assert (H : recordStep nativePreventDefault nativeStopPropagation silenced o (quietTally a, s) d
    = (let '(a, s) := recordStep nativePreventDefault nativeStopPropagation listenerCode o (a, s) d in (quietTally a, s))).
  { unfold recordStep. generalize (dq_entries (dr_dispatchQueue d)) as es. intros es.
    induction es as [|e es IHe] in a, s |- *; [done|]. cbn [fold_left]. rewrite entry_silenced.
    destruct (entryStep _ _ _ _ _ _ _) as [a1 s1]. apply IHe. }
  rewrite H. clear H. destruct (recordStep _ _ listenerCode _ _ _) as [a1 s1]. apply IH.
Qed.

(** ** Accounts *)

Definition hasStatus (st : invocationStatus) (iv : invocationRecord (Node := Node)) : bool :=
  bool_decide (iv_invocationStatus iv = st).
Definition invoked (iv : invocationRecord (Node := Node)) : bool := (0 <? iv_listenerInvocationCount iv)%nat.

(** A record of a listener that ran, or of one that was skipped. *)
Definition recordOk (iv : invocationRecord (Node := Node)) : Prop :=
  exists r, iv_listenerRecord iv = Some r
  /\ iv_listenerErrorCaptured iv = isSome (iv_error iv)
  /\ ((iv_listenerInvocationCount iv = 1 /\ dl_listener r <> None
        /\ iv_invocationStatus iv = (if iv_listenerErrorCaptured iv then CapturedListenerError else InvokedListener)
        /\ iv_currentTargetBefore iv = None /\ iv_currentTargetDuring iv = Some (dl_currentTarget r)
        /\ iv_currentTargetAfter iv = None /\ iv_currentTargetReset iv = true)
      \/ (iv_listenerInvocationCount iv = 0 /\ iv_listenerErrorCaptured iv = false
          /\ ((iv_invocationStatus iv = Skipped NoListenerFunction /\ dl_listener r = None)
              \/ iv_invocationStatus iv = Skipped PropagationStoppedSkip
              \/ iv_invocationStatus iv = Skipped NativeStopImmediateSkip))).

(** The records [g] of an entry's listeners from position [i] on: one for each listener, in
    their order and with its position, unless propagation was stopped; then the last record
    is that of the first listener of the next target, and the rest have none. *)
Inductive servedFrom : nat -> list listener -> list (invocationRecord (Node := Node)) -> Prop :=
| served_all i : servedFrom i [] []
| served_stop i r l iv :
    iv_listenerRecord iv = Some r -> iv_listenerIndex iv = i ->
    iv_invocationStatus iv = Skipped PropagationStoppedSkip -> servedFrom i (r :: l) [iv]
| served_next i r l iv g :
    iv_listenerRecord iv = Some r -> iv_listenerIndex iv = i ->
    iv_invocationStatus iv <> Skipped PropagationStoppedSkip ->
    servedFrom (S i) l g -> servedFrom i (r :: l) (iv :: g).

(** A listener that ran before stopped propagation, or immediate propagation. *)
Definition stoppedIn (ivs : list (invocationRecord (Node := Node))) : Prop :=
  Exists (fun iv => iv_listenerInvocationCount iv = 1 /\ iv_propagationStoppedAfter iv = true) ivs.
Definition immediatelyStoppedIn (ivs : list (invocationRecord (Node := Node))) : Prop :=
  Exists (fun iv => iv_listenerInvocationCount iv = 1 /\ iv_nativeImmediateStoppedAfter iv = true) ivs.

(** The reason of every skip is found in the records before it. *)
Definition skipsExplained (ivs : list (invocationRecord (Node := Node))) : Prop :=
  forall pre iv post, ivs = pre ++ iv :: post ->
  (iv_invocationStatus iv = Skipped PropagationStoppedSkip -> stoppedIn pre)
  /\ (iv_invocationStatus iv = Skipped NativeStopImmediateSkip -> immediatelyStoppedIn pre).

(** The flags of the state come from listeners that ran. *)
Definition flagsExplained (a : tally (Node := Node)) s : Prop :=
  skipsExplained (ta_invocationRecords a)
  /\ (stopped (rs_propagation s) = true -> stoppedIn (ta_invocationRecords a))
  /\ (immediateStopped (rs_propagation s) = true -> immediatelyStoppedIn (ta_invocationRecords a)).

Definition countOf (f : invocationRecord (Node := Node) -> bool) (a : tally (Node := Node)) : nat :=
  length (List.filter f (ta_invocationRecords a)).

(** The reports of the errors, numbered in the order of the listeners. *)
Definition routesOf o (ivs : list (invocationRecord (Node := Node))) : list errorRoute :=
  if enableListenerErrorRoutingDiagnostics o
  then imap (fun i iv => createDispatchListenerErrorRouteRecord iv i) (List.filter iv_listenerErrorCaptured ivs)
  else [].

Definition tallyOk o (a : tally (Node := Node)) : Prop :=
  Forall recordOk (ta_invocationRecords a)
  /\ ta_listenerErrorRoutes a = routesOf o (ta_invocationRecords a)
  /\ ta_listenerErrorCount a = countOf iv_listenerErrorCaptured a
  /\ ta_listenerInvocationCount a = countOf invoked a
  /\ ta_propagationSkippedListenerCount a = countOf (hasStatus (Skipped PropagationStoppedSkip)) a
  /\ ta_nativeStopSkippedListenerCount a = countOf (hasStatus (Skipped NativeStopImmediateSkip)) a.

Lemma countOf_snoc f (ivs : list (invocationRecord (Node := Node))) iv :
  length (List.filter f (ivs ++ [iv])) = length (List.filter f ivs) + (if f iv then 1 else 0).
Proof. rewrite List.filter_app, length_app. simpl. by destruct (f iv). Qed.

Lemma routesOf_snoc o ivs iv :
  routesOf o (ivs ++ [iv])
  = routesOf o ivs ++ (if iv_listenerErrorCaptured iv && enableListenerErrorRoutingDiagnostics o
                       then [createDispatchListenerErrorRouteRecord iv (length (routesOf o ivs))] else []).
Proof.
  unfold routesOf. destruct (enableListenerErrorRoutingDiagnostics o); [|by rewrite andb_false_r].
  rewrite andb_true_r, List.filter_app. simpl. destruct (iv_listenerErrorCaptured iv); [|by rewrite !app_nil_r].
  rewrite imap_app, length_imap. simpl. by rewrite Nat.add_0_r.
Qed.

Lemma invocation_ok o r iv s s' a :
  recordOk iv -> hasStatus (Skipped PropagationStoppedSkip) iv = false ->
  hasStatus (Skipped NativeStopImmediateSkip) iv = false -> tallyOk o a -> tallyOk o (tallyInvocation o iv r s s' a).
Proof.
  intros Hiv Hp Hn (H1 & H2 & H3 & H4 & H5 & H6). unfold tallyOk, countOf in *. simpl.
  rewrite !countOf_snoc, routesOf_snoc, Hp, Hn, H2, H3, H4, H5, H6, !Nat.add_0_r.
  split_and!; try done.
  - apply Forall_app. split; [done|]. by constructor.
  - destruct Hiv as (x & _ & _ & [(Hc & _)|(Hc & _)]); unfold invoked; by rewrite Hc.
Qed.

Lemma invoke_record c r i b s iv s' :
  ce_hasContext c = true -> rs_current s = noCurrent -> invoke (Some c) r i b s = (iv, s') ->
  recordOk iv /\ hasStatus (Skipped PropagationStoppedSkip) iv = false /\ hasStatus (Skipped NativeStopImmediateSkip) iv = false.
Proof.
  intros Hc Hs E. destruct (dl_listener r) as [f|] eqn:Ef.
  - apply invoke_frames in E as (_ & Hr & _ & Hn & Ht & He & Hst); [|done|done]. rewrite Ef in Hn, Hst.
    specialize (Ht Hn) as (T1 & T2 & T3 & T4). specialize (Hst ltac:(done)). unfold hasStatus.
    split_and!; [|rewrite Hst; by destruct (iv_listenerErrorCaptured iv)..].
    exists r. split; [done|]. split; [done|]. left. split_and!; try done. congruence.
  - unfold invokeDispatchListenerRecordForCanary in E. rewrite Ef in E. injection E as <- <-.
    split_and!; try done. exists r. split; [done|]. split; [done|]. right. split; [done|]. split; [done|]. by left.
Qed.

Lemma skip_ok r i b reason p :
  reason = PropagationStoppedSkip \/ reason = NativeStopImmediateSkip ->
  recordOk (createSkippedSingleListenerInvocationCanaryRecord (Some r) i b reason p).
Proof. intros [-> | ->]; exists r; split_and!; try done; right; split_and!; try done; right; [left|right]; done. Qed.

Lemma skipsExplained_snoc ivs iv :
  skipsExplained ivs -> (iv_invocationStatus iv = Skipped PropagationStoppedSkip -> stoppedIn ivs) ->
  (iv_invocationStatus iv = Skipped NativeStopImmediateSkip -> immediatelyStoppedIn ivs) -> skipsExplained (ivs ++ [iv]).
Proof.
  intros H Hp Hn pre x post E. destruct post as [|y post _] using rev_ind.
  - apply app_inj_tail in E as [-> ->]. by split.
  - rewrite app_comm_cons, app_assoc in E. apply app_inj_tail in E as [-> _]. by eapply H.
Qed.

Lemma flagsExplained_skip a a' s iv :
  flagsExplained a s -> ta_invocationRecords a' = ta_invocationRecords a ++ [iv] ->
  (iv_invocationStatus iv = Skipped PropagationStoppedSkip -> stopped (rs_propagation s) = true) ->
  (iv_invocationStatus iv = Skipped NativeStopImmediateSkip -> immediateStopped (rs_propagation s) = true) ->
  flagsExplained a' s.
Proof.
  intros (H1 & H2 & H3) E Hp Hn. unfold flagsExplained. rewrite E.
  split; [apply skipsExplained_snoc; auto|]. split; intros H; apply Exists_app; left; [by apply H2|by apply H3].
Qed.

(** An invocation that changes the flags says so in its record. *)
Lemma invoke_flags c r i b s iv s' :
  ce_hasContext c = true -> invoke (Some c) r i b s = (iv, s') ->
  s' = s \/ (iv_listenerInvocationCount iv = 1 /\ iv_propagationStoppedAfter iv = stopped (rs_propagation s')
              /\ iv_nativeImmediateStoppedAfter iv = immediateStopped (rs_propagation s')).
Proof.
  intros Hc. unfold invokeDispatchListenerRecordForCanary. destruct (dl_listener r) as [f|]; [|intros [= <- <-]; by left].
  simpl default. rewrite Hc. destruct (callListener _ _ _ c r f _ s) as [[outcome [[before during] after]] s1].
  intros [= <- <-]. right. unfold contextPropagation. by rewrite Hc.
Qed.

Lemma flagsExplained_invocation o a iv r s s' :
  flagsExplained a s -> hasStatus (Skipped PropagationStoppedSkip) iv = false ->
  hasStatus (Skipped NativeStopImmediateSkip) iv = false ->
  s' = s \/ (iv_listenerInvocationCount iv = 1 /\ iv_propagationStoppedAfter iv = stopped (rs_propagation s')
              /\ iv_nativeImmediateStoppedAfter iv = immediateStopped (rs_propagation s')) ->
  flagsExplained (tallyInvocation o iv r s s' a) s'.
Proof.
  unfold hasStatus. intros Hf Hp%bool_decide_eq_false Hn%bool_decide_eq_false [->|(H1 & H2 & H3)].
  { by eapply flagsExplained_skip with (iv := iv). }
  destruct Hf as (G & _ & _). split; [by apply skipsExplained_snoc|]. split; intros H; simpl; apply Exists_app; right;
    apply Exists_cons; left; (split; [done|congruence]).
Qed.

Lemma served_length i l g : servedFrom i l g -> length g <= length l.
Proof. induction 1; simpl; lia. Qed.

Lemma skip_flags r prev c s : ce_hasContext c = true ->
  (shouldSkipDispatchListenerForNativeStopImmediatePropagation r c s = true -> immediateStopped (rs_propagation s) = true)
  /\ (shouldSkipDispatchListenerForPropagationStop r prev c s = true -> stopped (rs_propagation s) = true).
Proof.
  intros Hc. unfold shouldSkipDispatchListenerForNativeStopImmediatePropagation, shouldSkipDispatchListenerForPropagationStop, contextPropagation.
  rewrite Hc. destruct (rs_propagation s) as [p|]; [|done]. split; simpl.
  - by intros [[_ H]%andb_prop _]%andb_prop.
  - by intros [H _]%andb_prop.
Qed.

(** What holds of a tally and the state between two listeners. *)
Definition betweenListeners o (a : tally (Node := Node)) s : Prop :=
  tallyOk o a /\ rs_current s = noCurrent /\ flagsExplained a s.

Lemma skip_between o a a' s iv : betweenListeners o a s -> recordOk iv -> iv_listenerErrorCaptured iv = false ->
  invoked iv = false ->
  ta_invocationRecords a' = ta_invocationRecords a ++ [iv] -> ta_listenerErrorRoutes a' = ta_listenerErrorRoutes a ->
  ta_listenerErrorCount a' = ta_listenerErrorCount a -> ta_listenerInvocationCount a' = ta_listenerInvocationCount a ->
  ta_propagationSkippedListenerCount a'
  = ta_propagationSkippedListenerCount a + (if hasStatus (Skipped PropagationStoppedSkip) iv then 1 else 0) ->
  ta_nativeStopSkippedListenerCount a'
  = ta_nativeStopSkippedListenerCount a + (if hasStatus (Skipped NativeStopImmediateSkip) iv then 1 else 0) ->
  (iv_invocationStatus iv = Skipped PropagationStoppedSkip -> stopped (rs_propagation s) = true) ->
  (iv_invocationStatus iv = Skipped NativeStopImmediateSkip -> immediateStopped (rs_propagation s) = true) ->
  betweenListeners o a' s.
Proof.
  intros ((H1 & H2 & H3 & H4 & H5 & H6) & Hs & Hf) Hok He Hi E1 E2 E3 E4 E5 E6 Hp Hn.
  split; [|split; [done|by eapply flagsExplained_skip]]. unfold tallyOk, countOf in *.
  rewrite E1, E2, E3, E4, E5, E6, !countOf_snoc, routesOf_snoc, H2, H3, H4, H5, H6, He, Hi. simpl. rewrite app_nil_r, !Nat.add_0_r.
  split_and!; try done. apply Forall_app. split; [done|]. by constructor.
Qed.

Lemma loop_ok o c l : ce_hasContext c = true -> forall i prev a s, betweenListeners o a s ->
  let '(a', s') := loop o c i prev l a s in
  betweenListeners o a' s'
  /\ (exists g, ta_invocationRecords a' = ta_invocationRecords a ++ g /\ servedFrom i l g)
  /\ ta_listenerCandidateCount a' = ta_listenerCandidateCount a
  /\ ta_dispatchQueueEntryCount a' = ta_dispatchQueueEntryCount a.
Proof.
  intros Hc. induction l as [|r l IH]; intros i prev a s Ha.
  { split; [done|]. split; [|done]. exists []. split; [by rewrite app_nil_r|constructor]. }
  cbn [listenerLoop]. destruct (skip_flags r prev c s Hc) as [Hn Hp].
  assert (Hnext : forall iv a1 s1, betweenListeners o a1 s1 -> iv_listenerRecord iv = Some r -> iv_listenerIndex iv = i ->
    iv_invocationStatus iv <> Skipped PropagationStoppedSkip -> ta_invocationRecords a1 = ta_invocationRecords a ++ [iv] ->
    ta_listenerCandidateCount a1 = ta_listenerCandidateCount a -> ta_dispatchQueueEntryCount a1 = ta_dispatchQueueEntryCount a ->
    let '(a', s') := loop o c (S i) (Some (dl_targetInst r)) l a1 s1 in
    betweenListeners o a' s' /\ (exists g, ta_invocationRecords a' = ta_invocationRecords a ++ g /\ servedFrom i (r :: l) g)
    /\ ta_listenerCandidateCount a' = ta_listenerCandidateCount a
    /\ ta_dispatchQueueEntryCount a' = ta_dispatchQueueEntryCount a).
  { intros iv a1 s1 H1 R1 R2 R3 E1 E2 E3. specialize (IH (S i) (Some (dl_targetInst r)) a1 s1 H1).
    destruct (loop _ _ _ _ _ _ _) as [a' s']. destruct IH as (B & (g & Eg & Hg) & G1 & G2). split; [done|].
    split; [|split; congruence]. exists (iv :: g). rewrite Eg, E1, <- app_assoc. split; [done|by constructor]. }
  destruct (shouldSkipDispatchListenerForNativeStopImmediatePropagation r c s).
  { apply (Hnext (skipRecord o s r i NativeStopImmediateSkip)); [|done..].
    eapply (skip_between _ _ _ _ (skipRecord o s r i NativeStopImmediateSkip)); try done; [apply skip_ok; by right|].
    intros _. by apply Hn. }
  destruct (shouldSkipDispatchListenerForPropagationStop r prev c s).
  { split; [|split; [|done]].
    - eapply (skip_between _ _ _ _ (skipRecord o s r i PropagationStoppedSkip)); try done; [apply skip_ok; by left|].
      intros _. by apply Hp.
    - eexists. split; [done|]. by constructor. }
  destruct (invoke _ _ _ _ _) as [iv s1] eqn:E. destruct Ha as (Ha & Hs & Hf).
  pose proof (invoke_record _ _ _ _ _ _ _ Hc Hs E) as (R1 & R2 & R3). pose proof (invoke_flags _ _ _ _ _ _ _ Hc E) as Hfl.
  apply invoke_frames in E as ((Hs1 & _) & Hr & Hi & _); [|done|done].
  apply (Hnext iv); try done.
  - split; [by apply invocation_ok|]. split; [done|by apply flagsExplained_invocation].
  - by apply bool_decide_eq_false in R2.
Qed.

(** The accounts between two entries, with the entries [es] so far. *)
Definition accounts o (es : list (dispatchQueueEntry Node)) (x : tally (Node := Node) * state) : Prop :=
  betweenListeners o (fst x) (snd x)
  /\ ta_dispatchQueueEntryCount (fst x) = length es
  /\ ta_listenerCandidateCount (fst x) = length (flat_map (listenersOf o) es)
  /\ exists gs, ta_invocationRecords (fst x) = concat gs /\ Forall2 (fun entry g => servedFrom 0 (listenersOf o entry) g) es gs.

Lemma context_flags d l s c s' : createDispatchQueueCanaryEventContext d l s = (Some c, s') ->
  (stopped (rs_propagation s') = true -> stopped (rs_propagation s) = true)
  /\ (immediateStopped (rs_propagation s') = true -> immediateStopped (rs_propagation s) = true).
Proof.
  destruct l as [|r l]; [done|]. simpl. intros [= _ <-]. simpl. destruct (rs_propagation s) as [p|]; [|done].
  simpl. by split; intros [_ H]%andb_prop.
Qed.

Lemma reset_flags c s : ce_hasContext c = true ->
  let s' := resetDispatchQueueCanaryEventAfterListener c s in
  rs_current s' = noCurrent /\ stopped (rs_propagation s') = stopped (rs_propagation s)
  /\ immediateStopped (rs_propagation s') = immediateStopped (rs_propagation s).
Proof.
  intros Hc. unfold resetDispatchQueueCanaryEventAfterListener. rewrite Hc. simpl. by destruct (rs_propagation s).
Qed.

Lemma entry_accounts o d entry es x :
  accounts o es x ->
  accounts o (es ++ [entry]) (entryStep nativePreventDefault nativeStopPropagation listenerCode o d entry x).
Proof.
  destruct x as [a s]. intros ((Ha & Hs & Hf1 & Hf2 & Hf3) & Hk & Hn & gs & Hgs & HF). unfold entryStep. simpl in *.
  assert (Hend : forall a' g, ta_dispatchQueueEntryCount a' = ta_dispatchQueueEntryCount a + 1 ->
    ta_listenerCandidateCount a' = ta_listenerCandidateCount a + length (listenersOf o entry) ->
    ta_invocationRecords a' = ta_invocationRecords a ++ g -> servedFrom 0 (listenersOf o entry) g ->
    ta_dispatchQueueEntryCount a' = length (es ++ [entry])
    /\ ta_listenerCandidateCount a' = length (flat_map (listenersOf o) (es ++ [entry]))
    /\ exists gs, ta_invocationRecords a' = concat gs
       /\ Forall2 (fun entry g => servedFrom 0 (listenersOf o entry) g) (es ++ [entry]) gs).
  { intros a' g -> -> -> Hg. rewrite flat_map_app, !length_app, Hk, Hn, Hgs. simpl. rewrite app_nil_r. split_and!; [done..|].
    exists (gs ++ [g]). rewrite concat_app. simpl. rewrite app_nil_r. split; [done|]. apply Forall2_app; [done|by constructor]. }
  destruct (createDispatchQueueCanaryEventContext d (listenersOf o entry) s) as [[c|] s1] eqn:E.
  - pose proof (context_flags _ _ _ _ _ E) as [C1 C2].
    apply context_apart with (rest := []) in E as (_ & Hs1 & Hc); [|by intros p x _ _ ?%not_elem_of_nil].
    pose proof (loop_ok o c (listenersOf o entry) Hc 0 None (tallyEntry (length (listenersOf o entry)) a) s1) as H.
    destruct (listenerLoop _ _ _ _ _ _ _ _ _ _) as [a2 s2].
    destruct H as ((B1 & B2 & B3 & B4 & B5) & (g & Eg & Hg) & G3 & G4).
    { split; [done|]. split; [done|]. split; [done|]. simpl. split; auto. }
    destruct (reset_flags c s2 Hc) as (R1 & R2 & R3). split; [|by apply (Hend a2 g)].
    simpl. split; [done|]. split; [done|]. unfold flagsExplained. by rewrite R2, R3.
  - apply context_none in E as [E ->]. split; [done|]. apply (Hend _ []); rewrite ?E; try done; [by rewrite app_nil_r|constructor].
Qed.

Definition entriesOf (ds : list (dispatchRecord Node)) : list (dispatchQueueEntry Node) :=
  flat_map (fun d => dq_entries (dr_dispatchQueue d)) ds.

Lemma candidates_entries o ds : flat_map (listenersOfRecord o) ds = flat_map (listenersOf o) (entriesOf ds).
Proof. induction ds as [|d ds IH]; [done|]. cbn [entriesOf flat_map]. rewrite flat_map_app. by f_equal. Qed.

Lemma records_accounts o ds es x :
  accounts o es x ->
  accounts o (es ++ entriesOf ds) (fold_left (recordStep nativePreventDefault nativeStopPropagation listenerCode o) ds x).
Proof.
  induction ds as [|d ds IH] in es, x |- *; intros H; cbn [fold_left].
  { simpl. by rewrite app_nil_r. }
  cbn [entriesOf flat_map]. rewrite app_assoc. apply IH. unfold recordStep.
  generalize (dq_entries (dr_dispatchQueue d)) as ns. intros ns.
  induction ns as [|e ns IHe] in es, x, H |- *; cbn [fold_left].
  { by rewrite app_nil_r. }
  rewrite cons_middle, app_assoc. apply IHe. by apply entry_accounts.
Qed.

Lemma initial_accounts o ev user : accounts o [] (emptyTally, initialRun o ev user).
Proof.
  split; [|split_and!; try done; exists []; by split]. split; [|split; [done|]].
  - unfold tallyOk, routesOf, countOf. simpl. split_and!; try done. by destruct (enableListenerErrorRoutingDiagnostics o).
  - split; [by intros [] ? ? ?|]. unfold initialRun, createDispatchQueuePropagationDiagnosticState. simpl.
    by destruct (negb _ && negb _).
Qed.

Lemma invoked_phases (ivs : list (invocationRecord (Node := Node))) :
  Forall recordOk ivs ->
  length (List.filter (invokedInPhase true) ivs) + length (List.filter (invokedInPhase false) ivs)
  = length (List.filter invoked ivs)
  /\ length (List.filter (fun iv => (0 <? iv_listenerInvocationCount iv)%nat && iv_currentTargetReset iv) ivs)
     = length (List.filter invoked ivs)
  /\ length ivs = length (List.filter invoked ivs) + length (List.filter (hasStatus (Skipped NoListenerFunction)) ivs)
                  + length (List.filter (hasStatus (Skipped PropagationStoppedSkip)) ivs)
                  + length (List.filter (hasStatus (Skipped NativeStopImmediateSkip)) ivs).
Proof.
  induction 1 as [|iv ivs (r & Hr & _ & H) _ (IH1 & IH2 & IH3)]; [done|]. unfold invokedInPhase, invoked, hasStatus in *.
  simpl. rewrite Hr. destruct H as [(-> & _ & Hst & _ & _ & _ & ->)|(-> & _ & H)]; simpl.
  - rewrite Hst. destruct (dl_inCapturePhase r), (iv_listenerErrorCaptured iv); simpl; lia.
  - rewrite !andb_false_r. destruct H as [(-> & _)|[-> | ->]]; simpl; lia.
Qed.

Lemma mapRes_records (l : list (option (dispatchRecord Node))) ds :
  mapRes assertEventDispatchRecord l = Ok ds -> l = map Some ds.
Proof.
  induction l as [|x l IH] in ds |- *; simpl; [by intros [= <-]|].
  destruct x as [d|]; [|done]. simpl. destruct (mapRes _ l) as [r|]; [|done]. intros [= <-]. simpl. by rewrite (IH r).
Qed.

Abbreviation dispatch := (invokeDispatchQueueCanaryFromDispatchRecords nativePreventDefault nativeStopPropagation).

(** C29: The accounts of a dispatch that returns. The records of the result are those of the
    queue entries one after the other, and those of an entry are one for each of its
    listeners, in their order, each with its position; only when propagation was stopped does
    an entry end early, with the record of the listener that would have been next. Each record
    says either that the listener ran, once, with its own node as the event's [currentTarget]
    and none before and after, or why it did not: there was no function, or a record before it
    is that of a listener that ran and after which propagation, or immediate propagation, was
    stopped. The counts of the result are those of the records, every queue entry and every
    candidate is counted, and each [currentTarget] was reset, whatever the listeners did. *)
Theorem dispatch_accounts records options ev user q w :
  dispatch listenerCode records options ev user = (Ok q, w) ->
  let o := normalizeDispatchQueueCanaryOptions options in
  let ivs := ta_invocationRecords (qi_tally q) in
  exists ds, records = map Some ds /\ qi_dispatchRecordCount q = length ds
  /\ (exists gs, ivs = concat gs /\ Forall2 (fun entry g => servedFrom 0 (listenersOf o entry) g) (entriesOf ds) gs)
  /\ Forall recordOk ivs
  /\ skipsExplained ivs
  /\ length ivs = ta_listenerInvocationCount (qi_tally q) + countOf (hasStatus (Skipped NoListenerFunction)) (qi_tally q)
                  + ta_propagationSkippedListenerCount (qi_tally q) + ta_nativeStopSkippedListenerCount (qi_tally q)
  /\ ta_listenerCandidateCount (qi_tally q) = length (flat_map (listenersOfRecord o) ds)
  /\ ta_dispatchQueueEntryCount (qi_tally q) = length (entriesOf ds)
  /\ qi_captureListenerInvocationCount q + qi_bubbleListenerInvocationCount q = ta_listenerInvocationCount (qi_tally q)
  /\ qi_currentTargetResetCount q = ta_listenerInvocationCount (qi_tally q)
  /\ qi_currentTargetResetAfterDispatch q = true.
Proof.
  intros H o ivs. unfold invokeDispatchQueueCanaryFromDispatchRecords in H. fold o in H.
  destruct (mapRes assertEventDispatchRecord records) as [ds|e] eqn:Ed; cbn [pureStep andThen fst snd] in H; [|done].
  apply mapRes_records in Ed as ->. exists ds.
  pose proof (records_accounts o ds [] _ (initial_accounts o ev user)) as ((Ha & _ & Hf & _) & Hk & Hn & Hgs).
  destruct (fold_left _ ds _) as [a s]. injection H as <- _. subst ivs. simpl in *.
  destruct Ha as (H1 & H2 & H3 & H4 & H5 & H6). pose proof (invoked_phases _ H1) as (P1 & P2 & P3).
  unfold countOf in *. rewrite candidates_entries. split; [done|]. split; [done|]. split; [done|]. split_and!; try done; try lia.
  apply Nat.eqb_eq. lia.
Qed.

Definition quietQueue (q : queueInvocationRecord (Node := Node)) : queueInvocationRecord :=
  mkQueueInvocation (quietTally (qi_tally q)) (qi_dispatchRecordCount q)
    (qi_captureListenerInvocationCount q) (qi_bubbleListenerInvocationCount q)
    (qi_currentTargetResetCount q) (qi_currentTargetResetAfterDispatch q)
    (qi_defaultPrevented q) (qi_nativeDefaultPreventedBefore q) (qi_nativeDefaultPreventedAfter q)
    (qi_preventDefaultCallCount q) (qi_nativePreventDefaultCallCount q) (qi_nativePreventDefaultCallCountDelta q)
    (match ta_invocationRecords (qi_tally q) with [] => "skipped-no-listeners" | _ => "invoked-dispatch-queue-canary" end)
    (qi_nativeImmediatePropagationStopped q) (qi_nativeStopImmediateCallCount q)
    (qi_propagationStopped q) (qi_propagationStopCallCount q) (qi_propagationStopNativeCallCount q).

Lemma filter_quiet f (ivs : list (invocationRecord (Node := Node))) :
  (forall iv, f (quiet iv) = f iv) -> length (List.filter f (map quiet ivs)) = length (List.filter f ivs).
Proof. intros H. induction ivs as [|iv ivs IH]; [done|]. simpl. rewrite H. destruct (f iv); simpl; by rewrite IH. Qed.

Lemma queue_quiet n a s : queueInvocationRecordOf n (quietTally a) s = quietQueue (queueInvocationRecordOf n a s).
Proof.
  unfold queueInvocationRecordOf, quietQueue. simpl. rewrite !filter_quiet by done.
  f_equal. by destruct (ta_invocationRecords a).
Qed.

(** C31: An exception of a listener is isolated: replacing every uncaught exception of every
    listener by a return changes neither which listeners run nor the native events nor the
    listeners' own state, nor anything of the result but the error reports; and these are one
    route for each listener whose exception was captured, in the order in which they ran. *)
Theorem listener_errors_isolated records options ev user :
  let o := normalizeDispatchQueueCanaryOptions options in
  let '(result, w) := dispatch listenerCode records options ev user in
  dispatch silenced records options ev user
  = (match result with Ok q => Ok (quietQueue q) | Throw e => Throw e end, w)
  /\ (forall q, result = Ok q ->
        ta_listenerErrorRoutes (qi_tally q) = routesOf o (ta_invocationRecords (qi_tally q))
        /\ ta_listenerErrorCount (qi_tally q) = countOf iv_listenerErrorCaptured (qi_tally q)).
Proof.
  intros o. unfold invokeDispatchQueueCanaryFromDispatchRecords. fold o.
  destruct (mapRes assertEventDispatchRecord records) as [ds|e]; cbn [pureStep andThen fst snd]; [|done].
  change (@emptyTally Node) with (quietTally (@emptyTally Node)) at 2. rewrite records_silenced.
  pose proof (records_accounts o ds [] _ (initial_accounts o ev user)) as (((_ & H2 & H3 & _) & _) & _).
  destruct (fold_left _ ds _) as [a s]. split; [by rewrite queue_quiet|]. intros q [= <-]. by split.
Qed.

(** ** [preventDefault] *)

(** Prevention lasts: a listener that runs after one that found the default prevented
    finds it prevented. *)
Definition lasts (iv iv' : invocationRecord (Node := Node)) : Prop :=
  iv_defaultPreventedAfter iv = true -> iv_listenerInvocationCount iv' = 1 -> iv_defaultPreventedBefore iv' = true.

Definition preventedBy (start : bool) (ivs : list (invocationRecord (Node := Node))) : bool :=
  start || existsb iv_defaultPreventedAfter ivs.

(** The state of one native event [e], which was prevented at the start or not. *)
Definition preventionOk (e : eventArg) (start : bool) (a : tally (Node := Node)) s : Prop :=
  StronglySorted lasts (ta_invocationRecords a)
  /\ exists p, rs_default s = Some p /\ dp_nativeEvent p = e
     /\ dp_defaultPrevented p = preventedBy start (ta_invocationRecords a)
     /\ (getNativeEventDefaultPrevented (rs_events s) e = true -> dp_defaultPrevented p = true).

Lemma sorted_snoc (ivs : list (invocationRecord (Node := Node))) iv :
  StronglySorted lasts ivs -> Forall (fun x => lasts x iv) ivs -> StronglySorted lasts (ivs ++ [iv]).
Proof.
  induction 1 as [|x ivs Hs IH Hx]; intros H; simpl; [constructor; constructor|].
  apply Forall_cons in H as [H1 H2]. constructor; [by apply IH|]. apply Forall_app. split; [done|]. by constructor.
Qed.

Lemma preventedBy_snoc start ivs iv :
  preventedBy start (ivs ++ [iv]) = preventedBy start ivs || iv_defaultPreventedAfter iv.
Proof. unfold preventedBy. rewrite existsb_app. simpl. by rewrite orb_false_r, orb_assoc. Qed.

Lemma invoke_prevention c r i b s iv s' p :
  ce_hasContext c = true -> rs_current s = noCurrent -> invoke (Some c) r i b s = (iv, s') -> rs_default s = Some p ->
  exists p', rs_default s' = Some p' /\ dp_nativeEvent p' = dp_nativeEvent p
  /\ (dp_defaultPrevented p = true -> dp_defaultPrevented p' = true)
  /\ ((iv_listenerInvocationCount iv = 1 /\ iv_defaultPreventedBefore iv = dp_defaultPrevented p
        /\ iv_defaultPreventedAfter iv = dp_defaultPrevented p'
        /\ (getNativeEventDefaultPrevented (rs_events s') (dp_nativeEvent p) = true -> dp_defaultPrevented p' = true))
      \/ (iv_listenerInvocationCount iv = 0 /\ iv_defaultPreventedAfter iv = false /\ s' = s)).
Proof.
  intros Hc Hs E Hp. pose proof E as E0. apply invoke_frames in E0 as ((_ & _ & Hd) & _); [|done|done].
  rewrite Hp in Hd. destruct (rs_default s') as [p'|] eqn:Ep'; [|done]. destruct Hd as (H1 & H2 & _).
  exists p'. split; [done|]. split; [done|]. split; [done|].
  unfold invokeDispatchListenerRecordForCanary in E. destruct (dl_listener r) as [f|].
  2: { right. injection E as <- <-. by split_and!. }
  left. simpl default in E. rewrite Hc in E. destruct (callListener _ _ _ _ _ _ _ _) as [[outcome [[b1 b2] b3]] s1].
  injection E as <- <-. unfold contextDefault. rewrite Hc. simpl. unfold prevented. rewrite Hp.
  simpl in Ep' |- *. rewrite Ep'. split_and!; try done. rewrite <- H1.
  destruct (rs_default s1) as [p1|]; [|done]. simpl in Ep'. injection Ep' as <-. simpl. intros ->. apply orb_true_r.
Qed.

Lemma loop_prevention o c l e start : ce_hasContext c = true -> forall i prev a s,
  rs_current s = noCurrent -> preventionOk e start a s ->
  let x := loop o c i prev l a s in preventionOk e start (fst x) (snd x).
Proof.
  intros Hc. induction l as [|r l IH]; intros i prev a s Hs (Hsort & p & Hp & He & Hpre & Hnat); [by split; [|exists p]|].
  assert (Hall : forall iv, iv_listenerInvocationCount iv = 1 -> iv_defaultPreventedBefore iv = dp_defaultPrevented p ->
    Forall (fun x => lasts x iv) (ta_invocationRecords a)).
  { intros iv _ Hb. apply Forall_forall. intros x Hx Ha _. rewrite Hb, Hpre. unfold preventedBy.
    apply orb_true_iff. right. apply existsb_exists. exists x. split; [by apply list_elem_of_In|done]. }
  assert (Hskip : forall iv, iv_listenerInvocationCount iv = 0 -> iv_defaultPreventedAfter iv = false ->
    StronglySorted lasts (ta_invocationRecords a ++ [iv])
    /\ dp_defaultPrevented p = preventedBy start (ta_invocationRecords a ++ [iv])).
  { intros iv Hz Hf. rewrite preventedBy_snoc, Hf, orb_false_r. split; [|done]. apply sorted_snoc; [done|].
    apply Forall_forall. intros x _ _ Hone. congruence. }
  cbn [listenerLoop]. destruct (shouldSkipDispatchListenerForNativeStopImmediatePropagation r c s).
  { apply IH; [done|]. edestruct Hskip as [G1 G2]; [| |split; [exact G1|by exists p]]; done. }
  destruct (shouldSkipDispatchListenerForPropagationStop r prev c s).
  { edestruct Hskip as [G1 G2]; [| |split; [exact G1|by exists p]]; done. }
  destruct (invoke _ _ _ _ _) as [iv s1] eqn:E.
  destruct (invoke_prevention _ _ _ _ _ _ _ _ Hc Hs E Hp) as (p' & Hp' & He' & Hmono & Hiv).
  apply invoke_frames in E as ((Hs1 & _) & _); [|done|done]. apply IH; [done|].
  destruct Hiv as [(Hone & Hb & Ha & Hn)|(Hz & Hf & ->)].
  - split; [apply sorted_snoc; [done|by apply Hall]|]. exists p'. split; [done|]. split; [congruence|].
    cbn [ta_invocationRecords tallyInvocation]. rewrite preventedBy_snoc, <- Hpre, Ha. split.
    + destruct (dp_defaultPrevented p); [by rewrite (Hmono eq_refl)|done].
    + by rewrite <- He.
  - edestruct Hskip as [G1 G2]; [| |split; [exact G1|by exists p]]; done.
Qed.

(** Before the first listener no event is known. *)
Definition untouched (id : N) (start : bool) (a : tally (Node := Node)) s : Prop :=
  ta_invocationRecords a = [] /\ getNativeEventDefaultPrevented (rs_events s) (inr id) = start
  /\ exists p, rs_default s = Some p /\ dp_nativeEvent p = nullEvent.

Lemma context_prevention d l id start a s c s1 :
  Forall (fun r => dl_nativeEvent r = inr id) l -> untouched id start a s \/ preventionOk (inr id) start a s ->
  createDispatchQueueCanaryEventContext d l s = (Some c, s1) -> preventionOk (inr id) start a s1.
Proof.
  destruct l as [|r l]; [done|]. intros [Hr _]%Forall_cons. cbn [createDispatchQueueCanaryEventContext]. rewrite Hr.
  intros H [= _ <-]. unfold initializeDefaultPreventedDiagnosticStateForNativeEvent, preventionOk.
  destruct H as [(Hnil & Hst & p & Hp & He)|(Hsort & p & Hp & He & Hpre & Hnat)]; cbn [rs_default overDefault setDefault overPropagation setPropagation];
    rewrite Hp; cbn [fmap option_fmap option_map]; rewrite He; cbn [sameEvent nullEvent].
  - rewrite Hnil. split; [constructor|]. eexists. split; [done|]. simpl. split; [done|].
    unfold preventedBy. simpl. by rewrite orb_false_r.
  - rewrite N.eqb_refl. split; [done|]. eexists. split; [done|]. simpl. rewrite He. split; [done|].
    destruct (getNativeEventDefaultPrevented (rs_events s) (inr id)) eqn:En.
    + rewrite orb_true_r. split; [|done]. by rewrite <- Hpre, Hnat.
    + by rewrite orb_false_r.
Qed.

Lemma entry_prevention o d entry id start a s :
  Forall (fun r => dl_nativeEvent r = inr id) (listenersOf o entry) ->
  untouched id start a s \/ preventionOk (inr id) start a s ->
  let x := entryStep nativePreventDefault nativeStopPropagation listenerCode o d entry (a, s) in
  (listenersOf o entry = [] -> untouched id start (fst x) (snd x) \/ preventionOk (inr id) start (fst x) (snd x))
  /\ (preventionOk (inr id) start a s \/ listenersOf o entry <> [] -> preventionOk (inr id) start (fst x) (snd x)).
Proof.
  intros Hl H. unfold entryStep. destruct (createDispatchQueueCanaryEventContext d (listenersOf o entry) s) as [[c|] s1] eqn:E.
  - pose proof (context_prevention _ _ _ _ _ _ _ _ Hl H E) as H1.
    apply context_apart with (rest := []) in E as (_ & Hs1 & Hc); [|by intros p x _ _ ?%not_elem_of_nil].
    pose proof (loop_prevention o c (listenersOf o entry) (inr id) start Hc 0 None (tallyEntry (length (listenersOf o entry)) a) s1 Hs1 H1) as H2.
    destruct (listenerLoop _ _ _ _ _ _ _ _ _ _) as [a2 s2]. simpl in *.
    assert (H3 : preventionOk (inr id) start a2 (resetDispatchQueueCanaryEventAfterListener c s2)).
    { unfold resetDispatchQueueCanaryEventAfterListener. rewrite Hc. destruct H2 as (G & p & Hp & G2).
      split; [done|]. exists (setDefaultTarget None p). simpl. rewrite Hp. by split. }
    split; [by right|done].
  - apply context_none in E as [E ->]. rewrite E. simpl. split; [intros _|intros [?|?]]; done.
Qed.

Lemma records_prevention o id start ds a s :
  Forall (fun r => dl_nativeEvent r = inr id) (flat_map (listenersOfRecord o) ds) ->
  untouched id start a s \/ preventionOk (inr id) start a s ->
  let x := fold_left (recordStep nativePreventDefault nativeStopPropagation listenerCode o) ds (a, s) in
  preventionOk (inr id) start a s \/ flat_map (listenersOfRecord o) ds <> [] -> preventionOk (inr id) start (fst x) (snd x).
Proof.
  induction ds as [|d ds IH] in a, s |- *; [by intros _ _ x [?|?]|]. cbn [fold_left flat_map].
  intros [Hd Hds]%Forall_app H Hor.
  assert (Hrec : let y := recordStep nativePreventDefault nativeStopPropagation listenerCode o (a, s) d in
    (untouched id start (fst y) (snd y) \/ preventionOk (inr id) start (fst y) (snd y))
    /\ (preventionOk (inr id) start a s \/ listenersOfRecord o d <> [] -> preventionOk (inr id) start (fst y) (snd y))).
  { clear -Hd H. unfold recordStep, listenersOfRecord in *. revert Hd. generalize (dq_entries (dr_dispatchQueue d)) as es.
    intros es. induction es as [|e es IH] in a, s, H |- *; [by intros _; split; [|intros [?|?]]|].
    cbn [fold_left flat_map]. intros [He Hes]%Forall_app. pose proof (entry_prevention o d e id start a s He H) as [G1 G2].
    destruct (entryStep _ _ _ _ _ _ _) as [a1 s1]. cbn [fst snd] in G1, G2.
    destruct (listenersOf o e) as [|r0 l0]; simpl in *.
    - destruct (IH a1 s1 (G1 eq_refl) Hes) as [F1 F2]. split; [done|]. intros [Hp|Hne]; apply F2; [left; apply G2; by left|by right].
    - assert (Hok : preventionOk (inr id) start a1 s1) by (apply G2; by right).
      destruct (IH a1 s1 (or_intror Hok) Hes) as [F1 F2]. split; [done|]. intros _. apply F2. by left. }
  destruct (recordStep _ _ _ _ _ _) as [a1 s1]. destruct Hrec as [G1 G2]. cbn [fst snd] in *.
  apply IH; [done|done|]. destruct Hor as [?|Hne]; [left; apply G2; by left|].
  destruct (listenersOfRecord o d); [by right|left; apply G2; by right].
Qed.

(** C30: The default action: in a dispatch over records of one native event with at least one
    listener and the diagnostics of [preventDefault] enabled, the result says that the
    default is prevented exactly when the event came prevented or a listener that ran left it
    prevented; no listener undoes it: every later listener that runs, of any record, finds
    it prevented; and a native event that ends prevented is reported so. *)
Theorem default_prevented_spec ds options ev user id q w :
  let o := normalizeDispatchQueueCanaryOptions options in
  enableDefaultPreventedDiagnostics o = true ->
  Forall (fun r => dl_nativeEvent r = inr id) (flat_map (listenersOfRecord o) ds) ->
  flat_map (listenersOfRecord o) ds <> [] ->
  dispatch listenerCode (map Some ds) options ev user = (Ok q, w) ->
  qi_defaultPrevented q = preventedBy (getNativeEventDefaultPrevented ev (inr id)) (ta_invocationRecords (qi_tally q))
  /\ StronglySorted lasts (ta_invocationRecords (qi_tally q))
  /\ (getNativeEventDefaultPrevented (fst w) (inr id) = true -> qi_defaultPrevented q = true).
Proof.
  intros o Hen Hev Hne. unfold invokeDispatchQueueCanaryFromDispatchRecords. rewrite mapRes_some.
  cbn [pureStep andThen fst snd]. fold o.
  pose proof (records_prevention o id (getNativeEventDefaultPrevented ev (inr id)) ds emptyTally (initialRun o ev user) Hev) as H.
  destruct (fold_left _ ds _) as [a s]. intros [= <- <-]. destruct H as (Hsort & p & Hp & He & Hpre & Hnat).
  - left. split; [done|]. split; [done|]. unfold initialRun, createDispatchQueueDefaultPreventedDiagnosticState.
    simpl. rewrite Hen. by eexists.
  - by right.
  - simpl in Hp, Hpre, Hnat |- *. rewrite Hp. simpl. split; [done|]. split; [done|]. exact Hnat.
Qed.
End DispatchSpec.
