(* ===== verification/EventPropagation.v ===== *)
(** * Dispatch as the DOM standard has it

    A reference for the dispatch of events that knows nothing of the records, counters and
    diagnostic states of [EventDispatch]: an event has a flag for "stop propagation", one for
    "stop immediate propagation" and one for its default action; listeners are served target
    by target. The dispatch of the code runs the same listeners, with the same outcomes and
    the same effects. *)
From S2P Require Import Prelude JsValue DomHost DomTree Events ListenerRegistry ComponentTree TreeTargets EventExtract EventDispatch EventDispatchSpec.

Section Reference.
Context {Node : Type} `{!EqDecision Node} `{!Countable Node} {User : Type}.
Context (nativePreventDefault nativeStopPropagation : nativeEvent Node -> effect (nativeEvent Node) unit).
Context (listenerCode : ref -> program (Node := Node) (User := User)).
Abbreviation state := (runState (Node := Node) (User := User)).
Abbreviation listener := (dispatchListener Node).
Abbreviation natives := (gmap N (nativeEvent Node)).

(** ** The event and its flags *)

(** The native events and the listeners' own state, the native event that is being
    dispatched, and its flags. *)
Record eventFlow : Type := mkFlow {
  fl_events : natives;
  fl_user : User;
  fl_event : option N;
  fl_stopped : bool;
  fl_immediate : bool;
  fl_prevented : bool }.

(** What a native event says about its default action and how often its immediate
    propagation was stopped. *)
Definition nativelyPrevented (ev : natives) (e : N) : bool :=
  match ev !! e with
  | None => false
  | Some n => bool_decide (ne_defaultPrevented n = VBool true)
              || nullish (ne_defaultPrevented n) && bool_decide (ne_returnValue n = VBool false)
  end.
Definition immediateStops (ev : natives) (e : N) : Z :=
  match ev !! e with
  | None => 0
  | Some n => match ne_stopImmediatePropagationCallCount n with
              | Some c => c
              | None => if decide (ne_immediatePropagationStopped n = VBool true) then 1 else 0
              end
  end.

Definition withEvents (ev : natives) (x : eventFlow) : eventFlow :=
  mkFlow ev (fl_user x) (fl_event x) (fl_stopped x) (fl_immediate x) (fl_prevented x).
Definition withFlags (stopped immediate prevented : bool) (x : eventFlow) : eventFlow :=
  mkFlow (fl_events x) (fl_user x) (fl_event x) stopped immediate prevented.

(** A call that the event passes on to its native event: to the method, or to an older
    property when there is no method. *)
Definition passOn (e : N) (has : nativeEvent Node -> bool) (method : nativeEvent Node -> effect (nativeEvent Node) unit)
    (older : nativeEvent Node -> nativeEvent Node) (x : eventFlow) : effect eventFlow unit :=
  match fl_events x !! e with
  | None => (Ok tt, x)
  | Some n =>
      if has n then let '(r, n') := method n in (r, withEvents (<[e := n']> (fl_events x)) x)
      else (Ok tt, withEvents (<[e := older n]> (fl_events x)) x)
  end.

(** ** One listener *)

Section Listener.
Context (o : canaryOptions) (e : N).
(** The event as the listener sees it. *)
Context (view : eventFlow -> eventView (Node := Node)).

Definition stopPropagation (x : eventFlow) : effect eventFlow unit :=
  if enablePropagationStopDiagnostics o then
    passOn e ne_hasStopPropagation nativeStopPropagation setCancelBubble
      (withFlags true (fl_immediate x) (fl_prevented x) x)
  else (Throw (TypeError "event.stopPropagation is not a function"), x).

Definition preventDefault (x : eventFlow) : effect eventFlow unit :=
  if enableDefaultPreventedDiagnostics o then
    passOn e ne_hasPreventDefault nativePreventDefault setReturnValue
      (withFlags (fl_stopped x) (fl_immediate x) true x)
  else (Throw (TypeError "event.preventDefault is not a function"), x).

Fixpoint listen (p : program (Node := Node) (User := User)) (x : eventFlow) : effect eventFlow value :=
  match p with
  | Return v => (Ok v, x)
  | Raise err => (Throw err, x)
  | CallStopPropagation k => let '(r, x) := stopPropagation x in listen (k r) x
  | CallPreventDefault k => let '(r, x) := preventDefault x in listen (k r) x
  | ReadEvent k => listen (k (view x)) x
  | Own f k =>
      let y := f (fl_events x, fl_user x) in
      listen (k y) (mkFlow (fst y) (snd y) (fl_event x) (fl_stopped x) (fl_immediate x) (fl_prevented x))
  end.
End Listener.

(** What listener [r] sees of the event [e] of the record [d], in an entry that starts with
    the listener [first]; [base] immediate stops were there before. *)
Definition viewOf (o : canaryOptions) (d : dispatchRecord Node) (e : N) (first r : listener) (base : Z) (x : eventFlow)
    : eventView (Node := Node) :=
  mkView (Some (dl_currentTarget r)) (dl_nativeEventType first) (dl_inCapturePhase first) (dl_registrationName first)
    (dl_nativeEventTarget first) (dr_targetInst d)
    (if enableNativeStopImmediatePropagationDiagnostics o then Some (inr e) else None)
    (if enableDefaultPreventedDiagnostics o then Some (fl_prevented x) else None)
    (if enablePropagationStopDiagnostics o then Some (fl_stopped x) else None)
    (if enableNativeStopImmediatePropagationDiagnostics o
     then Some (fl_immediate x || (base <? immediateStops (fl_events x) e)%Z) else None).

(** A listener that ran, with its outcome. *)
Definition ran : Type := listener * res value.

(** Afterwards the event knows whether the listener stopped immediate propagation and
    prevented the default natively. *)
Definition serveListener (o : canaryOptions) (d : dispatchRecord Node) (e : N) (first r : listener)
    (y : list ran * eventFlow) : list ran * eventFlow :=
  let '(l, x) := y in
  match dl_listener r with
  | None => (l, x)
  | Some f =>
      let base := immediateStops (fl_events x) e in
      let '(out, x') := listen o e (viewOf o d e first r base) (listenerCode f) x in
      (l ++ [(r, out)],
       withFlags (fl_stopped x')
         (fl_immediate x'
          || enableNativeStopImmediatePropagationDiagnostics o && (base <? immediateStops (fl_events x') e)%Z)
         (fl_prevented x' || nativelyPrevented (fl_events x') e) x')
  end.

(** ** Targets, entries and records *)

(** The listeners of one target, until immediate propagation is stopped. *)
Fixpoint serveTarget (o : canaryOptions) (d : dispatchRecord Node) (e : N) (first : listener) (g : list listener)
    (y : list ran * eventFlow) : list ran * eventFlow :=
  match g with
  | [] => y
  | r :: g => if fl_immediate (snd y) then y else serveTarget o d e first g (serveListener o d e first r y)
  end.

(** The targets of the path, until propagation is stopped. *)
Fixpoint servePath (o : canaryOptions) (d : dispatchRecord Node) (e : N) (first : listener) (gs : list (list listener))
    (y : list ran * eventFlow) : list ran * eventFlow :=
  match gs with
  | [] => y
  | g :: gs =>
      if fl_stopped (snd y) || fl_immediate (snd y) then y
      else servePath o d e first gs (serveTarget o d e first g y)
  end.

(** Another native event than the one before starts with its flags unset. *)
Definition turnTo (e : N) (x : eventFlow) : eventFlow :=
  if decide (fl_event x = Some e)
  then withFlags (fl_stopped x) (fl_immediate x) (fl_prevented x || nativelyPrevented (fl_events x) e) x
  else mkFlow (fl_events x) (fl_user x) (Some e) false false (nativelyPrevented (fl_events x) e).

Definition serveEntry (o : canaryOptions) (d : dispatchRecord Node) (y : list ran * eventFlow)
    (entry : dispatchQueueEntry Node) : list ran * eventFlow :=
  match listenersOf o entry with
  | [] => y
  | first :: _ =>
      match dl_nativeEvent first with
      | inr e => servePath o d e first (byInstance (listenersOf o entry)) (fst y, turnTo e (snd y))
      | inl _ => y
      end
  end.
Definition serveRecord (o : canaryOptions) (y : list ran * eventFlow) (d : dispatchRecord Node) : list ran * eventFlow :=
  fold_left (serveEntry o d) (dq_entries (dr_dispatchQueue d)) y.

Definition domEventDispatch (o : canaryOptions) (ds : list (dispatchRecord Node)) (ev : natives) (user : User)
    : list ran * eventFlow :=
  fold_left (serveRecord o) ds ([], mkFlow ev user None false false false).
End Reference.

Section Simulation.
Context {Node : Type} `{!EqDecision Node} `{!Countable Node} {User : Type}.
Context (nativePreventDefault nativeStopPropagation : nativeEvent Node -> effect (nativeEvent Node) unit).
Context (listenerCode : ref -> program (Node := Node) (User := User)).
Context (o : canaryOptions).
Abbreviation state := (runState (Node := Node) (User := User)).
Abbreviation flow := (eventFlow (Node := Node) (User := User)).
Abbreviation listener := (dispatchListener Node).
Abbreviation invoke := (invokeDispatchListenerRecordForCanary nativePreventDefault nativeStopPropagation listenerCode).
Abbreviation serve := (serveListener nativePreventDefault nativeStopPropagation listenerCode o).
Implicit Types (s : state) (x : flow) (r : listener).

(** ** The states of the code and the flags *)

(** The propagation state of the code, while the event [e] is dispatched. *)
Record propagationFlags (e : N) x (p : propagationState (Node := Node)) : Prop := {
  pf_stop : ps_enableStop p = enablePropagationStopDiagnostics o;
  pf_native : ps_enableNativeStop p = enableNativeStopImmediatePropagationDiagnostics o;
  pf_event : ps_nativeEvent p = inr e;
  pf_stopped : ps_propagationStopped p = fl_stopped x;
  pf_immediate : ps_nativeImmediatePropagationStopped p = fl_immediate x;
  pf_stoppedEvent : fl_stopped x = true -> ps_stoppedNativeEvent p = inr e;
  pf_immediateEvent : fl_immediate x = true -> ps_nativeStopImmediateStoppedNativeEvent p = inr e;
  pf_enabled : fl_immediate x = true -> enableNativeStopImmediatePropagationDiagnostics o = true }.
Record preventedFlag (e : N) x (q : defaultPreventedState (Node := Node)) : Prop := {
  df_event : dp_nativeEvent q = inr e;
  df_prevented : dp_defaultPrevented q = fl_prevented x }.

Definition withDiagnostics : bool :=
  enablePropagationStopDiagnostics o || enableNativeStopImmediatePropagationDiagnostics o.

Record follows (e : N) s x : Prop := {
  fw_events : rs_events s = fl_events x;
  fw_user : rs_user s = fl_user x;
  fw_event : fl_event x = Some e;
  fw_propagation : match rs_propagation s with
                   | Some p => withDiagnostics = true /\ propagationFlags e x p
                   | None => withDiagnostics = false /\ fl_stopped x = false /\ fl_immediate x = false
                   end;
  fw_default : match rs_default s with
               | Some q => enableDefaultPreventedDiagnostics o = true /\ preventedFlag e x q
               | None => enableDefaultPreventedDiagnostics o = false
               end }.

(** The count of immediate stops that the code compares with. *)
Definition basedOn (base : Z) s : Prop :=
  match rs_propagation s with
  | Some p => ps_enableNativeStop p = true -> ps_nativeStopImmediateNativeCallCount p = base
  | None => True
  end.

(** Between two entries: before the first one no event is known. *)
Definition rests s x : Prop :=
  (exists e, follows e s x /\ basedOn (immediateStops (fl_events x) e) s)
  \/ (rs_events s = fl_events x /\ rs_user s = fl_user x /\ fl_event x = None
      /\ fl_stopped x = false /\ fl_immediate x = false /\ fl_prevented x = false
      /\ rs_propagation s = createDispatchQueuePropagationDiagnosticState o
      /\ rs_default s = createDispatchQueueDefaultPreventedDiagnosticState o).

Lemma natively_prevented (ev : gmap N (nativeEvent Node)) e :
  getNativeEventDefaultPrevented ev (inr e) = nativelyPrevented ev e.
Proof.
  unfold getNativeEventDefaultPrevented, nativelyPrevented. simpl. destruct (ev !! e) as [n|]; [|done]. simpl.
  destruct (nullish (ne_defaultPrevented n)) eqn:En; [|by rewrite orb_false_r].
  rewrite (bool_decide_eq_false_2 (ne_defaultPrevented n = _)); [done|]. by destruct (ne_defaultPrevented n).
Qed.

Lemma immediate_stops (ev : gmap N (nativeEvent Node)) e :
  getNativeStopImmediatePropagationCallCount ev (inr e) = immediateStops ev e.
Proof.
  unfold getNativeStopImmediatePropagationCallCount, immediateStops. simpl. destruct (ev !! e) as [n|]; [|done].
  simpl. destruct (ne_stopImmediatePropagationCallCount n); [done|]. by case_bool_decide; case_decide.
Qed.

(** ** The listener's calls *)

Lemma route_passOn e has call assign s x : rs_events s = fl_events x ->
  let '(r, ev) := routeToNativeEvent has call assign (inr e) (rs_events s) in
  passOn e has call assign x = (r, withEvents ev x).
Proof.
  intros E. unfold routeToNativeEvent, passOn. rewrite E. destruct (fl_events x !! e) as [n|].
  - destruct (has n); [|done]. by destruct (call n).
  - by destruct x.
Qed.

Lemma follows_events e s x ev : follows e s x -> follows e (setEvents ev s) (withEvents ev x).
Proof.
  intros [F1 F2 F3 F4 F5]. split; try done; simpl.
  - destruct (rs_propagation s); [|done]. destruct F4 as [? []]. by split.
  - destruct (rs_default s); [|done]. destruct F5 as [? []]. by split.
Qed.

Lemma stop_follows c e s x : ce_hasContext c = true -> follows e s x ->
  let '(r, s') := callStopPropagation nativeStopPropagation c s in
  exists x', stopPropagation nativeStopPropagation o e x = (r, x') /\ follows e s' x'
  /\ forall b, basedOn b s -> basedOn b s'.
Proof.
  intros Hc F. unfold callStopPropagation, stopPropagation, contextPropagation. rewrite Hc.
  pose proof (fw_propagation _ _ _ F) as Hp.
  destruct (rs_propagation s) as [p|] eqn:Ep; simpl.
  2: { destruct Hp as [Hd _]. unfold withDiagnostics in Hd. apply orb_false_iff in Hd as [-> _]. by exists x. }
  destruct Hp as [Hd P]. rewrite (pf_stop _ _ _ P).
  destruct (enablePropagationStopDiagnostics o) eqn:Es; [|by exists x].
  unfold routeCanaryStopPropagationToNativeEvent. rewrite (pf_event _ _ _ P).
  set (s1 := setPropagation (Some (markStopped p)) s). set (x1 := withFlags true (fl_immediate x) (fl_prevented x) x).
  assert (F1 : follows e s1 x1).
  { destruct F as [G1 G2 G3 _ G5]. unfold s1, x1. split; try done; simpl.
    - split; [done|]. destruct P. by split.
    - destruct (rs_default s); [|done]. destruct G5 as [? []]. by split. }
  pose proof (route_passOn e ne_hasStopPropagation nativeStopPropagation setCancelBubble s1 x1 (fw_events _ _ _ F1)) as Hr.
  destruct (routeToNativeEvent _ _ _ _ _) as [r ev]. rewrite Hr.
  pose proof (follows_events e s1 x1 ev F1) as F2. unfold basedOn. rewrite Ep.
  destruct r as [[]|err]; simpl; eexists; (split; [done|]).
  2: { split; [exact F2|done]. }
  split; [|done]. destruct F2 as [G1 G2 G3 [? []] G5]. by split.
Qed.

Lemma prevent_follows c e s x : ce_hasContext c = true -> follows e s x ->
  let '(r, s') := callPreventDefault nativePreventDefault c s in
  exists x', preventDefault nativePreventDefault o e x = (r, x') /\ follows e s' x'
  /\ forall b, basedOn b s -> basedOn b s'.
Proof.
  intros Hc F. unfold callPreventDefault, preventDefault, contextDefault. rewrite Hc.
  pose proof (fw_default _ _ _ F) as Hq. destruct (rs_default s) as [q|] eqn:Eq; simpl.
  2: { rewrite Hq. by exists x. }
  destruct Hq as [Hd Q]. rewrite Hd. unfold routeCanaryPreventDefaultToNativeEvent. rewrite (df_event _ _ _ Q).
  set (s1 := setDefault (Some (markPrevented q)) s). set (x1 := withFlags (fl_stopped x) (fl_immediate x) true x).
  assert (F1 : follows e s1 x1).
  { destruct F as [G1 G2 G3 G4 _]. unfold s1, x1. split; try done; simpl.
    - destruct (rs_propagation s); [|done]. destruct G4 as [? []]. by split.
    - split; [done|]. destruct Q. by split. }
  pose proof (route_passOn e ne_hasPreventDefault nativePreventDefault setReturnValue s1 x1 (fw_events _ _ _ F1)) as Hr.
  destruct (routeToNativeEvent _ _ _ _ _) as [r ev]. rewrite Hr.
  pose proof (follows_events e s1 x1 ev F1) as F2.
  destruct r as [[]|err]; simpl; eexists; (split; [done|]).
  2: { split; [exact F2|done]. }
  split; [|done]. destruct F2 as [G1 G2 G3 G4 [? []]]. by split.
Qed.

(** ** The program of a listener *)

Lemma own_follows e s x (f : gmap N (nativeEvent Node) * User) : follows e s x ->
  follows e (setOwn f s) (mkFlow (fst f) (snd f) (fl_event x) (fl_stopped x) (fl_immediate x) (fl_prevented x)).
Proof.
  intros [F1 F2 F3 F4 F5]. split; try done; simpl.
  - destruct (rs_propagation s); [|done]. destruct F4 as [? []]. by split.
  - destruct (rs_default s); [|done]. destruct F5 as [? []]. by split.
Qed.

(** The event object of an entry that starts with [first]. *)
Definition eventOf (d : dispatchRecord Node) (first : listener) : canaryEvent (Node := Node) :=
  mkCanaryEvent (dl_nativeEventType first) (dl_inCapturePhase first) (dl_registrationName first)
    (dl_nativeEventTarget first) (dr_targetInst d) None true.

Lemma view_follows d e first r base s x : follows e s x -> basedOn base s ->
  ct_currentTarget (rs_current s) = Some (dl_currentTarget r) ->
  eventNow (eventOf d first) s = viewOf o d e first r base x.
Proof.
  intros F Hb Hc. unfold eventNow, viewOf, contextPropagation, contextDefault. simpl. rewrite Hc.
  pose proof (fw_propagation _ _ _ F) as Hp. pose proof (fw_default _ _ _ F) as Hq. unfold basedOn in Hb.
  rewrite (fw_events _ _ _ F).
  assert (H1 : dp_defaultPrevented <$> rs_default s = if enableDefaultPreventedDiagnostics o then Some (fl_prevented x) else None).
  { destruct (rs_default s) as [q|]; [|by rewrite Hq]. destruct Hq as [-> Q]. simpl. by rewrite (df_prevented _ _ _ Q). }
  rewrite H1. destruct (rs_propagation s) as [p|]; simpl.
  - destruct Hp as [_ P]. rewrite (pf_stop _ _ _ P), (pf_native _ _ _ P) in *.
    destruct (enablePropagationStopDiagnostics o), (enableNativeStopImmediatePropagationDiagnostics o); simpl;
      unfold isNativeImmediatePropagationStopped; rewrite ?(pf_stopped _ _ _ P), ?(pf_event _ _ _ P), ?(pf_immediate _ _ _ P), ?immediate_stops;
      rewrite ?Hb by done; done.
  - destruct Hp as [Hd _]. unfold withDiagnostics in Hd. by apply orb_false_iff in Hd as [-> ->].
Qed.

Lemma current_stop c s : rs_current (snd (callStopPropagation nativeStopPropagation c s)) = rs_current s.
Proof. apply callStop_leaves. Qed.
Lemma current_prevent c s : rs_current (snd (callPreventDefault nativePreventDefault c s)) = rs_current s.
Proof. apply callPrevent_leaves. Qed.

Lemma run_follows d e first r base p : forall s x, follows e s x -> basedOn base s ->
  ct_currentTarget (rs_current s) = Some (dl_currentTarget r) ->
  let '(out, s') := run nativePreventDefault nativeStopPropagation (eventOf d first) p s in
  exists x', listen nativePreventDefault nativeStopPropagation o e (viewOf o d e first r base) p x = (out, x')
  /\ follows e s' x' /\ basedOn base s'.
Proof.
  induction p as [v|err|k IH|k IH|k IH|f k IH]; intros s x F Hb Hc; cbn [run listen]; [by exists x|by exists x|..].
  - pose proof (stop_follows (eventOf d first) e s x eq_refl F) as H.
    pose proof (current_stop (eventOf d first) s) as Hcur.
    destruct (callStopPropagation _ _ s) as [out s1]. simpl in Hcur. destruct H as (x1 & -> & F1 & Hb1).
    apply IH; [done|by apply Hb1|by rewrite Hcur].
  - pose proof (prevent_follows (eventOf d first) e s x eq_refl F) as H.
    pose proof (current_prevent (eventOf d first) s) as Hcur.
    destruct (callPreventDefault _ _ s) as [out s1]. simpl in Hcur. destruct H as (x1 & -> & F1 & Hb1).
    apply IH; [done|by apply Hb1|by rewrite Hcur].
  - rewrite (view_follows d e first r base s x) by done. by apply IH.
  - rewrite (fw_events _ _ _ F), (fw_user _ _ _ F). apply IH; [by apply own_follows|done|done].
Qed.

(** ** One listener *)

Lemma target_follows (r : option listener) e s x : follows e s x -> follows e (setListenerOfEvent r s) x.
Proof.
  intros [F1 F2 F3 F4 F5]. split; try done; simpl.
  - destruct (rs_propagation s); [|done]. destruct F4 as [? []]. by split.
  - destruct (rs_default s); [|done]. destruct F5 as [? []]. by split.
Qed.
Lemma target_basedOn (r : option listener) base s : basedOn base s -> basedOn base (setListenerOfEvent r s).
Proof. unfold basedOn. simpl. by destruct (rs_propagation s). Qed.

(** After the listener: its immediate stops, and the native default action. *)
Lemma after_follows base e s x : follows e s x -> 
  let s' := syncDefaultPreventedDiagnosticStateFromNative
              (setListenerOfEvent None (updateNativeStopImmediatePropagationDiagnosticState base s)) in
  let now := immediateStops (fl_events x) e in
  let x' := withFlags (fl_stopped x)
              (fl_immediate x || enableNativeStopImmediatePropagationDiagnostics o && (base <? now)%Z)
              (fl_prevented x || nativelyPrevented (fl_events x) e) x in
  follows e s' x' /\ basedOn now s'.
Proof.
  intros [F1 F2 F3 F4 F5] s' now x'. subst s' x'. split.
  - split; try done; simpl.
    + destruct (rs_propagation s) as [p|]; simpl in *.
      2: { destruct F4 as (Hd & -> & ->). pose proof Hd as Hd'. unfold withDiagnostics in Hd'. by apply orb_false_iff in Hd' as [_ ->]. }
      destruct F4 as [Hd P]. split; [done|]. unfold updateNativeStop.
      rewrite (pf_native _ _ _ P), (pf_event _ _ _ P), F1, immediate_stops. fold now.
      destruct (enableNativeStopImmediatePropagationDiagnostics o) eqn:En; simpl.
      * destruct (Z.leb_spec now base) as [Hle|Hlt].
        -- rewrite (proj2 (Z.ltb_ge _ _) Hle), orb_false_r. destruct P. by split; rewrite ?En.
        -- rewrite (proj2 (Z.ltb_lt _ _) Hlt), orb_true_r. destruct P. by split; rewrite ?En.
      * rewrite orb_false_r. destruct P. by split.
    + destruct (rs_default s) as [q|]; simpl in *; [|done]. destruct F5 as [Hd Q]. split; [done|].
      rewrite F1. destruct Q as [Q1 Q2]. split; simpl; [done|]. by rewrite Q1, Q2, natively_prevented.
  - unfold basedOn. simpl. destruct (rs_propagation s) as [p|]; simpl in *; [|done]. destruct F4 as [Hd P].
    unfold updateNativeStop. rewrite (pf_event _ _ _ P), F1, immediate_stops. fold now.
    destruct (ps_enableNativeStop p) eqn:En; simpl; [|by rewrite En]. by destruct (_ <=? _)%Z.
Qed.

Lemma counted_base e s x s1 x1 : follows e s x -> follows e s1 x1 -> basedOn (immediateStops (fl_events x) e) s ->
  updateNativeStopImmediatePropagationDiagnosticState (nativeCallCount (rs_propagation s)) s1
  = updateNativeStopImmediatePropagationDiagnosticState (immediateStops (fl_events x) e) s1.
Proof.
  intros F F1 Hb. unfold updateNativeStopImmediatePropagationDiagnosticState, overPropagation. f_equal.
  pose proof (fw_propagation _ _ _ F) as Hp. pose proof (fw_propagation _ _ _ F1) as Hp1. unfold basedOn in Hb.
  destruct (rs_propagation s1) as [p1|]; [|done]. simpl. f_equal. destruct Hp1 as [Hd P1].
  destruct (rs_propagation s) as [p|]; [|destruct Hp; congruence]. destruct Hp as [_ P]. unfold updateNativeStop, nativeCallCount. simpl.
  rewrite (pf_native _ _ _ P1), (pf_native _ _ _ P) in *.
  destruct (enableNativeStopImmediatePropagationDiagnostics o); [|done]. by rewrite Hb.
Qed.

(** What the record of an invocation says of the outcome. *)
Definition reportOf (y : listener * res value) : option listener * option error * value :=
  (Some (fst y), match snd y with Ok _ | Throw (Thrown VNull) => None | Throw err => Some err end,
   match snd y with Ok v => v | Throw _ => VUndef end).
Definition report (iv : invocationRecord (Node := Node)) : option listener * option error * value :=
  (iv_listenerRecord iv, iv_error iv, iv_returnValue iv).
(** The listeners that ran, with their outcomes. *)
Definition reports (a : tally (Node := Node)) : list (option listener * option error * value) :=
  map report (List.filter invoked (ta_invocationRecords a)).

Lemma invoke_follows d e first r i b s x a l :
  follows e s x -> basedOn (immediateStops (fl_events x) e) s -> rs_current s = noCurrent ->
  reports a = map reportOf l ->
  let '(iv, s') := invoke (Some (eventOf d first)) r i b s in
  let '(l', x') := serve d e first r (l, x) in
  follows e s' x' /\ basedOn (immediateStops (fl_events x') e) s' /\ rs_current s' = noCurrent
  /\ reports (tallyInvocation o iv r s s' a) = map reportOf l'.
Proof.
  intros F Hb Hs Hl. unfold invokeDispatchListenerRecordForCanary, serveListener. unfold reports in *.
  assert (Hsnoc : forall iv s', List.filter invoked (ta_invocationRecords (tallyInvocation o iv r s s' a))
    = List.filter invoked (ta_invocationRecords a) ++ (if invoked iv then [iv] else [])).
  { intros iv s'. simpl. rewrite List.filter_app. simpl. by destruct (invoked iv). }
  destruct (dl_listener r) as [f|]; [|by rewrite Hsnoc, app_nil_r].
  simpl default. unfold callListener, prepareDispatchQueueCanaryEventForListener, resetDispatchQueueCanaryEventAfterListener.
  cbn [ce_hasContext eventOf]. fold (eventOf d first).
  set (base := immediateStops (fl_events x) e) in *.
  pose proof (run_follows d e first r base (listenerCode f) _ _ (target_follows (Some r) e s x F)
    (target_basedOn (Some r) base s Hb) eq_refl) as Hrun.
  destruct (run _ _ _ (listenerCode f) _) as [out s1]. destruct Hrun as (x1 & -> & F1 & Hb1).
  change (contextPropagation (eventOf d first) s) with (rs_propagation s).
  rewrite (counted_base e s x s1 x1 F F1 Hb).
  pose proof (after_follows base e s1 x1 F1) as [F2 Hb2].
  set (s2 := syncDefaultPreventedDiagnosticStateFromNative _) in *.
  split; [exact F2|]. split; [exact Hb2|]. split; [done|].
  rewrite Hsnoc, map_app, Hl, map_app. by f_equal.
Qed.

(** ** Targets and paths *)

Lemma immediate_follows d first e s x : follows e s x -> immediateFlag (eventOf d first) s = fl_immediate x.
Proof.
  intros F. unfold immediateFlag, contextPropagation. simpl. pose proof (fw_propagation _ _ _ F) as Hp.
  destruct (rs_propagation s) as [p|]; [|by destruct Hp as (_ & _ & ->)]. destruct Hp as [_ P].
  rewrite (pf_native _ _ _ P), (pf_immediate _ _ _ P). pose proof (pf_enabled _ _ _ P) as He.
  destruct (fl_immediate x); [by rewrite He|apply andb_false_r].
Qed.
Lemma stopped_follows d first e s x : follows e s x -> stopFlag (eventOf d first) s = fl_stopped x.
Proof.
  intros F. unfold stopFlag, stopped, contextPropagation. simpl. pose proof (fw_propagation _ _ _ F) as Hp.
  destruct (rs_propagation s) as [p|]; simpl; [|by destruct Hp as (_ & -> & _)]. destruct Hp as [_ P]. apply P.
Qed.

Lemma reports_skip (a : tally (Node := Node)) iv r p : iv_listenerInvocationCount iv = 0 ->
  reports (tallyNativeSkip iv r p a) = reports a /\ reports (tallyPropagationSkip iv r p a) = reports a.
Proof.
  intros H. assert (Hi : invoked iv = false) by (unfold invoked; by rewrite H).
  unfold reports. simpl. rewrite List.filter_app. simpl. rewrite Hi. by rewrite !app_nil_r.
Qed.

(** Both sides of the simulation, while an entry is served. *)
Definition inStep (e : N) (a : tally (Node := Node)) s (y : list (ran (Node := Node)) * flow) : Prop :=
  follows e s (snd y) /\ basedOn (immediateStops (fl_events (snd y)) e) s /\ rs_current s = noCurrent
  /\ reports a = map reportOf (fst y).

Abbreviation inner := (innerInvoke nativePreventDefault nativeStopPropagation listenerCode o).
Abbreviation path := (domDispatch nativePreventDefault nativeStopPropagation listenerCode o).
Abbreviation target := (serveTarget nativePreventDefault nativeStopPropagation listenerCode o).

Lemma inner_immediate d first e g y : fl_immediate (snd y) = true -> forall i a s, inStep e a s y ->
  let '(_, (a', s')) := inner (eventOf d first) i g a s in s' = s /\ inStep e a' s' y.
Proof.
  intros Hi. induction g as [|r g IH]; intros i a s H; simpl; [by split|].
  rewrite (immediate_follows d first e s (snd y)), Hi by apply H. apply IH.
  destruct H as (H1 & H2 & H3 & H4). split_and!; try done. rewrite <- H4. by apply reports_skip.
Qed.

Lemma inner_follows d first e g : forall i a s y, inStep e a s y ->
  let '(_, (a', s')) := inner (eventOf d first) i g a s in inStep e a' s' (target d e first g y).
Proof.
  induction g as [|r g IH]; intros i a s y H; [done|]. cbn [serveTarget].
  destruct (fl_immediate (snd y)) eqn:Hi.
  { pose proof (inner_immediate d first e (r :: g) y Hi i a s H) as H1. destruct (inner _ _ _ _ _) as [j [a1 s1]]. apply H1. }
  cbn [innerInvoke]. rewrite (immediate_follows d first e s (snd y)), Hi by apply H.
  destruct y as [l x], H as (F & Hb & Hs & Hl).
  pose proof (invoke_follows d e first r i (useProcessingOrder o) s x a l F Hb Hs Hl) as H.
  destruct (invoke _ _ _ _ _) as [iv s1]. destruct (serve _ _ _ _ _) as [l1 x1]. by apply IH.
Qed.

Lemma path_stopped d first e gs y : fl_stopped (snd y) || fl_immediate (snd y) = true -> forall i a s, inStep e a s y ->
  let '(a', s') := path (eventOf d first) i gs a s in inStep e a' s' y.
Proof.
  intros Hf. induction gs as [|g gs IH]; intros i a s H; [done|]. cbn [domDispatch].
  destruct g as [|r g]; [by apply IH|].
  rewrite (immediate_follows d first e s (snd y)), (stopped_follows d first e s (snd y)) by apply H.
  destruct (fl_immediate (snd y)) eqn:Hi; simpl negb; cbn [andb].
  - pose proof (inner_immediate d first e (r :: g) y Hi i a s H) as H1. destruct (inner _ _ _ _ _) as [j [a1 s1]].
    destruct H1 as [-> H1]. by apply IH.
  - rewrite orb_false_r in Hf. rewrite Hf. destruct H as (H1 & H2 & H3 & H4). split_and!; try done.
    rewrite <- H4. by apply reports_skip.
Qed.

Lemma path_follows d first e gs : forall i a s y, inStep e a s y ->
  let '(a', s') := path (eventOf d first) i gs a s in
  inStep e a' s' (servePath nativePreventDefault nativeStopPropagation listenerCode o d e first gs y).
Proof.
  induction gs as [|g gs IH]; intros i a s y H; [done|]. cbn [servePath].
  destruct (fl_stopped (snd y) || fl_immediate (snd y)) eqn:Hf; [by apply path_stopped|].
  apply orb_false_iff in Hf as [Hst Hi]. cbn [domDispatch]. destruct g as [|r g]; [by apply IH|].
  rewrite (immediate_follows d first e s (snd y)), (stopped_follows d first e s (snd y)), Hi, Hst by apply H.
  simpl negb. cbn [andb]. pose proof (inner_follows d first e (r :: g) i a s y H) as H1.
  destruct (inner _ _ _ _ _) as [j [a1 s1]]. by apply IH.
Qed.

(** ** Entries and records *)

Lemma same_event e e' : sameEvent (inr e) (inr e') = bool_decide (Some e = Some e').
Proof. simpl. destruct (N.eqb_spec e e') as [->|Hne]; [by rewrite bool_decide_eq_true_2|rewrite bool_decide_eq_false_2; congruence]. Qed.

Lemma enter_follows e s x : rests s x ->
  let s' := overDefault (initializeDefaultPreventedDiagnosticStateForNativeEvent (rs_events s) (inr e))
              (overPropagation (enterPropagation (rs_events s) (inr e))
                 (mkRun (rs_events s) (rs_user s) noCurrent (rs_propagation s) (rs_default s))) in
  follows e s' (turnTo e x) /\ basedOn (immediateStops (fl_events (turnTo e x)) e) s'.
Proof.
  intros [(e0 & F & _)|(E1 & E2 & E3 & E4 & E5 & _ & E6 & E7)]; cbn zeta.
  - destruct F as [F1 F2 F3 F4 F5]. unfold turnTo. rewrite F3. split.
    + split; simpl; try (by case_decide; simpl; congruence).
      * destruct (rs_propagation s) as [p|]; simpl; [|by case_decide; simpl; destruct F4 as (? & ? & ?)].
        destruct F4 as [Hd [P1 P2 P3 P4 P5 P6 P7 P8]]. split; [done|].
        destruct (decide (Some e0 = Some e)) as [[= ->]|Hne]; split; simpl; try done; rewrite ?P4, ?P5.
        -- destruct (fl_stopped x); [rewrite P6 by done; simpl; by rewrite N.eqb_refl|apply andb_false_r].
        -- destruct (fl_immediate x); [rewrite P7 by done; simpl; by rewrite N.eqb_refl|apply andb_false_r].
        -- destruct (fl_stopped x); [rewrite P6, same_event by done; by rewrite bool_decide_eq_false_2|apply andb_false_r].
        -- destruct (fl_immediate x); [rewrite P7, same_event by done; by rewrite bool_decide_eq_false_2|apply andb_false_r].
      * destruct (rs_default s) as [q|]; simpl; [|exact F5]. destruct F5 as [Hd [Q1 Q2]]. split; [done|].
        unfold initializeDefaultPreventedDiagnosticStateForNativeEvent. rewrite Q1, same_event, F1.
        case_bool_decide as He; [rewrite decide_True by done|rewrite decide_False by done]; split; simpl; try done.
        -- congruence.
        -- by rewrite Q1, Q2, natively_prevented; simplify_eq.
        -- by rewrite natively_prevented.
    + unfold basedOn. simpl. destruct (rs_propagation s) as [p|]; [|done]. simpl. intros _.
      by rewrite immediate_stops, F1; case_decide.
  - unfold turnTo. rewrite E3, decide_False by done. split.
    + split; simpl; try done.
      * rewrite E6. unfold createDispatchQueuePropagationDiagnosticState, withDiagnostics.
        destruct (enablePropagationStopDiagnostics o) eqn:Es, (enableNativeStopImmediatePropagationDiagnostics o) eqn:En; simpl;
          (split; [done|]); [split; simpl; congruence..|done].
      * rewrite E7. unfold createDispatchQueueDefaultPreventedDiagnosticState.
        destruct (enableDefaultPreventedDiagnostics o); [|done]. split; [done|]. split; simpl; [done|].
        by rewrite natively_prevented, E1.
    + unfold basedOn. simpl. destruct (rs_propagation s) as [p|]; [|done]. simpl. by rewrite immediate_stops, E1.
Qed.

(** Both sides between two entries. *)
Definition atRest (a : tally (Node := Node)) s (y : list (ran (Node := Node)) * flow) : Prop :=
  rests s (snd y) /\ reports a = map reportOf (fst y).

Definition ofNativeEvents (l : list listener) : Prop := Forall (fun r => exists e, dl_nativeEvent r = inr e) l.

Lemma entry_follows d entry a s y : ofNativeEvents (listenersOf o entry) -> atRest a s y ->
  let '(a', s') := domEntry nativePreventDefault nativeStopPropagation listenerCode o d entry (a, s) in
  atRest a' s' (serveEntry nativePreventDefault nativeStopPropagation listenerCode o d y entry).
Proof.
  intros Hev [Hr Ha]. unfold domEntry, serveEntry. destruct (listenersOf o entry) as [|first l] eqn:El; [by split|].
  apply Forall_cons in Hev as [[e He] _]. cbn [createDispatchQueueCanaryEventContext]. rewrite He. fold (eventOf d first).
  destruct (enter_follows e s (snd y) Hr) as [F Hb].
  match goal with |- context [domDispatch _ _ _ _ _ _ _ ?a1 ?s1] =>
    pose proof (path_follows d first e (byInstance (first :: l)) 0 a1 s1 (fst y, turnTo e (snd y))) as H;
    destruct (domDispatch _ _ _ _ _ _ _ a1 s1) as [a2 s2] end.
  destruct H as (F2 & Hb2 & _ & Hl2); [by split_and!|]. split; [|done]. left. exists e.
  split; [by apply target_follows|by apply target_basedOn].
Qed.

Lemma records_follows ds a s y : ofNativeEvents (flat_map (listenersOfRecord o) ds) -> atRest a s y ->
  let '(a', s') := fold_left (domRecord nativePreventDefault nativeStopPropagation listenerCode o) ds (a, s) in
  atRest a' s' (fold_left (serveRecord nativePreventDefault nativeStopPropagation listenerCode o) ds y).
Proof.
  induction ds as [|d ds IH] in a, s, y |- *; [done|]. cbn [fold_left flat_map]. intros [Hd Hds]%Forall_app H.
  assert (H1 : let '(a', s') := domRecord nativePreventDefault nativeStopPropagation listenerCode o (a, s) d in
    atRest a' s' (serveRecord nativePreventDefault nativeStopPropagation listenerCode o y d)).
  { revert Hd. unfold domRecord, serveRecord, listenersOfRecord. generalize (dq_entries (dr_dispatchQueue d)) as es.
    intros es. induction es as [|entry es IHe] in a, s, y, H |- *; [done|]. cbn [fold_left flat_map]. intros [He Hes]%Forall_app.
    pose proof (entry_follows d entry a s y He H) as H1. destruct (domEntry _ _ _ _ _ _ _) as [a1 s1]. by apply IHe. }
  destruct (domRecord _ _ _ _ _ _) as [a1 s1]. by apply IH.
Qed.

Lemma rests_result n a s x : rests s x ->
  let q := queueInvocationRecordOf n a s in
  qi_propagationStopped q = fl_stopped x /\ qi_nativeImmediatePropagationStopped q = fl_immediate x
  /\ qi_defaultPrevented q = enableDefaultPreventedDiagnostics o && fl_prevented x.
Proof.
  intros [(e & [_ _ _ Hp Hq] & _)|(_ & _ & _ & E4 & E5 & E6 & E7 & E8)]; simpl.
  - destruct (rs_propagation s) as [p|], (rs_default s) as [q|]; simpl.
    + destruct Hp as [_ []], Hq as [-> []]. by split_and!.
    + destruct Hp as [_ []]. rewrite Hq. by split_and!.
    + destruct Hp as (_ & -> & ->), Hq as [-> []]. by split_and!.
    + destruct Hp as (_ & -> & ->). by rewrite Hq.
  - rewrite E4, E5, E6, E7, E8. unfold createDispatchQueuePropagationDiagnosticState, createDispatchQueueDefaultPreventedDiagnosticState.
    split_and!; by repeat case_match.
Qed.

(** C6: Propagation is that of the DOM standard, for dispatch records of native events whose
    listener records are told apart. The reference [domEventDispatch] has an event with three
    flags and calls that set them. It serves the listeners target by target; those of one
    target all run unless immediate propagation was stopped; when propagation was stopped, by
    a listener of this record or of an earlier record of the same native event with none of
    another event between them, no further target is served. The dispatch of the code returns,
    runs the listeners of the reference in its order, each with the same outcome, as its
    records report them (an exception [null] is reported as a return of undefined), leaves the
    native events and the listeners' own state as the reference does, and says in its result
    whether propagation and immediate propagation ended stopped and, with these diagnostics
    enabled, whether the default ended prevented. *)
Theorem propagation_is_dom (ds : list (dispatchRecord Node)) options ev user :
  o = normalizeDispatchQueueCanaryOptions options ->
  NoDup (map dl_id (flat_map (listenersOfRecord o) ds)) -> ofNativeEvents (flat_map (listenersOfRecord o) ds) ->
  let '(l, x) := domEventDispatch nativePreventDefault nativeStopPropagation listenerCode o ds ev user in
  exists q, invokeDispatchQueueCanaryFromDispatchRecords nativePreventDefault nativeStopPropagation listenerCode
              (map Some ds) options ev user = (Ok q, (fl_events x, fl_user x))
  /\ map report (List.filter invoked (ta_invocationRecords (qi_tally q))) = map reportOf l
  /\ qi_propagationStopped q = fl_stopped x /\ qi_nativeImmediatePropagationStopped q = fl_immediate x
  /\ qi_defaultPrevented q = enableDefaultPreventedDiagnostics o && fl_prevented x.
Proof.
  intros Ho Hnd Hev.
  pose proof (dispatch_by_target nativePreventDefault nativeStopPropagation listenerCode ds options ev user) as Hd.
  rewrite <- Ho in Hd. rewrite (Hd Hnd). clear Hd.
  pose proof (records_follows ds emptyTally (initialRun o ev user) ([], mkFlow ev user None false false false) Hev) as H.
  unfold domEventDispatch. destruct (fold_left (domRecord _ _ _ _) ds _) as [a s].
  destruct (fold_left (serveRecord _ _ _ _) ds _) as [l x]. destruct H as [Hr Hl].
  { split; [|done]. right. by split_and!. }
  simpl in Hr, Hl. destruct (rests_result (length ds) a s x Hr) as (H1 & H2 & H3).
  assert (Hw : rs_events s = fl_events x /\ rs_user s = fl_user x)
    by (destruct Hr as [(e & [? ?] & _)|(? & ? & _)]; by split).
  destruct Hw as [<- <-]. exists (queueInvocationRecordOf (length ds) a s). by split_and!.
Qed.
End Simulation.
