(* ===== verification/EventDispatchDemo.v ===== *)
(** * The dispatch of events at concrete inputs

    A click on the text of [DomDemo]'s page, and dispatches over three nodes whose listeners
    stop propagation, throw and prevent the default. *)
From S2P Require Import Prelude JsValue DomHost DomTree DomPayload DomCommit DomDemo RootMarkers ComponentTree TreeTargets ComponentTreeSpec TreeDemo Events ListenerRegistry EventExtract EventExtractSpec EventDispatch EventDispatchSpec EventPropagation.

(** ** Extraction *)

Definition clickOn (n : nat) : nativeEvent nat :=
  mkNative (VStr "click") (inr n) (inl VUndef) (VBool false) VUndef VUndef (Some 0%Z) None None VUndef true true.
Definition noUse (d : dom) (n : nat) : option (domArg nat) := None.
Definition rootWrapper (flags : N) : wrapperRecord nat := createEventListenerWrapperRecord 0 "click" flags.

(** Two private entries of the element 0, besides the [onClick] of its props. *)
Definition twoQueued : queueState nat :=
  let add f q := snd (registerPrivateEventListenerQueueEntry (inr 0) (VStr "click") (VBool false) (VFun (User f)) None q) in
  add 6%N (add 5%N emptyQueues).

Definition clicked (flags : N) := createEventDispatchRecordFromWrapperRecord listenHeap noUse 2 demoDom noMarkers demoInstances
  twoQueued {[ 0%N := clickOn 1 ]} (Some (rootWrapper flags)) (inr 0%N) 7%N.

Lemma demo_chain_parent : chain demoDom 2 [2; 0].
Proof. by repeat (eapply chain_step; [by vm_compute|]); constructor. Qed.

Lemma dispatch_queue_spec_witness :
  exists rec next', clicked 0 = Some (Ok rec, next')
  /\ map listenerPlace (queueListeners (dr_dispatchQueue rec))
     = [(0, (0, 0%N), Some (User 5)); (0, (0, 0%N), Some (User 6)); (0, (0, 0%N), Some (User 4))]
  /\ next' = 10%N.
Proof.
  assert (Ht : getEventTarget noUse demoDom (nativeOf {[ 0%N := clickOn 1 ]} (inr 0%N)) (inr (wr_targetContainer (rootWrapper 0)))
               = Ok (inr 2)) by (vm_compute; reflexivity).
  destruct (dispatch_queue_spec listenHeap noUse 2 demoDom noMarkers demoInstances twoQueued {[ 0%N := clickOn 1 ]}
    (rootWrapper 0) (inr 0%N) 2 [2; 0] 7%N demoInstances_ok demo_readable demo_chain_parent (le_n 2) Ht)
    as (r & Hr & H).
  assert (E : match clicked 0 with Some (Ok _, _) => true | _ => false end = true) by (vm_compute; reflexivity).
  change (createEventDispatchRecordFromWrapperRecord _ _ _ _ _ _ _ _ _ _ _) with (clicked 0) in Hr.
  rewrite Hr in E. destruct r as [[rec|e] next']; [|discriminate].
  exists rec, next'. split; [exact Hr|]. destruct (H rec next' eq_refl) as (H1 & _ & H2 & _).
  assert (H3 : flat_map (expected listenHeap (rootWrapper 0) demoDom demoInstances twoQueued)
      (numbered 0 (fst (pathOf noMarkers demoInstances [2; 0])))
    = [(0, (0, 0%N), Some (User 5)); (0, (0, 0%N), Some (User 6)); (0, (0, 0%N), Some (User 4))]) by (vm_compute; reflexivity).
  rewrite H3 in H1. split; [exact H1|].
  assert (H4 : length (queueListeners (dr_dispatchQueue rec)) = 3) by (rewrite <- (length_map listenerPlace), H1; done).
  rewrite H4 in H2. exact H2.
Defined.

(** ** Dispatch *)

(** The native methods count their calls. *)
Definition preventNative (n : nativeEvent nat) : effect (nativeEvent nat) unit :=
  (Ok tt, mkNative (ne_type n) (ne_target n) (ne_srcElement n) (VBool true) (ne_returnValue n) (ne_cancelBubble n)
     (Z.succ <$> ne_preventDefaultCallCount n) (ne_stopPropagationCallCount n) (ne_stopImmediatePropagationCallCount n)
     (ne_immediatePropagationStopped n) (ne_hasPreventDefault n) (ne_hasStopPropagation n)).
Definition stopNative (n : nativeEvent nat) : effect (nativeEvent nat) unit :=
  (Ok tt, mkNative (ne_type n) (ne_target n) (ne_srcElement n) (ne_defaultPrevented n) (ne_returnValue n) (VBool true)
     (ne_preventDefaultCallCount n) (ne_stopPropagationCallCount n) (ne_stopImmediatePropagationCallCount n)
     (ne_immediatePropagationStopped n) (ne_hasPreventDefault n) (ne_hasStopPropagation n)).

(** The listeners: 1 stops propagation, 2 throws [null], 3 throws an error, 4 prevents the
    default; the others return. Each first counts its call. *)
Definition demoCode (f : ref) : program (Node := nat) (User := nat) :=
  Own (fun x => (fst x, S (snd x))) (fun _ =>
    match f with
    | User 1 => CallStopPropagation (fun _ => Return VUndef)
    | User 2 => Raise (Thrown VNull)
    | User 3 => Raise (PlainError "boom")
    | User 4 => CallPreventDefault (fun _ => Return (VBool true))
    | _ => Return VUndef
    end).

Definition listenerOf (id : N) (capture : bool) (node : nat) (f : N) : dispatchListener nat :=
  mkDispatchListener id node (2 - node) "click" None capture true (inr 2) "click" (Some "onClick") None
    (N.of_nat node) None None (Some (User f)) (inr 0%N) None.

Definition emptyPath : pathRecord (Node := nat) :=
  pathRecordOf demoTarget [] None.
Definition recordOf (capture : bool) (ls : list (dispatchListener nat)) : dispatchRecord nat :=
  mkDispatch (createDispatchQueueRecord [mkQueueEntry "click" capture ls (inr 2) "click" ls (Some "onClick") (Some "onClick")])
    (inr 0%N) (inr 2) "click" [] emptyPath (Some 2%N) [] demoTarget (rootWrapper (if capture then 4 else 0)).

(** Capture: the root's listener throws. Bubble: two listeners of the target stop and
    prevent; a third throws [null]; the root's is not reached. *)
Definition demoRecords : list (dispatchRecord nat) :=
  [recordOf true [listenerOf 1 true 0 3];
   recordOf false [listenerOf 2 false 2 1; listenerOf 3 false 2 4; listenerOf 4 false 2 2; listenerOf 5 false 0 0]].
Definition allOptions : option (value * value * value * value * value) :=
  Some (VBool true, VBool true, VBool true, VBool true, VUndef).
Definition demoEvents : gmap N (nativeEvent nat) := {[ 0%N := clickOn 2 ]}.
Abbreviation demoDispatch := (invokeDispatchQueueCanaryFromDispatchRecords preventNative stopNative demoCode
  (map Some demoRecords) allOptions demoEvents 0).

(** Which listeners the records of a result are about, and whether they ran. *)
Definition ranOf (q : queueInvocationRecord (Node := nat)) : list (option N * nat) :=
  map (fun iv => (dl_id <$> iv_listenerRecord iv, iv_listenerInvocationCount iv)) (ta_invocationRecords (qi_tally q)).

Lemma demo_apart : NoDup (map dl_id (flat_map (listenersOfRecord (normalizeDispatchQueueCanaryOptions allOptions)) demoRecords)).
Proof. apply (bool_decide_unpack _). vm_compute. exact I. Qed.

Lemma demo_returns : exists q w, demoDispatch = (Ok q, w).
Proof.
  assert (E : match fst demoDispatch with Ok _ => true | Throw _ => false end = true) by (vm_compute; reflexivity).
  destruct demoDispatch as [[q|e] w]; [by exists q, w|discriminate].
Qed.

Lemma propagation_is_dom_witness :
  exists l x q, domEventDispatch preventNative stopNative demoCode (normalizeDispatchQueueCanaryOptions allOptions)
      demoRecords demoEvents 0 = (l, x)
  /\ demoDispatch = (Ok q, (fl_events x, fl_user x))
  /\ map report (List.filter invoked (ta_invocationRecords (qi_tally q))) = map reportOf l
  /\ map (fun y => dl_id (fst y)) l = [1; 2; 3; 4]%N.
Proof.
  pose proof (propagation_is_dom preventNative stopNative demoCode (normalizeDispatchQueueCanaryOptions allOptions)
    demoRecords allOptions demoEvents 0 eq_refl demo_apart) as H.
  assert (E : map (fun y => dl_id (fst y)) (fst (domEventDispatch preventNative stopNative demoCode
    (normalizeDispatchQueueCanaryOptions allOptions) demoRecords demoEvents 0)) = [1; 2; 3; 4]%N) by (vm_compute; reflexivity).
  destruct (domEventDispatch _ _ _ _ _ _ _) as [l x]. destruct H as (q & H1 & H2 & _).
  { repeat constructor; eexists; reflexivity. }
  exists l, x, q. split; [reflexivity|]. split; [exact H1|]. split; [exact H2|exact E].
Defined.

Lemma dispatch_accounts_witness :
  exists q w gs, demoDispatch = (Ok q, w) /\ qi_currentTargetResetAfterDispatch q = true
  /\ ta_invocationRecords (qi_tally q) = concat gs
  /\ Forall2 (fun entry g => servedFrom 0 (listenersOf (normalizeDispatchQueueCanaryOptions allOptions) entry) g)
       (entriesOf demoRecords) gs
  /\ skipsExplained (ta_invocationRecords (qi_tally q)).
Proof.
  destruct demo_returns as (q & w & H).
  destruct (dispatch_accounts preventNative stopNative demoCode _ _ _ _ q w H)
    as (ds & Hds & _ & (gs & Hgs & HF) & _ & Hs & _ & _ & _ & _ & _ & Hr).
  assert (E : ds = demoRecords) by (symmetry; apply (inj (fmap (M := list) Some)); exact Hds).
  rewrite E in HF. exists q, w, gs. split; [exact H|]. split; [exact Hr|]. split; [exact Hgs|]. split; [exact HF|exact Hs].
Defined.

Lemma listener_errors_isolated_witness :
  exists q w, demoDispatch = (Ok q, w) /\ length (ta_listenerErrorRoutes (qi_tally q)) = 1
  /\ invokeDispatchQueueCanaryFromDispatchRecords preventNative stopNative (silenced demoCode)
       (map Some demoRecords) allOptions demoEvents 0 = (Ok (quietQueue q), w).
Proof.
  pose proof (listener_errors_isolated preventNative stopNative demoCode (map Some demoRecords) allOptions demoEvents 0) as H.
  assert (E : match fst demoDispatch with Ok q => length (ta_listenerErrorRoutes (qi_tally q)) | Throw _ => 9 end = 1)
    by (vm_compute; reflexivity).
  cbv zeta in H. destruct (invokeDispatchQueueCanaryFromDispatchRecords preventNative stopNative demoCode _ _ _ _) as [[q|e] w];
    [|discriminate]. exists q, w. split; [reflexivity|].
  destruct H as [H _]. split; [exact E|exact H].
Defined.

Lemma default_prevented_spec_witness :
  exists q w, demoDispatch = (Ok q, w) /\ qi_defaultPrevented q = true
  /\ preventedBy false (ta_invocationRecords (qi_tally q)) = true.
Proof.
  destruct demo_returns as (q & w & H).
  assert (Hev : Forall (fun r => dl_nativeEvent r = inr 0%N)
    (flat_map (listenersOfRecord (normalizeDispatchQueueCanaryOptions allOptions)) demoRecords)).
  { repeat (constructor; [reflexivity|]). constructor. }
  destruct (default_prevented_spec preventNative stopNative demoCode demoRecords allOptions demoEvents 0 0%N q w eq_refl Hev
    ltac:(discriminate) H) as (H1 & _ & _).
  exists q, w. split; [exact H|].
  assert (E : match fst demoDispatch with Ok q => qi_defaultPrevented q | Throw _ => false end = true) by (vm_compute; reflexivity).
  rewrite H in E. simpl in E. split; [exact E|]. rewrite H1 in E.
  assert (E2 : getNativeEventDefaultPrevented demoEvents (inr 0%N) = false) by (vm_compute; reflexivity).
  rewrite E2 in E. exact E.
Defined.

(** The variable that keeps a listener's exception is [null] when there is none: a listener
    that throws [null] is recorded as one that returned. *)
Theorem null_exception_unreported :
  exists iv s, invokeDispatchListenerRecordForCanary preventNative stopNative demoCode None (listenerOf 4 false 2 2) 0 true
      (mkRun demoEvents 0 (mkCurrent None None) None None) = (iv, s)
  /\ iv_invocationStatus iv = InvokedListener /\ iv_listenerErrorCaptured iv = false /\ iv_listenerReturnStatus iv = "undefined".
Proof. eexists _, _. split; [reflexivity|]. by split_and!. Qed.
