(* ===== verification/HydrationReplay.v ===== *)
(** * Replaying events after hydration (events/plugin-event-system.js)

    Events whose target is not hydrated yet: where the target is below the root's container,
    which dehydrated boundary owns it, how the event would be queued and in which order the
    queue would be drained. All of it reads the host and the hydration markers and changes
    nothing. Constant fields of the records are left out. *)
From stdpp Require Import pretty.
From S2P Require Import Prelude JsValue PropertyPayload DomHost DomTree DomPayload DomCommit RootMarkers ComponentTree TreeTargets HydrationMarkers Events ListenerRegistry EventExtract EventDispatch.

(** ** Paths *)

Definition parseHydrationContainerPathSegments (path : value) : option (list N) :=
  match path with
  | VStr s => suffix ← stripPrefix "container" s; parseSegments (String.length suffix) suffix
  | _ => None
  end.

(** A place in the child list of the node at [parentPath]. *)
Record position : Type := mkPosition { po_index : N; po_parentPath : string }.

Fixpoint positionsFrom (parentPath : string) (segments : list N) : list position :=
  match segments with
  | [] => []
  | k :: segments => mkPosition k parentPath :: positionsFrom (childPath parentPath k) segments
  end.
Definition getHydrationTargetPathPositions (targetPath : value) : list position :=
  match parseHydrationContainerPathSegments targetPath with
  | None => []
  | Some segments => positionsFrom "container" segments
  end.

(** The place of a path's last step. *)
Definition parseHydrationContainerPath (path : value) : option position :=
  segments ← parseHydrationContainerPathSegments path;
  last (positionsFrom "container" segments).

(** ** Boundary owners *)

Record replayCandidate : Type := mkCandidate {
  ca_area : value;
  ca_contractId : value;
  ca_kind : value;
  ca_path : value;
  ca_replayTargetKind : value }.

Record boundaryOwner : Type := mkOwner {
  bo_ownerId : string;
  bo_index : nat;
  bo_rootRecordId : option string;
  bo_area : value;
  bo_boundaryKind : string;
  bo_contractId : option string;
  bo_markerKind : option string;
  bo_path : option string }.

Definition createHydrationBoundaryOwnerId (rootRecordId : option string) (index : nat) : string :=
  (match rootRecordId with
   | Some s => if decide (s = "") then "hydration-target-resolution" else s
   | None => "hydration-target-resolution"
   end) +:+ ":boundary:" +:+ pretty (N.of_nat index).

Definition startsWith (p s : string) : bool := isSome (stripPrefix p s).
Definition inferHydrationReplayTargetKind (contractId : value) : string :=
  match contractId with
  | VStr s =>
      if startsWith "activity-" s then "activity-boundary"
      else if startsWith "suspense-" s then "suspense-boundary"
      else if startsWith "form-state-" s then "form-state"
      else "unknown"
  | _ => "unknown"
  end.

Definition createHydrationDehydratedBoundaryOwnerRecords (candidates : list replayCandidate)
    (rootRecordId : option string) : list boundaryOwner :=
  imap (fun index c =>
    mkOwner (createHydrationBoundaryOwnerId rootRecordId index) index rootRecordId
      (if truthy (ca_area c) then ca_area c else VNull)
      (match ca_replayTargetKind c with VStr s => s | _ => inferHydrationReplayTargetKind (ca_contractId c) end)
      (stringOf (ca_contractId c)) (stringOf (ca_kind c)) (stringOf (ca_path c))) candidates.

(** A row of the marker scan, as far as it matters here. *)
Record markerRow : Type := mkMarkerRow { mr_contractId : value; mr_path : value }.

Definition isHydrationBoundaryEndMarker (contractId : value) : bool :=
  isStr contractId "suspense-end" || isStr contractId "activity-end".
Definition endedKind (contractId : value) : string :=
  if isStr contractId "activity-end" then "activity-boundary" else "suspense-boundary".

(** Remove the last owner of the kind; the stack's top is its last element. *)
Fixpoint removeFirstOfKind (kind : string) (l : list boundaryOwner) : list boundaryOwner :=
  match l with
  | [] => []
  | o :: l => if decide (bo_boundaryKind o = kind) then l else o :: removeFirstOfKind kind l
  end.
Definition popHydrationBoundaryOwnerForEndMarker (boundaryStack : list boundaryOwner) (contractId : value) :
    list boundaryOwner :=
  rev (removeFirstOfKind (endedKind contractId) (rev boundaryStack)).

(** [Map.prototype.set] keeps the last owner of a path. *)
Definition ownerByPath (owners : list boundaryOwner) (path : value) : option boundaryOwner :=
  match path with
  | VStr s => List.find (fun o => bool_decide (bo_path o = Some s)) (rev owners)
  | _ => None
  end.

Definition stackStep (owners : list boundaryOwner) (boundaryStack : list boundaryOwner) (marker : markerRow) :
    list boundaryOwner :=
  match ownerByPath owners (mr_path marker) with
  | Some owner => boundaryStack ++ [owner]
  | None => if isHydrationBoundaryEndMarker (mr_contractId marker)
            then popHydrationBoundaryOwnerForEndMarker boundaryStack (mr_contractId marker)
            else boundaryStack
  end.

(** [Array.prototype.sort], which is stable, with a comparator. *)
Fixpoint insertSorted {A : Type} (compare : A -> A -> Z) (x : A) (l : list A) : list A :=
  match l with
  | [] => [x]
  | y :: l => if (0 <? compare y x)%Z then x :: y :: l else y :: insertSorted compare x l
  end.
Fixpoint sortFrom {A : Type} (compare : A -> A -> Z) (sorted l : list A) : list A :=
  match l with [] => sorted | x :: l => sortFrom compare (insertSorted compare x sorted) l end.
Definition sortBy {A : Type} (compare : A -> A -> Z) (l : list A) : list A := sortFrom compare [] l.

(** The markers before a position among its siblings, in their order. *)
Definition sameParentMarkers (markers : list markerRow) (p : position) : list markerRow :=
  map fst (sortBy (fun a b => (Z.of_N (po_index (snd a)) - Z.of_N (po_index (snd b)))%Z)
    (omap (fun marker =>
       parts ← parseHydrationContainerPath (mr_path marker);
       if bool_decide (po_parentPath parts = po_parentPath p) && (po_index parts <? po_index p)%N
       then Some (marker, parts) else None) markers)).

Fixpoint selectOwner (owners : list boundaryOwner) (markers : list markerRow) (positions : list position)
    (selectedOwner : option boundaryOwner) : option boundaryOwner :=
  match positions with
  | [] => selectedOwner
  | p :: positions =>
      let boundaryStack := foldl (stackStep owners) [] (sameParentMarkers markers p) in
      selectOwner owners markers positions (match last boundaryStack with Some o => Some o | None => selectedOwner end)
  end.

(** [None] for the markers is no diagnostics. *)
Definition findDehydratedBoundaryOwnerForTargetPath (targetPath : value) (owners : list boundaryOwner)
    (markers : option (list markerRow)) : option boundaryOwner :=
  selectOwner owners (default [] markers) (getHydrationTargetPathPositions targetPath) None.

(** ** Queues *)

Definition hydrationDiscreteReplayableEventNames : list string :=
  ["mousedown"; "mouseup"; "touchcancel"; "touchend"; "touchstart"; "auxclick"; "dblclick"; "pointercancel";
   "pointerdown"; "pointerup"; "dragend"; "dragstart"; "drop"; "compositionend"; "compositionstart"; "keydown";
   "keypress"; "keyup"; "input"; "textInput"; "copy"; "cut"; "paste"; "click"; "change"; "contextmenu"; "reset"].
Definition hydrationContinuousReplayQueueNames : list (string * string) :=
  [("focusin", "queuedFocus"); ("focusout", "queuedFocus"); ("dragenter", "queuedDrag");
   ("dragleave", "queuedDrag"); ("mouseover", "queuedMouse"); ("mouseout", "queuedMouse");
   ("pointerover", "queuedPointers"); ("pointerout", "queuedPointers");
   ("gotpointercapture", "queuedPointerCaptures"); ("lostpointercapture", "queuedPointerCaptures")].

Record queueInfo : Type := mkQueueInfo {
  qu_queueCategory : string;
  qu_queueName : option string;
  qu_queuePolicy : string;
  qu_replayableEvent : bool }.

Definition getHydrationReplayEventQueueInfo (domEventName : string) : queueInfo :=
  match List.find (fun p => String.eqb (fst p) domEventName) hydrationContinuousReplayQueueNames with
  | Some (_, name) =>
      mkQueueInfo "continuous-event" (Some name)
        (if bool_decide (domEventName ∈ ["pointerover"; "pointerout"; "gotpointercapture"; "lostpointercapture"])
         then "latest-event-per-pointer-id" else "latest-event-per-event-family") true
  | None =>
      if bool_decide (domEventName = "change") then
        mkQueueInfo "change-event-target" (Some "queuedChangeEventTargets")
          "target-array-drained-after-unblocked-hydration" true
      else if bool_decide (domEventName ∈ hydrationDiscreteReplayableEventNames) then
        mkQueueInfo "discrete-event" (Some "discrete-hydration-replay-attempt")
          "capture-phase-synchronous-hydration-attempt-blocked" true
      else mkQueueInfo "not-replayable" None "dispatch-without-target-when-blocked" false
  end.

(** ** The drain order *)

(** What the order uses of an entry of the replay queue. *)
Record replayEntry : Type := mkEntry {
  re_inputOrder : nat;
  re_prioritySortKey : N;
  re_domEventName : string;
  re_queueInfo : queueInfo;
  re_rootOwned : bool;
  re_rootOwnershipStatus : string;
  re_dehydratedRootOwnerStatus : string;
  re_dehydratedBoundaryOwner : option boundaryOwner;
  re_targetPath : value;
  re_targetPathStatus : string;
  re_blockedOnKind : option string;
  re_blockedOnStatus : string;
  re_hydrationTargetResolutionStatus : string }.

Definition compareHydrationReplayEventQueueEntriesByPriority (a b : replayEntry) : Z :=
  if (re_prioritySortKey a =? re_prioritySortKey b)%N
  then (Z.of_nat (re_inputOrder a) - Z.of_nat (re_inputOrder b))%Z
  else (Z.of_N (re_prioritySortKey a) - Z.of_N (re_prioritySortKey b))%Z.

Definition createHydrationReplayEventPriorityOrder (entries : list replayEntry) : list replayEntry :=
  sortBy compareHydrationReplayEventQueueEntriesByPriority entries.

Definition getHydrationReplayDrainOwnerSortKey (e : replayEntry) : Z :=
  match re_dehydratedBoundaryOwner e with
  | Some _ => 0
  | None => if bool_decide (re_rootOwnershipStatus e = "owned-by-dehydrated-root") then 1 else 2
  end.

Definition createHydrationReplayDrainBlockedOnSortKey (e : replayEntry) : string :=
  match re_dehydratedBoundaryOwner e with
  | Some o => "boundary:" +:+ default "unknown-boundary-path" (bo_path o) +:+ ":" +:+ bo_ownerId o
  | None =>
      if bool_decide (re_rootOwnershipStatus e = "owned-by-dehydrated-root") then
        "root:" +:+ default "unknown-root-target-path" (stringOf (re_targetPath e)) +:+ ":" +:+ re_dehydratedRootOwnerStatus e
      else "unowned:" +:+ pretty (N.of_nat (re_inputOrder e))
  end.

Record drainCandidate : Type := mkDrainCandidate {
  dc_entry : replayEntry;
  dc_blockedOnSortKey : string;
  dc_ownerSortKey : Z;
  dc_targetPathSegments : option (list N) }.
Definition createHydrationReplayQueueDrainOrderCandidate (e : replayEntry) : drainCandidate :=
  mkDrainCandidate e (createHydrationReplayDrainBlockedOnSortKey e) (getHydrationReplayDrainOwnerSortKey e)
    (parseHydrationContainerPathSegments (re_targetPath e)).

Fixpoint compareSegments (a b : list N) : Z :=
  match a, b with
  | x :: a, y :: b => if (x =? y)%N then compareSegments a b else (Z.of_N x - Z.of_N y)%Z
  | [], [] => 0
  | [], _ :: _ => - Z.of_nat (length b)
  | _ :: _, [] => Z.of_nat (length a)
  end.
Definition compareHydrationReplayDrainPathSegments (a b : option (list N)) : Z :=
  match a, b with
  | None, None => 0
  | None, Some _ => 1
  | Some _, None => -1
  | Some a, Some b => compareSegments a b
  end.

Definition MAX_SAFE_INTEGER : Z := 9007199254740991.
Definition normalizeHydrationReplayDrainBoundaryIndex (index : option nat) : Z :=
  match index with Some i => Z.of_nat i | None => MAX_SAFE_INTEGER end.

Definition compareHydrationReplayQueueDrainOrderCandidates (a b : drainCandidate) : Z :=
  let path := compareHydrationReplayDrainPathSegments (dc_targetPathSegments a) (dc_targetPathSegments b) in
  let ia := bo_index <$> re_dehydratedBoundaryOwner (dc_entry a) in
  let ib := bo_index <$> re_dehydratedBoundaryOwner (dc_entry b) in
  if negb (path =? 0)%Z then path
  else if negb (dc_ownerSortKey a =? dc_ownerSortKey b)%Z then dc_ownerSortKey a - dc_ownerSortKey b
  else if negb (bool_decide (ia = ib)) then
    normalizeHydrationReplayDrainBoundaryIndex ia - normalizeHydrationReplayDrainBoundaryIndex ib
  else Z.of_nat (re_inputOrder (dc_entry a)) - Z.of_nat (re_inputOrder (dc_entry b)).

(** The position in the result is the entry's [drainOrder]. *)
Definition createHydrationReplayQueueDrainOrder (entries : list replayEntry) : list drainCandidate :=
  sortBy compareHydrationReplayQueueDrainOrderCandidates (map createHydrationReplayQueueDrainOrderCandidate entries).

Section Replay.
Context {Node D : Type} `{!EqDecision Node} `{!Countable Node} `{!Host Node D}.
(** [node.childNodes] as the list of its items, [None] when it is no list. *)
Context (childNodeItems : D -> Node -> option (list (domArg Node))).
Implicit Types (d : D) (n : Node).

(** ** Target paths *)

Record targetPath : Type := mkTargetPath {
  tp_found : bool;
  tp_path : option string;
  tp_status : string }.

(** A depth-first search; the nodes whose children were looked at are not entered again.
    [None] is fuel that ran out. *)
Fixpoint findHydrationTargetPathInChildren (fuel : nat) d (parentNode : Node) (parentPath : string)
    (targetNode : Node) (visitedNodes : gset Node) : option (option string * gset Node) :=
  if decide (parentNode ∈ visitedNodes) then Some (None, visitedNodes)
  else
    match fuel with
    | O => None
    | S fuel =>
        (fix children (index : N) (l : list (domArg Node)) (visitedNodes : gset Node) :
            option (option string * gset Node) :=
           match l with
           | [] => Some (None, visitedNodes)
           | inl _ :: l => children (index + 1)%N l visitedNodes
           | inr childNode :: l =>
               let path := childPath parentPath index in
               if decide (childNode = targetNode) then Some (Some path, visitedNodes)
               else
                 match findHydrationTargetPathInChildren fuel d childNode path targetNode visitedNodes with
                 | None => None
                 | Some (Some childPath, visitedNodes) => Some (Some childPath, visitedNodes)
                 | Some (None, visitedNodes) => children (index + 1)%N l visitedNodes
                 end
           end) 0%N (default [] (childNodeItems d parentNode)) ({[parentNode]} ∪ visitedNodes)
    end.

Fixpoint isHydrationTargetDescendantOfRoot (fuel : nat) d (rootContainer : Node) (currentNode : option Node) :
    option bool :=
  match currentNode with
  | None => Some false
  | Some n =>
      if decide (n = rootContainer) then Some true
      else match fuel with
           | O => None
           | S fuel => isHydrationTargetDescendantOfRoot fuel d rootContainer (parentNode d n)
           end
  end.

Definition findHydrationTargetPath (fuel : nat) d (rootContainer : option Node) (target : domArg Node) :
    option targetPath :=
  match rootContainer, target with
  | None, _ => Some (mkTargetPath false None "unavailable-no-root-container")
  | Some _, inl _ => Some (mkTargetPath false None "unavailable-non-object-target")
  | Some root, inr targetNode =>
      if decide (targetNode = root) then Some (mkTargetPath true (Some "container") "found-container-target")
      else
        match findHydrationTargetPathInChildren fuel d root "container" targetNode ∅ with
        | None => None
        | Some (Some path, _) => Some (mkTargetPath true (Some path) "found-in-container-child-list")
        | Some (None, _) =>
            match isHydrationTargetDescendantOfRoot fuel d root (Some targetNode) with
            | None => None
            | Some true => Some (mkTargetPath false None "owned-by-parent-chain-not-child-list")
            | Some false => Some (mkTargetPath false None "not-contained-in-dehydrated-root")
            end
        end
  end.

(** ** Lookups *)

Definition getHydratableEventTargetLookupStatus (owner : option boundaryOwner) (rootOwned targetInstResolved found : bool) :
    string :=
  if targetInstResolved then "skipped-mounted-host-instance-target"
  else if negb rootOwned then "blocked-no-dehydrated-owner"
  else match owner with
       | Some _ => "blocked-on-dehydrated-boundary"
       | None => if found then "blocked-on-dehydrated-root" else "blocked-on-dehydrated-root-unlisted-target"
       end.

Definition getHydrationRootOwnershipStatus (rootContainer : option Node) (rootOwned : bool) : string :=
  match rootContainer with
  | None => "unavailable-no-dehydrated-root-container-payload"
  | Some _ => if rootOwned then "owned-by-dehydrated-root" else "not-owned-by-dehydrated-root"
  end.

(** The private payload of a target-resolution diagnostic. *)
Record resolutionPayload : Type := mkResolution {
  rs_markerDiagnostics : option (list markerRow);
  rs_markerReplayTargetCandidates : list replayCandidate;
  rs_rootContainer : option Node;
  rs_rootRecordId : option string }.

Record targetLookup : Type := mkTargetLookup {
  tl_inputOrder : nat;
  tl_status : string;
  tl_targetContainerMatchesRoot : bool;
  tl_targetWithinRootContainer : bool;
  tl_rootOwned : bool;
  tl_rootOwnershipStatus : string;
  tl_dehydratedBoundaryOwner : option boundaryOwner;
  tl_blockedOnKind : option string;
  tl_blockedOnStatus : string;
  tl_targetPath : targetPath }.

Definition rootOwnerStatus (rootContainer : option Node) : string :=
  match rootContainer with
  | None => "blocked-no-dehydrated-root-container-payload"
  | Some _ => "recorded-unsupported-dehydrated-root-owner"
  end.

Definition pathValue (p : option string) : value := match p with Some s => VStr s | None => VNull end.

Definition createHydratableEventTargetLookupRecord (fuel : nat) d (r : dispatchRecord Node) (inputOrder : nat)
    (x : resolutionPayload) : option targetLookup :=
  let rootContainer := rs_rootContainer x in
  let owners := createHydrationDehydratedBoundaryOwnerRecords (rs_markerReplayTargetCandidates x) (rs_rootRecordId x) in
  path ← findHydrationTargetPath fuel d rootContainer (dr_nativeEventTarget r);
  within ← (match rootContainer with
            | None => Some false
            | Some root =>
                if tp_found path then Some true
                else isHydrationTargetDescendantOfRoot fuel d root (asNode (dr_nativeEventTarget r))
            end);
  let matches := bool_decide (rootContainer = Some (wr_targetContainer (dr_wrapperRecord r))) in
  let rootOwned := matches || within in
  let owner := if rootOwned
    then findDehydratedBoundaryOwnerForTargetPath (pathValue (tp_path path)) owners (rs_markerDiagnostics x) else None in
  Some (mkTargetLookup inputOrder
          (getHydratableEventTargetLookupStatus owner rootOwned (isSome (dr_targetInst r)) (tp_found path))
          matches within rootOwned (getHydrationRootOwnershipStatus rootContainer rootOwned) owner
          (match owner with Some o => Some (bo_boundaryKind o)
           | None => if rootOwned then Some "dehydrated-root" else None end)
          (match owner with Some _ => "blocked-on-dehydrated-boundary"
           | None => if rootOwned then "blocked-on-dehydrated-root" else "unavailable-no-dehydrated-owner" end)
          path).

Definition createHydrationReplayEventQueueEntryRecord (r : dispatchRecord Node) (inputOrder : nat) (l : targetLookup)
    (x : resolutionPayload) : replayEntry :=
  mkEntry inputOrder (wr_eventPriorityLane (dr_wrapperRecord r)) (wr_domEventName (dr_wrapperRecord r))
    (getHydrationReplayEventQueueInfo (wr_domEventName (dr_wrapperRecord r))) (tl_rootOwned l)
    (tl_rootOwnershipStatus l) (rootOwnerStatus (rs_rootContainer x)) (tl_dehydratedBoundaryOwner l)
    (pathValue (tp_path (tl_targetPath l))) (tp_status (tl_targetPath l)) (tl_blockedOnKind l) (tl_blockedOnStatus l)
    (tl_status l).

(** The lookups and entries of dispatch records, numbered from [inputOrder]. *)
Fixpoint replayEntries (fuel : nat) d (x : resolutionPayload) (inputOrder : nat) (records : list (dispatchRecord Node)) :
    option (list (targetLookup * replayEntry)) :=
  match records with
  | [] => Some []
  | r :: records =>
      l ← createHydratableEventTargetLookupRecord fuel d r inputOrder x;
      rest ← replayEntries fuel d x (S inputOrder) records;
      Some ((l, createHydrationReplayEventQueueEntryRecord r inputOrder l x) :: rest)
  end.

Record replayQueueDiagnostic : Type := mkReplayQueue {
  rq_hydratableEventTargetLookups : list targetLookup;
  rq_blockedEventReplayTargets : list replayEntry;
  rq_priorityQueueOrder : list replayEntry;
  rq_drainOrder : list drainCandidate }.

(** The first argument: undefined or null, an array, or anything else; a member that is no
    dispatch record is [None]. *)
Inductive replayRecords : Type :=
| NoRecords
| OneRecord (r : option (dispatchRecord Node))
| ManyRecords (l : list (option (dispatchRecord Node))).

Definition normalizeHydrationReplayDispatchRecords (dispatchRecords : replayRecords) : res (list (dispatchRecord Node)) :=
  match dispatchRecords with
  | NoRecords => Ok []
  | OneRecord r => let* d := assertEventDispatchRecord r in Ok [d]
  | ManyRecords l => mapRes assertEventDispatchRecord l
  end.

(** [options.dehydratedTargetResolution || options.targetResolutionDiagnostics]: undefined or
    null, another falsy value, something that is no private diagnostic, or a diagnostic with
    its payload and its lookups. *)
Inductive resolutionSource : Type :=
| NoSource
| FalsySource
| ForeignSource
| SourceDiagnostic (payload : resolutionPayload) (lookups : list targetLookup).

Definition getSourceDehydratedTargetResolutionDiagnostic (source : resolutionSource) :
    res (option (resolutionPayload * list targetLookup)) :=
  match source with
  | NoSource | FalsySource => Ok None
  | ForeignSource => hostError INVALID_EVENT_DISPATCH_RECORD_CODE
  | SourceDiagnostic payload lookups => Ok (Some (payload, lookups))
  end.

(** The payload of the diagnostic that is made for dispatch records. Its caller always gives
    it an array of candidates, so it never takes those of the source. *)
Definition resolutionOf (candidates : list replayCandidate) (source : option (resolutionPayload * list targetLookup)) :
    resolutionPayload :=
  match source with
  | None => mkResolution None candidates None None
  | Some (payload, _) =>
      mkResolution (rs_markerDiagnostics payload) candidates (rs_rootContainer payload) (rs_rootRecordId payload)
  end.

(** [candidates] is [options.markerReplayTargetCandidates], [None] when that is no array.
    [Some (Throw e)] is an exception, [None] is fuel that ran out. *)
Definition createHydrationReplayEventQueueDiagnostic (fuel : nat) d (dispatchRecords : replayRecords)
    (candidates : option (list replayCandidate)) (source : resolutionSource) : option (res replayQueueDiagnostic) :=
  match normalizeHydrationReplayDispatchRecords dispatchRecords with
  | Throw e => Some (Throw e)
  | Ok records =>
      match getSourceDehydratedTargetResolutionDiagnostic source with
      | Throw e => Some (Throw e)
      | Ok resolution =>
          match records, source with
          | [], FalsySource => Some (Throw (TypeError "Cannot read properties of null"))
          | [], SourceDiagnostic _ lookups => Some (Ok (mkReplayQueue lookups [] [] []))
          | _, _ =>
              rows ← replayEntries fuel d (resolutionOf (default [] candidates) resolution) 0 records;
              let entries := map snd rows in
              Some (Ok (mkReplayQueue (map fst rows) entries (createHydrationReplayEventPriorityOrder entries)
                          (createHydrationReplayQueueDrainOrder entries)))
          end
      end
  end.
End Replay.
