(* ===== verification/HydrationReplaySpec.v ===== *)
(** * Theorems about replaying events after hydration

    The sort gives the entries in the order of the comparator, the orders of the queue are
    total, the search for a target's path ends and finds exactly the nodes below the root,
    and the owner of a path is the innermost boundary that is open before it. *)
From Stdlib Require Import Sorted.
From stdpp Require Import pretty.
From S2P Require Import Prelude JsValue PropertyPayload DomHost DomTree DomPayload DomCommit RootMarkers ComponentTree TreeTargets ComponentTreeSpec HydrationMarkers HydrationMarkersSpec Events ListenerRegistry EventExtract EventDispatch HydrationReplay.

(** ** Sorting *)

(** A comparator whose sign is a total preorder. *)
Class Comparator {A : Type} (compare : A -> A -> Z) : Prop := mkComparator {
  compare_flip x y : (0 < compare x y)%Z -> (compare y x <= 0)%Z;
  compare_trans x y z : (compare x y <= 0)%Z -> (compare y z <= 0)%Z -> (compare x z <= 0)%Z }.

Section Sort.
Context {A : Type} (compare : A -> A -> Z).
Definition notAfter (x y : A) : Prop := (compare x y <= 0)%Z.
Implicit Types (l sorted : list A).

Lemma insertSorted_perm x l : insertSorted compare x l ≡ₚ x :: l.
Proof.
  induction l as [|y l IH]; simpl; [done|]. destruct (0 <? compare y x)%Z; [done|].
  rewrite IH. constructor.
Qed.

Lemma sortFrom_perm l sorted : sortFrom compare sorted l ≡ₚ sorted ++ l.
Proof.
  induction l as [|x l IH] in sorted |- *; simpl; [by rewrite app_nil_r|].
  rewrite IH, insertSorted_perm. apply Permutation_middle.
Qed.
Lemma sortBy_perm l : sortBy compare l ≡ₚ l.
Proof. apply sortFrom_perm. Qed.

Context `{!Comparator compare}.

Lemma insertSorted_sorted x l : StronglySorted notAfter l -> StronglySorted notAfter (insertSorted compare x l).
Proof.
  induction 1 as [|y l Hl IH Hy]; simpl; [by repeat constructor|].
  destruct (Z.ltb_spec 0 (compare y x)) as [Hlt|Hle].
  - apply compare_flip in Hlt. constructor; [by constructor|]. constructor; [done|].
    eapply Forall_impl; [exact Hy|]. intros z Hz. by apply (compare_trans _ y).
  - constructor; [done|]. rewrite insertSorted_perm. by constructor.
Qed.
Lemma sortFrom_sorted l sorted : StronglySorted notAfter sorted -> StronglySorted notAfter (sortFrom compare sorted l).
Proof. induction l as [|x l IH] in sorted |- *; simpl; auto using insertSorted_sorted. Qed.
Lemma sortBy_sorted l : StronglySorted notAfter (sortBy compare l).
Proof. apply sortFrom_sorted. constructor. Qed.

Lemma sorted_lookup (R : A -> A -> Prop) l i j x y :
  StronglySorted R l -> i < j -> l !! i = Some x -> l !! j = Some y -> R x y.
Proof.
  intros H. induction H as [|z l Hl IH Hz] in i, j |- *; intros Hij Hi Hj; [done|].
  destruct j as [|j]; [lia|]. destruct i as [|i]; simpl in *.
  - simplify_eq. rewrite Forall_forall in Hz. apply Hz. by eapply list_elem_of_lookup_2.
  - apply (IH i j); auto with lia.
Qed.
End Sort.

(** ** Document order *)

(** [a] comes before [b] when the tree is read from the top: it is an ancestor's path, or
    the paths part at a smaller index. *)
Inductive docBefore : list N -> list N -> Prop :=
| doc_above k l : docBefore [] (k :: l)
| doc_left x y a b : (x < y)%N -> docBefore (x :: a) (y :: b)
| doc_below x a b : docBefore a b -> docBefore (x :: a) (x :: b).

Lemma compareSegments_spec a b :
  ((compareSegments a b < 0)%Z <-> docBefore a b) /\ (compareSegments a b = 0%Z <-> a = b)
  /\ ((0 < compareSegments a b)%Z <-> docBefore b a).
Proof.
  induction a as [|x a IH] in b |- *; destruct b as [|y b]; cbn [compareSegments].
  - split_and!; split; try lia; try done; intros H; inversion H.
  - split_and!; split; try done; try (cbn [length]; lia); try (intros _; constructor); intros H; inversion H.
  - split_and!; split; try done; try (cbn [length]; lia); try (intros _; constructor); intros H; inversion H.
  - destruct (N.eqb_spec x y) as [->|Hxy].
    + destruct (IH b) as (H1 & H2 & H3). rewrite H1, H2, H3. split_and!.
      * split; [by constructor|]. intros H; inversion H; subst; [lia|done].
      * split; congruence.
      * split; [by constructor|]. intros H; inversion H; subst; [lia|done].
    + split_and!; (split; [intros H|intros H; inversion H; subst; try lia]); try (constructor; lia).
      lia.
Qed.

Lemma docBefore_trans a b c : docBefore a b -> docBefore b c -> docBefore a c.
Proof.
  intros H. induction H as [k l|x y a b Hxy|x a b H IH] in c |- *; intros Hc; inversion Hc; subst;
    first [by apply doc_above|apply doc_left; lia|by apply doc_below, IH].
Qed.
Lemma docBefore_irrefl a : ~ docBefore a a.
Proof. induction a as [|x a IH]; intros H; inversion H; subst; [lia|auto]. Qed.
Lemma docBefore_total a b : docBefore a b \/ a = b \/ docBefore b a.
Proof.
  destruct (compareSegments_spec a b) as (H1 & H2 & H3).
  destruct (Z.lt_total (compareSegments a b) 0) as [H|[H|H]]; [left; by apply H1|right; left; by apply H2|].
  right; right. by apply H3.
Qed.

(** ** The orders of the queue *)

Definition pathOrder (a b : option (list N)) : Prop :=
  match a, b with
  | Some a, Some b => docBefore a b
  | Some _, None => True
  | None, _ => False
  end.
Lemma comparePaths_spec a b :
  ((compareHydrationReplayDrainPathSegments a b < 0)%Z <-> pathOrder a b)
  /\ (compareHydrationReplayDrainPathSegments a b = 0%Z <-> a = b)
  /\ ((0 < compareHydrationReplayDrainPathSegments a b)%Z <-> pathOrder b a).
Proof.
  destruct a as [a|], b as [b|]; simpl; [|by split_and!..].
  destruct (compareSegments_spec a b) as (H1 & H2 & H3). rewrite H1, H2, H3. split_and!; try done.
  split; congruence.
Qed.
Lemma pathOrder_trans a b c : pathOrder a b -> pathOrder b c -> pathOrder a c.
Proof. destruct a, b, c; simpl; try done. apply docBefore_trans. Qed.
Lemma pathOrder_irrefl a : ~ pathOrder a a.
Proof. destruct a; simpl; [apply docBefore_irrefl|tauto]. Qed.

(** The index that an owner's rank is compared by. *)
Definition ownerIndex (e : replayEntry) : Z :=
  normalizeHydrationReplayDrainBoundaryIndex (bo_index <$> re_dehydratedBoundaryOwner e).
Definition pathSegments (e : replayEntry) : option (list N) := parseHydrationContainerPathSegments (re_targetPath e).

(** Lanes first, then the order of arrival. *)
Definition moreUrgent (e f : replayEntry) : Prop :=
  (re_prioritySortKey e < re_prioritySortKey f)%N
  \/ re_prioritySortKey e = re_prioritySortKey f /\ re_inputOrder e < re_inputOrder f.

Abbreviation compareEntries e f :=
  (compareHydrationReplayQueueDrainOrderCandidates (createHydrationReplayQueueDrainOrderCandidate e)
     (createHydrationReplayQueueDrainOrderCandidate f)).

(** [e] is drained before [f]: its target comes first in the document; of entries for one
    target, those blocked on a boundary before those blocked on the root before the others,
    then by the boundary's index, then as the order of arrival decides the tie. *)
Definition ranksBefore (tie : Prop) (e f : replayEntry) : Prop :=
  pathOrder (pathSegments e) (pathSegments f)
  \/ pathSegments e = pathSegments f
     /\ (getHydrationReplayDrainOwnerSortKey e < getHydrationReplayDrainOwnerSortKey f
         \/ getHydrationReplayDrainOwnerSortKey e = getHydrationReplayDrainOwnerSortKey f
            /\ (ownerIndex e < ownerIndex f \/ ownerIndex e = ownerIndex f /\ tie))%Z.
Definition drainsBefore (e f : replayEntry) : Prop := ranksBefore (re_inputOrder e < re_inputOrder f) e f.

(** Entries with the same rank have no owner or both have one. *)
Lemma ownerIndex_inj e f : getHydrationReplayDrainOwnerSortKey e = getHydrationReplayDrainOwnerSortKey f ->
  ownerIndex e = ownerIndex f ->
  bo_index <$> re_dehydratedBoundaryOwner e = bo_index <$> re_dehydratedBoundaryOwner f.
Proof.
  unfold getHydrationReplayDrainOwnerSortKey, ownerIndex.
  destruct (re_dehydratedBoundaryOwner e), (re_dehydratedBoundaryOwner f); simpl;
    repeat case_bool_decide; intros; try done; f_equal; lia.
Qed.

Lemma compareEntries_le e f :
  (compareEntries e f <= 0)%Z <-> ranksBefore (re_inputOrder e <= re_inputOrder f) e f.
Proof.
  unfold compareHydrationReplayQueueDrainOrderCandidates, ranksBefore. simpl.
  fold (pathSegments e) (pathSegments f) (ownerIndex e) (ownerIndex f).
  destruct (comparePaths_spec (pathSegments e) (pathSegments f)) as (H1 & H2 & H3).
  pose proof (pathOrder_irrefl (pathSegments e)) as Hirr. pose proof (ownerIndex_inj e f) as Hinj.
  destruct (Z.eqb_spec (compareHydrationReplayDrainPathSegments (pathSegments e) (pathSegments f)) 0) as [E|E]; cbn [negb].
  2: { split; intros H; [left; apply H1; lia|]. destruct H as [H|[H _]]; [apply H1 in H; lia|by apply H2 in H]. }
  apply H2 in E. rewrite <- E in *.
  destruct (Z.eqb_spec (getHydrationReplayDrainOwnerSortKey e) (getHydrationReplayDrainOwnerSortKey f)) as [Ek|Ek]; cbn [negb].
  2: { split; intros H; [right; split; [done|left; lia]|]. destruct H as [H|[_ H]]; [done|]. lia. }
  case_bool_decide as Ei; cbn [negb].
  - assert (Hi : ownerIndex e = ownerIndex f) by (unfold ownerIndex; by rewrite Ei).
    split; [intros H; right; repeat (split; [done|right]); by split; [|lia]|]. intros [H|[_ H]]; [done|]. lia.
  - assert (Hi : ownerIndex e <> ownerIndex f) by auto.
    split; [intros H; right; split; [done|]; right; split; [done|left]; lia|]. intros [H|[_ H]]; [done|]. lia.
Qed.

#[export] Instance drain_comparator : Comparator (fun e f => compareEntries e f).
Proof.
  split.
  - intros e f H. apply compareEntries_le. unfold ranksBefore.
    assert (Hn : ~ (compareEntries e f <= 0)%Z) by lia. rewrite compareEntries_le in Hn. unfold ranksBefore in Hn.
    destruct (comparePaths_spec (pathSegments e) (pathSegments f)) as (H1 & H2 & H3).
    destruct (Z.lt_total (compareHydrationReplayDrainPathSegments (pathSegments e) (pathSegments f)) 0) as [E|[E|E]];
      [by apply H1 in E; tauto| |by left; apply H3].
    apply H2 in E. right. split; [done|].
    destruct (Z.lt_trichotomy (getHydrationReplayDrainOwnerSortKey e) (getHydrationReplayDrainOwnerSortKey f))
      as [?|[?|?]]; [tauto| |by left].
    right. split; [done|]. destruct (Z.lt_trichotomy (ownerIndex e) (ownerIndex f)) as [?|[?|?]]; [tauto| |by left].
    right. split; [done|]. destruct (Nat.le_gt_cases (re_inputOrder e) (re_inputOrder f)); [tauto|lia].
  - intros e f g Hef Hfg. apply compareEntries_le in Hef, Hfg. apply compareEntries_le. unfold ranksBefore in *.
    destruct Hef as [Hef|[Pef Hef]], Hfg as [Hfg|[Pfg Hfg]].
    + left. by eapply pathOrder_trans.
    + left. by rewrite <- Pfg.
    + left. by rewrite Pef.
    + right. split; [congruence|]. lia.
Qed.

#[export] Instance priority_comparator : Comparator compareHydrationReplayEventQueueEntriesByPriority.
Proof.
  unfold compareHydrationReplayEventQueueEntriesByPriority.
  split; intros x y; intros; repeat match goal with
    | H : context [(?a =? ?b)%N] |- _ => destruct (N.eqb_spec a b)
    | |- context [(?a =? ?b)%N] => destruct (N.eqb_spec a b) end; lia.
Qed.

(** A strict rank, where the orders of arrival differ. *)
Lemma ranksBefore_strict e f : re_inputOrder e <> re_inputOrder f ->
  ranksBefore (re_inputOrder e <= re_inputOrder f) e f -> drainsBefore e f.
Proof. unfold drainsBefore, ranksBefore. intros Hne H. assert (re_inputOrder e <= re_inputOrder f -> re_inputOrder e < re_inputOrder f) by lia. tauto. Qed.

(** Sorting candidates is sorting the entries they were made of. *)
Lemma insertSorted_map {A B : Type} (f : A -> B) (compare : B -> B -> Z) x l :
  insertSorted compare (f x) (map f l) = map f (insertSorted (fun a b => compare (f a) (f b)) x l).
Proof. induction l as [|y l IH]; simpl; [done|]. destruct (0 <? compare (f y) (f x))%Z; simpl; by rewrite ?IH. Qed.
Lemma sortBy_map {A B : Type} (f : A -> B) (compare : B -> B -> Z) l :
  sortBy compare (map f l) = map f (sortBy (fun a b => compare (f a) (f b)) l).
Proof.
  unfold sortBy. change (@nil B) with (map f []). generalize (@nil A) as sorted.
  induction l as [|x l IH]; intros sorted; simpl; [done|]. by rewrite insertSorted_map, IH.
Qed.

(** A sort of rows that carry their position is strict. *)
Lemma sortBy_numbered (compare : replayEntry -> replayEntry -> Z) `{!Comparator compare} entries i j e f :
  (forall k x, entries !! k = Some x -> re_inputOrder x = k) ->
  i < j -> sortBy compare entries !! i = Some e -> sortBy compare entries !! j = Some f ->
  (compare e f <= 0)%Z /\ re_inputOrder e <> re_inputOrder f.
Proof.
  intros Hnum Hij Hi Hj. split; [exact (sorted_lookup _ _ i j e f (sortBy_sorted compare entries) Hij Hi Hj)|].
  assert (Hnd : NoDup (map re_inputOrder (sortBy compare entries))).
  { rewrite (sortBy_perm compare entries). apply NoDup_alt. intros a b k. rewrite !list_lookup_fmap.
    destruct (entries !! a) as [x|] eqn:Ea, (entries !! b) as [y|] eqn:Eb; try done. simpl. intros [= <-] [= H].
    by rewrite (Hnum _ _ Ea), (Hnum _ _ Eb) in H. }
  intros Heq. rewrite NoDup_alt in Hnd. assert (i = j); [|lia].
  apply (Hnd i j (re_inputOrder e)); rewrite list_lookup_fmap; [by rewrite Hi|by rewrite Hj, Heq].
Qed.

Section Replay.
Context {Node D : Type} `{!EqDecision Node} `{!Countable Node} `{!Host Node D}.
Context (childNodeItems : D -> Node -> option (list (domArg Node))).
Implicit Types (d : D) (n x y root target : Node).

Lemma replayEntries_rows fuel d payload k (records : list (dispatchRecord Node)) rows :
  replayEntries childNodeItems fuel d payload k records = Some rows ->
  Forall2 (fun r row => createHydratableEventTargetLookupRecord childNodeItems fuel d r (re_inputOrder (snd row)) payload = Some (fst row)
      /\ snd row = createHydrationReplayEventQueueEntryRecord r (re_inputOrder (snd row)) (fst row) payload) records rows
  /\ forall i row, rows !! i = Some row -> re_inputOrder (snd row) = k + i.
Proof.
  induction records as [|r records IH] in k, rows |- *; cbn [replayEntries]; [by intros [= <-]|].
  destruct (createHydratableEventTargetLookupRecord childNodeItems fuel d r k payload) as [l|] eqn:E; [|done]. simpl.
  destruct (replayEntries childNodeItems fuel d payload (S k) records) as [rest|] eqn:Er; [|done]. intros [= <-].
  destruct (IH (S k) rest Er) as [H1 H2]. split; [by constructor|].
  intros [|i] row Hi; simpl in Hi; [simplify_eq; simpl; lia|]. rewrite (H2 i row Hi). lia.
Qed.

(** The entries of the records and their orders. *)
Lemma replay_orders fuel d (records : list (dispatchRecord Node)) payload rows :
  replayEntries childNodeItems fuel d payload 0 records = Some rows ->
  let entries := map snd rows in
  Forall2 (fun r e => re_domEventName e = wr_domEventName (dr_wrapperRecord r)
                      /\ re_prioritySortKey e = wr_eventPriorityLane (dr_wrapperRecord r)
                      /\ exists p, findHydrationTargetPath childNodeItems fuel d (rs_rootContainer payload) (dr_nativeEventTarget r) = Some p
                         /\ re_targetPath e = pathValue (tp_path p)) records entries
  /\ createHydrationReplayEventPriorityOrder entries ≡ₚ entries
  /\ (forall i j e f, i < j -> createHydrationReplayEventPriorityOrder entries !! i = Some e ->
        createHydrationReplayEventPriorityOrder entries !! j = Some f -> moreUrgent e f)
  /\ map dc_entry (createHydrationReplayQueueDrainOrder entries) ≡ₚ entries
  /\ forall i j e f, i < j -> map dc_entry (createHydrationReplayQueueDrainOrder entries) !! i = Some e ->
        map dc_entry (createHydrationReplayQueueDrainOrder entries) !! j = Some f -> drainsBefore e f.
Proof.
  intros E entries. unfold entries. clear entries. apply replayEntries_rows in E as [Hrows Hnum].
  assert (Hnum' : forall k e, map snd rows !! k = Some e -> re_inputOrder e = k).
  { intros k e. rewrite list_lookup_fmap. destruct (rows !! k) as [row|] eqn:Ek; [|done]. intros [= <-].
    by apply Hnum in Ek. }
  assert (Hmade : Forall2 (fun r e => re_domEventName e = wr_domEventName (dr_wrapperRecord r)
    /\ re_prioritySortKey e = wr_eventPriorityLane (dr_wrapperRecord r)
    /\ exists p, findHydrationTargetPath childNodeItems fuel d (rs_rootContainer payload) (dr_nativeEventTarget r) = Some p
       /\ re_targetPath e = pathValue (tp_path p)) records (map snd rows)).
  { clear -Hrows. induction Hrows as [|r row records rows [Hl H] _ IH]; constructor; [|exact IH]. rewrite H. split_and!; [done..|].
    unfold createHydratableEventTargetLookupRecord in Hl. cbv zeta in Hl.
    destruct (findHydrationTargetPath _ _ _ _ _) as [p|]; [|done]. simpl in Hl. exists p. split; [done|].
    destruct (match rs_rootContainer payload with Some _ => _ | None => _ end); [|done]. simpl in Hl.
    injection Hl as <-. done. }
  clear Hrows Hnum. revert Hnum' Hmade. generalize (map snd rows). clear rows. intros entries Hnum' Hmade.
  unfold createHydrationReplayEventPriorityOrder, createHydrationReplayQueueDrainOrder. rewrite sortBy_map, map_map.
  simpl. rewrite !List.map_id. split_and!; try apply sortBy_perm; [exact Hmade| |].
  - intros i j e f Hij Hi Hj. destruct (sortBy_numbered _ _ i j e f Hnum' Hij Hi Hj) as [H Hne].
    unfold compareHydrationReplayEventQueueEntriesByPriority in H. unfold moreUrgent.
    destruct (N.eqb_spec (re_prioritySortKey e) (re_prioritySortKey f)); lia.
  - intros i j e f Hij Hi Hj. destruct (sortBy_numbered _ _ i j e f Hnum' Hij Hi Hj) as [H Hne].
    apply ranksBefore_strict; [done|]. by apply compareEntries_le.
Qed.

Abbreviation search := (findHydrationTargetPathInChildren childNodeItems).

(** The loop over the children that remain, the next of which has the given index. *)
Fixpoint searchLoop (fuel : nat) d (parentPath : string) target (index : N) (l : list (domArg Node))
    (visitedNodes : gset Node) : option (option string * gset Node) :=
  match l with
  | [] => Some (None, visitedNodes)
  | inl _ :: l => searchLoop fuel d parentPath target (index + 1) l visitedNodes
  | inr childNode :: l =>
      let path := childPath parentPath index in
      if decide (childNode = target) then Some (Some path, visitedNodes)
      else match search fuel d childNode path target visitedNodes with
           | None => None
           | Some (Some childPath, visitedNodes) => Some (Some childPath, visitedNodes)
           | Some (None, visitedNodes) => searchLoop fuel d parentPath target (index + 1) l visitedNodes
           end
  end.

Lemma search_step fuel d x path target seen :
  search (S fuel) d x path target seen
  = if decide (x ∈ seen) then Some (None, seen)
    else searchLoop fuel d path target 0 (readChildNodes childNodeItems d x) ({[x]} ∪ seen).
Proof.
  cbn [findHydrationTargetPathInChildren]. destruct (decide _); [done|]. unfold readChildNodes.
  generalize 0%N as index. generalize ({[x]} ∪ seen) as s. induction (default [] _) as [|[v|c] l IH];
    intros s index; cbn [searchLoop]; [done|apply IH|]. cbv zeta. destruct (decide _); [done|].
  destruct (search fuel d c _ target s) as [[[p|] s']|]; [done|apply IH|done].
Qed.

(** Every child of the nodes that were seen since [seen] was looked at. *)
Definition looked d target (seen seen' : gset Node) : Prop :=
  seen ⊆ seen' /\ forall x y, x ∈ seen' -> x ∉ seen -> kid childNodeItems d x y -> y <> target /\ y ∈ seen'.
Lemma looked_trans d target s1 s2 s3 : looked d target s1 s2 -> looked d target s2 s3 -> looked d target s1 s3.
Proof.
  intros [H1 H2] [H3 H4]. split; [set_solver|]. intros x y Hx Hn Hk.
  destruct (decide (x ∈ s2)) as [H|H]; [|by apply (H4 x)].
  destruct (H2 x y H Hn Hk). split; [done|set_solver].
Qed.

(** What a search says: a path to the target, or that it is below none of the nodes seen. *)
Definition searched d target (x : Node) (l0 : list N) (seen : gset Node) (r : option string * gset Node) : Prop :=
  match r with
  | (Some path, _) => exists l, l <> [] /\ path = containerPath (l0 ++ l) /\ nodeAt childNodeItems d x l = Some target
  | (None, seen') => looked d target seen seen' /\ x ∈ seen'
  end.

Section Search.
Context (V : gset Node) (d : D) (target : Node).
Context (Hclosed : forall x y, x ∈ V -> kid childNodeItems d x y -> y ∈ V).

(** With enough fuel for the nodes that were not seen, the search has its meaning. *)
Definition searchesWith (fuel : nat) : Prop := forall l0 x seen,
  x ∈ V -> size (V ∖ seen) <= fuel ->
  exists r, search fuel d x (containerPath l0) target seen = Some r /\ seen ⊆ snd r /\ searched d target x l0 seen r.

Lemma searchLoop_spec fuel l0 x : searchesWith fuel -> x ∈ V -> forall l k seen,
  drop (N.to_nat k) (readChildNodes childNodeItems d x) = l -> size (V ∖ seen) <= fuel ->
  exists r, searchLoop fuel d (containerPath l0) target k l seen = Some r /\ seen ⊆ snd r /\
    match r with
    | (Some _, _) => searched d target x l0 seen r
    | (None, seen') => looked d target seen seen' /\ forall y, inr y ∈ l -> y <> target /\ y ∈ seen'
    end.
Proof.
  intros Hsearch Hx l. induction l as [|item l IHl]; intros k s Hl Hs; cbn [searchLoop].
  { exists (None, s). split; [done|]. split; [done|]. split; [split; done|]. intros y Hy. by apply not_elem_of_nil in Hy. }
  apply childAt_drop in Hl as (Hat & _ & Hl). destruct item as [v|c].
  { destruct (IHl _ s Hl Hs) as ([[p|] s'] & -> & Hsub & Hr); (eexists; split; [done|]; split; [done|]); [done|].
    destruct Hr as [Hr1 Hr2]. split; [done|]. intros y [?|Hy]%elem_of_cons; [done|auto]. }
  cbv zeta. rewrite childPath_snoc. destruct (decide (c = target)) as [->|Hne].
  { eexists. split; [done|]. split; [done|]. exists [k]. split; [done|]. split; [done|]. simpl. by rewrite Hat. }
  assert (Hkid : kid childNodeItems d x c).
  { unfold kid. unfold childAt in Hat. case_match; [|done]. by eapply list_elem_of_lookup_2. }
  destruct (Hsearch (l0 ++ [k]) c s (Hclosed x c Hx Hkid) Hs) as ([[p|] s1] & -> & Hsub1 & Hr).
  { eexists. split; [done|]. split; [done|]. destruct Hr as (l1 & Hl1 & -> & Hn). exists (k :: l1).
    split; [done|]. rewrite <- app_assoc. split; [done|]. simpl. by rewrite Hat. }
  destruct Hr as [Hr1 Hc]. simpl in Hsub1.
  destruct (IHl _ s1 Hl) as ([[p|] s2] & -> & Hsub2 & Hr).
  { transitivity (size (V ∖ s)); [apply subseteq_size; set_solver|done]. }
  - eexists. split; [done|]. split; [set_solver|exact Hr].
  - destruct Hr as [Hr2 Hr3]. eexists. split; [done|]. split; [set_solver|]. split; [by eapply looked_trans|].
    intros y [[= ->]|Hy]%elem_of_cons; [|auto]. split; [done|]. simpl in Hsub2. set_solver.
Qed.

(** Enough fuel, in graphs with cycles too. *)
Lemma search_spec fuel : searchesWith fuel.
Proof.
  induction fuel as [|fuel IH]; intros l0 x seen Hx Hf.
  - assert (Hseen : x ∈ seen).
    { assert (E : size (V ∖ seen) = 0) by lia. apply size_empty_iff in E.
      destruct (decide (x ∈ seen)); [done|]. set_solver. }
    exists (None, seen). cbn [findHydrationTargetPathInChildren]. rewrite decide_True by done.
    split; [done|]. split; [done|]. by split.
  - rewrite search_step. destruct (decide (x ∈ seen)) as [Hin|Hout].
    { exists (None, seen). split; [done|]. split; [done|]. by split. }
    destruct (searchLoop_spec fuel l0 x IH Hx (readChildNodes childNodeItems d x) 0%N ({[x]} ∪ seen) eq_refl)
      as (r & -> & Hsub & Hr).
    { assert (size (V ∖ ({[x]} ∪ seen)) < size (V ∖ seen)); [|lia]. apply subset_size. set_solver. }
    exists r. split; [done|]. split; [set_solver|]. destruct r as [[p|] s']; [exact Hr|].
    simpl in Hsub. destruct Hr as [[H1 H2] H3]. split; [|set_solver]. split; [set_solver|].
    intros y z Hy Hn Hk. destruct (decide (y = x)) as [->|Hyx]; [by apply H3|]. apply (H2 y z); [done|set_solver|done].
Qed.
End Search.

Lemma nodeAt_below d x l y : nodeAt childNodeItems d x l = Some y -> l <> [] -> tc (kid childNodeItems d) x y.
Proof.
  induction l as [|k l IH] in x |- *; [done|]. cbn [nodeAt]. intros H _.
  destruct (childAt (readChildNodes childNodeItems d x) k) as [[v|z]|] eqn:Hat; try done. simpl in H.
  assert (Hk : kid childNodeItems d x z).
  { unfold kid. unfold childAt in Hat. case_match; [|done]. by eapply list_elem_of_lookup_2. }
  destruct l as [|j l]; [injection H as ->; by apply tc_once|]. eapply tc_l; [exact Hk|by apply IH].
Qed.

(** The walk up the parents. *)
Lemma descendant_chain d root n l fuel : chain d n l -> length l <= fuel ->
  isHydrationTargetDescendantOfRoot fuel d root (Some n) = Some (bool_decide (root ∈ l)).
Proof.
  intros Hc. induction Hc as [n Hp|n p l Hp Hc IH] in fuel |- *; intros Hf; destruct fuel as [|fuel]; simpl in Hf; try lia;
    cbn [isHydrationTargetDescendantOfRoot]; rewrite Hp.
  - destruct (decide (n = root)) as [->|Hne]; [by rewrite bool_decide_eq_true_2 by left|].
    assert (E : isHydrationTargetDescendantOfRoot fuel d root None = Some false) by by destruct fuel.
    rewrite E, bool_decide_eq_false_2; [done|]. by intros ?%list_elem_of_singleton.
  - destruct (decide (n = root)) as [->|Hne]; [by rewrite bool_decide_eq_true_2 by left|].
    rewrite IH by lia. f_equal. apply bool_decide_ext. rewrite elem_of_cons. split; [by right|]. by intros [->|].
Qed.

(** Fuel for the search below [root], if there is one, and for the walks up from the targets:
    finitely many nodes are below the root, cycles or not, and the parents of targets end. *)
Definition enoughFuel (fuel : nat) d (rootContainer : option Node) (records : list (dispatchRecord Node)) : Prop :=
  forall root, rootContainer = Some root ->
  (exists V : gset Node, root ∈ V /\ (forall x y, x ∈ V -> kid childNodeItems d x y -> y ∈ V) /\ size V <= fuel)
  /\ forall r target, r ∈ records -> dr_nativeEventTarget r = inr target ->
     exists parents, chain d target parents /\ length parents <= fuel.

Lemma lookup_returns fuel d r (records : list (dispatchRecord Node)) k payload :
  enoughFuel fuel d (rs_rootContainer payload) records -> r ∈ records ->
  is_Some (createHydratableEventTargetLookupRecord childNodeItems fuel d r k payload).
Proof.
  intros Hf Hin. unfold createHydratableEventTargetLookupRecord. cbv zeta.
  destruct (rs_rootContainer payload) as [root|]; [|simpl; by eexists].
  destruct (Hf root eq_refl) as [(V & Hroot & Hclosed & Hs) Hp]. unfold asNode. specialize (Hp r).
  destruct (dr_nativeEventTarget r) as [v|target] eqn:Et.
  { simpl. assert (isHydrationTargetDescendantOfRoot fuel d root None = Some false) as -> by (by destruct fuel). simpl. by eexists. }
  destruct (Hp target Hin eq_refl) as (parents & Hc & Hl). unfold findHydrationTargetPath.
  destruct (decide (target = root)) as [->|Hne]; [simpl; by eexists|].
  destruct (search_spec V d target Hclosed fuel [] root ∅ Hroot) as ([[path|] seen] & Hr & _); [by rewrite difference_empty_L| |];
    change (containerPath []) with "container" in Hr; rewrite Hr; [simpl; by eexists|].
  rewrite (descendant_chain d root target parents fuel Hc Hl). destruct (bool_decide (root ∈ parents)); simpl; by eexists.
Qed.

Lemma replayEntries_return fuel d payload k (records l : list (dispatchRecord Node)) :
  enoughFuel fuel d (rs_rootContainer payload) records -> (forall r, r ∈ l -> r ∈ records) ->
  is_Some (replayEntries childNodeItems fuel d payload k l).
Proof.
  intros Hf. induction l as [|r l IH] in k |- *; intros Hl; cbn [replayEntries]; [by eexists|].
  destruct (lookup_returns fuel d r records k payload Hf) as [x ->]; [apply Hl; by left|]. simpl.
  destruct (IH (S k)) as [rest ->]; [intros r' Hr'; apply Hl; by right|]. simpl. by eexists.
Qed.

(** The arguments that are refused, with the error. *)
Definition refusedBy (dispatchRecords : replayRecords (Node := Node)) (source : resolutionSource (Node := Node)) : option error :=
  match normalizeHydrationReplayDispatchRecords dispatchRecords, source with
  | Throw e, _ => Some e
  | Ok _, ForeignSource => Some (HostError INVALID_EVENT_DISPATCH_RECORD_CODE)
  | Ok [], FalsySource => Some (TypeError "Cannot read properties of null")
  | _, _ => None
  end.
Definition sourceRoot (source : resolutionSource (Node := Node)) : option Node :=
  match source with SourceDiagnostic payload _ => rs_rootContainer payload | _ => None end.

(** C21: The queue of a diagnostic loses nothing and is ordered as it says, and fuel above the
    number of nodes below the root's container and the length of the targets' parent chains
    is enough for it. An argument that is no dispatch record, a source that is no private
    diagnostic, or a falsy one without records, is refused with an exception. Otherwise the
    diagnostic is made. It has one entry for each dispatch record, in the records' order, with
    the record's event and lane and the path of its target. The priority order and the drain
    order are permutations of the entries. In the priority order an entry comes before another
    only when its lane is the smaller number, or the lanes are equal and it arrived first. In
    the drain order the targets come in document order, ancestors first and entries without a
    path last; entries for one target come by what blocks them, boundaries first, then by the
    boundary's index, then by arrival. *)
Theorem replay_queue_orders fuel d dispatchRecords candidates source :
  (forall records, normalizeHydrationReplayDispatchRecords dispatchRecords = Ok records ->
     enoughFuel fuel d (sourceRoot source) records) ->
  match refusedBy dispatchRecords source with
  | Some e => createHydrationReplayEventQueueDiagnostic childNodeItems fuel d dispatchRecords candidates source = Some (Throw e)
  | None => exists records q,
      normalizeHydrationReplayDispatchRecords dispatchRecords = Ok records
      /\ createHydrationReplayEventQueueDiagnostic childNodeItems fuel d dispatchRecords candidates source = Some (Ok q)
      /\ let entries := rq_blockedEventReplayTargets q in
         Forall2 (fun r e => re_domEventName e = wr_domEventName (dr_wrapperRecord r)
                             /\ re_prioritySortKey e = wr_eventPriorityLane (dr_wrapperRecord r)
                             /\ exists p, findHydrationTargetPath childNodeItems fuel d (sourceRoot source) (dr_nativeEventTarget r) = Some p
                                /\ re_targetPath e = pathValue (tp_path p)) records entries
         /\ rq_priorityQueueOrder q ≡ₚ entries
         /\ (forall i j e f, i < j -> rq_priorityQueueOrder q !! i = Some e -> rq_priorityQueueOrder q !! j = Some f ->
               moreUrgent e f)
         /\ map dc_entry (rq_drainOrder q) ≡ₚ entries
         /\ forall i j e f, i < j -> map dc_entry (rq_drainOrder q) !! i = Some e ->
               map dc_entry (rq_drainOrder q) !! j = Some f -> drainsBefore e f
  end.
Proof.
  intros Hfuel. unfold refusedBy, createHydrationReplayEventQueueDiagnostic.
  destruct (normalizeHydrationReplayDispatchRecords dispatchRecords) as [records|e]; [|done]. specialize (Hfuel records eq_refl).
  assert (Hgo : forall resolution, rs_rootContainer (resolutionOf (default [] candidates) resolution) = sourceRoot source ->
    exists rows, replayEntries childNodeItems fuel d (resolutionOf (default [] candidates) resolution) 0 records = Some rows).
  { intros resolution E. rewrite <- E in Hfuel. by destruct (replayEntries_return fuel d _ 0 records records Hfuel) as [rows H]; [done|exists rows]. }
  destruct source as [| | |payload lookups]; cbn [getSourceDehydratedTargetResolutionDiagnostic]; try (by destruct records).
  - destruct (Hgo None eq_refl) as [rows Hrows]. destruct records as [|r records]; eexists; eexists; (split; [reflexivity|]);
      rewrite Hrows; (split; [reflexivity|]); exact (replay_orders _ _ _ _ _ Hrows).
  - destruct records as [|r records]; [done|]. destruct (Hgo None eq_refl) as [rows Hrows]. exists (r :: records).
    rewrite Hrows. eexists. split; [done|split; [reflexivity|]]. exact (replay_orders _ _ _ _ _ Hrows).
  - destruct records as [|r records].
    { exists [], (mkReplayQueue lookups [] [] []). split; [done|]. split; [done|]. cbv zeta. by split_and!. }
    destruct (Hgo (Some (payload, lookups)) eq_refl) as [rows Hrows]. exists (r :: records).
    rewrite Hrows. eexists. split; [done|split; [reflexivity|]]. exact (replay_orders _ _ _ _ _ Hrows).
Qed.

(** C23: The path of an event's target. Let finitely many nodes be below the root, with
    cycles or shared children or not, and let the target's parents end; fuel above both
    numbers is enough. The container itself has the path [container]. A node below it is
    found, and the indices of its path lead from the container to that node. A node that is
    not below is not found, and the status says whether the parents, which the search does
    not use, claim it all the same. *)
Theorem target_path_spec (V : gset Node) d root target parents fuel :
  root ∈ V -> (forall x y, x ∈ V -> kid childNodeItems d x y -> y ∈ V) -> size V <= fuel ->
  chain d target parents -> length parents <= fuel ->
  exists r, findHydrationTargetPath childNodeItems fuel d (Some root) (inr target) = Some r
    /\ (target = root -> r = mkTargetPath true (Some "container") "found-container-target")
    /\ (target <> root -> tc (kid childNodeItems d) root target ->
          exists segments, segments <> [] /\ nodeAt childNodeItems d root segments = Some target
            /\ r = mkTargetPath true (Some (containerPath segments)) "found-in-container-child-list")
    /\ (target <> root -> ~ tc (kid childNodeItems d) root target ->
          r = mkTargetPath false None (if bool_decide (root ∈ parents) then "owned-by-parent-chain-not-child-list"
                                       else "not-contained-in-dehydrated-root")).
Proof.
  intros Hroot Hclosed Hf Hc Hl. unfold findHydrationTargetPath. destruct (decide (target = root)) as [->|Hne].
  { eexists. split; [done|]. by split_and!. }
  destruct (search_spec V d target Hclosed fuel [] root ∅ Hroot) as (r & Hr & _ & Hspec).
  { by rewrite difference_empty_L. }
  change (containerPath []) with "container" in Hr. rewrite Hr. destruct r as [[path|] seen].
  - destruct Hspec as (l & Hne' & -> & Hn). eexists. split; [done|]. split_and!; try done.
    + intros _ _. by exists l.
    + intros _ H. destruct H. by eapply nodeAt_below.
  - destruct Hspec as [[_ Hlook] Hin]. rewrite (descendant_chain d root target parents fuel Hc Hl).
    assert (Hnone : forall y, tc (kid childNodeItems d) root y -> y <> target).
    { intros y Ht. clear -Ht Hin Hlook. revert Hin. induction Ht as [x y Hk|x y z Hk _ IH]; intros Hin;
        destruct (Hlook x y Hin (not_elem_of_empty x) Hk) as [Hy1 Hy2]; [exact Hy1|exact (IH Hy2)]. }
    destruct (bool_decide (root ∈ parents)); (eexists; split; [done|]; split_and!; try done; intros _ Ht; by apply Hnone in Ht).
Qed.
End Replay.

(** ** Boundary owners *)

(** The owners that the form of a list of sibling markers closes and leaves open. *)
Section Boundaries.
Context (owners : list boundaryOwner).
Implicit Types (m : markerRow) (ms body rest : list markerRow) (o : boundaryOwner) (os : list boundaryOwner).

Inductive balanced : list markerRow -> Prop :=
| balanced_nil : balanced []
| balanced_other m ms :
    ownerByPath owners (mr_path m) = None -> isHydrationBoundaryEndMarker (mr_contractId m) = false ->
    balanced ms -> balanced (m :: ms)
| balanced_pair m o body e rest :
    ownerByPath owners (mr_path m) = Some o -> balanced body ->
    ownerByPath owners (mr_path e) = None -> isHydrationBoundaryEndMarker (mr_contractId e) = true ->
    bo_boundaryKind o = endedKind (mr_contractId e) -> balanced rest -> balanced (m :: body ++ e :: rest).

Inductive leavesOpen : list markerRow -> list boundaryOwner -> Prop :=
| leavesOpen_none ms : balanced ms -> leavesOpen ms []
| leavesOpen_start body m o ms os :
    balanced body -> ownerByPath owners (mr_path m) = Some o -> leavesOpen ms os ->
    leavesOpen (body ++ m :: ms) (o :: os).

Lemma balanced_stack ms : balanced ms -> forall os, foldl (stackStep owners) os ms = os.
Proof.
  induction 1 as [|m ms Ho He _ IH|m o body e rest Ho _ IH1 He1 He2 Hk _ IH2]; intros os; [done| |].
  - simpl. unfold stackStep at 2. rewrite Ho, He. apply IH.
  - simpl. rewrite foldl_app. unfold stackStep at 3. rewrite Ho, IH1. simpl. unfold stackStep at 2. rewrite He1, He2.
    unfold popHydrationBoundaryOwnerForEndMarker. rewrite rev_app_distr. simpl. rewrite decide_True by done.
    rewrite rev_involutive. apply IH2.
Qed.
Lemma leavesOpen_stack ms os : leavesOpen ms os -> forall st, foldl (stackStep owners) st ms = st ++ os.
Proof.
  induction 1 as [ms H|body m o ms os Hb Ho _ IH]; intros st.
  - rewrite app_nil_r. by apply balanced_stack.
  - rewrite foldl_app, (balanced_stack body Hb). simpl. unfold stackStep at 2. rewrite Ho, IH, <- app_assoc. done.
Qed.

(** The end of another boundary keeps the owners that have no end markers. *)
Lemma stack_keeps o ms os : bo_boundaryKind o = "form-state" -> o ∈ os -> o ∈ foldl (stackStep owners) os ms.
Proof.
  intros Hk. induction ms as [|m ms IH] in os |- *; intros Ho; [done|]. simpl. apply IH. unfold stackStep.
  destruct (ownerByPath owners (mr_path m)); [apply elem_of_app; by left|].
  destruct (isHydrationBoundaryEndMarker _); [|done]. unfold popHydrationBoundaryOwnerForEndMarker.
  rewrite list_elem_of_In, <- in_rev, <- list_elem_of_In.
  rewrite list_elem_of_In, in_rev, <- list_elem_of_In in Ho. induction (rev os) as [|x l IHl]; [done|]. simpl.
  apply elem_of_cons in Ho. destruct (decide (bo_boundaryKind x = endedKind (mr_contractId m))) as [E|E].
  - destruct Ho as [<-|Ho]; [|done]. unfold endedKind in E. rewrite Hk in E. by destruct (isStr _ _).
  - apply elem_of_cons. destruct Ho; auto.
Qed.
End Boundaries.

(** *** The markers before a position *)

Lemma parseSegments_container l : parseHydrationContainerPathSegments (VStr (containerPath l)) = Some l.
Proof.
  unfold parseHydrationContainerPathSegments, containerPath. rewrite pathFrom_text, stripPrefix_app. simpl.
  apply parseSegments_text, segmentsText_length.
Qed.
Lemma containerPath_inj l l' : containerPath l = containerPath l' -> l = l'.
Proof. intros H. pose proof (parseSegments_container l) as E. rewrite H, parseSegments_container in E. congruence. Qed.

Lemma positions_from l0 l :
  positionsFrom (containerPath l0) l = imap (fun i k => mkPosition k (containerPath (l0 ++ take i l))) l.
Proof.
  induction l as [|k l IH] in l0 |- *; [done|]. simpl. rewrite app_nil_r, childPath_snoc, IH. f_equal.
  apply imap_ext. intros i x _. simpl. by rewrite <- app_assoc.
Qed.
Lemma positions_last l k : last (positionsFrom "container" (l ++ [k])) = Some (mkPosition k (containerPath l)).
Proof.
  change "container" with (containerPath []). rewrite positions_from, imap_app. simpl. rewrite last_snoc. do 3 f_equal.
  by rewrite Nat.add_0_r, take_app_length.
Qed.

(** The index of a marker among its siblings. *)
Definition siblingIndex (m : markerRow) : N := default 0%N (po_index <$> parseHydrationContainerPath (mr_path m)).
(** The marker is a child of the node at [l] and comes before its child [k]. *)
Definition precedes (l : list N) (k : N) (m : markerRow) : bool :=
  match parseHydrationContainerPathSegments (mr_path m) with
  | Some segments => match last segments with
                     | Some j => bool_decide (segments = l ++ [j]) && (j <? k)%N
                     | None => false end
  | None => false
  end.

Lemma parsePosition_precedes l k m parts :
  parseHydrationContainerPath (mr_path m) = Some parts ->
  bool_decide (po_parentPath parts = containerPath l) && (po_index parts <? k)%N = precedes l k m.
Proof.
  unfold parseHydrationContainerPath, precedes. destruct (parseHydrationContainerPathSegments (mr_path m)) as [s|]; [|done].
  simpl. destruct s as [|j s _] using rev_ind; [done|]. rewrite positions_last, last_snoc. intros [= <-]. simpl.
  f_equal. apply bool_decide_ext. rewrite app_inj_tail_iff. split; [by intros ->%containerPath_inj|by intros [-> _]].
Qed.
Lemma precedes_parses l k m : precedes l k m = true -> exists parts, parseHydrationContainerPath (mr_path m) = Some parts.
Proof.
  unfold parseHydrationContainerPath, precedes. destruct (parseHydrationContainerPathSegments (mr_path m)) as [s|]; [|done].
  destruct s as [|j s _] using rev_ind; [done|]. simpl. rewrite positions_last. by eexists.
Qed.

Abbreviation byIndex :=
  (fun a b : markerRow * position => (Z.of_N (po_index (snd a)) - Z.of_N (po_index (snd b)))%Z).
#[export] Instance index_comparator : Comparator byIndex.
Proof. split; intros; lia. Qed.

(** The children of the node before the position, each with its place. *)
Definition siblings (markers : list markerRow) (p : position) : list (markerRow * position) :=
  omap (fun marker =>
    parts ← parseHydrationContainerPath (mr_path marker);
    if bool_decide (po_parentPath parts = po_parentPath p) && (po_index parts <? po_index p)%N
    then Some (marker, parts) else None) markers.

Lemma siblings_filter markers l k :
  map fst (siblings markers (mkPosition k (containerPath l))) = List.filter (precedes l k) markers.
Proof.
  unfold siblings. induction markers as [|m markers IH]; [done|]. simpl. rewrite <- IH.
  destruct (parseHydrationContainerPath (mr_path m)) as [parts|] eqn:E; simpl.
  - rewrite (parsePosition_precedes l k m parts E). by destruct (precedes l k m).
  - destruct (precedes l k m) eqn:Ep; [|done]. apply precedes_parses in Ep as [? ?]; congruence.
Qed.
Lemma siblings_index markers p : Forall (fun x => siblingIndex (fst x) = po_index (snd x)) (siblings markers p).
Proof.
  unfold siblings. induction markers as [|m markers IH]; [constructor|]. simpl.
  destruct (parseHydrationContainerPath (mr_path m)) as [parts|] eqn:E; simpl; [|done].
  destruct (_ && _); [|done]. constructor; [|done]. unfold siblingIndex. simpl. by rewrite E.
Qed.

Lemma sameParentMarkers_spec markers l k :
  let ms := sameParentMarkers markers (mkPosition k (containerPath l)) in
  ms ≡ₚ List.filter (precedes l k) markers /\ StronglySorted (fun a b => (siblingIndex a <= siblingIndex b)%N) ms.
Proof.
  cbv zeta. unfold sameParentMarkers. fold (siblings markers (mkPosition k (containerPath l))). split.
  - rewrite <- siblings_filter. apply Permutation_map, sortBy_perm.
  - pose proof (siblings_index markers (mkPosition k (containerPath l))) as Hall.
    rewrite <- (sortBy_perm byIndex) in Hall. pose proof (sortBy_sorted byIndex (siblings markers (mkPosition k (containerPath l)))) as Hs.
    induction Hs as [|[m p] ms Hs IH Hx]; simpl; constructor; apply Forall_cons in Hall as [Hm Hall]; [by apply IH|].
    apply Forall_map. eapply Forall_impl; [apply Forall_and; split; [exact Hx|exact Hall]|].
    intros [m' p'] [H1 H2]. unfold notAfter in H1. simpl in *. lia.
Qed.

Lemma selectOwner_spec owners markers positions opened sel :
  Forall2 (fun p os => leavesOpen owners (sameParentMarkers markers p) os) positions opened ->
  selectOwner owners markers positions sel = match last (concat opened) with Some o => Some o | None => sel end.
Proof.
  intros H. induction H as [|p os positions opened Hp _ IH] in sel |- *; [done|]. cbn [selectOwner concat].
  rewrite (leavesOpen_stack owners _ os Hp). simpl. rewrite IH, last_app.
  destruct (last (concat opened)); [done|]. by destruct (last os).
Qed.

(** The owner of a path is the innermost boundary that is open before it. At each step
    of the path the markers that count are those of the step's siblings before it, in the
    order of their places. Where these have the form of balanced markup, with some
    boundaries left open, the owner is the last boundary left open at the deepest step that
    leaves one open, and there is no owner when every boundary is closed. *)
Theorem boundary_owner_spec owners markers segments (opened : list (list boundaryOwner)) :
  (forall l k, let ms := sameParentMarkers markers (mkPosition k (containerPath l)) in
     ms ≡ₚ List.filter (precedes l k) markers /\ StronglySorted (fun a b => (siblingIndex a <= siblingIndex b)%N) ms)
  /\ (length opened = length segments ->
      (forall i k os, segments !! i = Some k -> opened !! i = Some os ->
         leavesOpen owners (sameParentMarkers markers (mkPosition k (containerPath (take i segments)))) os) ->
      findDehydratedBoundaryOwnerForTargetPath (VStr (containerPath segments)) owners (Some markers)
      = last (concat opened)).
Proof.
  split; [intros; apply sameParentMarkers_spec|]. intros Hlen Hopen.
  unfold findDehydratedBoundaryOwnerForTargetPath, getHydrationTargetPathPositions. rewrite parseSegments_container.
  change "container" with (containerPath []). rewrite positions_from. simpl.
  rewrite (selectOwner_spec owners markers _ opened); [by destruct (last (concat opened))|].
  apply Forall2_same_length_lookup_2; [by rewrite length_imap|].
  intros i p os. rewrite list_lookup_imap. destruct (segments !! i) as [k|] eqn:E; [|done]. intros [= <-] Ho.
  by apply Hopen.
Qed.

(** A form-state marker is never closed. The candidates that the hydration gate makes of
    form-state markers own their paths like the starts of boundaries do, but no end marker
    is theirs: whatever markers follow, every later sibling of such a marker is reported as
    owned by a dehydrated boundary. *)
Theorem form_state_owns_later_siblings owners markers l k j o m :
  m ∈ markers -> mr_path m = VStr (containerPath (l ++ [k])) -> ownerByPath owners (mr_path m) = Some o ->
  bo_boundaryKind o = "form-state" -> (k < j)%N ->
  findDehydratedBoundaryOwnerForTargetPath (VStr (containerPath (l ++ [j]))) owners (Some markers) <> None.
Proof.
  intros Hm Hp Ho Hk Hkj.
  unfold findDehydratedBoundaryOwnerForTargetPath, getHydrationTargetPathPositions. rewrite parseSegments_container.
  change "container" with (containerPath []). rewrite positions_from, imap_app. simpl.
  rewrite Nat.add_0_r, take_app_length.
  assert (Hstack : o ∈ foldl (stackStep owners) [] (sameParentMarkers markers (mkPosition j (containerPath l)))).
  { destruct (sameParentMarkers_spec markers l j) as [Hperm _].
    assert (Hin : m ∈ sameParentMarkers markers (mkPosition j (containerPath l))).
    { rewrite Hperm, list_elem_of_In. apply List.filter_In. rewrite <- list_elem_of_In. split; [done|].
      unfold precedes. rewrite Hp, parseSegments_container, last_snoc, bool_decide_eq_true_2 by done. by apply N.ltb_lt. }
    apply list_elem_of_split in Hin as (before & after & ->). rewrite foldl_app. simpl. apply stack_keeps; [done|].
    unfold stackStep at 1. rewrite Ho. apply elem_of_app. right. by left. }
  assert (Hany : forall ps sel, selectOwner owners markers (ps ++ [mkPosition j (containerPath l)]) sel <> None).
  { intros ps. induction ps as [|p ps IH]; intros sel; simpl; [|apply IH].
    destruct (last _) eqn:E; [done|]. apply last_None in E. rewrite E in Hstack. by apply not_elem_of_nil in Hstack. }
  apply Hany.
Qed.
