(* ===== verification/HydrationReplayDemo.v ===== *)
(** * Replaying events at concrete inputs

    Two events on the page of [DomDemo], that arrive in the wrong order, and markers whose
    boundaries are left open. *)
From S2P Require Import Prelude JsValue DomHost DomTree DomPayload DomCommit DomDemo RootMarkers ComponentTree TreeTargets ComponentTreeSpec TreeDemo HydrationMarkers HydrationMarkersSpec Events ListenerRegistry EventExtract EventExtractSpec EventDispatch EventDispatchSpec EventDispatchDemo HydrationReplay HydrationReplaySpec.

(** ** The target's path *)

Definition demoBelow : gset nat := {[0; 1; 2; 4]}.

Lemma demo_kids x y : kid kidItems demoDom x y <-> y ∈ kidsOf demoDom x.
Proof.
  unfold kid, readChildNodes, kidItems. simpl. rewrite list_elem_of_fmap.
  split; [by intros (z & [= ->] & ?)|by exists y].
Qed.

Lemma demo_closed x y : x ∈ demoBelow -> kid kidItems demoDom x y -> y ∈ demoBelow.
Proof.
  intros Hx Hk. apply demo_kids in Hk. unfold demoBelow in *.
  rewrite !elem_of_union, !elem_of_singleton in Hx. destruct Hx as [[[->| ->]| ->]| ->].
  - change (y ∈ [2; 4]) in Hk. set_solver.
  - change (y ∈ @nil nat) in Hk. set_solver.
  - change (y ∈ [1]) in Hk. set_solver.
  - change (y ∈ @nil nat) in Hk. set_solver.
Qed.

Lemma demo_reaches : tc (kid kidItems demoDom) 0 1.
Proof.
  apply (tc_l _ _ 2); [|apply tc_once]; apply demo_kids.
  - change (2 ∈ [2; 4]). left.
  - change (1 ∈ [1]). left.
Qed.

Lemma target_path_spec_witness :
  exists segments, nodeAt kidItems demoDom 0 segments = Some 1
    /\ findHydrationTargetPath kidItems 4 demoDom (Some 0) (inr 1)
       = Some (mkTargetPath true (Some (containerPath segments)) "found-in-container-child-list").
Proof.
  destruct (target_path_spec kidItems demoBelow demoDom 0 1 [1; 2; 0] 4) as (r & Hr & _ & H & _).
  - unfold demoBelow. set_solver.
  - exact demo_closed.
  - by vm_compute.
  - exact demo_chain.
  - simpl. lia.
  - destruct (H ltac:(done) demo_reaches) as (segments & _ & Hn & ->). by exists segments.
Defined.

(** ** The queue *)

Definition wrapperOf (domEventName : string) : wrapperRecord nat :=
  match createEventListenerWrapperRecordWithPriority 0 domEventName 0 None with
  | Ok w => w
  | Throw _ => rootWrapper 0
  end.
Definition targeting (domEventName : string) (target : nat) : dispatchRecord nat :=
  mkDispatch (createDispatchQueueRecord []) (inr 0%N) (inr target) domEventName [] emptyPath None [] demoTarget
    (wrapperOf domEventName).
Definition demoPayload : resolutionPayload :=
  mkResolution (Some []) [] (Some 0) (Some "root-1").
Definition demoDispatches : list (dispatchRecord nat) :=
  [targeting "mouseover" 4; targeting "click" 4; targeting "click" 1].
Definition demoQueue := createHydrationReplayEventQueueDiagnostic kidItems 4 demoDom
  (ManyRecords (map Some demoDispatches)) None (SourceDiagnostic demoPayload []).

Example demo_drained :
  match demoQueue with
  | Some (Ok q) => (map (fun c => re_inputOrder (dc_entry c)) (rq_drainOrder q), map re_inputOrder (rq_priorityQueueOrder q))
  | _ => ([], [])
  end = ([2; 0; 1], [1; 2; 0]).
Proof. by vm_compute. Qed.

Lemma demo_enough : enoughFuel kidItems 4 demoDom (Some 0) demoDispatches.
Proof.
  intros root [= <-]. split.
  - exists demoBelow. split; [unfold demoBelow; set_solver|]. split; [exact demo_closed|by vm_compute].
  - intros r target Hr Ht.
    assert (H4 : chain demoDom 4 [4; 0]) by (apply (chain_step _ 4 0); [reflexivity|by apply chain_root]).
    repeat (apply elem_of_cons in Hr as [->|Hr]; [simpl in Ht; injection Ht as <-|]).
    + exists [4; 0]. split; [exact H4|simpl; lia].
    + exists [4; 0]. split; [exact H4|simpl; lia].
    + exists [1; 2; 0]. split; [exact demo_chain|simpl; lia].
    + by apply not_elem_of_nil in Hr.
Qed.

Lemma replay_queue_orders_witness :
  exists q, demoQueue = Some (Ok q)
  /\ map dc_entry (rq_drainOrder q) ≡ₚ rq_blockedEventReplayTargets q
  /\ forall e f, map dc_entry (rq_drainOrder q) !! 0 = Some e -> map dc_entry (rq_drainOrder q) !! 1 = Some f ->
       drainsBefore e f.
Proof.
  pose proof (replay_queue_orders kidItems 4 demoDom (ManyRecords (map Some demoDispatches)) None (SourceDiagnostic demoPayload [])) as H.
  destruct H as (records & q & _ & Hq & H).
  { intros records [= <-]. exact demo_enough. }
  cbv zeta in H. destruct H as (_ & _ & _ & H1 & H2). exists q. split; [exact Hq|].
  split; [exact H1|]. intros e f. apply (H2 0 1 e f). lia.
Defined.

(** ** Owners *)

Definition candidate (contractId path : string) : replayCandidate :=
  mkCandidate (VStr "area") (VStr contractId) (VStr "comment-marker") (VStr path) VUndef.
Definition markerAt (contractId : string) (k : N) : markerRow :=
  mkMarkerRow (VStr contractId) (VStr (containerPath [k])).

(** One boundary inside another; the inner one ends before the target. *)
Definition nestedOwners : list boundaryOwner :=
  createHydrationDehydratedBoundaryOwnerRecords
    [candidate "suspense-pending-start" (containerPath [0%N]); candidate "activity-start" (containerPath [1%N])]
    (Some "root-1").
Definition nestedMarkers : list markerRow :=
  [markerAt "suspense-pending-start" 0; markerAt "activity-start" 1; markerAt "activity-end" 2; markerAt "suspense-end" 4].

Lemma nested_open o : ownerByPath nestedOwners (VStr (containerPath [0%N])) = Some o ->
  leavesOpen nestedOwners (sameParentMarkers nestedMarkers (mkPosition 3 (containerPath []))) [o].
Proof.
  intros Ho.
  assert (E : sameParentMarkers nestedMarkers (mkPosition 3 (containerPath []))
    = [] ++ markerAt "suspense-pending-start" 0 :: [markerAt "activity-start" 1; markerAt "activity-end" 2])
    by (vm_compute; reflexivity).
  rewrite E. apply leavesOpen_start; [constructor|exact Ho|]. apply leavesOpen_none.
  apply (balanced_pair nestedOwners (markerAt "activity-start" 1)
    (mkOwner "root-1:boundary:1" 1 (Some "root-1") (VStr "area") "activity-boundary" (Some "activity-start")
       (Some "comment-marker") (Some (containerPath [1%N]))) [] (markerAt "activity-end" 2) []);
    solve [constructor|vm_compute; reflexivity].
Qed.

Lemma boundary_owner_spec_witness :
  exists o, findDehydratedBoundaryOwnerForTargetPath (VStr (containerPath [3%N])) nestedOwners (Some nestedMarkers) = Some o
    /\ bo_boundaryKind o = "suspense-boundary".
Proof.
  destruct (ownerByPath nestedOwners (VStr (containerPath [0%N]))) as [o|] eqn:Ho;
    [|apply (f_equal isSome) in Ho; vm_compute in Ho; discriminate].
  exists o. split.
  - apply (proj2 (boundary_owner_spec nestedOwners nestedMarkers [3%N] [[o]]) eq_refl).
    intros [|i] k os; simpl; [|done]. intros [= <-] [= <-]. exact (nested_open o Ho).
  - vm_compute in Ho. by injection Ho as <-.
Defined.

(** A form-state marker and no boundary at all. *)
Definition formOwners : list boundaryOwner :=
  createHydrationDehydratedBoundaryOwnerRecords [candidate "form-state-matching" (containerPath [0%N])] (Some "root-1").
Definition formMarkers : list markerRow := [markerAt "form-state-matching" 0].

Lemma form_state_owns_later_siblings_witness :
  findDehydratedBoundaryOwnerForTargetPath (VStr (containerPath [5%N])) formOwners (Some formMarkers) <> None
  /\ (bo_boundaryKind <$> findDehydratedBoundaryOwnerForTargetPath (VStr (containerPath [5%N])) formOwners (Some formMarkers))
     = Some "form-state".
Proof.
  split; [|by vm_compute].
  destruct (ownerByPath formOwners (VStr (containerPath [0%N]))) as [o|] eqn:Ho;
    [|apply (f_equal isSome) in Ho; vm_compute in Ho; discriminate].
  apply (form_state_owns_later_siblings formOwners formMarkers [] 0%N 5%N o (markerAt "form-state-matching" 0)).
  - left.
  - reflexivity.
  - exact Ho.
  - vm_compute in Ho. by injection Ho as <-.
  - lia.
Defined.
