(* ===== verification/ReactElement.v ===== *)
(** * React elements

    packages/react/element-factory.js and packages/react/element-type.js in the production
    build ([process.env.NODE_ENV === 'production']): elements, their construction by
    [createElement], [jsx] and [cloneElement], and the values that may be the type of an
    element. A [node] is a value as the element and children helpers see it: a plain value,
    or an object of one of the shapes they recognise.

    An object that holds props, a config object included, is the list of its own
    enumerable properties: it has no accessors and no property named [__proto__], and it
    inherits from [Object.prototype] alone. *)
From S2P Require Import Prelude JsValue.

Set Warnings "-register-all".

Definition symbolFor (key : string) : value := VSym (Npos (xO (encode key))) key.

Definition REACT_FRAGMENT_TYPE := symbolFor "react.fragment".
Definition REACT_PROFILER_TYPE := symbolFor "react.profiler".
Definition REACT_STRICT_MODE_TYPE := symbolFor "react.strict_mode".
Definition REACT_SUSPENSE_TYPE := symbolFor "react.suspense".
Definition REACT_SUSPENSE_LIST_TYPE := symbolFor "react.suspense_list".
Definition REACT_ACTIVITY_TYPE := symbolFor "react.activity".
Definition REACT_CONTEXT_TYPE := symbolFor "react.context".
Definition REACT_CONSUMER_TYPE := symbolFor "react.consumer".
Definition REACT_FORWARD_REF_TYPE := symbolFor "react.forward_ref".
Definition REACT_MEMO_TYPE := symbolFor "react.memo".
Definition REACT_LAZY_TYPE := symbolFor "react.lazy".
Definition REACT_CLIENT_REFERENCE := symbolFor "react.client.reference".

(** ** Element types *)

Definition isValidElementType (heap : ref -> jsobject) (type : value) : res bool :=
  match type with
  | VStr _ | VFun _ => Ok true
  | VObj r =>
      let* tag := get (heap r) "$$typeof" in
      if existsb (strictEq tag)
           [REACT_LAZY_TYPE; REACT_MEMO_TYPE; REACT_CONTEXT_TYPE; REACT_CONSUMER_TYPE;
            REACT_FORWARD_REF_TYPE; REACT_CLIENT_REFERENCE]
      then Ok true
      else let* id := get (heap r) "getModuleId" in Ok (negb (strictEq id VUndef))
  | _ => Ok (existsb (strictEq type)
               [REACT_FRAGMENT_TYPE; REACT_PROFILER_TYPE; REACT_STRICT_MODE_TYPE;
                REACT_SUSPENSE_TYPE; REACT_SUSPENSE_LIST_TYPE; REACT_ACTIVITY_TYPE])
  end.

(** ** Nodes *)

(** What [resolveThenable] reads and writes of a thenable: its [status]; does its [value]
    hold the value, and its [reason] the reason, that the promise settled with, or are they
    undefined; and the promise behind it: has it settled, does [then] call back at once when
    it has, which callbacks wait. *)
Inductive handler : Type :=
| Noop
| Track.
Record thenable : Type := mkThenable {
  th_status : value;
  th_hasValue : bool;
  th_hasReason : bool;
  th_settled : bool;
  th_sync : bool;
  th_handlers : list handler }.

(** The mutable state: the thenables, and a world [W] of the user's functions. *)
Record state (W : Type) : Type := mkState {
  user : W;
  thenables : gmap ref thenable }.
Arguments mkState {W} user thenables.
Arguments user {W} s.
Arguments thenables {W} s.

(** An object that is no element and no portal has its ordinary properties in the heap,
    under its reference. [init] is [() => lazy._init(lazy._payload)], a step of an iterable is a
    call of its iterator's [next]; a thenable has the value or the reason it settles with. *)
Inductive node {W : Type} : Type :=
| Val (v : value)
| Element (type key : value) (ref : node) (props : list (string * node))
| Portal (key : value) (children : node) (containerInfo : value)
| Lazy (r : ref) (init : state W -> effect (state W) node)
| Arr (r : ref) (items : list node)
| Iter (r : ref) (steps : list (state W -> effect (state W) node))
| Thenable (r : ref) (settlement : node + value).
Arguments node W : clear implicits.

Definition undefined {W} : node W := Val VUndef.
Definition isUndefined {W} (n : node W) : bool :=
  match n with Val VUndef => true | _ => false end.
Definition isNullish {W} (n : node W) : bool :=
  match n with Val v => nullish v | _ => false end.

(** [Array.isArray(n)] *)
Definition isArray {W} (n : node W) : bool := match n with Arr _ _ => true | _ => false end.

(** [typeof n === 'object' && n !== null] *)
Definition isObject {W} (n : node W) : bool :=
  match n with Val (VObj _) => true | Val _ => false | _ => true end.

Definition isValidElement {W} (object : node W) : bool :=
  match object with Element _ _ _ _ => true | _ => false end.

(** ** Properties *)

(** [props[name]], with what an object inherits from [Object.prototype]. *)
Definition readProp {W} (name : string) (props : list (string * node W)) : node W :=
  match assoc name props with
  | Some n => n
  | None => Val (default VUndef (assoc name objectPrototype))
  end.

(** [props[name] = n] *)
Fixpoint setProp {W} (name : string) (n : node W) (props : list (string * node W)) :
    list (string * node W) :=
  match props with
  | [] => [(name, n)]
  | (k, v) :: rest => if decide (k = name) then (k, n) :: rest else (k, v) :: setProp name n rest
  end.

(** [Object.assign(target, source)], and copying properties one by one in a loop *)
Definition assign {W} (target source : list (string * node W)) : list (string * node W) :=
  fold_left (fun props p => setProp (fst p) (snd p) props) source target.

(** [name in config], for a name that is not in [Object.prototype] *)
Definition hasProp {W} (name : string) (props : list (string * node W)) : bool :=
  bool_decide (name ∈ props.*1).

Section Factory.
Context {W : Type} (heap : ref -> jsobject).
(** [type.defaultProps] of the user's types, when it is an object; [type], [key] and
    [props] of an object that is no element. *)
Context (defaultProps : value -> option (list (string * node W)))
        (foreignFields : node W -> value * value * list (string * node W)).

(** ['' + value] *)
Fixpoint nodeToString (n : node W) : res string :=
  match n with
  | Val (VSym _ _) => Throw (TypeError "Cannot convert a Symbol value to a string")
  | Val v =>
      match toString heap v with
      | Some s => Ok s
      | None => Throw (TypeError "Cannot convert object to primitive value")
      end
  | Element _ _ _ _ | Portal _ _ _ => Ok "[object Object]"
  | Lazy r _ | Iter r _ | Thenable r _ =>
      match o_string (heap r) with
      | Some s => Ok s
      | None => Throw (TypeError "Cannot convert object to primitive value")
      end
  | Arr _ items =>
      let* parts := (fix strings (l : list (node W)) : res (list string) :=
        match l with
        | [] => Ok []
        | x :: l =>
            let* s := (match x with Val VUndef | Val VNull => Ok "" | _ => nodeToString x end) in
            let* r := strings l in Ok (s :: r)
        end) items in
      Ok (String.concat "," parts)
  end.

Definition createProductionElement (type key : value) (props : list (string * node W)) : node W :=
  let refProp := readProp "ref" props in
  Element type key (if isUndefined refProp then Val VNull else refProp) props.

(** In production the owner and the debug fields are not used. *)
Definition createElementObject (type key : value) (props : list (string * node W)) : node W :=
  createProductionElement type key props.

(** [if (key !== undefined) key = '' + key] *)
Definition coerceKey (given : node W) (key : value) : res value :=
  if isUndefined given then Ok key else let* s := nodeToString given in Ok (VStr s).

Definition jsxProd (type : value) (c : list (string * node W)) (maybeKey : node W) : res (node W) :=
  let* key := coerceKey maybeKey VNull in
  let* key := coerceKey (readProp "key" c) key in
  let props := if hasProp "key" c
               then assign [] (List.filter (fun p => negb (String.eqb (fst p) "key")) c)
               else c in
  Ok (createProductionElement type key props).

(** [props.children], from the arguments after the first two *)
Definition withChildren (args : list (node W)) (props : list (string * node W)) :
    list (string * node W) :=
  match args with
  | [] => props
  | [child] => setProp "children" child props
  | _ => setProp "children" (Arr (Builtin "Array") args) props
  end.

Definition reservedName (name : string) : bool :=
  bool_decide (name ∈ ["key"; "__self"; "__source"]).

Definition applyDefaultProps (type : value) (props : list (string * node W)) : list (string * node W) :=
  match (if truthy type then defaultProps type else None) with
  | Some defaults =>
      fold_left (fun props p => if isUndefined (readProp (fst p) props)
                                then setProp (fst p) (snd p) props else props)
        defaults props
  | None => props
  end.

(** [config] is [None] when it is null or undefined; [args] are the arguments after it. *)
Definition createElementImpl (type : value) (c : option (list (string * node W))) (args : list (node W)) :
    res (node W) :=
  let* kp := (match c with
    | None => Ok (VNull, [])
    | Some c =>
        let* key := coerceKey (readProp "key" c) VNull in
        Ok (key, assign [] (List.filter (fun p => negb (reservedName (fst p))) c))
    end) in
  let props := applyDefaultProps type (withChildren args (snd kp)) in
  Ok (createElementObject type (fst kp) props).

Definition throwInvalidCloneElementError {A : Type} (element : value) (reactServer : bool) : res A :=
  let name := default "" (toString heap element) in
  Throw (PlainError
    (if reactServer then
       "Minified React error #267; visit https://react.dev/errors/267?args[]=" +:+ name
         +:+ " for the full message or use the non-minified dev environment for full errors and additional helpful warnings."
     else "The argument must be a React element, but you passed " +:+ name +:+ ".")).

Definition clonedProp (c : list (string * node W)) (p : string * node W) : bool :=
  negb (reservedName (fst p)) && negb (bool_decide (fst p = "ref") && isUndefined (readProp "ref" c)).

Definition cloneElementImpl (element : node W) (c : option (list (string * node W))) (args : list (node W))
    (reactServer : bool) : res (node W) :=
  let* fields := (match element with
    | Val (VNull as v) | Val (VUndef as v) => throwInvalidCloneElementError v reactServer
    | Element type key _ props => Ok (type, key, props)
    | _ => Ok (foreignFields element)
    end) in
  let '(type, key, oldProps) := fields in
  let props := assign [] oldProps in
  let* kp := (match c with
    | None => Ok (key, props)
    | Some c =>
        let* key := coerceKey (readProp "key" c) key in
        Ok (key, assign props (List.filter (clonedProp c) c))
    end) in
  Ok (createElementObject type (fst kp) (withChildren args (snd kp))).

Definition cloneAndReplaceKey (oldElement : node W) (newKey : value) : node W :=
  match oldElement with
  | Element type _ _ props => createElementObject type newKey props
  | _ => let '(type, _, props) := foreignFields oldElement in createElementObject type newKey props
  end.
End Factory.
