(* ===== verification/ReactElementSpec.v ===== *)
(** * Theorems about React elements

    What [createElement], [jsx] and [cloneElement] put in an element, that the two JSX
    runtimes agree, that elements are well formed, and the laws of cloning. *)
From S2P Require Import Prelude JsValue ReactElement.

Ltac decided := apply (bool_decide_unpack _); vm_compute; exact I.

#[local] Arguments assoc : simpl never.
#[local] Arguments assign : simpl never.

(** ** Property lists *)

Section Props.
Context {W : Type}.
Implicit Types (props source : list (string * node W)) (k name : string).

Lemma assign_cons props k v source :
  assign props ((k, v) :: source) = assign (setProp k v props) source.
Proof. reflexivity. Qed.

Lemma assoc_cons {A} name k (v : A) l :
  assoc name ((k, v) :: l) = if decide (k = name) then Some v else assoc name l.
Proof.
  unfold assoc. simpl. case_decide.
  - by rewrite bool_decide_eq_true_2.
  - by rewrite bool_decide_eq_false_2.
Qed.

Lemma assoc_filter {A} (f : string -> bool) name (l : list (string * A)) :
  assoc name (List.filter (fun p => f (fst p)) l) = if f name then assoc name l else None.
Proof.
  induction l as [|[k v] l IH]; simpl; [by destruct (f name)|].
  destruct (f k) eqn:Hk; rewrite ?assoc_cons, IH; repeat case_decide; subst;
    destruct (f name); congruence.
Qed.

Lemma assoc_setProp name k n props :
  assoc name (setProp k n props) = if decide (k = name) then Some n else assoc name props.
Proof.
  induction props as [|[k' v] props IH]; simpl.
  - by rewrite assoc_cons.
  - destruct (decide (k' = k)) as [->|E]; rewrite !assoc_cons.
    + by case_decide.
    + rewrite IH. repeat case_decide; congruence.
Qed.

Lemma setProp_names k n props :
  (setProp k n props).*1 = if decide (k ∈ props.*1) then props.*1 else props.*1 ++ [k].
Proof.
  induction props as [|[k' v] props IH]; simpl; [done|].
  destruct (decide (k' = k)) as [->|E]; [rewrite decide_True; [done|set_solver]|].
  rewrite fmap_cons, IH. simpl. repeat case_decide; try done; set_solver.
Qed.

Lemma NoDup_setProp k n props : NoDup props.*1 -> NoDup (setProp k n props).*1.
Proof.
  intros H. rewrite setProp_names. case_decide; [done|].
  apply NoDup_app. repeat split; [done|set_solver|apply NoDup_singleton].
Qed.

Lemma NoDup_assign props source : NoDup props.*1 -> NoDup (assign props source).*1.
Proof.
  revert props. induction source as [|[k v] source IH]; intros props H; [done|].
  rewrite assign_cons. apply IH. by apply NoDup_setProp.
Qed.

Lemma NoDup_filter_names (f : string * node W -> bool) props :
  NoDup props.*1 -> NoDup (List.filter f props).*1.
Proof.
  induction props as [|p props IH]; simpl; [done|].
  intros [Hp H]%NoDup_cons. destruct (f p); simpl; [|auto].
  apply NoDup_cons. split; [|auto]. intros Hin. apply Hp.
  apply list_elem_of_fmap in Hin as (q & Hq & Hin). apply list_elem_of_In, filter_In in Hin as [Hin _].
  apply list_elem_of_fmap. exists q. by rewrite list_elem_of_In.
Qed.

(** Reading a property after copying: the source wins. *)
Lemma assoc_assign name props source :
  NoDup source.*1 ->
  assoc name (assign props source)
  = match assoc name source with Some n => Some n | None => assoc name props end.
Proof.
  revert props. induction source as [|[k v] source IH]; intros props H; [done|].
  apply NoDup_cons in H as [Hk H]. rewrite assign_cons, IH, assoc_cons by done.
  rewrite assoc_setProp. repeat case_decide; [|done].
  subst. apply assoc_None in Hk. simpl in Hk. by rewrite Hk.
Qed.

Lemma setProp_fresh k n props : k ∉ props.*1 -> setProp k n props = props ++ [(k, n)].
Proof.
  induction props as [|[k' v] props IH]; simpl; [done|].
  intros H. rewrite decide_False by set_solver. f_equal. apply IH. set_solver.
Qed.

Lemma assign_fresh props source :
  NoDup (props ++ source).*1 -> assign props source = props ++ source.
Proof.
  revert props. induction source as [|[k v] source IH]; intros props H; [by rewrite app_nil_r|].
  rewrite assign_cons.
  rewrite fmap_app, fmap_cons in H. simpl in H.
  assert (k ∉ props.*1).
  { apply NoDup_app in H as (_ & H & _). intros Hk. apply (H k Hk). left. }
  rewrite setProp_fresh by done.
  replace (props ++ (k, v) :: source) with ((props ++ [(k, v)]) ++ source) by by rewrite <- app_assoc.
  apply IH. by rewrite <- app_assoc, fmap_app.
Qed.

Lemma assign_nil source : NoDup source.*1 -> assign [] source = source.
Proof. intros H. by rewrite assign_fresh. Qed.

Lemma setProp_setProp k v w props : setProp k w (setProp k v props) = setProp k w props.
Proof.
  induction props as [|[k' u] props IH]; simpl; [by rewrite decide_True|].
  case_decide as E; simpl; [by rewrite decide_True|]. rewrite decide_False by done. by rewrite IH.
Qed.

(** A property that is there keeps its place, so the order of two writes is free. *)
Lemma setProp_comm k v k' v' props :
  k <> k' -> k ∈ props.*1 -> setProp k v (setProp k' v' props) = setProp k' v' (setProp k v props).
Proof.
  intros Hne. induction props as [|[k1 u] props IH]; simpl; [set_solver|].
  intros Hk. repeat (case_decide; simpl); subst; try done; f_equal.
  apply IH. set_solver.
Qed.

Lemma assign_setProp_comm k v props source :
  k ∈ props.*1 -> k ∉ source.*1 -> setProp k v (assign props source) = assign (setProp k v props) source.
Proof.
  revert props. induction source as [|[k' v'] source IH]; intros props Hp Hs; [done|].
  rewrite fmap_cons in Hs. simpl in Hs. rewrite !assign_cons, IH.
  - rewrite setProp_comm; [done|set_solver|done].
  - rewrite setProp_names. case_decide; set_solver.
  - set_solver.
Qed.

Lemma assign_app props s1 s2 : assign props (s1 ++ s2) = assign (assign props s1) s2.
Proof. apply fold_left_app. Qed.

Lemma assign_setProp props source k v :
  NoDup source.*1 -> assign props (setProp k v source) = setProp k v (assign props source).
Proof.
  revert props. induction source as [|[k' v'] source IH]; intros props H; [done|].
  rewrite fmap_cons in H. apply NoDup_cons in H as [Hk H]. simpl in Hk.
  simpl. case_decide as E; rewrite !assign_cons.
  - subst. rewrite assign_setProp_comm.
    + by rewrite setProp_setProp.
    + rewrite setProp_names. case_decide; set_solver.
    + done.
  - by apply IH.
Qed.

(** Copying is associative. *)
Lemma assign_assoc props s1 s2 :
  NoDup s1.*1 -> assign props (assign s1 s2) = assign (assign props s1) s2.
Proof.
  revert s1. induction s2 as [|[k v] s2 IH]; intros s1 H; [done|].
  rewrite !assign_cons, IH by by apply NoDup_setProp.
  f_equal. by apply assign_setProp.
Qed.

Lemma filter_setProp (f : string -> bool) k n props :
  List.filter (fun p => f (fst p)) (setProp k n props)
  = if f k then setProp k n (List.filter (fun p => f (fst p)) props)
    else List.filter (fun p => f (fst p)) props.
Proof.
  induction props as [|[k' v] props IH]; simpl; [by destruct (f k)|].
  case_decide as E; simpl.
  - subst. destruct (f k) eqn:Hk; simpl; [by rewrite decide_True|done].
  - rewrite IH. destruct (f k'), (f k) eqn:Hk; simpl; rewrite ?decide_False by done; done.
Qed.

Lemma filter_assign (f : string -> bool) props source :
  List.filter (fun p => f (fst p)) (assign props source)
  = assign (List.filter (fun p => f (fst p)) props) (List.filter (fun p => f (fst p)) source).
Proof.
  revert props. induction source as [|[k v] source IH]; intros props; [done|].
  rewrite assign_cons, IH, filter_setProp. simpl. by destruct (f k).
Qed.

Lemma readProp_None name props :
  name ∉ objectPrototype.*1 -> name ∉ props.*1 -> readProp name props = undefined.
Proof.
  intros H1 H2. apply assoc_None in H1, H2. unfold readProp. by rewrite H1, H2.
Qed.

Lemma readProp_setProp name n props : readProp name (setProp name n props) = n.
Proof. unfold readProp. rewrite assoc_setProp. by case_decide. Qed.

Lemma readProp_ext name p q : assoc name p = assoc name q -> readProp (W := W) name p = readProp name q.
Proof. unfold readProp. by intros ->. Qed.

Lemma withChildren_names args props :
  NoDup props.*1 -> NoDup (withChildren (W := W) args props).*1.
Proof. destruct args as [|x [|y l]]; simpl; auto using NoDup_setProp. Qed.

Lemma withChildren_no_key args (props : list (string * node W)) name :
  name <> "children" -> name ∉ props.*1 -> name ∉ (withChildren args props).*1.
Proof.
  intros Hn Hp. destruct args as [|x [|y l]]; simpl; [done|..];
    rewrite setProp_names; case_decide; set_solver.
Qed.

Lemma not_in_filter (f : string -> bool) name (l : list (string * node W)) :
  f name = false -> name ∉ (List.filter (fun p => f (fst p)) l).*1.
Proof.
  intros Hf. apply assoc_None. rewrite assoc_filter. by rewrite Hf.
Qed.

Lemma not_in_assign name (p s : list (string * node W)) :
  name ∉ p.*1 -> name ∉ s.*1 -> name ∉ (assign p s).*1.
Proof.
  revert p. induction s as [|[k v] s IH]; intros p Hp Hs; [done|].
  rewrite assign_cons. rewrite fmap_cons in Hs. apply IH; [|set_solver].
  rewrite setProp_names. case_decide; set_solver.
Qed.

Lemma cloned_names c name :
  reservedName name = true -> name ∉ (List.filter (clonedProp (W := W) c) c).*1.
Proof.
  intros Hn. intros (p & -> & Hin)%list_elem_of_fmap.
  apply list_elem_of_In, filter_In in Hin as [_ Hin]. unfold clonedProp in Hin.
  rewrite Hn in Hin. done.
Qed.

Lemma default_props_names (defaults props : list (string * node W)) name :
  name ∉ defaults.*1 -> name ∉ props.*1 ->
  name ∉ (fold_left (fun props p => if isUndefined (readProp (fst p) props)
                                   then setProp (fst p) (snd p) props else props) defaults props).*1.
Proof.
  revert props. induction defaults as [|[k v] defaults IH]; intros props Hd Hp; simpl; [done|].
  rewrite fmap_cons in Hd. apply IH; [set_solver|]. case_match; [|done].
  rewrite setProp_names. case_decide; set_solver.
Qed.

Lemma default_props_NoDup (defaults props : list (string * node W)) :
  NoDup props.*1 ->
  NoDup (fold_left (fun props p => if isUndefined (readProp (fst p) props)
                                   then setProp (fst p) (snd p) props else props) defaults props).*1.
Proof.
  revert props. induction defaults as [|[k v] defaults IH]; intros props Hp; simpl; [done|].
  apply IH. case_match; auto using NoDup_setProp.
Qed.

Lemma assoc_default_props name (defaults props : list (string * node W)) :
  NoDup defaults.*1 ->
  assoc name (fold_left (fun props p => if isUndefined (readProp (fst p) props)
                                        then setProp (fst p) (snd p) props else props) defaults props)
  = match assoc name defaults with
    | Some d => if isUndefined (readProp name props) then Some d else assoc name props
    | None => assoc name props
    end.
Proof.
  revert props. induction defaults as [|[k v] defaults IH]; intros props H; [done|].
  apply NoDup_cons in H as [Hk H]. simpl. rewrite IH by done. rewrite assoc_cons.
  destruct (decide (k = name)) as [->|Hne].
  - apply assoc_None in Hk. simpl in Hk. rewrite Hk.
    destruct (isUndefined (readProp name props)); [|done]. rewrite assoc_setProp. by case_decide.
  - assert (E : assoc name (if isUndefined (readProp k props) then setProp k v props else props)
                = assoc name props).
    { destruct (isUndefined (readProp k props)); [|done]. rewrite assoc_setProp. by rewrite decide_False. }
    rewrite E. by rewrite (readProp_ext _ _ _ E).
Qed.
End Props.

#[export] Hint Resolve NoDup_setProp NoDup_assign NoDup_filter_names withChildren_names : fastreact.

(** ** Construction *)

Section Elements.
Context {W : Type} (heap : ref -> jsobject)
        (defaultProps : value -> option (list (string * node W)))
        (foreignFields : node W -> value * value * list (string * node W)).
Abbreviation node := (node W).
Abbreviation create := (createElementImpl heap defaultProps).
Abbreviation clone := (cloneElementImpl heap foreignFields).

Definition refOf (props : list (string * node)) : node :=
  let r := readProp "ref" props in if isUndefined r then Val VNull else r.

(** An element as the renderer expects it: the key is null or a string and not among the
    props, the ref is the prop of that name. *)
Definition wellFormed (el : node) : Prop :=
  match el with
  | Element _ key r props =>
      (key = VNull \/ isString key = true) /\ "key" ∉ props.*1 /\ NoDup props.*1 /\ r = refOf props
  | _ => False
  end.

(** The elements that a program can make with the factory. *)
Inductive built : node -> Prop :=
| built_jsx type c maybeKey el :
    NoDup c.*1 -> jsxProd heap type c maybeKey = Ok el -> built el
| built_create type c args el : create type c args = Ok el -> built el
| built_clone e c args server el : built e -> clone e c args server = Ok el -> built el
| built_replaced e key : built e -> built (cloneAndReplaceKey foreignFields e (VStr key)).

Lemma coerceKey_string (given : node) key k :
  coerceKey heap given key = Ok k -> key = VNull \/ isString key = true ->
  k = VNull \/ isString k = true.
Proof.
  unfold coerceKey. case_match; [by intros [= <-]|].
  intros (s & _ & [= <-])%bind_Ok. auto.
Qed.

Lemma replaced_fields e key type k r props :
  e = Element type k r props ->
  cloneAndReplaceKey foreignFields e key = Element type key (refOf props) props.
Proof. by intros ->. Qed.

(** C36: Typing of elements: whatever mix of jsx, createElement, cloneElement and key
    replacement made it, an element has a key that is null or a string, a ref that is its
    ref prop or null, and distinct props among which there is no key, unless the default
    props of a type name one. *)
Theorem elements_well_formed :
  (forall type defaults, defaultProps type = Some defaults -> "key" ∉ defaults.*1) ->
  forall el, built el -> wellFormed el.
Proof.
  intros Hdef el. induction 1 as [type c k el Hc H|type c args el H|e c args server el _ IH H|e key _ IH].
  - unfold jsxProd in H. apply bind_Ok in H as (k1 & H1 & (k2 & H2 & [= <-])%bind_Ok).
    split; [eauto using coerceKey_string|]. unfold hasProp. case_bool_decide as Hk.
    + split; [|split; [|done]].
      * apply not_in_assign; [by apply not_elem_of_nil|].
        apply (not_in_filter (fun n => negb (String.eqb n "key"))). done.
      * apply NoDup_assign. constructor.
    + done.
  - unfold createElementImpl in H. apply bind_Ok in H as ([k props] & H & [= <-]). simpl.
    assert (Hkp : (k = VNull \/ isString k = true) /\ NoDup props.*1 /\ "key" ∉ props.*1).
    { destruct c as [c|]; [|injection H as <- <-; split; [auto|]; split; [constructor|apply not_elem_of_nil]].
      apply bind_Ok in H as (k' & Hk & [= <- <-]). split; [eauto using coerceKey_string|].
      split; [apply NoDup_assign; constructor|].
      apply not_in_assign; [apply not_elem_of_nil|].
      by apply (not_in_filter (fun n => negb (reservedName n))). }
    destruct Hkp as (? & ? & ?). split; [done|].
    assert (NoDup (withChildren args props).*1 /\ "key" ∉ (withChildren args props).*1) as [? ?]
      by auto using withChildren_names, withChildren_no_key.
    unfold applyDefaultProps.
    destruct (if truthy type then defaultProps type else None) as [defaults|] eqn:E; [|done].
    split; [|split; [by apply default_props_NoDup|done]].
    apply default_props_names; [|done]. destruct (truthy type); [by eapply Hdef|done].
  - destruct e as [| type k r props | | | | |]; try done.
    destruct IH as (Hk & Hnk & Hnd & Hr). unfold cloneElementImpl in H. simpl in H.
    apply bind_Ok in H as ([k' props'] & H & [= <-]). simpl.
    rewrite assign_nil in H by done.
    assert ((k' = VNull \/ isString k' = true) /\ NoDup props'.*1 /\ "key" ∉ props'.*1) as (? & ? & ?).
    { destruct c as [c|]; [|by injection H as <- <-].
      apply bind_Ok in H as (k1 & Hk1 & [= <- <-]). split; [eauto using coerceKey_string|].
      split; [by apply NoDup_assign|]. apply not_in_assign; [done|]. by apply cloned_names. }
    split; [done|]. auto using withChildren_names, withChildren_no_key.
  - destruct e as [| type k r props | | | | |]; try done.
    destruct IH as (Hk & Hnk & Hnd & Hr). simpl. auto.
Qed.

(** ** What [createElement] puts in an element *)

Definition keyOf (c : option (list (string * node))) : node :=
  match c with Some c => readProp "key" c | None => undefined end.
Definition childrenOf (args : list node) : node :=
  match args with [x] => x | _ => Arr (Builtin "Array") args end.

(** The prop that the caller gives: the children arguments, or a config property that is
    not reserved. *)
Definition given (c : option (list (string * node))) (args : list node) (name : string) : option node :=
  if decide (name = "children" /\ args <> []) then Some (childrenOf args)
  else if reservedName name then None else c ≫= assoc name.

(** A default replaces a prop that reads as undefined. *)
Definition withDefault (type : value) (name : string) (g : option node) : option node :=
  match (if truthy type then defaultProps type else None) ≫= assoc name with
  | Some d => if isUndefined (default (Val (default VUndef (assoc name objectPrototype))) g)
              then Some d else g
  | None => g
  end.

Lemma assoc_withChildren args (props : list (string * node)) name :
  assoc name (withChildren args props)
  = if decide (name = "children" /\ args <> []) then Some (childrenOf args) else assoc name props.
Proof using W.
  destruct args as [|x [|y l]]; simpl; rewrite ?assoc_setProp.
  - by rewrite decide_False by (by intros [_ H]).
  - destruct (decide ("children" = name)) as [<-|H]; [by rewrite decide_True|].
    rewrite decide_False; [done|]. intros [E _]. by destruct H.
  - destruct (decide ("children" = name)) as [<-|H]; [by rewrite decide_True|].
    rewrite decide_False; [done|]. intros [E _]. by destruct H.
Qed.

(** createElement on every branch: it throws exactly when the key cannot be turned into
    a string; otherwise the element has that type and key, and each prop is the children
    arguments, else the config property unless its name is reserved, else the default. *)
Theorem createElement_spec type c args :
  (forall l, c = Some l -> NoDup l.*1) ->
  (forall defaults, defaultProps type = Some defaults -> NoDup defaults.*1) ->
  match coerceKey heap (keyOf c) VNull with
  | Throw e => create type c args = Throw e
  | Ok key =>
      exists props, create type c args = Ok (Element type key (refOf props) props)
        /\ forall name, assoc name props = withDefault type name (given c args name)
  end.
Proof.
  intros Hc Hd.
  assert (E : create type c args = let* key := coerceKey heap (keyOf c) VNull in
    Ok (createElementObject type key (applyDefaultProps defaultProps type (withChildren args
      (assign [] (List.filter (fun p => negb (reservedName (fst p))) (default [] c))))))).
  { unfold createElementImpl. destruct c as [c|]; [|done]. simpl.
    by destruct (coerceKey heap (readProp "key" c) VNull). }
  rewrite E. destruct (coerceKey heap (keyOf c) VNull) as [key|e]; [|done].
  eexists. split; [done|]. intros name.
  set (props := withChildren _ _).
  assert (G : assoc name props = given c args name).
  { unfold props, given. rewrite assoc_withChildren. case_decide; [done|].
    rewrite assoc_assign.
    - rewrite (assoc_filter (fun n => negb (reservedName n))). destruct (reservedName name); [done|].
      destruct c as [c|]; simpl; [by destruct (assoc name c)|done].
    - apply NoDup_filter_names. destruct c as [c|]; [by apply Hc|constructor]. }
  unfold applyDefaultProps, withDefault. destruct (truthy type); [|done].
  destruct (defaultProps type) as [defaults|] eqn:Ed; [|done]. simpl.
  rewrite assoc_default_props by by apply Hd. unfold readProp. rewrite G.
  destruct (assoc name defaults); [|done]. by destruct (given c args name).
Qed.

(** ** The two JSX runtimes *)

(** The runtimes agree: a JSX expression with a key, spread props and children makes the
    same element through the classic createElement call and through the automatic jsx
    call, when no prop is reserved and the type has no default props. *)
Theorem jsx_is_createElement type c key args :
  NoDup c.*1 -> (forall name, name ∈ c.*1 -> reservedName name = false) ->
  (if truthy type then defaultProps type else None) = None ->
  create type (Some (setProp "key" key c)) args = jsxProd heap type (withChildren args c) key.
Proof.
  intros Hc Hr Hd.
  assert (Hnk : "key" ∉ c.*1) by (intros H; by apply Hr in H).
  assert (Hnk' : "key" ∉ (withChildren args c).*1) by by apply withChildren_no_key.
  unfold createElementImpl, jsxProd. rewrite readProp_setProp.
  rewrite (readProp_None "key" (withChildren args c)); [|decided|done].
  unfold hasProp. rewrite bool_decide_eq_false_2 by done.
  destruct (coerceKey heap key VNull) as [k|e]; [|done]. simpl.
  unfold applyDefaultProps. rewrite Hd.
  rewrite (filter_setProp (fun n => negb (reservedName n))). simpl.
  rewrite (filter_all _ c), assign_nil; [done|done|].
  intros p Hp. rewrite Hr; [done|]. apply list_elem_of_fmap. eauto.
Qed.

(** ** Cloning *)

Definition plain (c : list (string * node)) : Prop :=
  NoDup c.*1 /\ assoc "key" c <> Some undefined /\ assoc "ref" c <> Some undefined.

Lemma isUndefined_true (n : node) : isUndefined n = true -> n = undefined.
Proof. by destruct n as [[]| | | | | |]. Qed.

Lemma cloned_plain c :
  plain c -> List.filter (clonedProp c) c = List.filter (fun p => negb (reservedName (fst p))) c.
Proof.
  intros (Hnd & _ & Hr). apply filter_ext_in. intros [k v] Hin. unfold clonedProp. simpl.
  destruct (bool_decide (k = "ref")) eqn:E; [|by destruct (reservedName k)].
  apply bool_decide_eq_true in E as ->. unfold readProp.
  destruct (assoc "ref" c) as [n|] eqn:Ea.
  - destruct (isUndefined n) eqn:Hu; [|done]. by apply isUndefined_true in Hu as ->.
  - apply assoc_None in Ea. destruct Ea. apply list_elem_of_fmap. exists ("ref", v).
    by rewrite list_elem_of_In.
Qed.

Lemma assign_plain c1 c2 : plain c1 -> plain c2 -> plain (assign c1 c2).
Proof.
  intros (H1 & Hk1 & Hr1) (H2 & Hk2 & Hr2). split; [by apply NoDup_assign|].
  rewrite !assoc_assign by done. split; by repeat case_match.
Qed.

Lemma clone_Some type key r props c args server :
  NoDup props.*1 -> plain c ->
  clone (Element type key r props) (Some c) args server
  = let* k := coerceKey heap (readProp "key" c) key in
    Ok (createElementObject type k (withChildren args
          (assign props (List.filter (fun p => negb (reservedName (fst p))) c)))).
Proof.
  intros Hp Hc. unfold cloneElementImpl. simpl. rewrite assign_nil, cloned_plain by done.
  by destruct (coerceKey heap (readProp "key" c) key).
Qed.

(** Laws of cloneElement: cloning with no config and no children gives the element back,
    and cloning twice is cloning once with the later config copied over the earlier one,
    when the key of the first can be converted and neither sets key or ref to undefined. *)
Theorem cloneElement_laws type key r props server :
  wellFormed (Element type key r props) ->
  clone (Element type key r props) None [] server = Ok (Element type key r props)
  /\ forall c1 c2 args el,
       plain c1 -> plain c2 ->
       clone (Element type key r props) (Some c1) [] server = Ok el ->
       clone el (Some c2) args server
       = clone (Element type key r props) (Some (assign c1 c2)) args server.
Proof.
  intros (_ & _ & Hnd & Hr). split.
  { unfold cloneElementImpl. simpl. rewrite assign_nil by done. by rewrite Hr. }
  intros c1 c2 args el H1 H2. rewrite (clone_Some _ _ _ _ (assign c1 c2)) by auto using assign_plain.
  rewrite clone_Some by done. intros (k1 & Hk1 & [= <-])%bind_Ok.
  unfold createElementObject at 1, createProductionElement at 1. simpl.
  rewrite clone_Some by auto using NoDup_assign.
  rewrite (filter_assign (fun n => negb (reservedName n))).
  rewrite assign_assoc by by apply NoDup_filter_names; apply H1.
  assert (E : coerceKey heap (readProp "key" c2) k1 = coerceKey heap (readProp "key" (assign c1 c2)) key).
  { destruct H1 as (Hn1 & _), H2 as (Hn2 & Hk2 & _).
    unfold readProp in *. rewrite assoc_assign by done.
    destruct (assoc "key" c2) as [k2|]; [|done]. unfold coerceKey.
    destruct (isUndefined k2) eqn:Hu; [|done]. by apply isUndefined_true in Hu as ->. }
  by rewrite E.
Qed.
End Elements.

(** ** The theorems at concrete elements *)

Definition plainHeap : ref -> jsobject := fun _ => literal [].
Definition noDefaults : value -> option (list (string * node unit)) := fun _ => None.
Definition noFields : node unit -> value * value * list (string * node unit) :=
  fun _ => (VUndef, VUndef, []).
Definition str (s : string) : node unit := Val (VStr s).
Definition sampleConfig : list (string * node unit) :=
  [("id", str "x"); ("ref", Val (VFun (User 1))); ("title", str "t")].

Lemma elements_well_formed_witness :
  exists el, jsxProd plainHeap (VStr "div") sampleConfig (str "k") = Ok el /\ wellFormed el.
Proof.
  eexists. split; [reflexivity|].
  eapply (elements_well_formed plainHeap noDefaults noFields); [done|].
  apply (built_jsx _ _ _ (VStr "div") sampleConfig (str "k")); [|reflexivity]. decided.
Defined.

Lemma createElement_spec_witness :
  exists props, createElementImpl plainHeap noDefaults (VStr "div") (Some sampleConfig) [str "a"; str "b"]
                = Ok (Element (VStr "div") VNull (refOf props) props)
    /\ forall name, assoc name props
                    = withDefault noDefaults (VStr "div") name (given (Some sampleConfig) [str "a"; str "b"] name).
Proof.
  refine (createElement_spec plainHeap noDefaults (VStr "div") (Some sampleConfig) [str "a"; str "b"] _ _).
  - intros l [= <-]. decided.
  - done.
Defined.

Lemma jsx_is_createElement_witness :
  createElementImpl plainHeap noDefaults (VStr "div") (Some (setProp "key" (str "k") sampleConfig)) [str "a"]
  = jsxProd plainHeap (VStr "div") (withChildren [str "a"] sampleConfig) (str "k").
Proof.
  apply (jsx_is_createElement plainHeap noDefaults).
  - decided.
  - intros name Hn. unfold sampleConfig in Hn. simpl in Hn. set_unfold in Hn. naive_solver.
  - done.
Defined.

Lemma cloneElement_laws_witness :
  let el := Element (VStr "div") VNull (Val VNull) [("id", str "x")] in
  cloneElementImpl plainHeap noFields el None [] false = Ok el
  /\ exists el', cloneElementImpl plainHeap noFields el (Some sampleConfig) [] false = Ok el'
  /\ cloneElementImpl plainHeap noFields el' (Some [("key", str "z"); ("id", str "y")]) [str "c"] false
     = cloneElementImpl plainHeap noFields el (Some (assign sampleConfig [("key", str "z"); ("id", str "y")]))
         [str "c"] false.
Proof.
  intros el.
  destruct (cloneElement_laws plainHeap noFields (VStr "div") VNull (Val VNull) [("id", str "x")] false)
    as [H1 H2].
  - repeat split; [by left|set_solver|decided].
  - split; [exact H1|]. eexists. split; [reflexivity|]. eapply H2; [| |reflexivity].
    + split; [decided|done].
    + split; [decided|done].
Defined.
