(* ===== verification/ChildrenHelper.v ===== *)
(** * The children helpers

    packages/react/children-helper.js from [createChildrenHelpers] on, in the production
    build: [Children.map], [forEach], [count], [toArray] and [only]. The traversal and the
    user's callbacks share the state [state W]; a value of the traversal's local variables
    is threaded through it as an accumulator. *)
From Stdlib Require Import Ascii.
From stdpp Require Import pretty.
From S2P Require Import Prelude JsValue ReactElement.

(** ** Keys *)

Definition digit36 (n : N) : Ascii.ascii :=
  Ascii.ascii_of_N (if n <? 10 then 48 + n else 87 + n)%N.

(** [index.toString(36)] *)
Fixpoint toString36Loop (fuel : nat) (n : N) (digits : string) : string :=
  match fuel with
  | O => digits
  | S fuel =>
      let digits := String (digit36 (n mod 36)) digits in
      if (n <? 36)%N then digits else toString36Loop fuel (n / 36)%N digits
  end.
Definition toString36 (n : N) : string := toString36Loop (S (N.to_nat (N.log2 n))) n "".

(** [key.replace(/[=:]/g, match => escaperLookup[match])] *)
Fixpoint replaceSpecial (key : string) : string :=
  match key with
  | EmptyString => EmptyString
  | String c key =>
      (if Ascii.eqb c "="%char then "=0" else if Ascii.eqb c ":"%char then "=2" else String c "")
        +:+ replaceSpecial key
  end.
Definition escapeKey (key : string) : string := "$" +:+ replaceSpecial key.

(** [text.replace(userProvidedKeyEscapeRegex, '$&/')]: a run of slashes gets one more. *)
Fixpoint escapeUserProvidedKey (text : string) : string :=
  match text with
  | EmptyString => EmptyString
  | String c rest =>
      if Ascii.eqb c "/"%char && negb (startsWith rest "/")
      then String c (String c (escapeUserProvidedKey rest))
      else String c (escapeUserProvidedKey rest)
  end.

(** ** Error messages *)

Definition hexDigit (n : N) : Ascii.ascii :=
  Ascii.ascii_of_N (if n <? 10 then 48 + n else 55 + n)%N.
Definition percentByte (n : N) : string :=
  String "%" (String (hexDigit (n / 16)) (String (hexDigit (n mod 16)) "")).
Definition unreserved (c : Ascii.ascii) : bool :=
  let n := charCode c in
  ((48 <=? n) && (n <=? 57) || (65 <=? n) && (n <=? 90) || (97 <=? n) && (n <=? 122)
   || existsb (Ascii.eqb c) ["-"; "_"; "."; "!"; "~"; "*"; "'"; "("; ")"]%char)%N.

(** The UTF-8 bytes of a code unit below 256. *)
Fixpoint encodeURIComponent (s : string) : string :=
  match s with
  | EmptyString => EmptyString
  | String c s =>
      let n := charCode c in
      (if unreserved c then String c ""
       else if (n <? 128)%N then percentByte n
       else percentByte (192 + n / 64) +:+ percentByte (128 + n mod 64))
        +:+ encodeURIComponent s
  end.

Definition formatProdErrorMessage (code : N) (args : list string) : string :=
  let url := "https://react.dev/errors/" +:+ pretty code +:+
    match args with
    | [] => ""
    | a :: rest => "?args[]=" +:+ encodeURIComponent a
        +:+ String.concat "" (map (fun x => "&args[]=" +:+ encodeURIComponent x) rest)
    end in
  "Minified React error #" +:+ pretty code +:+ "; visit " +:+ url
    +:+ " for the full message or use the non-minified dev environment for full errors and additional helpful warnings.".

Section Errors.
Context (heap : ref -> jsobject).

Definition invalidObjectChild (children : ref) (childrenString : string) (reactServer : bool) : error :=
  let childDescription :=
    if decide (childrenString = "[object Object]")
    then "object with keys {" +:+ String.concat ", " (keys (heap children)) +:+ "}"
    else childrenString in
  PlainError
    (if reactServer then formatProdErrorMessage 31 [childDescription]
     else "Objects are not valid as a React child (found: " +:+ childDescription
       +:+ "). If you meant to render a collection of children, use an array instead.").

Definition throwInvalidObjectChildError {A} (children : ref) (childrenString : string)
    (reactServer : bool) : res A :=
  Throw (invalidObjectChild children childrenString reactServer).

Definition throwInvalidOnlyChildError {A} (reactServer : bool) : res A :=
  Throw (PlainError
    (if reactServer then formatProdErrorMessage 143 []
     else "React.Children.only expected to receive a single React element child.")).
End Errors.

(** ** Thenables *)

Section Thenables.
Context {W : Type}.

Definition freshThenable : thenable := mkThenable VUndef false false false false [].
Definition getThenable (r : ref) (s : state W) : thenable :=
  default freshThenable (thenables s !! r).
Definition setThenable (r : ref) (t : thenable) (s : state W) : state W :=
  mkState (user s) (<[r := t]> (thenables s)).
Definition setStatus (v : value) (t : thenable) : thenable :=
  mkThenable v (th_hasValue t) (th_hasReason t) (th_settled t) (th_sync t) (th_handlers t).

(** [thenable.status = 'fulfilled'; thenable.value = fulfilledValue] *)
Definition setFulfilled (t : thenable) : thenable :=
  mkThenable (VStr "fulfilled") true (th_hasReason t) (th_settled t) (th_sync t) (th_handlers t).
(** [thenable.status = 'rejected'; thenable.reason = error] *)
Definition setRejected (t : thenable) : thenable :=
  mkThenable (VStr "rejected") (th_hasValue t) true (th_settled t) (th_sync t) (th_handlers t).

(** One of the two callbacks passed to [then], as the promise calls it. *)
Definition runHandler (fulfilled : bool) (h : handler) (t : thenable) : thenable :=
  match h with
  | Noop => t
  | Track => if isStr (th_status t) "pending" then (if fulfilled then setFulfilled t else setRejected t) else t
  end.

(** [thenable.then(onFulfilled, onRejected)] *)
Definition then_ (fulfilled : bool) (h : handler) (t : thenable) : thenable :=
  if th_settled t && th_sync t then runHandler fulfilled h t
  else mkThenable (th_status t) (th_hasValue t) (th_hasReason t) (th_settled t) (th_sync t) (th_handlers t ++ [h]).

(** The promise settles: the waiting callbacks run in order. *)
Definition settle (fulfilled : bool) (t : thenable) : thenable :=
  let t' := fold_left (fun t h => runHandler fulfilled h t) (th_handlers t) t in
  mkThenable (th_status t') (th_hasValue t') (th_hasReason t') true (th_sync t') [].

(** [thenable.value] and [thenable.reason], for a promise that is fulfilled with [value_] or
    rejected with [reason]. *)
Definition readValue {A : Type} (value_ undefined_ : A) (t : thenable) : A :=
  if th_hasValue t then value_ else undefined_.
Definition readReason (reason : value) (t : thenable) : value := if th_hasReason t then reason else VUndef.

(** [undefined_] is the result for a [thenable.value] that is undefined. *)
Definition resolveThenable {A : Type} (r : ref) (fulfilled : bool) (value_ undefined_ : A) (reason : value)
    (s : state W) : effect (state W) A :=
  let t := getThenable r s in
  if isStr (th_status t) "fulfilled" then (Ok (readValue value_ undefined_ t), s)
  else if isStr (th_status t) "rejected" then (Throw (Thrown (readReason reason t)), s)
  else
    let t := if isString (th_status t) then then_ fulfilled Noop t
             else then_ fulfilled Track (setStatus (VStr "pending") t) in
    let s := setThenable r t s in
    if isStr (th_status t) "fulfilled" then (Ok (readValue value_ undefined_ t), s)
    else if isStr (th_status t) "rejected" then (Throw (Thrown (readReason reason t)), s)
    else (Throw (Thrown (VObj r)), s).
End Thenables.

(** ** The traversal *)

Section Children.
Context {W : Type} (heap : ref -> jsobject)
        (foreignFields : node W -> value * value * list (string * node W)) (reactServer : bool).

(** [n.key] of an object *)
Definition readKey (n : node W) : res value :=
  match n with
  | Val (VObj r) | Lazy r _ | Arr r _ | Iter r _ | Thenable r _ => get (heap r) "key"
  | Element _ key _ _ | Portal key _ _ => Ok key
  | Val _ => Ok VUndef
  end.

Definition coerceKeyToString (v : value) : res string := nodeToString (W := W) heap (Val v).

Definition getElementKey (element : node W) (index : N) : res string :=
  if isObject element then
    let* key := readKey element in
    if nullish key then Ok (toString36 index)
    else let* key := coerceKeyToString key in Ok (escapeKey key)
  else Ok (toString36 index).

Definition nextNamePrefix (nameSoFar : string) : string :=
  if decide (nameSoFar = "") then "." else nameSoFar +:+ ":".

(** [leaf child name acc] is what the code does with a child that it does not descend into;
    the result has the number of those. *)
Section Traverse.
Context {A : Type} (leaf : node W -> string -> A -> state W -> effect (state W) A).

Definition visitLeaf (child : node W) (nameSoFar : string) (acc : A) (s : state W) :
    effect (state W) (A * N) :=
  do* acc, s := leaf child nameSoFar acc s in (Ok (acc, 1%N), s).

(** The loops over the items of an array and over the steps of an iterator. *)
Section Items.
Context (visit : node W -> string -> A -> state W -> effect (state W) (A * N)) (prefix : string).

Fixpoint visitItems (l : list (node W)) (index subtreeCount : N) (acc : A) (s : state W) :
    effect (state W) (A * N) :=
  match l with
  | [] => (Ok (acc, subtreeCount), s)
  | child :: l =>
      do* key, s := pureStep (getElementKey child index) s in
      do* p, s := visit child (prefix +:+ key) acc s in
      visitItems l (index + 1)%N (subtreeCount + snd p)%N (fst p) s
  end.

Fixpoint visitSteps (l : list (state W -> effect (state W) (node W))) (index subtreeCount : N)
    (acc : A) (s : state W) : effect (state W) (A * N) :=
  match l with
  | [] => (Ok (acc, subtreeCount), s)
  | next :: l =>
      match next s with
      | (Throw e, s) => (Throw e, s)
      | (Ok child, s) =>
          do* key, s := pureStep (getElementKey child index) s in
          do* p, s := visit child (prefix +:+ key) acc s in
          visitSteps l (index + 1)%N (subtreeCount + snd p)%N (fst p) s
      end
  end.
End Items.

Fixpoint traverse (children : node W) (nameSoFar : string) (acc : A) (s : state W) {struct children} :
    effect (state W) (A * N) :=
  match children with
  | Val (VUndef | VNull | VBool _) => visitLeaf (Val VNull) nameSoFar acc s
  | Val (VBigInt _ | VStr _ | VNum _) => visitLeaf children nameSoFar acc s
  | Val (VFun _ | VSym _ _) => (Ok (acc, 0%N), s)
  | Element _ _ _ _ | Portal _ _ _ => visitLeaf children nameSoFar acc s
  | Lazy _ init =>
      match init s with
      | (Ok n, s) => traverse n nameSoFar acc s
      | (Throw e, s) => (Throw e, s)
      end
  | Arr _ items => visitItems traverse (nextNamePrefix nameSoFar) items 0%N 0%N acc s
  | Iter _ steps => visitSteps traverse (nextNamePrefix nameSoFar) steps 0%N 0%N acc s
  | Thenable r settlement =>
      match settlement with
      | inl n =>
          do* go, s := resolveThenable r true (traverse n) (visitLeaf (Val VNull)) VUndef s in go nameSoFar acc s
      | inr reason =>
          do* go, s := resolveThenable r false (visitLeaf (Val VNull)) (visitLeaf (Val VNull)) reason s in go nameSoFar acc s
      end
  | Val (VObj r as v) =>
      do* str, s := pureStep (nodeToString (W := W) heap (Val v)) s in
      pureStep (throwInvalidObjectChildError heap r str reactServer) s
  end.
End Traverse.

(** [child && child.key] for the child of a callback: a primitive has no key. *)
Definition sameKey (child : node W) (key : value) : bool :=
  match child with
  | Element _ k _ _ | Portal k _ _ => strictEq k key
  | _ => false
  end.

Definition childKeyOf (child : node W) (nameSoFar : string) : res string :=
  if decide (nameSoFar = "") then let* key := getElementKey child 0 in Ok ("." +:+ key)
  else Ok nameSoFar.

(** [array.push] of what the callback made of [child], when it is no array. *)
Definition pushMapped (escapedPrefix childKey : string) (child mappedChild : node W)
    (array : list (node W)) : res (list (node W)) :=
  match mappedChild with
  | Val (VNull | VUndef) => Ok array
  | Element _ key _ _ =>
      let* mine := (if nullish key || sameKey child key then Ok ""
                    else let* k := coerceKeyToString key in Ok (escapeUserProvidedKey k +:+ "/")) in
      Ok (array ++ [cloneAndReplaceKey foreignFields mappedChild
                      (VStr (escapedPrefix +:+ mine +:+ childKey))])
  | _ => Ok (array ++ [mappedChild])
  end.

(** [mapIntoArray(children, array, escapedPrefix, '', c => c)]: a leaf is no array. *)
Definition identityLeaf (escapedPrefix : string) (child : node W) (nameSoFar : string)
    (array : list (node W)) (s : state W) : effect (state W) (list (node W)) :=
  pureStep (let* childKey := childKeyOf child nameSoFar in
            pushMapped escapedPrefix childKey child child array) s.

Section Callback.
(** The callback of [mapIntoArray] with the local variables it closes over. *)
Context {K : Type} (callback : node W -> K -> state W -> effect (state W) (node W * K)).

Definition callbackLeaf (escapedPrefix : string) (child : node W) (nameSoFar : string)
    (acc : list (node W) * K) (s : state W) : effect (state W) (list (node W) * K) :=
  do* p, s := callback child (snd acc) s in
  let mappedChild := fst p in
  do* childKey, s := pureStep (childKeyOf child nameSoFar) s in
  if isArray mappedChild then
    do* q, s := traverse (identityLeaf (escapeUserProvidedKey childKey +:+ "/")) mappedChild ""
                  (fst acc) s in
    (Ok (fst q, snd p), s)
  else
    do* array, s := pureStep (pushMapped escapedPrefix childKey child mappedChild (fst acc)) s in
    (Ok (array, snd p), s).

Definition mapIntoArray (children : node W) (array : list (node W)) (escapedPrefix nameSoFar : string)
    (k : K) (s : state W) : effect (state W) ((list (node W) * K) * N) :=
  traverse (callbackLeaf escapedPrefix) children nameSoFar (array, k) s.

(** [inl] is [children] itself, null or undefined; [inr] is the new array. *)
Definition mapChildrenWith (children : node W) (k : K) (s : state W) :
    effect (state W) ((value + list (node W)) * K) :=
  match children with
  | Val (VNull as v) | Val (VUndef as v) => (Ok (inl v, k), s)
  | _ => do* p, s := mapIntoArray children [] "" "" k s in
         (Ok (inr (fst (fst p)), snd (fst p)), s)
  end.
End Callback.

(** [child => func.call(context, child, count++)] *)
Definition countedCallback (func : node W -> N -> state W -> effect (state W) (node W))
    (child : node W) (count : N) (s : state W) : effect (state W) (node W * N) :=
  do* mapped, s := func child count s in (Ok (mapped, count + 1)%N, s).

Definition mapChildrenImpl (children : node W) (func : node W -> N -> state W -> effect (state W) (node W))
    (s : state W) : effect (state W) (value + list (node W)) :=
  do* p, s := mapChildrenWith (countedCallback func) children 0%N s in (Ok (fst p), s).

(** ** [createChildrenHelpers] *)

Definition map_ := mapChildrenImpl.

Definition forEach_ (children : node W) (forEachFunc : node W -> N -> state W -> effect (state W) unit)
    (s : state W) : effect (state W) unit :=
  do* _, s := mapChildrenImpl children
    (fun child index s => do* _, s := forEachFunc child index s in (Ok undefined, s)) s in
  (Ok tt, s).

(** The callback counts in a variable of its own, beside the index it ignores. *)
Definition count (children : node W) (s : state W) : effect (state W) N :=
  do* p, s := mapChildrenWith
    (fun _ (k : N * N) s => (Ok (undefined, (fst k + 1, snd k + 1)%N), s)) children (0, 0)%N s in
  (Ok (snd (snd p)), s).

Definition toArray (children : node W) (s : state W) : effect (state W) (list (node W)) :=
  do* result, s := mapChildrenImpl children (fun child _ s => (Ok child, s)) s in
  (Ok (match result with inl _ => [] | inr array => array end), s).

Definition only (children : node W) : res (node W) :=
  if isValidElement children then Ok children else throwInvalidOnlyChildError reactServer.
End Children.

Example base36 : map toString36 [0; 9; 10; 35; 36; 1295; 1296]%N = ["0"; "9"; "a"; "z"; "10"; "zz"; "100"].
Proof. vm_compute. reflexivity. Qed.
Example escapes : (escapeKey "a:b=c", escapeUserProvidedKey "a/b//c/") = ("$a=2b=0c", "a//b///c//").
Proof. vm_compute. reflexivity. Qed.
