(* ===== verification/ChildrenHelperSpec.v ===== *)
(** * Theorems about the children helpers

    The traversal visits the leaves of children that are settled: their lazy parts are
    loaded and their thenables fulfilled or rejected. [visits] says which leaves those are,
    under which names, without the traversal's state. Against it, [Children.map],
    [forEach], [count] and [toArray] are a loop over the leaves; the names, and so the keys
    that [toArray] makes, are distinct when the keys of siblings are. *)
From Stdlib Require Import Ascii.
From S2P Require Import Prelude JsValue ReactElement ReactElementSpec ChildrenHelper.

(** ** Keys *)

#[local] Arguments String.append : simpl nomatch.

(** The decoding of a component of a name. *)
Fixpoint unreplace (s : string) : option string :=
  match s with
  | EmptyString => Some ""
  | String c s' =>
      if Ascii.eqb c "=" then
        match s' with
        | String "0" s'' => String "=" <$> unreplace s''
        | String "2" s'' => String ":" <$> unreplace s''
        | _ => None
        end
      else String c <$> unreplace s'
  end.
Definition unescapeKey (s : string) : option string :=
  match s with
  | String "$" s => unreplace s
  | _ => None
  end.

Lemma unreplace_replaceSpecial key : unreplace (replaceSpecial key) = Some key.
Proof.
  induction key as [|c key IH]; [done|]. cbn [replaceSpecial].
  destruct (Ascii.eqb_spec c "=") as [->|H1]; [cbn; by rewrite IH|].
  destruct (Ascii.eqb_spec c ":") as [->|H2]; [cbn; by rewrite IH|].
  cbn. apply Ascii.eqb_neq in H1. rewrite H1. cbn. by rewrite IH.
Qed.

Lemma unescape_escapeKey key : unescapeKey (escapeKey key) = Some key.
Proof. apply unreplace_replaceSpecial. Qed.

Lemma escapeKey_inj k1 k2 : escapeKey k1 = escapeKey k2 -> k1 = k2.
Proof. intros H%(f_equal unescapeKey). rewrite !unescape_escapeKey in H. congruence. Qed.

Lemma escapeKey_no_colon key : notIn ":" (escapeKey key).
Proof.
  unfold notIn, escapeKey. simpl. apply not_elem_of_cons. split; [done|].
  induction key as [|c key IH]; [apply not_elem_of_nil|]. cbn [replaceSpecial].
  destruct (Ascii.eqb_spec c "=") as [->|H1]; [cbn; set_solver|].
  destruct (Ascii.eqb_spec c ":") as [->|H2]; cbn; set_solver.
Qed.

(** Reading a number back from its digits. *)
Definition digitValue (c : ascii) : N := let n := N_of_ascii c in (if n <? 58 then n - 48 else n - 87)%N.
Fixpoint value36 (acc : N) (s : string) : N :=
  match s with
  | EmptyString => acc
  | String c s => value36 (acc * 36 + digitValue c)%N s
  end.

Lemma digit36_value n : (n < 36)%N -> digitValue (digit36 n) = n.
Proof.
  intros H. unfold digitValue, digit36.
  destruct (N.ltb_spec n 10%N); rewrite N_ascii_embedding by lia;
    destruct (N.ltb_spec (48 + n)%N 58%N), (N.ltb_spec (87 + n)%N 58%N); lia.
Qed.

Lemma toString36Loop_spec fuel n digits :
  (n < 36 ^ N.of_nat fuel)%N -> (0 < fuel)%nat ->
  value36 0%N (toString36Loop fuel n digits) = value36 n digits.
Proof.
  revert n digits. induction fuel as [|fuel IH]; intros n digits Hn Hf; [lia|].
  cbn [toString36Loop]. destruct (N.ltb_spec n 36%N) as [H|H].
  - rewrite N.mod_small by lia. cbn. by rewrite digit36_value.
  - rewrite Nat2N.inj_succ, N.pow_succ_r' in Hn.
    assert (fuel <> 0%nat) by (intros ->; simpl in Hn; lia).
    rewrite IH; [|apply N.Div0.div_lt_upper_bound; lia|lia].
    cbn. rewrite digit36_value by (apply N.mod_lt; lia).
    f_equal. pose proof (N.div_mod n 36%N). lia.
Qed.

Lemma value36_toString36 n : value36 0%N (toString36 n) = n.
Proof.
  unfold toString36. rewrite toString36Loop_spec; [done| |lia].
  rewrite Nat2N.inj_succ, N2Nat.id.
  destruct (N.eq_dec n 0%N) as [->|Hn]; [done|].
  apply N.lt_le_trans with (2 ^ N.succ (N.log2 n))%N; [apply N.log2_spec; lia|].
  apply N.pow_le_mono_l. lia.
Qed.

Definition isDigit36 (c : ascii) : Prop := exists n, (n < 36)%N /\ c = digit36 n.

Lemma toString36_digits n c : c ∈ String.list_ascii_of_string (toString36 n) -> isDigit36 c.
Proof.
  unfold toString36. assert (H : forall c, c ∈ String.list_ascii_of_string "" -> isDigit36 c) by set_solver.
  revert n c H. generalize "". intros digits n.
  generalize (S (N.to_nat (N.log2 n))). intros fuel. revert n digits.
  induction fuel as [|fuel IH]; intros n digits c H Hc; [by apply H|].
  cbn [toString36Loop] in Hc.
  assert (H' : forall c, c ∈ String.list_ascii_of_string (String (digit36 (n mod 36)) digits) -> isDigit36 c).
  { intros c' [->|Hc']%elem_of_cons; [|by apply H]. exists (n mod 36)%N. split; [|done]. apply N.mod_lt. lia. }
  destruct (n <? 36)%N; [by apply H'|]. by eapply IH.
Qed.

Lemma digit36_code n : (n < 36)%N -> (48 <= N_of_ascii (digit36 n) <= 57 \/ 97 <= N_of_ascii (digit36 n) <= 122)%N.
Proof.
  intros H. unfold digit36. destruct (N.ltb_spec n 10%N); rewrite N_ascii_embedding; lia.
Qed.

Lemma toString36_not_in c n :
  (N_of_ascii c < 48 \/ 57 < N_of_ascii c < 97)%N -> notIn c (toString36 n).
Proof.
  intros Hc (m & Hm & ->)%toString36_digits. apply digit36_code in Hm. lia.
Qed.

(** The decoding of a name component: an index, or a key. *)
Definition decodeElementKey (s : string) : option (N + string) :=
  match s with
  | String "$" _ => inr <$> unescapeKey s
  | _ => Some (inl (value36 0%N s))
  end.

Lemma decode_index n : decodeElementKey (toString36 n) = Some (inl n).
Proof.
  pose proof (toString36_not_in "$" n) as H. pose proof (value36_toString36 n) as V.
  unfold decodeElementKey. destruct (toString36 n) as [|c s]; [by rewrite <- V|].
  rewrite V. unfold notIn in H. simpl in H.
  assert (Hc : c <> "$"%char) by (intros ->; apply H; [vm_compute; auto|left]).
  destruct c as [[] [] [] [] [] [] [] []]; try done.
Qed.

Lemma decode_key key : decodeElementKey (escapeKey key) = Some (inr key).
Proof. unfold decodeElementKey. cbn. by rewrite unreplace_replaceSpecial. Qed.

(** ** The leaves of settled children *)

Section Visits.
Context {W : Type} (heap : ref -> jsobject)
        (foreignFields : node W -> value * value * list (string * node W)) (reactServer : bool).
(** What is known of the states in which the children are traversed. *)
Context (I : state W -> Prop).
(** A condition on the members of every array and iterable that is traversed. *)
Context (okItems : list (node W) -> Prop).
Abbreviation node := (node W).
Abbreviation M A := (state W -> effect (state W) A).

Definition isLeafValue (v : value) : bool :=
  match v with VBigInt _ | VStr _ | VNum _ => true | _ => false end.
Definition isEmptyValue (v : value) : bool :=
  match v with VUndef | VNull | VBool _ => true | _ => false end.
Definition isSkippedValue (v : value) : bool :=
  match v with VFun _ | VSym _ _ => true | _ => false end.

(** [visits n name l e]: traversing [n] under [name] visits the leaves [l], each with its
    name, and then ends, or throws [e]. *)
Inductive visits : node -> string -> list (node * string) -> option error -> Prop :=
| visits_empty v name : isEmptyValue v = true -> visits (Val v) name [(Val VNull, name)] None
| visits_value v name : isLeafValue v = true -> visits (Val v) name [(Val v, name)] None
| visits_skipped v name : isSkippedValue v = true -> visits (Val v) name [] None
| visits_element type key r props name :
    visits (Element type key r props) name [(Element type key r props, name)] None
| visits_portal key children containerInfo name :
    visits (Portal key children containerInfo) name [(Portal key children containerInfo, name)] None
| visits_lazy r init n name l e :
    (forall s, I s -> init s = (Ok n, s)) -> visits n name l e -> visits (Lazy r init) name l e
| visits_lazy_throws r init name e :
    (forall s, I s -> init s = (Throw e, s)) -> visits (Lazy r init) name [] (Some e)
| visits_array r items name l e :
    okItems items -> visitsAll items 0 (nextNamePrefix name) l e -> visits (Arr r items) name l e
| visits_iterable r steps items name l e :
    Forall2 (fun next n => forall s, I s -> next s = (Ok n, s)) steps items ->
    okItems items -> visitsAll items 0 (nextNamePrefix name) l e -> visits (Iter r steps) name l e
| visits_fulfilled r n name l e :
    (forall s, I s -> isStr (th_status (getThenable r s)) "fulfilled" = true /\ th_hasValue (getThenable r s) = true) ->
    visits n name l e -> visits (Thenable r (inl n)) name l e
| visits_fulfilled_undefined r settlement name :
    (forall s, I s -> isStr (th_status (getThenable r s)) "fulfilled" = true /\ th_hasValue (getThenable r s) = false) ->
    visits (Thenable r settlement) name [(Val VNull, name)] None
| visits_rejected r reason name :
    (forall s, I s -> isStr (th_status (getThenable r s)) "rejected" = true /\ th_hasReason (getThenable r s) = true) ->
    visits (Thenable r (inr reason)) name [] (Some (Thrown reason))
| visits_rejected_undefined r settlement name :
    (forall s, I s -> isStr (th_status (getThenable r s)) "rejected" = true /\ th_hasReason (getThenable r s) = false) ->
    visits (Thenable r settlement) name [] (Some (Thrown VUndef))
| visits_object r name description :
    o_string (heap r) = Some description ->
    visits (Val (VObj r)) name [] (Some (invalidObjectChild heap r description reactServer))
with visitsAll : list node -> N -> string -> list (node * string) -> option error -> Prop :=
| visitsAll_nil index prefix : visitsAll [] index prefix [] None
| visitsAll_cons x xs index prefix key l l' e :
    getElementKey heap x index = Ok key ->
    visits x (prefix +:+ key) l None -> visitsAll xs (index + 1) prefix l' e ->
    visitsAll (x :: xs) index prefix (l ++ l') e
| visitsAll_throws x xs index prefix key l e :
    getElementKey heap x index = Ok key ->
    visits x (prefix +:+ key) l (Some e) -> visitsAll (x :: xs) index prefix l (Some e)
| visitsAll_bad_key x xs index prefix e :
    getElementKey heap x index = Throw e -> visitsAll (x :: xs) index prefix [] (Some e).

Scheme visits_mut := Minimality for visits Sort Prop
  with visitsAll_mut := Minimality for visitsAll Sort Prop.
Combined Scheme visits_ind2 from visits_mut, visitsAll_mut.

(** The traversal as a loop over the leaves. *)
Section Loop.
Context {A : Type} (leaf : node -> string -> A -> M A).

Fixpoint runLeaves (l : list (node * string)) (acc : A) (s : state W) : effect (state W) A :=
  match l with
  | [] => (Ok acc, s)
  | (child, name) :: l => do* acc, s := leaf child name acc s in runLeaves l acc s
  end.

Definition finish (e : option error) (l : list (node * string)) (acc : A) (s : state W) :
    effect (state W) (A * N) :=
  match e with
  | None => (Ok (acc, N.of_nat (length l)), s)
  | Some e => (Throw e, s)
  end.

Definition preserves {B : Type} (m : M B) : Prop := forall s, I s -> I (snd (m s)).

Definition leavesPreserve (l : list (node * string)) : Prop :=
  forall p acc, p ∈ l -> preserves (leaf (fst p) (snd p) acc).

Lemma leavesPreserve_app l l' :
  leavesPreserve (l ++ l') -> leavesPreserve l /\ leavesPreserve l'.
Proof. intros H. split; intros p acc Hp; apply H; apply elem_of_app; auto. Qed.

Lemma andThen_assoc {B C : Type} (r : effect (state W) A) (f : A -> M B) (g : B -> M C) :
  andThen (andThen r f) g = andThen r (fun a s => andThen (f a s) g).
Proof. by destruct r as [[a|e] s]. Qed.

Lemma runLeaves_preserves l acc : leavesPreserve l -> preserves (runLeaves l acc).
Proof.
  induction l as [|[child name] l IH] in acc |- *; intros Hl s Hs; simpl; [done|].
  pose proof (Hl (child, name) acc ltac:(left) s Hs) as H. simpl in H.
  destruct (leaf child name acc s) as [[acc'|e] s']; simpl in *; [|done].
  apply IH; [|done]. intros p acc2 Hp. apply Hl. by right.
Qed.

Lemma runLeaves_app l l' acc s :
  runLeaves (l ++ l') acc s = do* acc, s := runLeaves l acc s in runLeaves l' acc s.
Proof.
  induction l as [|[child name] l IH] in acc, s |- *; simpl; [done|].
  destruct (leaf child name acc s) as [[acc'|e] s']; simpl; [apply IH|done].
Qed.


Lemma visitLeaf_run child name acc s :
  visitLeaf leaf child name acc s
  = do* acc, s := runLeaves [(child, name)] acc s in finish None [(child, name)] acc s.
Proof. unfold visitLeaf. simpl. by destruct (leaf child name acc s) as [[]]. Qed.

(** The loop over the leaves of a list of children, after [c] leaves. *)
Definition runFrom (l : list (node * string)) (e : option error) (c : N) (acc : A) (s : state W) :
    effect (state W) (A * N) :=
  do* acc, s := runLeaves l acc s in
  do* p, s := finish e l acc s in (Ok (fst p, c + snd p)%N, s).

Lemma runFrom_zero l e acc s :
  runFrom l e 0 acc s = do* acc, s := runLeaves l acc s in finish e l acc s.
Proof. unfold runFrom. destruct (runLeaves l acc s) as [[]]; simpl; [|done]. by destruct e. Qed.

Lemma runFrom_app l l' e c acc s (rest : A -> N -> M (A * N)) (first : effect (state W) (A * N)) :
  leavesPreserve l -> I s ->
  first = (do* acc, s := runLeaves l acc s in finish None l acc s) ->
  (forall acc c s, I s -> rest acc c s = runFrom l' e c acc s) ->
  (do* p, s := first in rest (fst p) (c + snd p)%N s) = runFrom (l ++ l') e c acc s.
Proof.
  intros Hl Hs -> Hrest. unfold runFrom, finish. rewrite runLeaves_app.
  pose proof (runLeaves_preserves l acc Hl s Hs) as Hs'.
  destruct (runLeaves l acc s) as [[acc'|e'] s']; simpl in *; [|done].
  rewrite Hrest by done. unfold runFrom, finish. rewrite length_app.
  destruct (runLeaves l' acc' s') as [[acc2|e2] s2]; simpl; [|done].
  destruct e; simpl; [done|]. by rewrite Nat2N.inj_add, N.add_assoc.
Qed.

Lemma runFrom_throws l e c acc s (rest : A -> N -> M (A * N)) first :
  first = (do* acc, s := runLeaves l acc s in finish (Some e) l acc s) ->
  (do* p, s := first in rest (fst p) (c + snd p)%N s) = runFrom l (Some e) c acc s.
Proof. intros ->. unfold runFrom. by destruct (runLeaves l acc s) as [[]]. Qed.

Definition stepsOf (steps : list (M node)) (items : list node) : Prop :=
  Forall2 (fun (next : M node) n => forall s, I s -> next s = (Ok n, s)) steps items.

(** The traversal of settled children is the loop over their leaves. *)
Lemma traverse_visits_all :
  (forall n name l e, visits n name l e -> leavesPreserve l -> forall acc s, I s ->
     traverse heap reactServer leaf n name acc s
     = do* acc, s := runLeaves l acc s in finish e l acc s)
  /\ (forall items index prefix l e, visitsAll items index prefix l e -> leavesPreserve l ->
     (forall acc c s, I s ->
        visitItems heap (traverse heap reactServer leaf) prefix items index c acc s
        = runFrom l e c acc s)
     /\ (forall steps acc c s, stepsOf steps items -> I s ->
           visitSteps heap (traverse heap reactServer leaf) prefix steps index c acc s
           = runFrom l e c acc s)).
Proof.
  apply visits_ind2.
  - intros v name Hv _ acc s Hs. destruct v; try done; apply visitLeaf_run.
  - intros v name Hv _ acc s Hs. destruct v; try done; apply visitLeaf_run.
  - intros v name Hv _ acc s Hs. by destruct v.
  - intros. apply visitLeaf_run.
  - intros. apply visitLeaf_run.
  - intros r init n name l e Hi _ IH Hl acc s Hs. simpl. rewrite Hi by done. auto.
  - intros r init name e Hi _ acc s Hs. simpl. by rewrite Hi.
  - intros r items name l e _ _ IH Hl acc s Hs. simpl. rewrite <- runFrom_zero. by apply IH.
  - intros r steps items name l e Hst _ _ IH Hl acc s Hs. simpl. rewrite <- runFrom_zero. by apply IH.
  - intros r n name l e Hr _ IH Hl acc s Hs. simpl. unfold resolveThenable, readValue.
    destruct (Hr _ Hs) as [-> ->]. simpl. auto.
  - intros r settlement name Hr _ acc s Hs. destruct (Hr _ Hs) as [E1 E2].
    destruct settlement; simpl; unfold resolveThenable, readValue; rewrite E1, E2; simpl; apply visitLeaf_run.
  - intros r reason name Hr _ acc s Hs. simpl. unfold resolveThenable, readReason. destruct (Hr _ Hs) as [H1 H2].
    unfold isStr in *. bools. by rewrite H1, H2.
  - intros r settlement name Hr _ acc s Hs. destruct (Hr _ Hs) as [H1 H2]. unfold isStr in H1. bools.
    destruct settlement; simpl; unfold resolveThenable, readReason; by rewrite H1, H2.
  - intros r name d Hd _ acc s Hs. simpl. by rewrite Hd.
  - intros index prefix0 _.
    split; [intros acc c s Hs; simpl; unfold runFrom; simpl; by rewrite N.add_0_r|].
    intros steps acc c s ->%Forall2_nil_inv_r Hs. unfold runFrom; simpl. by rewrite N.add_0_r.
  - intros x xs index prefix0 key l l' e Hk _ IHx _ IHxs Hl.
    apply leavesPreserve_app in Hl as [Hl Hl']. destruct (IHxs Hl') as [Hi Hs'].
    split.
    + intros acc c s Hs. simpl. rewrite Hk. simpl.
      apply (runFrom_app l l' e c acc s (fun acc c s => visitItems heap _ prefix0 xs _ c acc s)); auto.
    + intros steps acc c s (next & steps' & Hnext & Hsteps & ->)%Forall2_cons_inv_r Hs.
      simpl. rewrite Hnext by done. rewrite Hk. simpl.
      apply (runFrom_app l l' e c acc s (fun acc c s => visitSteps heap _ prefix0 steps' _ c acc s)); auto.
  - intros x xs index prefix0 key l e Hk _ IHx Hl. split.
    + intros acc c s Hs. simpl. rewrite Hk. simpl.
      apply (runFrom_throws l e c acc s (fun acc c s => visitItems heap _ prefix0 xs _ c acc s)); auto.
    + intros steps acc c s (next & steps' & Hnext & Hsteps & ->)%Forall2_cons_inv_r Hs.
      simpl. rewrite Hnext by done. rewrite Hk. simpl.
      apply (runFrom_throws l e c acc s (fun acc c s => visitSteps heap _ prefix0 steps' _ c acc s)); auto.
  - intros x xs index prefix0 e Hk _. split; [intros acc c s Hs; simpl; by rewrite Hk|].
    intros steps acc c s (next & steps' & Hnext & Hsteps & ->)%Forall2_cons_inv_r Hs.
    simpl. rewrite Hnext by done. by rewrite Hk.
Qed.

Lemma traverse_visits n name l e acc s :
  visits n name l e -> leavesPreserve l -> I s ->
  traverse heap reactServer leaf n name acc s
  = do* acc, s := runLeaves l acc s in finish e l acc s.
Proof. intros Hn Hl Hs. by apply (proj1 traverse_visits_all _ _ _ _ Hn Hl). Qed.
End Loop.
End Visits.

(** ** The helpers as loops *)

Section Helpers.
Context {W : Type} (heap : ref -> jsobject)
        (foreignFields : node W -> value * value * list (string * node W)) (reactServer : bool)
        (I : state W -> Prop) (okItems : list (node W) -> Prop).
Abbreviation node := (node W).
Abbreviation M A := (state W -> effect (state W) A).
Abbreviation settled n l e := (visits heap reactServer I okItems n "" l e).

(** Elements and portals are made with a key that is null or a string. *)
Definition goodLeaf (child : node) : Prop :=
  match child with
  | Element _ key _ _ | Portal key _ _ => key = VNull \/ isString key = true
  | _ => isObject child = false
  end.
Definition goodLeaves (l : list (node * string)) : Prop := Forall (fun p => goodLeaf (fst p)) l.

(** The key of a leaf's place: its name, or for a single child that of a list of one. *)
Definition leafKey (p : node * string) : string :=
  if decide (snd p = "") then
    "." +:+ match getElementKey heap (fst p) 0 with Ok key => key | Throw _ => "" end
  else snd p.

(** What the identity callback leaves in the array for a leaf. *)
Definition kept (escapedPrefix : string) (p : node * string) : list node :=
  match fst p with
  | Val (VNull | VUndef) => []
  | Element type _ _ props => [Element type (VStr (escapedPrefix +:+ leafKey p)) (refOf props) props]
  | child => [child]
  end.

Lemma goodLeaf_key child index :
  goodLeaf child -> exists key, getElementKey heap child index = Ok key.
Proof.
  unfold getElementKey.
  destruct child as [v| type key r props | key c i | | | |]; simpl; intros H; try done;
    try (destruct H as [->|H]; simpl; [eauto|destruct key; try done; simpl; eauto]).
  destruct v; try done; simpl; eauto.
Qed.

Lemma childKeyOf_leafKey p : goodLeaf (fst p) -> childKeyOf heap (fst p) (snd p) = Ok (leafKey p).
Proof.
  intros H. unfold childKeyOf, leafKey. case_decide; [|done].
  by destruct (goodLeaf_key _ 0 H) as [key ->].
Qed.

Lemma strictEq_refl_key key : key = VNull \/ isString key = true -> strictEq key key = true.
Proof. intros [->|H]; [done|]. destruct key; try done. simpl. by apply bool_decide_eq_true. Qed.

Lemma pushMapped_kept escapedPrefix p array :
  goodLeaf (fst p) ->
  pushMapped heap foreignFields escapedPrefix (leafKey p) (fst p) (fst p) array
  = Ok (array ++ kept escapedPrefix p).
Proof.
  destruct p as [child name]. unfold kept. intros H. simpl in *.
  destruct child as [v| type key r props | key c i | | | |]; try done.
  - destruct v; try done; by rewrite ?app_nil_r.
  - simpl. rewrite strictEq_refl_key by done. rewrite orb_true_r. done.
Qed.

Lemma identityLeaf_kept escapedPrefix p array s :
  goodLeaf (fst p) ->
  identityLeaf heap foreignFields escapedPrefix (fst p) (snd p) array s
  = (Ok (array ++ kept escapedPrefix p), s).
Proof.
  intros H. unfold identityLeaf. rewrite childKeyOf_leafKey by done. simpl.
  by rewrite pushMapped_kept.
Qed.

Lemma identityLeaf_preserves escapedPrefix child name acc :
  preserves I (identityLeaf heap foreignFields escapedPrefix child name acc).
Proof. by intros s Hs. Qed.

Lemma runLeaves_pure {A} (leaf : node -> string -> A -> M A) (f : node * string -> A -> A) l acc s :
  (forall p acc s, p ∈ l -> leaf (fst p) (snd p) acc s = (Ok (f p acc), s)) ->
  runLeaves leaf l acc s = (Ok (fold_left (fun acc p => f p acc) l acc), s).
Proof.
  induction l as [|[child name] l IH] in acc, s |- *; intros H; simpl; [done|].
  rewrite (H (child, name)) by left. simpl. apply IH. intros. apply H. by right.
Qed.

Lemma fold_left_kept escapedPrefix l array :
  fold_left (fun array p => array ++ kept escapedPrefix p) l array
  = array ++ concat (map (kept escapedPrefix) l).
Proof.
  induction l as [|p l IH] in array |- *; simpl; [by rewrite app_nil_r|].
  by rewrite IH, <- app_assoc.
Qed.

(** [c => c] keeps the state: the leaves of a mapped array, under its prefix. *)
Lemma identity_traverse escapedPrefix n l e array s :
  settled n l e -> goodLeaves l -> I s ->
  traverse heap reactServer (identityLeaf heap foreignFields escapedPrefix) n "" array s
  = finish e l (array ++ concat (map (kept escapedPrefix) l)) s.
Proof.
  intros Hn Hl Hs.
  rewrite (traverse_visits heap reactServer I okItems _ _ _ _ _ _ _ Hn
             ltac:(intros ? ? ?; apply identityLeaf_preserves) Hs).
  rewrite (runLeaves_pure _ (fun p array => array ++ kept escapedPrefix p)); [by rewrite fold_left_kept|].
  intros p acc s' Hp. apply identityLeaf_kept.
  unfold goodLeaves in Hl. rewrite Forall_forall in Hl. by apply Hl.
Qed.

(** *** [Children.map] *)

(** [placed child key mapped out]: what the callback made of [child], at the place [key],
    puts the nodes [out] in the result. An element keeps its place and, when it has a key of
    its own that is not the child's, that key before it; the members of an array come under
    the escaped place. *)
Inductive placed (child : node) (key : string) : node -> list node -> Prop :=
| placed_none v : nullish v = true -> placed child key (Val v) []
| placed_element type k r props mine :
    (if nullish k || sameKey child k then mine = ""
     else exists t, coerceKeyToString (W := W) heap k = Ok t /\ mine = escapeUserProvidedKey t +:+ "/") ->
    placed child key (Element type k r props)
      [Element type (VStr (mine +:+ key)) (refOf props) props]
| placed_other mapped :
    isArray mapped = false -> isValidElement mapped = false -> isNullish mapped = false ->
    placed child key mapped [mapped]
| placed_array r items l :
    settled (Arr r items) l None -> goodLeaves l ->
    placed child key (Arr r items) (concat (map (kept (escapeUserProvidedKey key +:+ "/")) l)).

Section Map.
Context (func : node -> N -> M node).
(** On the leaves the callback leaves the children settled, and so are the arrays that it
    returns. *)
Context (l0 : list (node * string)).
Hypothesis func_preserves : forall child index, child ∈ l0.*1 -> preserves I (func child index).
Hypothesis func_settled : forall child index s r items s', child ∈ l0.*1 -> I s ->
  func child index s = (Ok (Arr r items), s') ->
  exists l e, settled (Arr r items) l e /\ goodLeaves l.

(** The loop over the leaves: the callback gets each leaf with its number, its result is
    placed, and the first exception ends the loop. *)
Inductive maps (e : option error) :
    list (node * string) -> N -> state W -> res (list node) -> state W -> Prop :=
| maps_done index s : maps e [] index s (match e with None => Ok [] | Some e => Throw e end) s
| maps_throws p l index s err s' :
    func (fst p) index s = (Throw err, s') -> maps e (p :: l) index s (Throw err) s'
| maps_step p l index s mapped s1 out r s2 :
    func (fst p) index s = (Ok mapped, s1) -> placed (fst p) (leafKey p) mapped out ->
    maps e l (index + 1) s1 r s2 ->
    maps e (p :: l) index s (let* rest := r in Ok (out ++ rest)) s2.

Abbreviation mapLeaf := (callbackLeaf heap foreignFields reactServer (countedCallback func) "").

Lemma mapLeaf_preserves : leavesPreserve I mapLeaf l0.
Proof.
  intros [child name] acc Hin s Hs. unfold callbackLeaf, countedCallback. simpl.
  assert (Hc : child ∈ l0.*1) by (apply list_elem_of_fmap; by exists (child, name)).
  pose proof (func_preserves child (snd acc) Hc s Hs) as H.
  pose proof (func_settled child (snd acc) s) as Hset.
  destruct (func child (snd acc) s) as [[mapped|err] s']; [|done].
  simpl. destruct (childKeyOf heap child name) as [key|err]; [|done]. simpl.
  destruct (isArray mapped) eqn:Ha.
  - destruct mapped as [v| | | |r items| | ]; try done.
    destruct (Hset r items s' Hc Hs eq_refl) as (l & e & Hl & Hgood).
    rewrite (identity_traverse _ _ _ _ _ _ Hl Hgood H). unfold finish. by destruct e.
  - by destruct (pushMapped _ _ _ _ _ _).
Qed.

Lemma mapLeaf_placed p array index s mapped s1 out :
  I s1 -> goodLeaf (fst p) -> func (fst p) index s = (Ok mapped, s1) ->
  placed (fst p) (leafKey p) mapped out ->
  mapLeaf (fst p) (snd p) (array, index) s = (Ok (array ++ out, (index + 1)%N), s1).
Proof.
  intros Hs1 Hgood Hf Hp. unfold callbackLeaf, countedCallback. simpl. rewrite Hf. simpl.
  rewrite childKeyOf_leafKey by done. simpl.
  destruct Hp as [v Hv|type k r props mine Hm|mapped Ha He Hn|r items l Hl Hg].
  - simpl. destruct v; try done; by rewrite app_nil_r.
  - simpl. destruct (nullish k || sameKey (fst p) k).
    + by subst.
    + destruct Hm as (t & -> & ->). done.
  - rewrite Ha. destruct mapped as [v| | | | | |]; try done. by destruct v.
  - simpl isArray. cbv iota. by rewrite (identity_traverse _ _ _ _ _ _ Hl Hg Hs1).
Qed.

Lemma maps_run e l index s r s' :
  maps e l index s r s' -> forall l1 array, l ⊆ l0 -> goodLeaves l -> I s ->
  (do* acc, s := runLeaves mapLeaf l (array, index) s in finish e l1 acc s)
  = (let* out := r in Ok (array ++ out, (index + N.of_nat (length l))%N, N.of_nat (length l1)), s').
Proof.
  induction 1 as [index s|p l index s err s' Hf|p l index s mapped s1 out r s2 Hf Hp _ IH];
    intros l1 array Hsub Hl Hs.
  - simpl. destruct e; simpl; [done|]. by rewrite app_nil_r, N.add_0_r.
  - destruct p as [child name]. simpl. unfold callbackLeaf, countedCallback. simpl in *. by rewrite Hf.
  - apply Forall_cons in Hl as [Hp1 Hl].
    assert (Hc : fst p ∈ l0.*1) by (apply list_elem_of_fmap; exists p; split; [done|apply Hsub; left]).
    pose proof (func_preserves (fst p) index Hc s Hs) as Hs1. rewrite Hf in Hs1. simpl in Hs1.
    pose proof (mapLeaf_placed p array index s mapped s1 out Hs1 Hp1 Hf Hp) as E.
    destruct p as [child name]. simpl in *. rewrite E. simpl. rewrite IH; [|intros q Hq; apply Hsub; by right|done|done].
    destruct r as [rest|err]; simpl; [|done]. rewrite <- app_assoc.
    replace (index + 1 + N.of_nat (length l))%N with (index + N.of_nat (S (length l)))%N by lia. done.
Qed.

Lemma map_loop n e s r s' :
  settled n l0 e -> goodLeaves l0 -> isNullish n = false -> I s ->
  maps e l0 0 s r s' ->
  mapChildrenImpl heap foreignFields reactServer n func s = (let* out := r in Ok (inr out), s').
Proof.
  intros Hn Hl Hnull Hs Hr. unfold mapChildrenImpl.
  assert (E : mapIntoArray heap foreignFields reactServer (countedCallback func) n [] "" "" 0%N s
    = (let* out := r in Ok (out, N.of_nat (length l0), N.of_nat (length l0)), s')).
  { unfold mapIntoArray.
    rewrite (traverse_visits heap reactServer I okItems _ _ _ _ _ _ _ Hn mapLeaf_preserves Hs).
    by rewrite (maps_run _ _ _ _ _ _ Hr l0 [] ltac:(done) Hl Hs). }
  unfold mapChildrenWith. destruct n as [v| | | | | |]; try (rewrite E; by destruct r).
  destruct v; try done; rewrite E; by destruct r.
Qed.
End Map.

(** C9: Children.map is the loop over the leaves: for settled children it calls the callback
    on each leaf in order, with its number and through the shared state, and the result is the
    concatenation of what is placed for each, with the keys that the nesting dictates; the
    first exception of the callback, or of a child that is no valid child, is thrown. *)
Theorem map_spec func n l e s r s' :
  settled n l e -> goodLeaves l -> isNullish n = false -> I s ->
  (forall child index, child ∈ l.*1 -> preserves I (func child index)) ->
  (forall child index s r items s', child ∈ l.*1 -> I s ->
     func child index s = (Ok (Arr r items), s') ->
     exists l e, settled (Arr r items) l e /\ goodLeaves l) ->
  maps func e l 0 s r s' ->
  map_ heap foreignFields reactServer n func s = (let* out := r in Ok (inr out), s').
Proof. intros. by eapply map_loop. Qed.

(** *** [Children.forEach], [Children.count] *)

Fixpoint forEachLeaf (f : node -> N -> M unit) (e : option error) (l : list (node * string)) (index : N)
    (s : state W) : effect (state W) unit :=
  match l with
  | [] => (match e with None => Ok tt | Some e => Throw e end, s)
  | p :: l => do* _, s := f (fst p) index s in forEachLeaf f e l (index + 1) s
  end.

Lemma forEachLeaf_maps f e l index s :
  maps (fun child index s => do* _, s := f child index s in (Ok undefined, s)) e l index s
    (let* _ := fst (forEachLeaf f e l index s) in Ok []) (snd (forEachLeaf f e l index s)).
Proof.
  induction l as [|p l IH] in index, s |- *; simpl.
  - destruct e as [err|]; [exact (maps_done _ (Some err) index s)|exact (maps_done _ None index s)].
  - destruct (f (fst p) index s) as [[u|err] s1] eqn:E; simpl.
    + specialize (IH (index + 1)%N s1).
      destruct (forEachLeaf f e l (index + 1) s1) as [[u'|err'] s2]; simpl in *.
      * apply (maps_step _ e p l index s undefined s1 [] (Ok []) s2); [by rewrite E|by constructor|done].
      * apply (maps_step _ e p l index s undefined s1 [] (Throw err') s2); [by rewrite E|by constructor|done].
    + apply maps_throws. by rewrite E.
Qed.

(** Children.forEach calls the function on each leaf of settled children in order, with
    its number, and stops at the first exception. *)
Theorem forEach_spec f n l e s :
  settled n l e -> goodLeaves l -> isNullish n = false -> I s ->
  (forall child index, child ∈ l.*1 -> preserves I (f child index)) ->
  forEach_ heap foreignFields reactServer n f s = forEachLeaf f e l 0 s.
Proof.
  intros Hn Hl Hnull Hs Hf. unfold forEach_.
  rewrite (map_loop _ l) with (e := e) (r := let* _ := fst (forEachLeaf f e l 0 s) in Ok [])
    (s' := snd (forEachLeaf f e l 0 s)); try done.
  - by destruct (forEachLeaf f e l 0 s) as [[[]|err] s'].
  - intros child index Hc s1 Hs1. pose proof (Hf child index Hc s1 Hs1) as H.
    by destruct (f child index s1) as [[]].
  - intros child index s1 r items s' _ _ E. by destruct (f child index s1) as [[]].
  - apply forEachLeaf_maps.
Qed.

Lemma count_leaves (l : list (node * string)) (array : list node) (k : N * N) :
  fold_left (fun acc (_ : node * string) => (fst acc, (fst (snd acc) + 1, snd (snd acc) + 1)%N)) l (array, k)
  = (array, (fst k + N.of_nat (length l), snd k + N.of_nat (length l))%N).
Proof.
  induction l as [|p l IH] in k |- *; simpl; [by rewrite !N.add_0_r; destruct k|].
  rewrite IH. simpl. f_equal. f_equal; lia.
Qed.

(** Children.count is the number of leaves of settled children, without effect; children
    that hold an object that is no valid child make it throw. *)
Theorem count_spec n l e s :
  settled n l e -> goodLeaves l -> isNullish n = false -> I s ->
  count heap foreignFields reactServer n s
  = (match e with None => Ok (N.of_nat (length l)) | Some e => Throw e end, s).
Proof.
  intros Hn Hl Hnull Hs. unfold count.
  set (cb := fun (_ : node) (k : N * N) (s : state W) => (Ok (undefined, (fst k + 1, snd k + 1)%N), s)).
  assert (Hleaf : forall p acc s, p ∈ l ->
    callbackLeaf heap foreignFields reactServer cb "" (fst p) (snd p) acc s
    = (Ok (fst acc, (fst (snd acc) + 1, snd (snd acc) + 1)%N), s)).
  { intros p acc s1 Hp. unfold callbackLeaf, cb. simpl.
    rewrite childKeyOf_leafKey; [done|].
    unfold goodLeaves in Hl. rewrite Forall_forall in Hl. by apply Hl. }
  assert (E : mapIntoArray heap foreignFields reactServer cb n [] "" "" (0, 0)%N s
    = finish e l ([], (N.of_nat (length l), N.of_nat (length l))) s).
  { unfold mapIntoArray.
    rewrite (traverse_visits heap reactServer I okItems _ _ _ _ _ _ _ Hn); [| |done].
    - rewrite (runLeaves_pure _ (fun _ acc => (fst acc, (fst (snd acc) + 1, snd (snd acc) + 1)%N))) by done.
      by rewrite count_leaves.
    - intros p acc Hp s1 Hs1. by rewrite Hleaf. }
  unfold mapChildrenWith. destruct n as [v| | | | | |]; try (rewrite E; by destruct e).
  destruct v; try done; rewrite E; by destruct e.
Qed.

(** *** [Children.toArray] *)

Lemma identity_maps e l index s :
  goodLeaves l ->
  maps (fun child _ s => (Ok child, s)) e l index s
    (match e with None => Ok (concat (map (kept "") l)) | Some e => Throw e end) s.
Proof.
  intros Hl. induction l as [|p l IH] in index, Hl |- *; simpl.
  { destruct e as [err|]; [exact (maps_done _ (Some err) index s)|exact (maps_done _ None index s)]. }
  apply Forall_cons in Hl as [Hp Hl].
  assert (Hplaced : placed (fst p) (leafKey p) (fst p) (kept "" p)).
  { unfold kept. destruct p as [[v|type k r props|k c i| | | |] name]; simpl in *; try done.
    - destruct v; try done; (by apply placed_none) || (by apply placed_other).
    - apply placed_element with (mine := ""). simpl. by rewrite strictEq_refl_key, orb_true_r.
    - by apply placed_other. }
  pose proof (maps_step _ e p l index s (fst p) s _ _ s eq_refl Hplaced (IH (index + 1)%N Hl)) as H.
  by destruct e.
Qed.

Lemma toArray_loop n l e s :
  settled n l e -> goodLeaves l -> I s ->
  toArray heap foreignFields reactServer n s
  = (match e with None => Ok (concat (map (kept "") l)) | Some e => Throw e end, s).
Proof.
  intros Hn Hl Hs. unfold toArray. destruct (isNullish n) eqn:Hnull.
  - destruct n as [v| | | | | |]; try done. destruct v; try done; inversion Hn; subst; done.
  - assert (Hset : forall child (index : N) s r items s', child ∈ l.*1 -> I s ->
      (Ok child, s) = (Ok (Arr r items), s') -> exists l e, settled (Arr r items) l e /\ goodLeaves l).
    { intros child index s1 r items s' Hc _ [= -> _].
      apply list_elem_of_fmap in Hc as (p & Hp & Hin). unfold goodLeaves in Hl.
      rewrite Forall_forall in Hl. apply Hl in Hin. by rewrite <- Hp in Hin. }
    rewrite (map_loop (fun child _ s => (Ok child, s)) l ltac:(intros ? ? ? ? H; exact H) Hset n e s _ s Hn Hl Hnull Hs
               (identity_maps e l 0%N s Hl)).
    by destruct e.
Qed.
(** Children.toArray is a pure function of the leaves: those that are not empty, in
    order, each element with the key of its place instead of its own; or the error of the
    first object that is no valid child. *)
Theorem toArray_spec n l e s :
  settled n l e -> goodLeaves l -> I s ->
  toArray heap foreignFields reactServer n s
  = (match e with None => Ok (concat (map (kept "") l)) | Some e => Throw e end, s).
Proof. apply toArray_loop. Qed.
End Helpers.

(** ** Distinct keys *)

Section Unique.
Context {W : Type} (heap : ref -> jsobject)
        (foreignFields : node W -> value * value * list (string * node W)) (reactServer : bool)
        (I : state W -> Prop).
Abbreviation node := (node W).

(** The key that a child states, when it can be read. *)
Definition statedKey (child : node) : option string :=
  if isObject child then
    match readKey heap child with
    | Ok key => if nullish key then None
                else match coerceKeyToString (W := W) heap key with Ok k => Some k | Throw _ => None end
    | Throw _ => None
    end
  else None.

(** Siblings state different keys. *)
Definition distinctSiblings (items : list node) : Prop :=
  forall i j x y k, items !! i = Some x -> items !! j = Some y ->
    statedKey x = Some k -> statedKey y = Some k -> i = j.

Lemma getElementKey_stated (child : node) index key :
  getElementKey heap child index = Ok key ->
  key = match statedKey child with Some k => escapeKey k | None => toString36 index end.
Proof.
  unfold getElementKey, statedKey. destruct (isObject child); [|by intros [= <-]].
  destruct (readKey heap child) as [k|]; [|done]. simpl. destruct (nullish k); [by intros [= <-]|].
  destruct (coerceKeyToString heap k) as [t|]; [|done]. by intros [= <-].
Qed.

Lemma getElementKey_decode (child : node) index key :
  getElementKey heap child index = Ok key ->
  decodeElementKey key = Some (match statedKey child with Some k => inr k | None => inl index end).
Proof.
  intros ->%getElementKey_stated. destruct (statedKey child); [apply decode_key|apply decode_index].
Qed.

Lemma getElementKey_no_colon (child : node) index key :
  getElementKey heap child index = Ok key -> notIn ":" key.
Proof.
  intros ->%getElementKey_stated. destruct (statedKey child); [apply escapeKey_no_colon|].
  apply toString36_not_in. vm_compute. right. split; reflexivity.
Qed.

(** Round trip of key components: from the component that getElementKey gives a child,
    its key, or the index of a child without one, can be read back; no component holds the
    separator. So siblings with distinct keys have distinct components. *)
Theorem elementKey_roundtrip (child : node) index key :
  getElementKey heap child index = Ok key ->
  notIn ":" key
  /\ decodeElementKey key = Some (match statedKey child with Some k => inr k | None => inl index end).
Proof. intros H. split; [by eapply getElementKey_no_colon|by apply getElementKey_decode]. Qed.

(** The names below [prefix] of the members from number [index] on. *)
Definition memberName (items : list node) (index : N) (prefix name : string) : Prop :=
  exists j x key t, items !! j = Some x /\ getElementKey heap x (index + N.of_nat j) = Ok key
    /\ startsAt ":" t /\ name = prefix +:+ (key +:+ t).

Lemma memberName_cons x items index prefix name :
  memberName items (index + 1) prefix name -> memberName (x :: items) index prefix name.
Proof.
  intros (j & y & key & t & Hj & Hk & Ht & ->). exists (S j), y, key, t. split; [done|].
  split; [|done]. rewrite <- Hk. f_equal. lia.
Qed.

Lemma distinct_tail x items : distinctSiblings (x :: items) -> distinctSiblings items.
Proof.
  intros H i j y z k Hi Hj Hy Hz. specialize (H (S i) (S j) y z k Hi Hj Hy Hz). lia.
Qed.

(** Members at different places have different components. *)
Lemma components_distinct x items index j y key key' :
  distinctSiblings (x :: items) -> items !! j = Some y ->
  getElementKey heap x index = Ok key ->
  getElementKey heap y (index + 1 + N.of_nat j) = Ok key' -> key <> key'.
Proof.
  intros Hd Hj Hx Hy E. subst key'.
  apply getElementKey_decode in Hx, Hy. rewrite Hx in Hy.
  destruct (statedKey x) as [k|] eqn:Ex, (statedKey y) as [k'|] eqn:Ey; try congruence.
  - assert (k = k') as <- by congruence.
    specialize (Hd 0 (S j) x y k eq_refl Hj Ex Ey). lia.
  - injection Hy as Hy. lia.
Qed.

Lemma prefix_nonempty name : nextNamePrefix name <> "".
Proof. unfold nextNamePrefix. case_decide; [done|]. destruct name; done. Qed.

Lemma app_nonempty (p k : string) : p <> "" -> p +:+ k <> "".
Proof. by destruct p. Qed.

(** The names of the leaves below a name, and their distinctness. *)
Lemma visits_names :
  (forall n name l e, visits heap reactServer I distinctSiblings n name l e -> name <> "" ->
     NoDup l.*2 /\ forall p, p ∈ l -> exists t, startsAt ":" t /\ snd p = name +:+ t)
  /\ (forall items index prefix l e, visitsAll heap reactServer I distinctSiblings items index prefix l e ->
     distinctSiblings items -> prefix <> "" ->
     NoDup l.*2 /\ forall p, p ∈ l -> memberName items index prefix (snd p)).
Proof.
  assert (Hone : forall (child : node) name, name <> "" ->
    NoDup [(child, name)].*2 /\ forall p, p ∈ [(child, name)] ->
      exists t, startsAt ":" t /\ snd p = name +:+ t).
  { intros child name Hn. split; [apply NoDup_singleton|].
    intros p ->%list_elem_of_singleton. exists "". split; [by left|]. by rewrite string_app_nil_r. }
  assert (Hnone : forall {A} (P : A -> Prop), NoDup (@nil string) /\ forall p : A, p ∈ [] -> P p).
  { intros A P. split; [constructor|]. intros p Hp. by apply not_elem_of_nil in Hp. }
  assert (Hlist : forall items name l, name <> "" ->
    (distinctSiblings items -> nextNamePrefix name <> "" ->
     NoDup l.*2 /\ forall p : node * string, p ∈ l -> memberName items 0 (nextNamePrefix name) (snd p)) ->
    distinctSiblings items ->
    NoDup l.*2 /\ forall p, p ∈ l -> exists t, startsAt ":" t /\ snd p = name +:+ t).
  { intros items name l Hn IH Hd. destruct (IH Hd (prefix_nonempty name)) as [H1 H2].
    split; [done|]. intros p Hp. destruct (H2 p Hp) as (j & x & key & t & _ & _ & _ & ->).
    unfold nextNamePrefix. rewrite decide_False by done. rewrite string_app_assoc.
    eexists. split; [|done]. right. by eexists. }
  apply visits_ind2.
  - intros; by apply Hone.
  - intros; by apply Hone.
  - intros; apply Hnone.
  - intros; by apply Hone.
  - intros; by apply Hone.
  - auto.
  - intros; apply Hnone.
  - intros r items name l e Hd _ IH Hn. by apply (Hlist items).
  - intros r steps items name l e _ Hd _ IH Hn. by apply (Hlist items).
  - auto.
  - intros; by apply Hone.
  - intros; apply Hnone.
  - intros; apply Hnone.
  - intros; apply Hnone.
  - intros; apply Hnone.
  - intros x xs index prefix key l l' e Hk _ IHx _ IHxs Hd Hp.
    destruct (IHx (app_nonempty prefix key Hp)) as [Hnd Hx].
    destruct (IHxs (distinct_tail _ _ Hd) Hp) as [Hnd' Hxs].
    split.
    + rewrite fmap_app. apply NoDup_app. split; [done|split; [|done]].
      intros nm (p & -> & Hin)%list_elem_of_fmap (q & Hq & Hin')%list_elem_of_fmap.
      destruct (Hx p Hin) as (t & Ht & Ep).
      destruct (Hxs q Hin') as (j & y & key' & t' & Hj & Hk' & Ht' & Eq).
      rewrite Ep, Eq, string_app_assoc in Hq. apply string_app_inj_l in Hq.
      apply (split_unique ":") in Hq as [E _]; try done;
        [|by eapply getElementKey_no_colon|by eapply getElementKey_no_colon].
      by apply (components_distinct x xs index j y key key').
    + intros p [Hin|Hin]%elem_of_app; [|by apply memberName_cons, Hxs].
      destruct (Hx p Hin) as (t & Ht & ->). exists 0, x, key, t.
      split; [done|]. rewrite N.add_0_r. split; [done|]. split; [done|]. by rewrite string_app_assoc.
  - intros x xs index prefix key l e Hk _ IHx Hd Hp.
    destruct (IHx (app_nonempty prefix key Hp)) as [Hnd Hx]. split; [done|].
    intros p Hin. destruct (Hx p Hin) as (t & Ht & ->). exists 0, x, key, t.
    split; [done|]. rewrite N.add_0_r. split; [done|]. split; [done|]. by rewrite string_app_assoc.
  - intros; apply Hnone.
Qed.

Abbreviation settled n l e := (visits heap reactServer I distinctSiblings n "" l e).

Lemma leafKey_named (p : node * string) : snd p <> "" -> leafKey heap p = snd p.
Proof. unfold leafKey. intros H. by rewrite decide_False. Qed.

Lemma member_leafKeys items l :
  NoDup l.*2 -> (forall p : node * string, p ∈ l -> memberName items 0 "." (snd p)) ->
  NoDup (map (leafKey heap) l).
Proof.
  intros Hnd Hm. replace (map (leafKey heap) l) with l.*2; [done|].
  apply map_ext_in. intros p Hp. symmetry. apply leafKey_named.
  apply list_elem_of_In in Hp. destruct (Hm p Hp) as (j & x & key & t & _ & _ & _ & ->). done.
Qed.

Lemma root_leafKeys n name l e :
  visits heap reactServer I distinctSiblings n name l e -> name = "" -> NoDup (map (leafKey heap) l).
Proof.
  revert n name l e.
  apply (visits_mut heap reactServer I distinctSiblings
           (fun _ name l _ => name = "" -> NoDup (map (leafKey heap) l)) (fun _ _ _ _ _ => True));
    try (by intros; auto); try (intros; apply (NoDup_singleton (leafKey heap _)));
    try (intros; exact (NoDup_nil_2)).
  - intros r items nm l e Hd Hall _ E. subst nm.
    destruct (proj2 visits_names _ _ _ _ _ Hall Hd (prefix_nonempty "")) as [H1 H2].
    by apply (member_leafKeys items).
  - intros r steps items nm l e _ Hd Hall _ E. subst nm.
    destruct (proj2 visits_names _ _ _ _ _ Hall Hd (prefix_nonempty "")) as [H1 H2].
    by apply (member_leafKeys items).
Qed.

Definition elementKey (n : node) : option string :=
  match n with Element _ (VStr key) _ _ => Some key | _ => None end.

Lemma kept_keys (l : list (node * string)) :
  sublist (omap elementKey (concat (map (kept heap "") l))) (map (leafKey heap) l).
Proof.
  induction l as [|p l IH]; simpl; [constructor|]. rewrite omap_app. unfold kept at 1.
  destruct p as [[v|type k r props|k c i| | | |] name]; simpl; try (by constructor).
  destruct v; by constructor.
Qed.

(** C22: Keys that toArray makes are unique: when no two members of one array or iterable
    state the same key, at any depth, each element of the flat array has a string key and no
    two have the same, whatever characters the keys contain. *)
Theorem toArray_keys_distinct n l s :
  settled n l None -> goodLeaves l -> I s ->
  exists array, toArray heap foreignFields reactServer n s = (Ok array, s)
    /\ (forall el, el ∈ array -> isValidElement el = true -> exists key, elementKey el = Some key)
    /\ NoDup (omap elementKey array).
Proof.
  intros Hn Hl Hs. exists (concat (map (kept heap "") l)).
  split; [by apply (toArray_loop heap foreignFields reactServer I distinctSiblings n l None)|].
  split.
  - intros el Hel Hv. apply list_elem_of_In, in_concat in Hel as (out & Hout & Hel).
    apply in_map_iff in Hout as ([child name] & <- & _). unfold kept in Hel. simpl in Hel.
    destruct child as [v| | | | | |]; simpl in Hel; try (destruct Hel as [<-|[]]; done).
    + destruct v; simpl in Hel; try done; destruct Hel as [<-|[]]; done.
    + destruct Hel as [<-|[]]. simpl. eauto.
  - eapply sublist_NoDup; [|apply kept_keys]. by eapply root_leafKeys.
Qed.
End Unique.

(** ** Thenables *)

Section Suspense.
Context {W : Type} (r : ref) (fulfilled : bool).

(** What happens to a thenable: a render reads it, or its promise settles and calls the
    callbacks that wait. *)
Inductive thenableEvent : Type := Attempt | Settle.

Definition thenableStep (s : state W) (ev : thenableEvent) : state W :=
  match ev with
  | Attempt => snd (resolveThenable r fulfilled tt tt VUndef s)
  | Settle => setThenable r (settle fulfilled (getThenable r s)) s
  end.

Definition finalStatus : value := VStr (if fulfilled then "fulfilled" else "rejected").

(** The three phases of a thenable. *)
Definition untouched (t : thenable) : Prop := isString (th_status t) = false.
Definition suspended (t : thenable) : Prop := th_status t = VStr "pending" /\ Track ∈ th_handlers t.
Definition resolved (t : thenable) : Prop :=
  th_status t = finalStatus /\ (if fulfilled then th_hasValue t else th_hasReason t) = true.

Lemma getThenable_set t s : getThenable (W := W) r (setThenable r t s) = t.
Proof. unfold getThenable, setThenable. simpl. by rewrite lookup_insert_eq. Qed.

Lemma run_resolved h t : resolved t -> runHandler fulfilled h t = t.
Proof. unfold resolved, finalStatus. intros [H _]. destruct h; simpl; [done|]. rewrite H. by destruct fulfilled. Qed.

Lemma run_untouched h t : untouched t -> runHandler fulfilled h t = t.
Proof. unfold untouched. destruct h; simpl; [done|]. unfold isStr. intros H. case_bool_decide as E; [|done]. by rewrite E in H. Qed.

Lemma fold_resolved l t : resolved t -> fold_left (fun t h => runHandler fulfilled h t) l t = t.
Proof. intros H. induction l as [|h l IH]; simpl; [done|]. by rewrite run_resolved. Qed.

Lemma fold_untouched l t : untouched t -> fold_left (fun t h => runHandler fulfilled h t) l t = t.
Proof. intros H. induction l as [|h l IH]; simpl; [done|]. by rewrite run_untouched. Qed.

Lemma fold_pending l t :
  th_status t = VStr "pending" -> Track ∈ l ->
  resolved (fold_left (fun t h => runHandler fulfilled h t) l t).
Proof.
  intros Ht. induction l as [|h l IH]; intros Hin; [by apply not_elem_of_nil in Hin|].
  simpl. destruct h; simpl.
  - apply IH. by apply elem_of_cons in Hin as [?|?].
  - unfold isStr. rewrite Ht. simpl. rewrite fold_resolved; unfold resolved, finalStatus; by destruct fulfilled.
Qed.

Lemma settle_resolved t : resolved t \/ suspended t -> resolved (settle fulfilled t).
Proof.
  intros [H|[H Hin]]; unfold settle.
  - rewrite fold_resolved by done. exact H.
  - exact (fold_pending _ _ H Hin).
Qed.

(** The state after a read of a thenable that is not resolved. *)
Lemma attempt_state s :
  ~ isStr (th_status (getThenable r s)) "fulfilled" -> ~ isStr (th_status (getThenable r s)) "rejected" ->
  getThenable r (thenableStep s Attempt)
  = let t := getThenable r s in
    if isString (th_status t) then then_ fulfilled Noop t
    else then_ fulfilled Track (setStatus (VStr "pending") t).
Proof.
  intros H1 H2. simpl. unfold resolveThenable.
  destruct (isStr (th_status (getThenable r s)) "fulfilled"); [by destruct H1|].
  destruct (isStr (th_status (getThenable r s)) "rejected"); [by destruct H2|].
  repeat case_match; simpl; by rewrite getThenable_set.
Qed.

Lemma attempt_phase s :
  untouched (getThenable r s) \/ suspended (getThenable r s) \/ resolved (getThenable r s) ->
  let s' := thenableStep s Attempt in suspended (getThenable r s') \/ resolved (getThenable r s').
Proof.
  intros [H|[[H Hin]|H]] s'.
  - unfold s'. unfold untouched in H.
    assert (E : forall x, ~ isStr (th_status (getThenable r s)) x)
      by (intros x Hx%bool_decide_unpack; by rewrite Hx in H).
    rewrite attempt_state by apply E. simpl. rewrite H. unfold then_. simpl.
    destruct (th_settled (getThenable r s) && th_sync (getThenable r s)); [right; unfold resolved, finalStatus; by destruct fulfilled|].
    left. split; [done|]. simpl. apply elem_of_app. right. left.
  - unfold s'. rewrite attempt_state by (rewrite H; intros ?%bool_decide_unpack; congruence).
    simpl. rewrite H. simpl. unfold then_. left.
    destruct (th_settled (getThenable r s) && th_sync (getThenable r s)); [by split|].
    split; [done|]. simpl. apply elem_of_app. by left.
  - right. unfold s', thenableStep, resolveThenable, resolved, finalStatus in *. destruct H as [H H'].
    rewrite H. by destruct fulfilled.
Qed.

Lemma resolved_final {A} (value_ undefined_ : A) reason (s : state W) :
  resolved (getThenable r s) ->
  resolveThenable r fulfilled value_ undefined_ reason s
  = (if fulfilled then Ok value_ else Throw (Thrown reason), s).
Proof.
  unfold resolved, finalStatus, resolveThenable, isStr, readValue, readReason. intros [-> H].
  destruct fulfilled; simpl; by rewrite H.
Qed.

Lemma steps_phase (P : thenable -> Prop) evs s :
  (forall ev s, P (getThenable r s) -> P (getThenable r (thenableStep s ev))) ->
  P (getThenable r s) -> P (getThenable r (fold_left thenableStep evs s)).
Proof. intros H. induction evs as [|ev evs IH] in s |- *; simpl; auto. Qed.

Lemma touched_stays ev s :
  suspended (getThenable r s) \/ resolved (getThenable r s) ->
  suspended (getThenable r (thenableStep s ev)) \/ resolved (getThenable r (thenableStep s ev)).
Proof.
  intros H. destruct ev; [apply attempt_phase; tauto|].
  right. simpl. rewrite getThenable_set. apply settle_resolved. tauto.
Qed.

Lemma any_phase ev s :
  untouched (getThenable r s) \/ suspended (getThenable r s) \/ resolved (getThenable r s) ->
  untouched (getThenable r (thenableStep s ev)) \/ suspended (getThenable r (thenableStep s ev))
  \/ resolved (getThenable r (thenableStep s ev)).
Proof.
  intros H. destruct ev; [right; by apply attempt_phase|].
  destruct H as [H|H].
  - left. simpl. rewrite getThenable_set. unfold settle. by rewrite fold_untouched.
  - right. by apply touched_stays.
Qed.

Lemma resolved_stays ev s :
  resolved (getThenable r s) -> resolved (getThenable r (thenableStep s ev)).
Proof.
  intros H. destruct ev.
  - unfold thenableStep. by rewrite resolved_final.
  - simpl. rewrite getThenable_set. apply settle_resolved. by left.
Qed.

(** C35: A suspended thenable resolves, when its [status] is no string at first: whatever else
    happens, once a render has read the thenable and its promise has settled after that, every
    later read returns the value that the promise was fulfilled with, from [thenable.value],
    or throws the reason of its rejection, from [thenable.reason], and changes nothing. (A
    thenable that comes with a status string of its own, other than "fulfilled" and
    "rejected", is only waited for.) *)
Theorem thenable_resolves {A} (value_ undefined_ : A) reason before between after s :
  isString (th_status (getThenable r s)) = false ->
  let s' := fold_left thenableStep (before ++ Attempt :: between ++ Settle :: after) s in
  resolveThenable r fulfilled value_ undefined_ reason s'
  = (if fulfilled then Ok value_ else Throw (Thrown reason), s').
Proof.
  intros H s'. apply resolved_final. unfold s'.
  rewrite fold_left_app. simpl. rewrite fold_left_app. simpl.
  apply steps_phase; [apply resolved_stays|]. simpl. rewrite getThenable_set. apply settle_resolved.
  apply or_comm. apply (steps_phase (fun t => suspended t \/ resolved t)); [apply touched_stays|].
  apply attempt_phase.
  apply (steps_phase (fun t => untouched t \/ suspended t \/ resolved t)); [apply any_phase|by left].
Qed.
End Suspense.

(** ** The theorems at concrete children *)

Section Sample.
Definition element (key : value) : node unit := Element (VStr "i") key (Val VNull) [].
Definition thenableRef : ref := User 7.
Definition lastRef : ref := User 9.

(** A keyed element, a text, a nested array, a loaded lazy, a Set of two, a fulfilled
    thenable, and what is skipped or empty. *)
Definition sampleChildren : node unit :=
  Arr (User 1)
    [element (VStr "a:=/b"); str "text"; Arr (User 2) [element VNull; element (VStr "0")];
     Lazy (User 3) (fun s => (Ok (element (VStr "lazy")), s));
     Iter (User 4) [fun s => (Ok (element VNull), s); fun s => (Ok (Val (VNum (Finite 5 0))), s)];
     Thenable thenableRef (inl (element VNull)); Val (VBool false); Val (VFun (User 5))].
Definition sampleNames : list string :=
  [".$a=2=0/b"; ".1"; ".2:0"; ".2:$0"; ".3"; ".4:0"; ".4:1"; ".5"; ".6"].
Definition sampleLeaves : list (node unit * string) :=
  zip [element (VStr "a:=/b"); str "text"; element VNull; element (VStr "0"); element (VStr "lazy");
       element VNull; Val (VNum (Finite 5 0)); element VNull; Val VNull] sampleNames.
Definition sampleState : state unit :=
  mkState tt {[ thenableRef := mkThenable (VStr "fulfilled") true false true false [] ]}.
Definition isSample (s : state unit) : Prop := s = sampleState.

Ltac visiting :=
  lazymatch goal with
  | |- visits _ _ _ _ (Val (VObj _)) _ _ _ => eapply visits_object; reflexivity
  | |- visits _ _ _ _ (Val _) _ _ _ =>
      first [eapply visits_value; reflexivity | eapply visits_empty; reflexivity
            | eapply visits_skipped; reflexivity]
  | |- visits _ _ _ _ (Element _ _ _ _) _ _ _ => eapply visits_element
  | |- visits _ _ _ _ (Lazy _ _) _ _ _ => eapply visits_lazy; [intros; reflexivity|visiting]
  | |- visits _ _ _ _ (Arr _ _) _ _ _ => eapply visits_array; [siblings|visiting]
  | |- visits _ _ _ _ (Iter _ _) _ _ _ =>
      eapply visits_iterable; [repeat constructor|siblings|visiting]
  | |- visits _ _ _ _ (Thenable _ _) _ _ _ =>
      eapply visits_fulfilled; [intros ? ->; split; reflexivity|visiting]
  | |- visits _ _ _ _ _ _ _ _ => unfold element, str; visiting
  | |- visitsAll _ _ _ _ [] _ _ _ _ => eapply visitsAll_nil
  | |- visitsAll _ _ _ _ _ _ _ _ _ => eapply visitsAll_cons; [reflexivity|visiting|visiting]
  end
with siblings :=
  let i := fresh in let j := fresh in
  intros i j ? ? ? ? ? ? ?;
  repeat (destruct i as [|i]; simplify_eq/=; try done); repeat (destruct j as [|j]; simplify_eq/=; try done).

Abbreviation settledSample n l e := (visits plainHeap false isSample (distinctSiblings plainHeap) n "" l e).

Lemma sample_settled : settledSample sampleChildren sampleLeaves None.
Proof.
  assert (H : exists l, settledSample sampleChildren l None /\ l = sampleLeaves).
  { eexists. split; [unfold sampleChildren; visiting|reflexivity]. }
  by destruct H as (l & H & ->).
Qed.

Ltac goods :=
  unfold goodLeaves; repeat (apply Forall_cons_2 || apply Forall_nil_2);
  first [reflexivity | by left | by right].

Lemma sample_good : goodLeaves sampleLeaves.
Proof. goods. Qed.

Definition pairChildren : node unit := Arr (User 1) [element (VStr "a/"); str "t"].
Definition pairLeaves : list (node unit * string) := [(element (VStr "a/"), ".$a/"); (str "t", ".1")].
Lemma pair_settled : settledSample pairChildren pairLeaves None.
Proof.
  assert (H : exists l, settledSample pairChildren l None /\ l = pairLeaves).
  { eexists. split; [unfold pairChildren; visiting|reflexivity]. }
  by destruct H as (l & H & ->).
Qed.

(** The first child becomes an array, the second a keyed element. *)
Definition twoOrOne (child : node unit) (index : N) (s : state unit) : effect (state unit) (node unit) :=
  (Ok (if (index =? 0)%N then Arr (User 6) [element VNull; element (VStr "z")]
       else element (VStr "m/")), s).

Lemma twoOrOne_settled (s s' : state unit) child index r items :
  twoOrOne child index s = (Ok (Arr r items), s') ->
  exists l e, settledSample (Arr r items) l e /\ goodLeaves l.
Proof.
  unfold twoOrOne. destruct (index =? 0)%N; [|done]. intros [= <- <- <-].
  eexists _, None. split; [visiting|goods].
Qed.

Lemma map_spec_witness :
  map_ plainHeap noFields false pairChildren twoOrOne sampleState
  = (Ok (inr [element (VStr ".$a///.0"); element (VStr ".$a///.$z"); element (VStr "m///.1")]), sampleState).
Proof.
  refine (map_spec plainHeap noFields false isSample (distinctSiblings plainHeap) twoOrOne pairChildren pairLeaves
            None sampleState
            (Ok [element (VStr ".$a///.0"); element (VStr ".$a///.$z"); element (VStr "m///.1")])
            sampleState pair_settled _ eq_refl eq_refl _ _ _).
  - goods.
  - intros child index _ s Hs. exact Hs.
  - intros child index s r items s' _ _. apply twoOrOne_settled.
  - refine (maps_step plainHeap false isSample (distinctSiblings plainHeap) twoOrOne None _ _ 0 sampleState
              (Arr (User 6) [element VNull; element (VStr "z")]) sampleState
              [element (VStr ".$a///.0"); element (VStr ".$a///.$z")] (Ok [element (VStr "m///.1")])
              sampleState eq_refl _ _).
    + refine (placed_array plainHeap false isSample _ _ _ (User 6) _
                [(element VNull, ".0"); (element (VStr "z"), ".$z")] _ _); [|goods].
      assert (H : exists l, settledSample (Arr (User 6) [element VNull; element (VStr "z")]) l None
        /\ l = [(element VNull, ".0"); (element (VStr "z"), ".$z")])
        by (eexists; split; [visiting|reflexivity]).
      destruct H as (l & H & E). rewrite <- E. exact H.
    + refine (maps_step plainHeap false isSample (distinctSiblings plainHeap) twoOrOne None _ _ 1 sampleState
                (element (VStr "m/")) sampleState [element (VStr "m///.1")] (Ok []) sampleState eq_refl _ _).
      * refine (placed_element plainHeap false isSample _ _ _ _ _ _ [] "m///" _). exists "m/". split; reflexivity.
      * exact (maps_done plainHeap false isSample _ twoOrOne None 2 sampleState).
Defined.

Definition logFirst (child : node unit) (index : N) (s : state unit) : effect (state unit) unit :=
  if (index =? 4)%N then (Throw (Thrown (VStr "stop")), s) else (Ok tt, s).
Lemma forEach_spec_witness :
  forEach_ plainHeap noFields false sampleChildren logFirst sampleState
  = (Throw (Thrown (VStr "stop")), sampleState).
Proof.
  rewrite (forEach_spec plainHeap noFields false isSample (distinctSiblings plainHeap) logFirst
             sampleChildren sampleLeaves None sampleState sample_settled sample_good eq_refl eq_refl).
  - reflexivity.
  - intros child index _ s Hs. unfold logFirst. by destruct (index =? 4)%N.
Defined.

Definition invalidChildren : node unit := Arr (User 1) [str "x"; Val (VObj (User 8))].
Lemma invalid_settled : settledSample invalidChildren [(str "x", ".0")]
  (Some (invalidObjectChild plainHeap (User 8) "[object Object]" false)).
Proof.
  apply visits_array; [siblings|].
  apply (visitsAll_cons plainHeap false isSample _ (str "x") _ 0 "." "0" [(str "x", ".0")] []);
    [reflexivity|apply visits_value; reflexivity|].
  apply (visitsAll_throws plainHeap false isSample _ _ _ _ _ "1"); [reflexivity|].
  by apply visits_object.
Qed.

Lemma count_spec_witness :
  count plainHeap noFields false sampleChildren sampleState = (Ok 9%N, sampleState)
  /\ count plainHeap noFields false invalidChildren sampleState
     = (Throw (PlainError "Objects are not valid as a React child (found: object with keys {}). If you meant to render a collection of children, use an array instead."),
        sampleState).
Proof.
  split.
  - exact (count_spec plainHeap noFields false isSample (distinctSiblings plainHeap) _ _ None sampleState
             sample_settled sample_good eq_refl eq_refl).
  - rewrite (count_spec plainHeap noFields false isSample (distinctSiblings plainHeap) _ _ _ sampleState
               invalid_settled ltac:(goods) eq_refl eq_refl). reflexivity.
Defined.

Lemma toArray_spec_witness :
  toArray plainHeap noFields false sampleChildren sampleState
  = (Ok [element (VStr ".$a=2=0/b"); str "text"; element (VStr ".2:0"); element (VStr ".2:$0");
         element (VStr ".3"); element (VStr ".4:0"); Val (VNum (Finite 5 0)); element (VStr ".5")], sampleState).
Proof.
  rewrite (toArray_spec plainHeap noFields false isSample (distinctSiblings plainHeap) _ _ None sampleState
             sample_settled sample_good eq_refl). reflexivity.
Defined.

Lemma toArray_keys_distinct_witness :
  exists array, toArray plainHeap noFields false sampleChildren sampleState = (Ok array, sampleState)
    /\ NoDup (omap elementKey array).
Proof.
  destruct (toArray_keys_distinct plainHeap noFields false isSample sampleChildren sampleLeaves sampleState
              sample_settled sample_good eq_refl) as (array & H1 & _ & H3).
  exists array. exact (conj H1 H3).
Defined.

Lemma elementKey_roundtrip_witness :
  getElementKey plainHeap (element (VStr "a:=/b")) 3 = Ok "$a=2=0/b"
  /\ decodeElementKey "$a=2=0/b" = Some (inr "a:=/b").
Proof.
  split; [reflexivity|].
  exact (proj2 (elementKey_roundtrip plainHeap (element (VStr "a:=/b")) 3 "$a=2=0/b" eq_refl)).
Defined.

Lemma thenable_resolves_witness :
  let s := fold_left (thenableStep (User 2) true) [Settle; Attempt; Attempt; Settle; Attempt] (mkState tt ∅) in
  fst (resolveThenable (User 2) true 5 0 VUndef (mkState tt ∅)) = Throw (Thrown (VObj (User 2)))
  /\ resolveThenable (User 2) true 5 0 VUndef s = (Ok 5, s).
Proof.
  split; [reflexivity|].
  exact (thenable_resolves (User 2) true 5 0 VUndef [Settle] [Attempt] [Attempt] (mkState tt ∅) eq_refl).
Defined.
End Sample.
