(* ===== verification/ReactWrappers.v ===== *)
(** * Component wrappers, lazy loading, refs and contexts

    packages/react/wrapper-object.js ([memo], [forwardRef], [lazy]), ref-object.js and
    context-object.js in the production build. The objects they make are [jsobject]s; the
    payload of a lazy type is a state machine that the renderer's reads and the promise of
    the user's loader drive. *)
From S2P Require Import Prelude JsValue ReactElement ChildrenHelper.

Definition memo (type compare : value) : jsobject :=
  literal [("$$typeof", REACT_MEMO_TYPE); ("type", type);
           ("compare", match compare with VUndef => VNull | _ => compare end)].

Definition forwardRef (render : value) : jsobject :=
  literal [("$$typeof", REACT_FORWARD_REF_TYPE); ("render", render)].

(** The lazy type, given the object of its payload. *)
Definition lazyType (payload : ref) : jsobject :=
  literal [("$$typeof", REACT_LAZY_TYPE); ("_payload", VObj payload);
           ("_init", VFun (Builtin "lazyInitializer"))].

Definition createRef : jsobject := literal [("current", VNull)].

(** The context object at [self], whose consumer is the object at [consumer]. *)
Definition createContext (defaultValue : value) (self consumer : ref) : jsobject :=
  literal [("$$typeof", REACT_CONTEXT_TYPE); ("_currentValue", defaultValue);
           ("_currentValue2", defaultValue); ("_threadCount", VNum (Finite 0 0));
           ("Provider", VObj self); ("Consumer", VObj consumer)].
Definition contextConsumer (context : ref) : jsobject :=
  literal [("$$typeof", REACT_CONSUMER_TYPE); ("_context", VObj context)].

(** ** Lazy payloads *)

Section Lazy.
Context {A W : Type}.

(** [_result]: the loader, the promise that it returned, the module's default export, or
    the reason of a rejection. *)
Inductive payloadResult : Type :=
| Loader
| Loading (promise : ref)
| Loaded (default : A)
| Failed (reason : value).
Record payload : Type := mkPayload {
  p_status : Z;
  p_result : payloadResult }.

Definition lazy : payload := mkPayload (-1) Loader.

(** The callbacks that [lazyInitializerProduction] passes to [then]. *)
Definition onSettled (settlement : A + value) (p : payload) : payload :=
  if (p_status p =? 0)%Z || (p_status p =? -1)%Z then
    match settlement with
    | inl exported => mkPayload 1 (Loaded exported)
    | inr reason => mkPayload 2 (Failed reason)
    end
  else p.

(** What the loader's promise does when [then] is called: nothing yet, or it calls back at
    once. *)
Definition loader : Type := W -> effect W (ref * option (A + value)).

(** [throw payload._result]; the loader itself and a module are functions and objects of
    the program. *)
Definition thrownResult (r : payloadResult) : value :=
  match r with
  | Loader => VFun (Builtin "ctor")
  | Loading promise => VObj promise
  | Loaded _ => VObj (Builtin "module")
  | Failed reason => reason
  end.

Definition lazyInitializerProduction (ctor : loader) (p : payload) (w : W) : effect (payload * W) A :=
  match (if (p_status p =? -1)%Z then
           match ctor w with
           | (Throw e, w) => (Throw e, (p, w))
           | (Ok (promise, immediate), w) =>
               let p := match immediate with Some s => onSettled s p | None => p end in
               (Ok tt, (if (p_status p =? -1)%Z then mkPayload 0 (Loading promise) else p, w))
           end
         else (Ok tt, (p, w))) with
  | (Throw e, pw) => (Throw e, pw)
  | (Ok _, (p, w)) =>
      match p_result p with
      | Loaded exported => if (p_status p =? 1)%Z then (Ok exported, (p, w))
                           else (Throw (Thrown (thrownResult (p_result p))), (p, w))
      | r => (Throw (Thrown (thrownResult r)), (p, w))
      end
  end.

(** ** The life of a payload *)

Inductive lazyEvent : Type :=
| Read
| Settled (settlement : A + value).

(** The state: the payload, the world, and how often the loader has been called. *)
Definition lazyState : Type := (payload * W * nat)%type.

Definition lazyStep (ctor : loader) (s : lazyState) (ev : lazyEvent) : lazyState :=
  let '(p, w, calls) := s in
  match ev with
  | Read => let '(_, (p', w')) := lazyInitializerProduction ctor p w in
            (p', w', if (p_status p =? -1)%Z then S calls else calls)
  | Settled settlement =>
      (** the promise calls back only when [then] was called on it *)
      (if (p_status p =? -1)%Z then p else onSettled settlement p, w, calls)
  end.

Definition payloadOk (p : payload) : Prop :=
  match p_result p with
  | Loader => p_status p = (-1)%Z
  | Loading _ => p_status p = 0%Z
  | Loaded _ => p_status p = 1%Z
  | Failed _ => p_status p = 2%Z
  end.

Lemma onSettled_ok s p : payloadOk p -> payloadOk (onSettled s p).
Proof. unfold onSettled. intros H. case_match; [|done]. by destruct s. Qed.

(** What a read does to a payload in each phase. *)
Lemma read_spec (ctor : loader) p w :
  payloadOk p ->
  match p_result p with
  | Loader => lazyInitializerProduction ctor p w =
      match ctor w with
      | (Throw e, w) => (Throw e, (p, w))
      | (Ok (promise, None), w) => (Throw (Thrown (VObj promise)), (mkPayload 0 (Loading promise), w))
      | (Ok (_, Some (inl exported)), w) => (Ok exported, (mkPayload 1 (Loaded exported), w))
      | (Ok (_, Some (inr reason)), w) => (Throw (Thrown reason), (mkPayload 2 (Failed reason), w))
      end
  | Loading promise => lazyInitializerProduction ctor p w = (Throw (Thrown (VObj promise)), (p, w))
  | Loaded exported => lazyInitializerProduction ctor p w = (Ok exported, (p, w))
  | Failed reason => lazyInitializerProduction ctor p w = (Throw (Thrown reason), (p, w))
  end.
Proof.
  destruct p as [st res]. unfold payloadOk, lazyInitializerProduction. simpl.
  destruct res; intros ->; simpl; try done.
  by destruct (ctor w) as [[[promise [[exported|reason]|]]|e] w'].
Qed.

Lemma step_ok ctor s ev : payloadOk (fst (fst s)) -> payloadOk (fst (fst (lazyStep ctor s ev))).
Proof.
  destruct s as [[p w] calls]. intros H. simpl in H. destruct ev; simpl.
  - pose proof (read_spec ctor p w H) as E. destruct p as [st res]. simpl in *.
    destruct res; try (rewrite E; exact H). rewrite E.
    by destruct (ctor w) as [[[promise [[exported|reason]|]]|e] w'].
  - case_match; [done|]. by apply onSettled_ok.
Qed.

(** A lazy type loads once: while the loader does not throw it is called by the first
    read only; until its promise settles every read throws that promise, and from the
    settlement on every read returns the default export, or throws the reason, for ever. *)
Theorem lazy_loads_once (ctor : loader) evs w :
  (forall w, exists r w', ctor w = (Ok r, w')) ->
  let '(p, w', calls) := fold_left (lazyStep ctor) evs (lazy, w, 0) in
  calls <= 1 /\ (calls = 0 <-> p = lazy) /\ payloadOk p
  /\ (forall later, (match p_result p with Loaded _ | Failed _ => True | _ => False end) ->
        fold_left (lazyStep ctor) later (p, w', calls) = (p, w', calls))
  /\ (forall promise, p_result p = Loading promise ->
        fst (lazyInitializerProduction ctor p w') = Throw (Thrown (VObj promise))
        /\ forall settlement, exists p', lazyStep ctor (p, w', calls) (Settled settlement) = (p', w', calls)
             /\ fst (lazyInitializerProduction ctor p' w')
                = match settlement with inl x => Ok x | inr e => Throw (Thrown e) end).
Proof.
  intros Hctor.
  assert (Inv : let s := fold_left (lazyStep ctor) evs (lazy, w, 0) in
    snd s <= 1 /\ (snd s = 0 <-> fst (fst s) = lazy) /\ payloadOk (fst (fst s))).
  { cut (forall s, snd s <= 1 /\ (snd s = 0 <-> fst (fst s) = lazy) /\ payloadOk (fst (fst s)) ->
           let s' := fold_left (lazyStep ctor) evs s in
           snd s' <= 1 /\ (snd s' = 0 <-> fst (fst s') = lazy) /\ payloadOk (fst (fst s'))).
    { intros H. apply H. simpl. split; [lia|done]. }
    induction evs as [|ev evs IH]; intros s Hs; [done|]. simpl. apply IH.
    destruct Hs as (H1 & H2 & H3). pose proof (step_ok ctor s ev H3) as Hok.
    split; [|split; [|done]]; destruct s as [[p w1] calls]; simpl in *.
    - destruct ev; [|done]. destruct (lazyInitializerProduction ctor p w1) as [? [p' w2]]. simpl.
      destruct (Z.eqb_spec (p_status p) (-1)) as [E|E]; [|done].
      assert (p = lazy) as ->; [|assert (calls = 0) by (by apply H2); lia].
      destruct p as [st []]; unfold payloadOk in H3; simpl in *; subst; done.
    - assert (Hl : p_status p = (-1)%Z <-> p = lazy).
      { split; [|by intros ->]. destruct p as [st []]; unfold payloadOk in H3; simpl in *; subst; done. }
      destruct ev; simpl.
      + pose proof (read_spec ctor p w1 H3) as E.
        destruct (Z.eqb_spec (p_status p) (-1)) as [Es|Es].
        * apply Hl in Es as ->. simpl in E. rewrite E. destruct (Hctor w1) as ([promise im] & w2 & ->).
          by destruct im as [[?|?]|].
        * destruct p as [st []]; unfold payloadOk in H3; simpl in *; subst; try done; rewrite E; done.
      + destruct (Z.eqb_spec (p_status p) (-1)) as [Es|Es]; [done|].
        rewrite H2, <- Hl. split; [done|]. unfold onSettled. intros E. exfalso. revert E.
        case_match; [|by intros E; apply Hl in E]. by destruct settlement. }
  destruct (fold_left (lazyStep ctor) evs (lazy, w, 0)) as [[p w'] calls].
  destruct Inv as (H1 & H2 & H3). simpl in *. split; [done|]. split; [done|]. split; [done|]. split.
  - intros later Hp. induction later as [|ev later IH]; [done|].
    change (fold_left (lazyStep ctor) later (lazyStep ctor (p, w', calls) ev) = (p, w', calls)).
    assert (E : lazyStep ctor (p, w', calls) ev = (p, w', calls)); [|by rewrite E].
    pose proof (read_spec ctor p w' H3) as E. destruct p as [st []]; unfold payloadOk in H3; simpl in *;
      subst; try done; destruct ev; simpl; by rewrite ?E.
  - intros promise Hp. pose proof (read_spec ctor p w' H3) as E. rewrite Hp in E. rewrite E.
    split; [done|]. intros settlement. unfold payloadOk in H3. rewrite Hp in H3.
    simpl. rewrite H3. simpl. unfold onSettled. rewrite H3. simpl.
    eexists. split; [done|]. by destruct settlement.
Qed.
End Lazy.
Arguments payload A : clear implicits.

(** ** Wrapped types *)

(** The wrappers and contexts are valid element types. *)
Lemma wrappers_valid (heap : ref -> jsobject) r :
  (exists type compare, heap r = memo type compare) \/ (exists render, heap r = forwardRef render)
  \/ (exists p, heap r = lazyType p) \/ (exists v consumer, heap r = createContext v r consumer)
  \/ (exists context, heap r = contextConsumer context) ->
  isValidElementType heap (VObj r) = Ok true.
Proof. intros [(?&?&E)|[(?&E)|[(?&E)|[(?&?&E)|(?&E)]]]]; unfold isValidElementType; rewrite E; done. Qed.

Definition slowLoader : loader (A := nat) (W := unit) := fun w => (Ok (User 1, None), w).
Lemma lazy_loads_once_witness :
  let s := fold_left (lazyStep slowLoader) [Read; Read] (lazy, tt, 0) in
  snd s <= 1
  /\ exists p', lazyStep slowLoader s (Settled (inl 5)) = (p', tt, 1)
       /\ fst (lazyInitializerProduction slowLoader p' tt) = Ok 5.
Proof.
  pose proof (lazy_loads_once slowLoader [Read; Read] tt (fun w => ex_intro _ _ (ex_intro _ _ eq_refl))) as H.
  simpl in H. destruct H as (H1 & _ & _ & _ & H5). split; [exact H1|].
  exact (proj2 (H5 (User 1) eq_refl) (inl 5)).
Defined.
