(* ===== verification/ReactHooks.v ===== *)
(** * Hooks, transitions and component classes (react/hook-dispatcher.js, react/transition.js, react/component-class.js)

    The public hooks only forward: they look up the current dispatcher, require that it was
    marked for their kind of hook, and call its function. The seven kinds have functions of
    the same text in the source; here the kind is an argument. The kinds' metadata are frozen
    module constants that the code compares with [===] before it compares their fields with
    themselves, so the identity decides; they are named references.

    The objects of the program and its functions are parameters: a function may do anything
    to the world, setting the dispatcher, marking others and changing objects included. *)
From S2P Require Import Prelude JsValue DomHost.

(** ** Kinds of hooks *)

Inductive hookKind : Type :=
| StateHook | CallbackHook | MemoHook | RefHook | ContextHook | EffectHook | TransitionHook.
#[export] Instance hookKind_eq_dec : EqDecision hookKind.
Proof. solve_decision. Defined.

Definition effectHookNames : list string :=
  ["useEffect"; "useImperativeHandle"; "useInsertionEffect"; "useLayoutEffect"].
Definition transitionHookNames : list string := ["useDeferredValue"; "useTransition"].

(** The functions that a dispatcher of a kind must have, and the hook that errors name when
    the dispatcher is no object or the metadata is not the kind's. *)
Definition kindHookNames (k : hookKind) : list string :=
  match k with
  | StateHook => ["useReducer"; "useState"]
  | CallbackHook => ["useCallback"]
  | MemoHook => ["useMemo"]
  | RefHook => ["useRef"]
  | ContextHook => ["useContext"]
  | EffectHook => effectHookNames
  | TransitionHook => transitionHookNames
  end.
Definition kindErrorName (k : hookKind) : string :=
  match k with
  | StateHook => "useState"
  | CallbackHook => "useCallback"
  | MemoHook => "useMemo"
  | RefHook => "useRef"
  | ContextHook => "useContext"
  | EffectHook => "useEffect"
  | TransitionHook => "useTransition"
  end.

Definition privateHookDispatcherMetadata (k : hookKind) : value :=
  VObj (Builtin ("private metadata of " +:+ kindErrorName k)).

(** [None] for null. *)
Definition getEffectHookMetadata (hookName : string) : option value :=
  if bool_decide (hookName ∈ effectHookNames) then Some (VObj (Builtin ("effect metadata of " +:+ hookName)))
  else None.

(** An error is its code and the hook that it names. *)
Definition invalidHookCallErrorCode := "FAST_REACT_INVALID_HOOK_CALL".
Definition createInvalidHookCallError (hookName : string) : error :=
  HostError (invalidHookCallErrorCode +:+ ":" +:+ hookName).
Definition createMissingPrivateStateHookDispatcherError (hookName : string) : error :=
  HostError ("FAST_REACT_UNIMPLEMENTED:" +:+ hookName).
Definition createUnsupportedPrivateTransitionCallbackError : error :=
  HostError "FAST_REACT_UNSUPPORTED_TRANSITION_CALLBACK:useTransition".

Definition kindError (k : hookKind) (hookName : string) : error :=
  match k with
  | StateHook => createMissingPrivateStateHookDispatcherError hookName
  | _ => createInvalidHookCallError hookName
  end.

(** ** State *)

(** [ReactSharedInternals.H], the WeakSets and the WeakMaps. *)
Record hooks : Type := mkHooks {
  currentDispatcher : value;
  privateHookDispatchers : list (hookKind * ref);
  privateHookDispatcherMetadataByDispatcher : list (hookKind * ref * value) }.

Definition noHooks : hooks := mkHooks VNull [] [].

Section Hooks.
Context {U : Type}.
Record hookWorld : Type := mkHookWorld { user : U; hookState : hooks }.
Context (objects : U -> ref -> jsobject).
Context (callFunction : ref -> value -> list value -> hookWorld -> effect hookWorld value).

(** [dispatcher[name]] for the name of a hook, which no prototype of a primitive has. *)
Definition readHook (w : hookWorld) (dispatcher : value) (name : string) : res value :=
  match dispatcher with
  | VObj r | VFun r => get (objects (user w) r) name
  | _ => Ok VUndef
  end.

(** The getter and the setter of [ReactCurrentDispatcher.current]. *)
Definition getCurrentDispatcher (w : hookWorld) : value := currentDispatcher (hookState w).
Definition setCurrentDispatcher (dispatcher : value) (w : hookWorld) : hookWorld :=
  let s := hookState w in
  mkHookWorld (user w) (mkHooks dispatcher (privateHookDispatchers s) (privateHookDispatcherMetadataByDispatcher s)).

(** ** Marked dispatchers *)

Definition isPrivateHookDispatcherMetadata (k : hookKind) (metadata : value) : bool :=
  strictEq metadata (privateHookDispatcherMetadata k).
Definition validatePrivateHookDispatcherMetadata (k : hookKind) (metadata : value) : res unit :=
  if isPrivateHookDispatcherMetadata k metadata then Ok tt else Throw (kindError k (kindErrorName k)).

Definition objectRef (v : value) : option ref :=
  match v with VObj r | VFun r => Some r | _ => None end.

Definition metadataOf (s : hooks) (k : hookKind) (r : ref) : option value :=
  snd <$> List.find (fun x => bool_decide (fst x = (k, r))) (privateHookDispatcherMetadataByDispatcher s).

Definition isPrivateHookDispatcher (k : hookKind) (w : hookWorld) (dispatcher : value) : bool :=
  match objectRef dispatcher with
  | Some r =>
      bool_decide ((k, r) ∈ privateHookDispatchers (hookState w))
      && match metadataOf (hookState w) k r with Some _ => true | None => false end
  | None => false
  end.

Definition getPrivateHookDispatcherMetadata (k : hookKind) (w : hookWorld) (dispatcher : value) : value :=
  match objectRef dispatcher with
  | Some r =>
      if isPrivateHookDispatcher k w dispatcher then default VUndef (metadataOf (hookState w) k r) else VNull
  | None => VNull
  end.

(** The loop over the names of the kind. *)
Fixpoint requireHooks (k : hookKind) (w : hookWorld) (dispatcher : value) (names : list string) : res unit :=
  match names with
  | [] => Ok tt
  | name :: names =>
      let* hook := readHook w dispatcher name in
      if isFunction hook then requireHooks k w dispatcher names else Throw (kindError k name)
  end.

Definition validatePrivateHookDispatcher (k : hookKind) (w : hookWorld) (dispatcher metadata : value) : res unit :=
  match objectRef dispatcher with
  | None => Throw (kindError k (kindErrorName k))
  | Some _ =>
      let* _ := requireHooks k w dispatcher (kindHookNames k) in
      validatePrivateHookDispatcherMetadata k metadata
  end.

Definition markPrivateHookDispatcher (k : hookKind) (dispatcher metadata : value) (w : hookWorld)
    : effect hookWorld value :=
  do* _, w := pureStep (validatePrivateHookDispatcher k w dispatcher metadata) w in
  match objectRef dispatcher with
  | None => (Ok dispatcher, w)
  | Some r =>
      let s := hookState w in
      (Ok dispatcher,
       mkHookWorld (user w)
         (mkHooks (currentDispatcher s) ((k, r) :: privateHookDispatchers s)
            ((k, r, privateHookDispatcherMetadata k) :: privateHookDispatcherMetadataByDispatcher s)))
  end.

(** ** Calls *)

Definition resolveDispatcher (w : hookWorld) (hookName : string) : res value :=
  let dispatcher := currentDispatcher (hookState w) in
  if nullish dispatcher then Throw (createInvalidHookCallError hookName) else Ok dispatcher.

Definition getDispatcherHook (w : hookWorld) (dispatcher : value) (hookName : string) : res ref :=
  let* hook := readHook w dispatcher hookName in
  match hook with VFun f => Ok f | _ => Throw (createInvalidHookCallError hookName) end.

(** The names that the lookup of a kind admits; those of the state and context hooks are
    not tested. *)
Definition admitsHookName (k : hookKind) (hookName : string) : bool :=
  match k with
  | CallbackHook => bool_decide (hookName = "useCallback")
  | MemoHook => bool_decide (hookName = "useMemo")
  | RefHook => bool_decide (hookName = "useRef")
  | EffectHook => match getEffectHookMetadata hookName with Some _ => true | None => false end
  | _ => true
  end.

Definition getPrivateDispatcherHook (k : hookKind) (w : hookWorld) (dispatcher : value) (hookName : string)
    : res ref :=
  if admitsHookName k hookName && isPrivateHookDispatcher k w dispatcher then
    let* hook := readHook w dispatcher hookName in
    match hook with VFun f => Ok f | _ => Throw (kindError k hookName) end
  else Throw (kindError k hookName).

(** What the kind adds to the arguments. *)
Definition createPrivateHookArgs (k : hookKind) (hookName : string) (args : list value) : list value :=
  match k with
  | CallbackHook | MemoHook | RefHook => args ++ [privateHookDispatcherMetadata k]
  | EffectHook => args ++ [default VNull (getEffectHookMetadata hookName)]
  | _ => args
  end.

Definition callPrivateDispatcherHook (k : hookKind) (hookName : string) (args : list value) (w : hookWorld)
    : effect hookWorld value :=
  do* dispatcher, w := pureStep (resolveDispatcher w hookName) w in
  do* hook, w := pureStep (getPrivateDispatcherHook k w dispatcher hookName) w in
  callFunction hook dispatcher (createPrivateHookArgs k hookName args) w.

(** The kind that [callDispatcherHook] routes a name to. *)
Definition routeHook (hookName : string) : option hookKind :=
  if bool_decide (hookName = "useCallback") then Some CallbackHook
  else if bool_decide (hookName = "useMemo") then Some MemoHook
  else if bool_decide (hookName = "useRef") then Some RefHook
  else if bool_decide (hookName = "useReducer") || bool_decide (hookName = "useState") then Some StateHook
  else if bool_decide (hookName = "useContext") then Some ContextHook
  else match getEffectHookMetadata hookName with Some _ => Some EffectHook | None => None end.

Definition callDispatcherHook (hookName : string) (args : list value) (w : hookWorld) : effect hookWorld value :=
  match routeHook hookName with
  | Some k => callPrivateDispatcherHook k hookName args w
  | None =>
      do* dispatcher, w := pureStep (resolveDispatcher w hookName) w in
      do* hook, w := pureStep (getDispatcherHook w dispatcher hookName) w in
      callFunction hook dispatcher args w
  end.

(** The constant fields are left out. *)
Record transitionRouting : Type := mkRouting {
  rt_dispatcher : value;
  rt_action : value;
  rt_actionName : value;
  rt_actionLength : value;
  rt_metadata : value }.

Definition recordPrivateStartTransitionDispatcherRouting (callback metadata : value) (w : hookWorld)
    : res transitionRouting :=
  let* dispatcher := resolveDispatcher w "useTransition" in
  if isPrivateHookDispatcher TransitionHook w dispatcher then
    let* _ := validatePrivateHookDispatcherMetadata TransitionHook metadata in
    match callback with
    | VFun r =>
        let* name := get (objects (user w) r) "name" in
        let* length := get (objects (user w) r) "length" in
        Ok (mkRouting dispatcher callback name length metadata)
    | _ => Throw createUnsupportedPrivateTransitionCallbackError
    end
  else Throw (createInvalidHookCallError "useTransition").

(** ** The public hooks *)

Definition use := callDispatcherHook "use".
Definition useCallback := callPrivateDispatcherHook CallbackHook "useCallback".
Definition useContext := callPrivateDispatcherHook ContextHook "useContext".
Definition useEffect := callPrivateDispatcherHook EffectHook "useEffect".
Definition useImperativeHandle := callPrivateDispatcherHook EffectHook "useImperativeHandle".
Definition useInsertionEffect := callPrivateDispatcherHook EffectHook "useInsertionEffect".
Definition useLayoutEffect := callPrivateDispatcherHook EffectHook "useLayoutEffect".
Definition useMemo := callPrivateDispatcherHook MemoHook "useMemo".
Definition useReducer := callPrivateDispatcherHook StateHook "useReducer".
Definition useRef := callPrivateDispatcherHook RefHook "useRef".
Definition useState := callPrivateDispatcherHook StateHook "useState".
End Hooks.
Arguments hookWorld U : clear implicits.
