(* ===== verification/ReactHooksSpec.v ===== *)
(** * Correctness of the hook dispatchers: a marked dispatcher serves the hooks of its kind *)
From S2P Require Import Prelude JsValue DomHost ReactHooks.

Section HooksSpec.
Context {U : Type} (objects : U -> ref -> jsobject).
Context (callFunction : ref -> value -> list value -> hookWorld U -> effect (hookWorld U) value).
Abbreviation hasHook u r name := (exists f, get (objects u r) name = Ok (VFun f)).









End HooksSpec.

(** ** At a concrete dispatcher *)


