(* ===== verification/ReactTransition.v ===== *)
(** * Transitions and component classes (react/transition.js, react/component-class.js)

    [startTransition] keeps how deep it is nested in [transitionDepth]; the scope is a
    function of the program and may do anything, starting transitions included. Errors go
    to [reportGlobalError], whose ways of reporting belong to the host. The component
    classes hand updates to their updater; without one, to a queue that only warns. *)
From S2P Require Import Prelude JsValue DomHost.

(** ** Transitions *)

(** What the host has for a global error; an operation may throw. *)
Class ErrorHost (U : Type) : Type := {
  reportErrorIsFunction : U -> bool;
  callReportError : error -> U -> effect U unit;
  errorEventIsFunction : U -> bool;
  (** [window.dispatchEvent] of a new [ErrorEvent] with the message *)
  dispatchErrorEvent : error -> string -> U -> effect U bool;
  processEmitIsFunction : U -> bool;
  callProcessEmit : error -> U -> effect U unit;
  callConsoleError : error -> U -> effect U unit;
  (** the message of an error of the engine or of the packages *)
  errorMessage : error -> string }.

Section Transitions.
Context {U : Type} `{!ErrorHost U} (heap : ref -> jsobject).
(** [thenable.then(noop, reportGlobalError)] *)
Context (callThen : ref -> U -> effect U unit).

Record transitionWorld : Type := mkTransitionWorld { transitionDepth : Z; outer : U }.

Definition isTransitionBatchActive (w : transitionWorld) : bool := (0 <? transitionDepth w)%Z.

(** A step on the part of the world that the module does not hold. *)
Definition lift {A : Type} (f : U -> effect U A) (w : transitionWorld) : effect transitionWorld A :=
  let '(r, u) := f (outer w) in (r, mkTransitionWorld (transitionDepth w) u).

Definition globalErrorMessage (e : error) : res string :=
  match e with
  | Thrown (VObj r) =>
      let* message := get (heap r) "message" in
      match message with VStr s => Ok s | _ => toStringRes heap (VObj r) end
  | Thrown v => toStringRes heap v
  | _ => Ok (errorMessage e)
  end.

Definition reportGlobalError (e : error) (u : U) : effect U unit :=
  if reportErrorIsFunction u then callReportError e u
  else if errorEventIsFunction u then
    do* message, u := pureStep (globalErrorMessage e) u in
    do* shouldLog, u := dispatchErrorEvent e message u in
    if shouldLog then callConsoleError e u else (Ok tt, u)
  else if processEmitIsFunction u then callProcessEmit e u
  else callConsoleError e u.

(** [returnValue.then(noop, reportGlobalError)] for a thenable. *)
Definition followThenable (returnValue : value) (w : transitionWorld) : effect transitionWorld unit :=
  match returnValue with
  | VObj r =>
      do* then_, w := pureStep (get (heap r) "then") w in
      if isFunction then_ then lift (callThen r) w else (Ok tt, w)
  | _ => (Ok tt, w)
  end.

Definition startTransition (scope : transitionWorld -> effect transitionWorld value) (w : transitionWorld)
    : effect transitionWorld unit :=
  let previousTransitionDepth := transitionDepth w in
  let w := mkTransitionWorld (previousTransitionDepth + 1) (outer w) in
  let '(r, w) :=
    match (do* returnValue, w := scope w in followThenable returnValue w) with
    | (Ok _, w) => (Ok tt, w)
    | (Throw e, w) => lift (reportGlobalError e) w
    end in
  (r, mkTransitionWorld previousTransitionDepth (outer w)).
End Transitions.
Arguments transitionWorld U : clear implicits.

(** ** Component classes *)

Section Components.
Context {U : Type} (heap : ref -> jsobject) (isDevelopment : bool).
(** The methods of an updater, for an instance: [enqueueSetState], [enqueueForceUpdate]. *)
Context (callEnqueueSetState : value -> ref -> value -> value -> U -> effect U unit).
Context (callEnqueueForceUpdate : value -> ref -> value -> U -> effect U unit).

(** The map of warnings given, and the warnings: the method and the component. *)
Record classWorld : Type := mkClassWorld {
  didWarnStateUpdateForUnmountedComponent : list string;
  warnings : list (string * value);
  classUser : U }.

(** A [displayName] or [name] that is falsy is passed over; [constructor] may be nullish. *)
Definition componentNameOf (publicInstance : ref) : res value :=
  let* constructor := get (heap publicInstance) "constructor" in
  match constructor with
  | VFun c | VObj c =>
      let* displayName := get (heap c) "displayName" in
      if truthy displayName then Ok displayName
      else
        let* name := get (heap c) "name" in
        Ok (if truthy name then name else VStr "ReactClass")
  | _ => Ok (VStr "ReactClass")
  end.

(** A symbol in a template literal throws. *)
Definition templateString (v : value) : res string :=
  match v with
  | VSym _ _ => Throw (TypeError "Cannot convert a Symbol value to a string")
  | _ => toStringRes heap v
  end.

Definition warnNoop (publicInstance : ref) (callerName : string) (w : classWorld) : effect classWorld unit :=
  do* componentName, w := pureStep (componentNameOf publicInstance) w in
  do* name, w := pureStep (templateString componentName) w in
  let warningKey := name +:+ "." +:+ callerName in
  if bool_decide (warningKey ∈ didWarnStateUpdateForUnmountedComponent w) then (Ok tt, w)
  else (Ok tt, mkClassWorld (warningKey :: didWarnStateUpdateForUnmountedComponent w)
                 (warnings w ++ [(callerName, componentName)]) (classUser w)).

(** [ReactNoopUpdateQueue] *)
Inductive updater : Type :=
| ReactNoopUpdateQueue
| Updater (v : value).

Definition noopMethod (publicInstance : ref) (callerName : string) (w : classWorld) : effect classWorld unit :=
  if isDevelopment then warnNoop publicInstance callerName w else (Ok tt, w).
Definition noopIsMounted : bool := false.

(** [refs] is always the same empty object. *)
Record componentInstance : Type := mkInstance {
  ci_object : ref;
  ci_props : value;
  ci_context : value;
  ci_updater : updater }.

Definition Component (object : ref) (props context upd : value) : componentInstance :=
  mkInstance object props context (if truthy upd then Updater upd else ReactNoopUpdateQueue).
Definition PureComponent (object : ref) (props context upd : value) : componentInstance :=
  mkInstance object props context (if truthy upd then Updater upd else ReactNoopUpdateQueue).

Definition liftClass (f : U -> effect U unit) (w : classWorld) : effect classWorld unit :=
  let '(r, u) := f (classUser w) in
  (r, mkClassWorld (didWarnStateUpdateForUnmountedComponent w) (warnings w) u).

Definition setStateMessage :=
  "takes an object of state variables to update or a function which returns an object of state variables.".

Definition validPartialState (v : value) : bool :=
  match v with VObj _ | VFun _ | VNull | VUndef => true | _ => false end.

Definition setState (i : componentInstance) (partialState callback : value) (w : classWorld) : effect classWorld unit :=
  if validPartialState partialState then
    match ci_updater i with
    | ReactNoopUpdateQueue => noopMethod (ci_object i) "setState" w
    | Updater u => liftClass (callEnqueueSetState u (ci_object i) partialState callback) w
    end
  else (Throw (PlainError setStateMessage), w).

Definition forceUpdate (i : componentInstance) (callback : value) (w : classWorld) : effect classWorld unit :=
  match ci_updater i with
  | ReactNoopUpdateQueue => noopMethod (ci_object i) "forceUpdate" w
  | Updater u => liftClass (callEnqueueForceUpdate u (ci_object i) callback) w
  end.
End Components.
Arguments classWorld U : clear implicits.
