(* ===== verification/ReactTransitionSpec.v ===== *)
(** * Correctness of transitions and component classes *)
From S2P Require Import Prelude JsValue DomHost ReactTransition.

(** ** The depth of transitions is how deep their calls are nested *)

(** A scope: it ends with a value or an exception, looks at the depth (of which
    [isTransitionBatchActive] is the sign), or runs another scope in a transition. *)
Inductive script : Type :=
| Return (r : res value)
| Observe (k : script)
| Nested (inner k : script).

Section Transitions.
Context {U : Type} `{!ErrorHost U} (heap : ref -> jsobject) (callThen : ref -> U -> effect U unit).
(** What the program does with a depth it looks at. *)
Context (observe : Z -> U -> U).

Fixpoint runScript (s : script) (w : transitionWorld U) : effect (transitionWorld U) value :=
  match s with
  | Return r => (r, w)
  | Observe k => runScript k (mkTransitionWorld (transitionDepth w) (observe (transitionDepth w) (outer w)))
  | Nested inner k => do* _, w := startTransition heap callThen (runScript inner) w in runScript k w
  end.

(** The reference: no variable, each scope is told its depth. *)
Definition settleValue (v : value) (u : U) : effect U unit :=
  match v with
  | VObj r =>
      match get (heap r) "then" with
      | Ok (VFun _) => callThen r u
      | Ok _ => (Ok tt, u)
      | Throw e => (Throw e, u)
      end
  | _ => (Ok tt, u)
  end.
Definition settle (r : res value) (u : U) : effect U unit :=
  match (match r with Ok v => settleValue v u | Throw e => (Throw e, u) end) with
  | (Ok _, u) => (Ok tt, u)
  | (Throw e, u) => reportGlobalError heap e u
  end.
Fixpoint lexical (s : script) (depth : Z) (u : U) : effect U value :=
  match s with
  | Return r => (r, u)
  | Observe k => lexical k depth (observe depth u)
  | Nested inner k =>
      let '(r, u) := lexical inner (depth + 1) u in
      do* _, u := settle r u in lexical k depth u
  end.

Lemma followThenable_settle v w :
  followThenable heap callThen v w = let '(r, u) := settleValue v (outer w) in (r, mkTransitionWorld (transitionDepth w) u).
Proof.
  destruct w as [depth u]. unfold followThenable, settleValue, lift. simpl.
  destruct v as [| | | | | | | |x]; try done. destruct (get (heap x) "then") as [[]|e]; done.
Qed.

(** A transition restores the depth whatever happens in it, and hands what its scope ended
    with to the error reporting and to nothing else. *)
Lemma startTransition_settle scope w :
  startTransition heap callThen scope w
  = let '(r, w1) := scope (mkTransitionWorld (transitionDepth w + 1) (outer w)) in
    let '(r, u) := settle r (outer w1) in (r, mkTransitionWorld (transitionDepth w) u).
Proof.
  unfold startTransition. destruct (scope _) as [[v|e] w1]; cbn [andThen settle].
  - rewrite followThenable_settle. unfold settle. destruct (settleValue v (outer w1)) as [[[]|e] u]; [done|].
    unfold lift. cbn [outer]. by destruct (reportGlobalError heap e u).
  - unfold settle, lift. by destruct (reportGlobalError heap e (outer w1)).
Qed.

(** C39: the module variable is lexical scoping. However transitions are nested, whatever they
    return, and whichever of them throw, in their scope, in reading or calling [then] or in
    the error reporting, a program behaves as if each scope were told its own depth: the
    depth it sees is the number of transitions around it, and the depth after it is the one
    before. *)
Theorem transition_depth_lexical s depth u :
  runScript s (mkTransitionWorld depth u)
  = let '(r, u') := lexical s depth u in (r, mkTransitionWorld depth u').
Proof.
  revert depth u. induction s as [r|k IH|inner IHi k IHk]; intros depth u; simpl; [done|by rewrite IH|].
  rewrite startTransition_settle. simpl. rewrite IHi. destruct (lexical inner (depth + 1) u) as [r u1]. cbn [outer].
  destruct (settle r u1) as [[[]|e] u2]; cbn [andThen]; [apply IHk|done].
Qed.
End Transitions.

(** ** Warnings of components that are not mounted *)

Section Components.
Context {U : Type} (heap : ref -> jsobject).
Context (callEnqueueSetState : value -> ref -> value -> value -> U -> effect U unit).
Context (callEnqueueForceUpdate : value -> ref -> value -> U -> effect U unit).

Definition updateCall : Type := (componentInstance * option value * value)%type.

(** [setState] when there is a partial state, [forceUpdate] otherwise. *)
Definition runUpdate (development : bool) (c : updateCall) (w : classWorld U) : effect (classWorld U) unit :=
  let '(i, state, callback) := c in
  match state with
  | Some s => setState heap development callEnqueueSetState i s callback w
  | None => forceUpdate heap development callEnqueueForceUpdate i callback w
  end.
Definition runUpdates (development : bool) (calls : list updateCall) (w : classWorld U) : classWorld U :=
  foldl (fun w c => snd (runUpdate development c w)) w calls.

Definition methodOf (c : updateCall) : string := match c with (_, Some _, _) => "setState" | _ => "forceUpdate" end.
Definition reachesUpdater (c : updateCall) : bool := match c with (_, Some s, _) => validPartialState s | _ => true end.

(** The key that a call warns under. *)
Definition warningKeyOf (c : updateCall) : option string :=
  let '(i, _, _) := c in
  match (let* name := componentNameOf heap (ci_object i) in templateString heap name) with
  | Ok name => if reachesUpdater c then Some (name +:+ "." +:+ methodOf c) else None
  | Throw _ => None
  end.

Lemma runUpdate_noop development c w : ci_updater (fst (fst c)) = ReactNoopUpdateQueue ->
  let w' := snd (runUpdate development c w) in
  classUser w' = classUser w
  /\ match warningKeyOf c with
     | Some key =>
         if development && negb (bool_decide (key ∈ didWarnStateUpdateForUnmountedComponent w))
         then didWarnStateUpdateForUnmountedComponent w' = key :: didWarnStateUpdateForUnmountedComponent w
              /\ exists x, warnings w' = warnings w ++ [x]
         else w' = w
     | None => w' = w
     end.
Proof.
  destruct c as [[i state] callback]. simpl. intros Hi. unfold setState, forceUpdate, noopMethod, warnNoop. rewrite Hi.
  destruct state as [s|]; [destruct (validPartialState s)|]; destruct development;
    destruct (componentNameOf heap (ci_object i)) as [name|e]; try done; simpl;
    destruct (templateString heap name) as [x|e]; try done; simpl; case_bool_decide; try done; simpl; eauto.
Qed.

(** components without an updater warn once. Over any sequence of updates of such
    components, in development each pair of a component name and a method is warned of
    exactly once when a call reaches the queue, with one warning per pair; calls with an
    invalid partial state do not reach it, nothing else of the program changes, and in
    production nothing changes at all. *)
Theorem noop_updates_warn_once development calls w :
  (forall c, c ∈ calls -> ci_updater (fst (fst c)) = ReactNoopUpdateQueue) ->
  NoDup (didWarnStateUpdateForUnmountedComponent w) ->
  let w' := runUpdates development calls w in
  classUser w' = classUser w /\ (development = false -> w' = w)
  /\ NoDup (didWarnStateUpdateForUnmountedComponent w')
  /\ (development = true -> forall key, key ∈ didWarnStateUpdateForUnmountedComponent w'
        <-> key ∈ didWarnStateUpdateForUnmountedComponent w \/ exists c, c ∈ calls /\ warningKeyOf c = Some key)
  /\ length (warnings w') + length (didWarnStateUpdateForUnmountedComponent w)
     = length (warnings w) + length (didWarnStateUpdateForUnmountedComponent w').
Proof.
  revert w. induction calls as [|c calls IH]; intros w Hc Hn; simpl.
  - split_and!; try done; try lia. intros _ key. split; [by left|]. intros [?|(c & Hin & _)]; [done|by apply elem_of_nil in Hin].
  - pose proof (runUpdate_noop development c w (Hc c (list_elem_of_here _ _))) as [Hu H].
    set (w1 := snd (runUpdate development c w)) in *.
    assert (Hn1 : NoDup (didWarnStateUpdateForUnmountedComponent w1)).
    { destruct (warningKeyOf c) as [key|]; [|by rewrite H]. destruct development; [|by rewrite H].
      case_bool_decide as E; simpl in H; [by rewrite H|]. destruct H as [-> _]. by constructor. }
    destruct (IH w1 (fun c' Hin => Hc c' (list_elem_of_further _ _ _ Hin)) Hn1) as (I1 & I2 & I3 & I4 & I5).
    split_and!; [congruence| |done| |].
    + intros ->. rewrite I2 by done. destruct (warningKeyOf c); exact H.
    + intros Hd key. rewrite I4 by done. subst development. simpl in H.
      assert (Hkey : key ∈ didWarnStateUpdateForUnmountedComponent w1
        <-> key ∈ didWarnStateUpdateForUnmountedComponent w \/ warningKeyOf c = Some key).
      { destruct (warningKeyOf c) as [x|]; [|rewrite H; naive_solver]. case_bool_decide as E; simpl in H; [rewrite H; naive_solver|].
        destruct H as [-> _]. rewrite elem_of_cons. naive_solver. }
      rewrite Hkey. split.
      * intros [[?|?]|(c' & ? & ?)]; [by left|right; exists c; by repeat constructor|right; exists c'; split; [by right|done]].
      * intros [?|(c' & [->|?]%elem_of_cons & ?)]; eauto.
    + destruct (warningKeyOf c) as [x|]; [|rewrite H in *; lia]. destruct development; simpl in H; [|rewrite H in *; lia].
      case_bool_decide as E; simpl in H; [rewrite H in *; lia|]. destruct H as [E1 [y E2]]. rewrite E1, E2 in I5.
      rewrite length_app in I5. simpl in I5. lia.
Qed.
End Components.

(** ** At concrete inputs *)

Definition classHeap (r : ref) : jsobject :=
  match r with
  | User 1 => literal [("constructor", VFun (User 2))]
  | User 2 => literal [("name", VStr "Clock")]
  | _ => literal []
  end.
Definition clock : componentInstance := Component (User 1) VNull VNull VUndef.

Lemma noop_updates_warn_once_witness :
  length (warnings (runUpdates (U := unit) classHeap (fun _ _ _ _ u => (Ok tt, u)) (fun _ _ _ u => (Ok tt, u)) true
    [(clock, Some VNull, VUndef); (clock, None, VUndef); (clock, Some VUndef, VUndef)] (mkClassWorld [] [] tt))) = 2.
Proof.
  destruct (noop_updates_warn_once (U := unit) classHeap (fun _ _ _ _ u => (Ok tt, u)) (fun _ _ _ u => (Ok tt, u)) true
    [(clock, Some VNull, VUndef); (clock, None, VUndef); (clock, Some VUndef, VUndef)] (mkClassWorld [] [] tt))
    as (_ & _ & _ & _ & H).
  - intros c Hc. repeat (apply elem_of_cons in Hc as [->|Hc]; [reflexivity|]). by apply elem_of_nil in Hc.
  - constructor.
  - vm_compute in H. vm_compute. exact H.
Defined.
